(** * CRE-Tycoon: a shallow embedding of the simulation engine

    The development follows the repository file by file:

    - [Utils]     engine/utils.js     ([clamp]) and the JavaScript number model
    - [Rng]       engine/rng.js       (the seeded generator, as an interface)
    - [Property]  engine/property.js  (NOI, valuation, debt service, DSCR)
    - [Market]    engine/market.js    (yearly market / neighborhood updates, events)
    - [Deals]     engine/deals.js     ([solveIRR], [underwriteDeal])
    - [Binary64]  engine/deals.js     ([solveIRR] on binary64 numbers)
    - [Tycoon]    ui/tycoon-ui.js     (run state, player commands, yearly advance)

    Number model.  JavaScript numbers are IEEE-754 doubles.  The engine is
    embedded over exact rationals [Q]: rounding, overflow and underflow are
    not represented.  Where the source tests for or returns a special value
    ([NaN], [Infinity], [isFinite]) the embedding uses [Utils.jsnum], the
    rationals extended with the three special values and the IEEE rules for
    them.  Elsewhere a quotient is the rational quotient, which is the
    source's whenever the divisor is not zero; the one unguarded divisor of
    the engine, [1 - expenseRatio] in [computeNOI], is excluded by hypothesis
    where a statement depends on the value of the quotient.  Integer-valued
    quantities (years, lease terms, renovation levels, amortisation periods)
    are [Z].  Equality of computed rationals is [Qeq] ([==]); a value that the
    code stores unchanged is compared with [=].

    The tests of [solveIRR] are decided by rounding (a product that
    underflows, a power that overflows), so the solver is also embedded over
    binary64 numbers, in [Binary64]; what is stated about the solver itself is
    stated there.  [Deals.solveIRR] is its exact-arithmetic reading, through
    which [underwriteDeal] reports the IRR. *)

From Stdlib Require Import QArith Qminmax Qround Qabs Qpower Lqa.
From Stdlib Require Import ZArith Lia Bool List String Ascii DecimalString.
From Stdlib Require Floats.
Import ListNotations.

Set Implicit Arguments.
Local Open Scope Q_scope.

(* ================================================================== *)
(** * engine/utils.js and the number model                             *)
(* ================================================================== *)

Module Utils.

(** [a < b] and [a <= b] on finite numbers, as booleans. *)
Definition Qleb (a b : Q) : bool := Qle_bool a b.
Definition Qltb (a b : Q) : bool := negb (Qle_bool b a).

(** [clamp(x, lo, hi) = Math.max(lo, Math.min(hi, x))]. *)
Definition clamp (x lo hi : Q) : Q := Qmax lo (Qmin hi x).

(** [Math.floor] and [Math.round] (round half up: [floor(x + 0.5)]). *)
Definition floor (x : Q) : Z := Qfloor x.
Definition round (x : Q) : Z := Qfloor (x + 0.5).

(** [Math.pow(b, e)] for an integer exponent. *)
Definition pow (b : Q) (e : Z) : Q := Qpower b e.

(** Decimal rendering of an integer inside a template string. *)
Definition showZ (z : Z) : string := NilZero.string_of_int (Z.to_int z).

(** A JavaScript number that may be special. *)
Inductive jsnum : Type :=
| Fin (q : Q)
| PInf
| NInf
| NaN.

Definition isFinite (x : jsnum) : bool :=
  match x with Fin _ => true | _ => false end.

(** Sign of a finite number: [Gt], [Eq] or [Lt] against 0. *)
Definition sgn (q : Q) : comparison := Qcompare q 0.

Definition js_neg (x : jsnum) : jsnum :=
  match x with
  | Fin q => Fin (- q)
  | PInf => NInf
  | NInf => PInf
  | NaN => NaN
  end.

Definition js_add (x y : jsnum) : jsnum :=
  match x, y with
  | NaN, _ | _, NaN => NaN
  | Fin a, Fin b => Fin (a + b)
  | PInf, NInf | NInf, PInf => NaN
  | PInf, _ | _, PInf => PInf
  | NInf, _ | _, NInf => NInf
  end.

(** An infinity scaled by a finite factor. *)
Definition inf_times (pos : bool) (q : Q) : jsnum :=
  match sgn q with
  | Eq => NaN
  | Gt => if pos then PInf else NInf
  | Lt => if pos then NInf else PInf
  end.

Definition js_mul (x y : jsnum) : jsnum :=
  match x, y with
  | NaN, _ | _, NaN => NaN
  | Fin a, Fin b => Fin (a * b)
  | PInf, Fin b => inf_times true b
  | NInf, Fin b => inf_times false b
  | Fin a, PInf => inf_times true a
  | Fin a, NInf => inf_times false a
  | PInf, PInf | NInf, NInf => PInf
  | PInf, NInf | NInf, PInf => NInf
  end.

Definition js_div (x y : jsnum) : jsnum :=
  match x, y with
  | NaN, _ | _, NaN => NaN
  | Fin a, Fin b =>
      match sgn b with
      | Eq => inf_times true a
      | _ => Fin (a / b)
      end
  | Fin _, _ => Fin 0
  | PInf, Fin b => match sgn b with Lt => NInf | _ => PInf end
  | NInf, Fin b => match sgn b with Lt => PInf | _ => NInf end
  | _, _ => NaN
  end.

Definition js_abs (x : jsnum) : jsnum :=
  match x with
  | Fin q => Fin (Qabs q)
  | PInf | NInf => PInf
  | NaN => NaN
  end.

(** [x < y]; every comparison with [NaN] is false. *)
Definition js_lt (x y : jsnum) : bool :=
  match x, y with
  | NaN, _ | _, NaN => false
  | Fin a, Fin b => Qltb a b
  | Fin _, PInf => true
  | Fin _, NInf => false
  | PInf, _ => false
  | NInf, NInf => false
  | NInf, _ => true
  end.

Definition js_le (x y : jsnum) : bool :=
  match x, y with
  | NaN, _ | _, NaN => false
  | Fin a, Fin b => Qleb a b
  | NInf, _ => true
  | _, PInf => true
  | _, _ => false
  end.

Definition js_gt (x y : jsnum) : bool := js_lt y x.

End Utils.

(* ================================================================== *)
(** * engine/rng.js                                                    *)
(* ================================================================== *)

Module Rng.

(** engine/rng.js is imported by the UI module ([mulberry32],
    [seedFromString]).  The engine only relies on its interface: a
    generator is a piece of private state, one call returns the next value
    and advances that state. *)
Class Generator : Type := {
  RngState : Type;
  (** [rng()] *)
  rng_next : RngState -> Q * RngState;
  (** [mulberry32(seed)] *)
  mulberry32 : Z -> RngState;
  (** [seedFromString(text)] *)
  seedFromString : string -> Z
}.

(** Every generated value lies in [[0, 1)]. *)
Definition in_unit_interval (G : Generator) : Prop :=
  forall g : RngState, 0 <= fst (rng_next g) /\ fst (rng_next g) < 1.

(** Modelled from the spec: engine/rng.js is not part of the sources at
    hand; section 4.1 asks for a 32-bit state multiply/xorshift generator
    with values in [[0,1)] and a deterministic text-to-seed map.  [Mulberry]
    is the usual generator of that name on a 32-bit state, and the seed map
    is a 32-bit multiplicative string hash; it serves as the concrete
    instance on which the engine is run. *)
Definition u32 (z : Z) : Z := z mod 4294967296.

Definition imul (a b : Z) : Z := u32 (a * b).

Definition mulberry_step (a : Z) : Q * Z :=
  let a1 := u32 (a + 1831565813) in
  let t0 := a1 in
  let t1 := imul (Z.lxor t0 (Z.shiftr t0 15)) (Z.lor t0 1) in
  let t2 := Z.lxor t1 (u32 (t1 + imul (Z.lxor t1 (Z.shiftr t1 7)) (Z.lor t1 61))) in
  let out := u32 (Z.lxor t2 (Z.shiftr t2 14)) in
  (inject_Z out / 4294967296, a1).

Fixpoint hash_string (s : string) (h : Z) : Z :=
  match s with
  | EmptyString => h
  | String c rest => hash_string rest (imul (Z.lxor h (Z.of_nat (nat_of_ascii c))) 16777619)
  end.

Definition Mulberry : Generator := {|
  RngState := Z;
  rng_next := mulberry_step;
  mulberry32 := u32;
  seedFromString := fun s => hash_string s 2166136261
|}.

End Rng.

(* ================================================================== *)
(** * engine/property.js                                               *)
(* ================================================================== *)

Module Property.
Import Utils.

Definition computeEffectiveRentFactor (vacancy : Q) : Q :=
  let concession := clamp ((vacancy - 0.05) * 0.5) 0 0.08 in
  1 - concession.

Definition computeNOI (baseNOI rentIndex vacancy expenseRatio : Q) : Q :=
  let eff := computeEffectiveRentFactor vacancy in
  let revenueFactor := rentIndex * (1 - vacancy) * eff in
  let egi := baseNOI / (1 - expenseRatio) in
  let newEgi := egi * revenueFactor in
  let opex := newEgi * expenseRatio in
  Qmax 0 (newEgi - opex).

Definition valueFromNOI (noi capRate : Q) : Q :=
  if Qltb 0 capRate then noi / capRate else 0.

Record DebtService : Type := mkDebtService {
  payment : Q;
  interest : Q;
  principal : Q
}.

Definition annualDebtService (balance rate : Q) (amortYears : Z)
    (interestOnly : bool) : DebtService :=
  if Qleb balance 0 then mkDebtService 0 0 0
  else
    let i := rate in
    let n := Z.max 1 amortYears in
    if interestOnly then
      let interest := balance * i in
      mkDebtService interest interest 0
    else
      let pmt := (balance * i) / (1 - pow (1 + i) (- n)) in
      let interest := balance * i in
      let principal := Qmax 0 (pmt - interest) in
      mkDebtService pmt interest principal.

Definition dscr (noi debtService : Q) : jsnum :=
  if Qleb debtService 0 then PInf else Fin (noi / debtService).

End Property.

(* ================================================================== *)
(** * engine/market.js                                                 *)
(* ================================================================== *)

Module Market.
Import Utils Rng.

Record Market : Type := mkMarket {
  baseRate : Q;
  spread : Q;
  liquidity : Q
}.

(** [event.effects]: every delta is optional ([typeof e.x === "number"]). *)
Module Effects.
Record t : Type := mk {
  baseRateDelta : option Q;
  spreadDelta : option Q;
  liquidityDelta : option Q;
  demandDelta : option Q;
  rentIndexDelta : option Q;
  vacancyDelta : option Q;
  capRateDelta : option Q
}.
Definition empty : t := mk None None None None None None None.
End Effects.

Record Event : Type := mkEvent {
  ev_name : string;
  ev_blurb : string;
  ev_scope : string;
  ev_targetNeighborhood : option string;
  ev_effects : option Effects.t
}.

Record Neighborhood : Type := mkNeighborhood {
  id : string;
  name : string;
  zoning : list string;
  baseDemand : Q;
  demand : Q;
  rentIndex : Q;
  vacancy : Q;
  capRate : Q;
  scarcity : Q
}.

(** [x += d] when [d] is a number. *)
Definition bump (x : Q) (d : option Q) : Q :=
  match d with Some v => x + v | None => x end.

Definition applyEventToMarket (market : Market) (event : Event) : Market :=
  let e := match ev_effects event with Some e => e | None => Effects.empty end in
  let baseRate1 := bump (baseRate market) (Effects.baseRateDelta e) in
  let spread1 := bump (spread market) (Effects.spreadDelta e) in
  let liquidity1 := bump (liquidity market) (Effects.liquidityDelta e) in
  {| baseRate := clamp baseRate1 0.0 0.12;
     spread := clamp spread1 0.0 0.08;
     liquidity := clamp liquidity1 0.2 1.0 |}.

Definition applyEventToNeighborhood (n : Neighborhood) (event : Event) : Neighborhood :=
  let e := match ev_effects event with Some e => e | None => Effects.empty end in
  {| id := id n; name := name n; zoning := zoning n; baseDemand := baseDemand n;
     demand :=
       match Effects.demandDelta e with
       | Some d => clamp (demand n + d) 0.2 1.2
       | None => demand n
       end;
     rentIndex :=
       match Effects.rentIndexDelta e with
       | Some d => clamp (rentIndex n + d) 0.6 1.8
       | None => rentIndex n
       end;
     vacancy :=
       match Effects.vacancyDelta e with
       | Some d => clamp (vacancy n + d) 0.01 0.35
       | None => vacancy n
       end;
     capRate :=
       match Effects.capRateDelta e with
       | Some d => clamp (capRate n + d) 0.03 0.12
       | None => capRate n
       end;
     scarcity := scarcity n |}.

Section WithGenerator.
Context {G : Generator}.

(** Returns the updated neighborhood, [{ rentGrowth }] and the advanced
    generator; four values are drawn, in this order. *)
Definition updateNeighborhoodYear (n : Neighborhood) (market : Market)
    (g : RngState) : Neighborhood * Q * RngState :=
  let (r1, g1) := rng_next g in
  let noise := (r1 - 0.5) * 0.04 in
  let mean := baseDemand n in
  let demand' := clamp (demand n + (mean - demand n) * 0.25 + noise) 0.2 1.2 in
  let (r2, g2) := rng_next g1 in
  let vacShock := (r2 - 0.5) * 0.02 in
  let targetVac := clamp (0.14 - (demand' - 0.6) * 0.12) 0.03 0.28 in
  let vacancy' := clamp (vacancy n + (targetVac - vacancy n) * 0.35 + vacShock) 0.01 0.35 in
  let rgBase := 0.02 in
  let rgTightBonus := clamp ((0.10 - vacancy') * 0.25) (-0.03) 0.04 in
  let (r3, g3) := rng_next g2 in
  let rgNoise := (r3 - 0.5) * 0.02 in
  let rentGrowth := clamp (rgBase + rgTightBonus + rgNoise) (-0.06) 0.10 in
  let rentIndex' := clamp (rentIndex n * (1 + rentGrowth)) 0.6 1.8 in
  let rateComponent := baseRate market * 0.55 + spread market * 0.65 in
  let liqComponent := (liquidity market - 0.6) * 0.02 in
  let targetCap :=
    clamp (capRate n * 0.5 + (0.045 + rateComponent - liqComponent) * 0.5) 0.03 0.12 in
  let (r4, g4) := rng_next g3 in
  let capNoise := (r4 - 0.5) * 0.004 in
  let capRate' := clamp (capRate n + (targetCap - capRate n) * 0.35 + capNoise) 0.03 0.12 in
  ({| id := id n; name := name n; zoning := zoning n; baseDemand := baseDemand n;
      demand := demand'; rentIndex := rentIndex'; vacancy := vacancy';
      capRate := capRate'; scarcity := scarcity n |},
   rentGrowth, g4).

(** Three values are drawn: base-rate shock, spread shock, liquidity shock.
    The spread update reads the liquidity of the previous year. *)
Definition updateMarketYear (market : Market) (g : RngState) : Market * RngState :=
  let drift := 0.001 in
  let (r1, g1) := rng_next g in
  let shock := (r1 - 0.5) * 0.01 in
  let baseRate' := clamp (baseRate market + drift + shock) 0.0 0.12 in
  let (r2, g2) := rng_next g1 in
  let spreadShock := (r2 - 0.5) * 0.004 in
  let spread' :=
    clamp (spread market + spreadShock - (liquidity market - 0.6) * 0.003) 0.0 0.08 in
  let (r3, g3) := rng_next g2 in
  let liqShock := (r3 - 0.5) * 0.08 in
  let liquidity' :=
    clamp (liquidity market + (0.7 - liquidity market) * 0.2 + liqShock) 0.2 1.0 in
  ({| baseRate := baseRate'; spread := spread'; liquidity := liquidity' |}, g3).

End WithGenerator.

(** The declared domains of section 3 of the specification. *)
Definition market_in_bounds (m : Market) : Prop :=
  (0 <= baseRate m /\ baseRate m <= 0.12) /\
  (0 <= spread m /\ spread m <= 0.08) /\
  (0.2 <= liquidity m /\ liquidity m <= 1.0).

Definition neighborhood_in_bounds (n : Neighborhood) : Prop :=
  (0.2 <= demand n /\ demand n <= 1.2) /\
  (0.6 <= rentIndex n /\ rentIndex n <= 1.8) /\
  (0.01 <= vacancy n /\ vacancy n <= 0.35) /\
  (0.03 <= capRate n /\ capRate n <= 0.12).

End Market.

(* ================================================================== *)
(** * engine/deals.js: the IRR solver                                  *)
(* ================================================================== *)

Module Deals.
Import Utils.

(** [cfs.reduce((s, cf, i) => s + cf / Math.pow(1 + r, i), 0)], with the
    index [i] of the first remaining entry carried along. *)
Fixpoint npv_from (r : Q) (cfs : list jsnum) (i : Z) (s : jsnum) : jsnum :=
  match cfs with
  | [] => s
  | cf :: rest =>
      npv_from r rest (i + 1) (js_add s (js_div cf (Fin (pow (1 + r) i))))
  end.

Definition npv (cfs : list jsnum) (r : Q) : jsnum := npv_from r cfs 0 (Fin 0).

(** The [for (let k = 0; k < 80; k++)] loop with [fuel] iterations left,
    followed by the final [return (lo + hi) / 2]. *)
Fixpoint bisect (cfs : list jsnum) (fLo : jsnum) (fuel : nat) (lo hi : Q) : Q :=
  match fuel with
  | O => (lo + hi) / 2
  | S fuel' =>
      let mid := (lo + hi) / 2 in
      let f := npv cfs mid in
      if js_lt (js_abs f) (Fin 1e-6) then mid
      else if js_le (js_mul fLo f) (Fin 0) then bisect cfs fLo fuel' lo mid
      else bisect cfs fLo fuel' mid hi
  end.

(** [solveIRR] in exact arithmetic, as [underwriteDeal] reads it; the
    solver on the numbers of the source is [Binary64.solveIRR]. *)
Definition solveIRR (cfs : list jsnum) : jsnum :=
  let lo := -0.9 in
  let hi := 1.5 in
  let fLo := npv cfs lo in
  let fHi := npv cfs hi in
  if negb (isFinite fLo) || negb (isFinite fHi) then NaN
  else if js_gt (js_mul fLo fHi) (Fin 0) then NaN
  else Fin (bisect cfs fLo 80 lo hi).

(** *** [underwriteDeal] *)

Import Property Market.

(** [deal.debt] *)
Module Debt.
Record t : Type := mk {
  ltv : Q;
  rate : Q;
  amortYears : Z
}.
End Debt.

(** A deal of [data/deals.json]. *)
Module Deal.
Record t : Type := mk {
  id : string;
  name : string;
  neighborhood : string;
  productType : string;
  purchasePrice : Q;
  inPlaceNOI : Q;
  marketNOILiftPct : Q;
  debt : Debt.t
}.
End Deal.

(** The scenario [inputs], already numbers. *)
Module Inputs.
Record t : Type := mk {
  rentGrowth : Q;
  exitCap : Q;
  capex : Q;
  holdYears : Q
}.
End Inputs.

(** One element of [cashFlows]. *)
Module Row.
Record t : Type := mk {
  year : Z;
  noi : Q;
  debtService : Q;
  dscr : jsnum;
  cashFlow : Q;
  loanBalance : Q
}.
End Row.

Module Underwriting.
Record t : Type := mk {
  cashFlows : list Row.t;
  exitValue : Q;
  saleNet : Q;
  equity : Q;
  irr : jsnum;
  equityMultiple : Q
}.
End Underwriting.

(** The [for (let y = 1; y <= hold; y++)] loop with [years] rounds left,
    entered at year [y] with the running [noi] and [loanBal]; returns the rows
    pushed and the loan balance at the end. *)
Fixpoint projectYears (deal : Deal.t) (neighborhood : Neighborhood)
    (expenseRatio rentGrowth capex : Q) (years : nat) (y : Z) (noi loanBal : Q)
    : list Row.t * Q :=
  match years with
  | O => ([], loanBal)
  | S k =>
      let lift :=
        if (y <=? 2)%Z then Deal.marketNOILiftPct deal * (inject_Z y / 2)
        else Deal.marketNOILiftPct deal in
      let rentIndex := Market.rentIndex neighborhood * pow (1 + rentGrowth) y in
      let baseNOI := noi * (1 + lift) in
      let projectedNOI := computeNOI baseNOI rentIndex (vacancy neighborhood) expenseRatio in
      let ds :=
        annualDebtService loanBal (Debt.rate (Deal.debt deal))
          (Debt.amortYears (Deal.debt deal)) false in
      let loanBal' := Qmax 0 (loanBal - principal ds) in
      let capexHit := if (y =? 1)%Z then capex else 0 in
      let cf := projectedNOI - payment ds - capexHit in
      let row :=
        {| Row.year := y;
           Row.noi := projectedNOI;
           Row.debtService := payment ds;
           Row.dscr := Property.dscr projectedNOI (payment ds);
           Row.cashFlow := cf;
           Row.loanBalance := loanBal' |} in
      let (rows, final) :=
        projectYears deal neighborhood expenseRatio rentGrowth capex k (y + 1)
          projectedNOI loanBal' in
      (row :: rows, final)
  end.

(** [cashFlows[cashFlows.length - 1]], [undefined] for an empty array. *)
Fixpoint lastRow (rows : list Row.t) : option Row.t :=
  match rows with
  | [] => None
  | [r] => Some r
  | _ :: rest => lastRow rest
  end.

(** [underwriteDeal({ deal, neighborhood, product, inputs })], where
    [expenseRatio] is [product.baseExpenseRatio]; [None] is the [TypeError] of
    reading [.noi] of a missing last row. *)
Definition underwriteDeal (deal : Deal.t) (neighborhood : Neighborhood)
    (expenseRatio : Q) (inputs : Inputs.t) : option Underwriting.t :=
  let hold := Z.max 1 (floor (Inputs.holdYears inputs)) in
  let rentGrowth := clamp (Inputs.rentGrowth inputs) (-0.10) 0.15 in
  let exitCap := clamp (Inputs.exitCap inputs) 0.03 0.12 in
  let capex := Qmax 0 (Inputs.capex inputs) in
  let loanAmt := Deal.purchasePrice deal * Debt.ltv (Deal.debt deal) in
  let (cashFlows, loanBal) :=
    projectYears deal neighborhood expenseRatio rentGrowth capex (Z.to_nat hold) 1
      (Deal.inPlaceNOI deal) loanAmt in
  match lastRow cashFlows with
  | None => None
  | Some exitRow =>
      let exitNOI := Row.noi exitRow in
      let exitValue := valueFromNOI exitNOI exitCap in
      let saleNet := exitValue - loanBal in
      let equity := Deal.purchasePrice deal - loanAmt + capex in
      let irr :=
        solveIRR (Fin (- equity)
                  :: map (fun x => Fin (Row.cashFlow x)) cashFlows ++ [Fin saleNet]) in
      let totalDistributions :=
        fold_left (fun s x => s + Row.cashFlow x) cashFlows 0 + saleNet in
      let equityMultiple := if Qltb 0 equity then totalDistributions / equity else 0 in
      Some {| Underwriting.cashFlows := cashFlows;
              Underwriting.exitValue := exitValue;
              Underwriting.saleNet := saleNet;
              Underwriting.equity := equity;
              Underwriting.irr := irr;
              Underwriting.equityMultiple := equityMultiple |}
  end.

End Deals.

(* ================================================================== *)
(** * engine/deal-judge.js: [solveIRR] in double precision             *)
(* ================================================================== *)

(** [solveIRR] on IEEE 754 binary64 numbers, the numbers of the source.
    Its tests ([isFinite], [fLo * fHi > 0], [Math.abs(f) < 1e-6],
    [fLo * f <= 0]) are decided on the rounded values, so overflow,
    underflow and NaN are those of the source. *)
Module Binary64.
Import PrimFloat.
Local Open Scope float_scope.
Set Warnings "-inexact-float".


(** [isFinite(x)] *)
Definition isFinite (x : float) : bool := negb (is_nan x) && negb (is_infinity x).

Section Solver.
Variable pow : float -> nat -> float.

(** [cfs.reduce((s, cf, i) => s + cf / Math.pow(1 + r, i), 0)], with the
    index [i] of the first remaining entry carried along. *)
Fixpoint npv_from (r : float) (cfs : list float) (i : nat) (s : float) : float :=
  match cfs with
  | [] => s
  | cf :: rest => npv_from r rest (S i) (s + cf / pow (1 + r) i)
  end.

Definition npv (cfs : list float) (r : float) : float := npv_from r cfs 0 0.

(** The [for (let k = 0; k < 80; k++)] loop with [fuel] iterations left,
    followed by the final [return (lo + hi) / 2]. *)
Fixpoint bisect (cfs : list float) (fLo : float) (fuel : nat) (lo hi : float) : float :=
  match fuel with
  | O => (lo + hi) / 2
  | S fuel' =>
      let mid := (lo + hi) / 2 in
      let f := npv cfs mid in
      if abs f <? 1e-6 then mid
      else if fLo * f <=? 0 then bisect cfs fLo fuel' lo mid
      else bisect cfs fLo fuel' mid hi
  end.

Definition solveIRR (cfs : list float) : float :=
  let lo := -0.9 in
  let hi := 1.5 in
  let fLo := npv cfs lo in
  let fHi := npv cfs hi in
  if negb (isFinite fLo) || negb (isFinite fHi) then nan
  else if 0 <? fLo * fHi then nan
  else bisect cfs fLo 80 lo hi.




End Solver.

(** The bounds of the solver, and streams to run it on. *)
Definition lo : float := -0.9.
Definition hi : float := 1.5.








Set Warnings "inexact-float".
End Binary64.

(* ================================================================== *)
(** * ui/tycoon-ui.js: data model                                      *)
(* ================================================================== *)

Module Tycoon.
Import Utils Rng Property Market.

(** Static reference data ([data/productTypes.json]). *)
Module BuildParams.
Record t : Type := mk {
  yearsToBuild : Z;
  yearsToStabilize : Z;
  leaseUpVacancy : Q
}.
End BuildParams.

Module ProductType.
Record t : Type := mk {
  id : string;
  name : string;
  baseExpenseRatio : Q;
  build : BuildParams.t
}.
End ProductType.

(** [p.lease].  A lease object is only ever built by
    [initLeaseForProperty], with a numeric [leaseRentIndex]; the test
    [!p.lease || typeof p.lease.leaseRentIndex !== "number"] of the source is
    the test for an absent lease. *)
Module Lease.
Record t : Type := mk {
  yearsRemaining : Z;
  rollPct : Q;
  leaseRentIndex : Q
}.
End Lease.

(** [p.build] *)
Module Build.
Record t : Type := mk {
  phase : string;
  yearsRemaining : Z;
  stabilizeYearsRemaining : Z;
  leaseUpVacancy : Q
}.
End Build.

(** An element [p] of [state.properties].  The fields that older saves and
    imported deals may lack ([renoLevel], [ltv], [maturityYear], [lease],
    [build]) are optional.  Property objects are mutated in place by the
    source; the embedding identifies an object by its [id], the key the
    commands themselves use ([sellProperty(id)], [renovateProperty(id)]). *)
Module Asset.
Record t : Type := mk {
  id : string;
  name : string;
  neighborhood : string;
  productType : string;
  baseNOI : Q;
  rentIndexMult : Q;
  vacancyDelta : Q;
  capRateDelta : Q;
  renoLevel : option Z;
  ltv : option Q;
  loanBalance : Q;
  loanRate : Q;
  amortYears : Z;
  interestOnly : bool;
  maturityYear : option Z;
  build : option Build.t;
  lease : option Lease.t
}.

Definition set_rentIndexMult (v : Q) (p : t) : t :=
  mk (id p) (name p) (neighborhood p) (productType p) (baseNOI p) v (vacancyDelta p)
    (capRateDelta p) (renoLevel p) (ltv p) (loanBalance p) (loanRate p) (amortYears p)
    (interestOnly p) (maturityYear p) (build p) (lease p).
Definition set_vacancyDelta (v : Q) (p : t) : t :=
  mk (id p) (name p) (neighborhood p) (productType p) (baseNOI p) (rentIndexMult p) v
    (capRateDelta p) (renoLevel p) (ltv p) (loanBalance p) (loanRate p) (amortYears p)
    (interestOnly p) (maturityYear p) (build p) (lease p).
Definition set_renoLevel (v : option Z) (p : t) : t :=
  mk (id p) (name p) (neighborhood p) (productType p) (baseNOI p) (rentIndexMult p)
    (vacancyDelta p) (capRateDelta p) v (ltv p) (loanBalance p) (loanRate p)
    (amortYears p) (interestOnly p) (maturityYear p) (build p) (lease p).
Definition set_loanBalance (v : Q) (p : t) : t :=
  mk (id p) (name p) (neighborhood p) (productType p) (baseNOI p) (rentIndexMult p)
    (vacancyDelta p) (capRateDelta p) (renoLevel p) (ltv p) v (loanRate p)
    (amortYears p) (interestOnly p) (maturityYear p) (build p) (lease p).
Definition set_loanRate (v : Q) (p : t) : t :=
  mk (id p) (name p) (neighborhood p) (productType p) (baseNOI p) (rentIndexMult p)
    (vacancyDelta p) (capRateDelta p) (renoLevel p) (ltv p) (loanBalance p) v
    (amortYears p) (interestOnly p) (maturityYear p) (build p) (lease p).
Definition set_amortYears (v : Z) (p : t) : t :=
  mk (id p) (name p) (neighborhood p) (productType p) (baseNOI p) (rentIndexMult p)
    (vacancyDelta p) (capRateDelta p) (renoLevel p) (ltv p) (loanBalance p)
    (loanRate p) v (interestOnly p) (maturityYear p) (build p) (lease p).
Definition set_interestOnly (v : bool) (p : t) : t :=
  mk (id p) (name p) (neighborhood p) (productType p) (baseNOI p) (rentIndexMult p)
    (vacancyDelta p) (capRateDelta p) (renoLevel p) (ltv p) (loanBalance p)
    (loanRate p) (amortYears p) v (maturityYear p) (build p) (lease p).
Definition set_maturityYear (v : option Z) (p : t) : t :=
  mk (id p) (name p) (neighborhood p) (productType p) (baseNOI p) (rentIndexMult p)
    (vacancyDelta p) (capRateDelta p) (renoLevel p) (ltv p) (loanBalance p)
    (loanRate p) (amortYears p) (interestOnly p) v (build p) (lease p).
Definition set_build (v : option Build.t) (p : t) : t :=
  mk (id p) (name p) (neighborhood p) (productType p) (baseNOI p) (rentIndexMult p)
    (vacancyDelta p) (capRateDelta p) (renoLevel p) (ltv p) (loanBalance p)
    (loanRate p) (amortYears p) (interestOnly p) (maturityYear p) v (lease p).
Definition set_lease (v : option Lease.t) (p : t) : t :=
  mk (id p) (name p) (neighborhood p) (productType p) (baseNOI p) (rentIndexMult p)
    (vacancyDelta p) (capRateDelta p) (renoLevel p) (ltv p) (loanBalance p)
    (loanRate p) (amortYears p) (interestOnly p) (maturityYear p) (build p) v.

End Asset.

Module LoanTerms.
Record t : Type := mk {
  ltv : Q;
  rate : Q;
  amortYears : Z;
  interestOnly : bool
}.
End LoanTerms.

Module Listing.
Record t : Type := mk {
  id : string;
  name : string;
  neighborhood : string;
  productType : string;
  price : Q;
  baseNOI : Q;
  loanTerms : LoanTerms.t
}.
End Listing.

(** [state.journal] entries. *)
Inductive JournalEntry : Type :=
| JBuy (year : Z) (target : string) (price : Q)
| JBuild (year : Z) (target : string) (cost : Q)
| JSell (year : Z) (target : string) (price net : Q)
| JReno (year : Z) (target : string) (cost : Q) (level : Z).

(** The run state ([RUN_DEFAULTS] gives its shape). *)
Record RunState : Type := mkRunState {
  year : Z;
  cash : Q;
  market : Market;
  neighborhoods : list Neighborhood;
  properties : list Asset.t;
  listings : list Listing.t;
  activeEvents : list Event;
  journal : list JournalEntry
}.

Definition set_year (v : Z) (s : RunState) : RunState :=
  mkRunState v (cash s) (market s) (neighborhoods s) (properties s) (listings s)
    (activeEvents s) (journal s).
Definition set_cash (v : Q) (s : RunState) : RunState :=
  mkRunState (year s) v (market s) (neighborhoods s) (properties s) (listings s)
    (activeEvents s) (journal s).
Definition set_market (v : Market) (s : RunState) : RunState :=
  mkRunState (year s) (cash s) v (neighborhoods s) (properties s) (listings s)
    (activeEvents s) (journal s).
Definition set_neighborhoods (v : list Neighborhood) (s : RunState) : RunState :=
  mkRunState (year s) (cash s) (market s) v (properties s) (listings s)
    (activeEvents s) (journal s).
Definition set_properties (v : list Asset.t) (s : RunState) : RunState :=
  mkRunState (year s) (cash s) (market s) (neighborhoods s) v (listings s)
    (activeEvents s) (journal s).
Definition set_listings (v : list Listing.t) (s : RunState) : RunState :=
  mkRunState (year s) (cash s) (market s) (neighborhoods s) (properties s) v
    (activeEvents s) (journal s).
Definition set_journal (v : list JournalEntry) (s : RunState) : RunState :=
  mkRunState (year s) (cash s) (market s) (neighborhoods s) (properties s) (listings s)
    (activeEvents s) v.

Definition RUN_DEFAULTS : RunState :=
  {| year := 1;
     cash := 3000000;
     market := {| baseRate := 0.045; spread := 0.020; liquidity := 0.70 |};
     neighborhoods := [];
     properties := [];
     listings := [];
     activeEvents := [];
     journal := [] |}.

(** [DATA], loaded once from the three JSON files. *)
Record Data : Type := mkData {
  data_neighborhoods : list Neighborhood;
  data_productTypes : list ProductType.t;
  data_events : list Event
}.

(** The lines written by [addLog], without the wall-clock prefix. *)
Inductive LogMsg : Type :=
| LogLeaseRollover (pname : string) (term : Z)
| LogBought (lname : string) (price down : Q) (maturityYears balloon : Z)
| LogBuildBlocked (productType nname : string)
| LogBuildNoCash (cost : Q)
| LogBuildStarted (product nname : string) (cost equity : Q)
| LogDelivered (pname : string)
| LogConstruction (pname : string) (yearsLeft : Z)
| LogStabilized (pname : string) (maturityYears balloon : Z)
| LogLeaseUp (pname : string) (yearsLeft : Z)
| LogOperatingCashFlow (totalCF : Q)
| LogSold (pname : string) (salePrice costs debt net : Q)
| LogRenoMaxed (pname : string)
| LogRenoNoCash (pname : string) (cost : Q)
| LogRenovated (pname : string) (level : Z) (cost : Q)
| LogRefiOK (pname : string) (rate cashOut : Q) (balloon : Z)
| LogRefiTight (pname : string) (gap rate : Q) (balloon : Z)
| LogRefiFailed (pname : string) (gap have : Q)
| LogRefiWall (count : nat)
| LogForcedSale (pname : string)
| LogBankruptcy
| LogEvent (ename blurb : string)
| LogNoEvent
| LogNewRun (seed : option string) (difficulty : string)
| LogLoadedRun.

Record LeaseRule : Type := mkLeaseRule {
  termMin : Z;
  termMax : Z;
  rule_rollPct : Q
}.

Definition LEASE_RULES : list (string * LeaseRule) :=
  [ ("multifamily"%string, mkLeaseRule 1 2 0.55);
    ("hotel"%string, mkLeaseRule 1 1 1.00);
    ("industrial"%string, mkLeaseRule 3 7 0.18);
    ("retail"%string, mkLeaseRule 5 10 0.12);
    ("office"%string, mkLeaseRule 5 12 0.08);
    ("mixeduse"%string, mkLeaseRule 2 5 0.22) ].

(** [LEASE_RULES[productType] || { termMin: 3, termMax: 7, rollPct: 0.15 }] *)
Definition leaseRulesFor (productType : string) : LeaseRule :=
  match find (fun kv => String.eqb (fst kv) productType) LEASE_RULES with
  | Some kv => snd kv
  | None => mkLeaseRule 3 7 0.15
  end.

(** The results of [computePropertySnapshot] and [computePortfolio]. *)
Module Snapshot.
Record t : Type := mk {
  n : Neighborhood;
  product : ProductType.t;
  noi : Q;
  capRate : Q;
  value : Q;
  ds : DebtService
}.
End Snapshot.

Module Totals.
Record t : Type := mk {
  totalValue : Q;
  totalDebt : Q;
  totalNOI : Q;
  totalCF : Q;
  totalDS : Q
}.
End Totals.

Module Portfolio.
Record t : Type := mk {
  totalValue : Q;
  totalDebt : Q;
  totalNOI : Q;
  totalCF : Q;
  equity : Q;
  portfolioDSCR : jsnum
}.
End Portfolio.

(* ================================================================== *)
(** * ui/tycoon-ui.js: the engine                                      *)
(* ================================================================== *)

Section Engine.
Context {G : Generator}.

(** The module-level singletons [state] and [rng], and the log pane.  A
    command is a function of this context; [None] stands for an uncaught
    [TypeError] (a property access on [undefined], i.e. missing reference
    data), which aborts the command. *)
Record Ctx : Type := mkCtx {
  c_state : RunState;
  c_rng : RngState;
  c_log : list LogMsg
}.

Definition M (A : Type) : Type := Ctx -> option (A * Ctx).

Definition ret {A : Type} (a : A) : M A := fun c => Some (a, c).

Definition bind {A B : Type} (m : M A) (f : A -> M B) : M B :=
  fun c => match m c with
           | Some (a, c') => f a c'
           | None => None
           end.

Notation "x <- m ;; k" := (bind m (fun x => k))
  (at level 61, m at next level, right associativity).
Notation "m ;;; k" := (bind m (fun _ => k))
  (at level 61, right associativity).

Definition throw {A : Type} : M A := fun _ => None.

Definition orThrow {A : Type} (o : option A) : M A :=
  match o with Some a => ret a | None => throw end.

Definition getState : M RunState := fun c => Some (c_state c, c).

Definition modify (f : RunState -> RunState) : M unit :=
  fun c => Some (tt, mkCtx (f (c_state c)) (c_rng c) (c_log c)).

(** [rng()] *)
Definition rng : M Q :=
  fun c => let (r, g') := rng_next (c_rng c) in
           Some (r, mkCtx (c_state c) g' (c_log c)).

(** [addLog(el("log"), msg)]: the newest line comes first. *)
Definition addLog (msg : LogMsg) : M unit :=
  fun c => Some (tt, mkCtx (c_state c) (c_rng c) (msg :: c_log c)).

Fixpoint mapM {A B : Type} (f : A -> M B) (l : list A) : M (list B) :=
  match l with
  | [] => ret []
  | a :: rest => b <- f a ;; bs <- mapM f rest ;; ret (b :: bs)
  end.

Fixpoint forM_ {A : Type} (f : A -> M unit) (l : list A) : M unit :=
  match l with
  | [] => ret tt
  | a :: rest => f a ;;; forM_ f rest
  end.

(** [arr[i]] for a computed index; [undefined] outside the array. *)
Definition nthZ {A : Type} (l : list A) (i : Z) : option A :=
  if (i <? 0)%Z then None else nth_error l (Z.to_nat i).

Definition randInt (min max : Z) : M Z :=
  r <- rng ;;
  ret (floor (inject_Z min + r * inject_Z (max - min + 1))).

Definition getNeighborhood (s : RunState) (nid : string) : option Neighborhood :=
  find (fun x => String.eqb (Market.id x) nid) (neighborhoods s).

Definition makeMaturityYears : M Z :=
  r <- rng ;;
  ret (if Qltb r 0.45 then 5%Z else if Qltb r 0.75 then 7%Z else 10%Z).

Definition initLeaseForProperty (p : Asset.t) : M Asset.t :=
  s <- getState ;;
  n <- orThrow (getNeighborhood s (Asset.neighborhood p)) ;;
  let rules := leaseRulesFor (Asset.productType p) in
  let marketRentIndex := rentIndex n * Asset.rentIndexMult p in
  term <- randInt (termMin rules) (termMax rules) ;;
  ret (Asset.set_lease
         (Some {| Lease.yearsRemaining := term;
                  Lease.rollPct := rule_rollPct rules;
                  Lease.leaseRentIndex := marketRentIndex |}) p).

(** The body of the loop of [updateLeasesOneYear] for one property. *)
Definition updateLease (p : Asset.t) : M Asset.t :=
  match Asset.lease p with
  | None => initLeaseForProperty p
  | Some l =>
      s <- getState ;;
      n <- orThrow (getNeighborhood s (Asset.neighborhood p)) ;;
      let marketRentIndex := rentIndex n * Asset.rentIndexMult p in
      let roll := clamp (Lease.rollPct l) 0 1 in
      let blended := Lease.leaseRentIndex l * (1 - roll) + marketRentIndex * roll in
      let remaining := (Lease.yearsRemaining l - 1)%Z in
      if (remaining <=? 0)%Z then
        let rules := leaseRulesFor (Asset.productType p) in
        term <- randInt (termMin rules) (termMax rules) ;;
        addLog (LogLeaseRollover (Asset.name p) term) ;;;
        ret (Asset.set_lease
               (Some {| Lease.yearsRemaining := term;
                        Lease.rollPct := Lease.rollPct l;
                        Lease.leaseRentIndex := marketRentIndex |}) p)
      else
        ret (Asset.set_lease
               (Some {| Lease.yearsRemaining := remaining;
                        Lease.rollPct := Lease.rollPct l;
                        Lease.leaseRentIndex := blended |}) p)
  end.

Definition updateLeasesOneYear : M unit :=
  s <- getState ;;
  ps <- mapM updateLease (properties s) ;;
  modify (set_properties ps).

(** [Object.fromEntries(DATA.productTypes.map(p => [p.id, p]))[key]]: a
    later entry with the same id overrides an earlier one. *)
Definition productTypesById (data : Data) (key : string) : option ProductType.t :=
  find (fun pt => String.eqb (ProductType.id pt) key) (rev (data_productTypes data)).

(** [p.lease?.leaseRentIndex ?? (n.rentIndex * p.rentIndexMult)] *)
Definition rentIndexFor (p : Asset.t) (n : Neighborhood) : Q :=
  match Asset.lease p with
  | Some l => Lease.leaseRentIndex l
  | None => rentIndex n * Asset.rentIndexMult p
  end.

Definition computePropertySnapshot (s : RunState)
    (byId : string -> option ProductType.t) (p : Asset.t) : option Snapshot.t :=
  match getNeighborhood s (Asset.neighborhood p), byId (Asset.productType p) with
  | Some n, Some product =>
      let noi :=
        computeNOI (Asset.baseNOI p) (rentIndexFor p n)
          (clamp (vacancy n + Asset.vacancyDelta p) 0.01 0.40)
          (ProductType.baseExpenseRatio product) in
      let capRate := clamp (Market.capRate n + Asset.capRateDelta p) 0.03 0.14 in
      let value := valueFromNOI noi capRate in
      let ds :=
        annualDebtService (Asset.loanBalance p) (Asset.loanRate p)
          (Asset.amortYears p) (Asset.interestOnly p) in
      Some (Snapshot.mk n product noi capRate value ds)
  | _, _ => None
  end.

(** The loop of [computePortfolio] over the remaining properties. *)
Fixpoint portfolioLoop (s : RunState) (byId : string -> option ProductType.t)
    (ps : list Asset.t) (acc : Totals.t) : option Totals.t :=
  match ps with
  | [] => Some acc
  | p :: rest =>
      match find (fun x => String.eqb (Market.id x) (Asset.neighborhood p)) (neighborhoods s),
            byId (Asset.productType p) with
      | Some n, Some product =>
          let noi :=
            computeNOI (Asset.baseNOI p)
              (match Asset.lease p with
               | Some l => Lease.leaseRentIndex l
               | None => rentIndex n * Asset.rentIndexMult p
               end)
              (clamp (vacancy n + Asset.vacancyDelta p) 0.01 0.40)
              (ProductType.baseExpenseRatio product) in
          let capRate := clamp (Market.capRate n + Asset.capRateDelta p) 0.03 0.14 in
          let value := valueFromNOI noi capRate in
          let ds :=
            annualDebtService (Asset.loanBalance p) (Asset.loanRate p)
              (Asset.amortYears p) (Asset.interestOnly p) in
          portfolioLoop s byId rest
            {| Totals.totalValue := Totals.totalValue acc + value;
               Totals.totalDebt := Totals.totalDebt acc + Asset.loanBalance p;
               Totals.totalNOI := Totals.totalNOI acc + noi;
               Totals.totalCF := Totals.totalCF acc + (noi - payment ds);
               Totals.totalDS := Totals.totalDS acc + payment ds |}
      | _, _ => None
      end
  end.

Definition computePortfolio (s : RunState) (byId : string -> option ProductType.t)
    : option Portfolio.t :=
  match portfolioLoop s byId (properties s) (Totals.mk 0 0 0 0 0) with
  | Some tot =>
      let equity := Totals.totalValue tot - Totals.totalDebt tot + cash s in
      let portfolioDSCR := dscr (Totals.totalNOI tot) (Totals.totalDS tot) in
      Some {| Portfolio.totalValue := Totals.totalValue tot;
              Portfolio.totalDebt := Totals.totalDebt tot;
              Portfolio.totalNOI := Totals.totalNOI tot;
              Portfolio.totalCF := Totals.totalCF tot;
              Portfolio.equity := equity;
              Portfolio.portfolioDSCR := portfolioDSCR |}
  | None => None
  end.

(** [null] and an [undefined] array slot are both falsy in [nextYear]. *)
Definition pickEvent (events : list Event) : M (option Event) :=
  roll <- rng ;;
  if Qltb roll 0.35 then ret None
  else
    r <- rng ;;
    ret (nthZ events (floor (r * inject_Z (Z.of_nat (List.length events))))).

(** One round of the [for (let i = 0; i < 3; i++)] loop of
    [generateListings]; [None] is the [continue] of an empty [allowed].  The
    drawn neighborhood [n] is first dereferenced ([n.zoning]) inside the
    callback of [productIds.filter]: without product types the callback never
    runs and the round continues whatever [n] is; with one, an undefined [n]
    throws. *)
Definition generateListing (data : Data) (i : Z) : M (option Listing.t) :=
  s <- getState ;;
  r1 <- rng ;;
  let productIds := map ProductType.id (data_productTypes data) in
  match productIds with
  | [] => ret None
  | _ :: _ =>
  n <- orThrow (nthZ (neighborhoods s)
                  (floor (r1 * inject_Z (Z.of_nat (List.length (neighborhoods s)))))) ;;
  let allowed := filter (fun pid => existsb (String.eqb pid) (zoning n)) productIds in
  match allowed with
  | [] => ret None
  | _ =>
      r2 <- rng ;;
      productType <- orThrow (nthZ allowed
                                (floor (r2 * inject_Z (Z.of_nat (List.length allowed))))) ;;
      product <- orThrow (find (fun pt => String.eqb (ProductType.id pt) productType)
                            (data_productTypes data)) ;;
      r3 <- rng ;;
      let baseNOI := 350000 + r3 * 900000 in
      let impliedNOI := baseNOI * rentIndex n * (1 - vacancy n) in
      r4 <- rng ;;
      let cap := clamp (Market.capRate n + (r4 - 0.5) * 0.01) 0.04 0.12 in
      let price := impliedNOI / cap in
      r5 <- rng ;;
      let loanRate :=
        clamp (baseRate (market s) + spread (market s) + 0.012 + r5 * 0.01) 0.03 0.14 in
      r6 <- rng ;;
      ret (Some
        {| Listing.id := "L" ++ showZ (year s) ++ "-" ++ showZ i ++ "-"
                           ++ showZ (floor (r6 * 1000000));
           Listing.name := Market.name n ++ " — " ++ ProductType.name product;
           Listing.neighborhood := Market.id n;
           Listing.productType := productType;
           Listing.price := inject_Z (round (price / 1000)) * 1000;
           Listing.baseNOI := baseNOI;
           Listing.loanTerms :=
             {| LoanTerms.ltv := 0.65; LoanTerms.rate := loanRate;
                LoanTerms.amortYears := 30; LoanTerms.interestOnly := false |} |})%string
  end
  end.

Definition optList {A : Type} (o : option A) : list A :=
  match o with Some a => [a] | None => [] end.

Definition generateListings (data : Data) : M unit :=
  l0 <- generateListing data 0 ;;
  l1 <- generateListing data 1 ;;
  l2 <- generateListing data 2 ;;
  modify (set_listings (optList l0 ++ optList l1 ++ optList l2)).

Definition canBuy (s : RunState) (listing : Listing.t) : bool :=
  let down := Listing.price listing * (1 - LoanTerms.ltv (Listing.loanTerms listing)) in
  Qleb down (cash s).

(** The new property is pushed and its lease initialised on that object. *)
Definition buyListing (listing : Listing.t) : M unit :=
  let terms := Listing.loanTerms listing in
  let down := Listing.price listing * (1 - LoanTerms.ltv terms) in
  modify (fun s => set_cash (cash s - down) s) ;;;
  let loanBalance := Listing.price listing * LoanTerms.ltv terms in
  maturityYears <- makeMaturityYears ;;
  s <- getState ;;
  let p :=
    {| Asset.id := ("P" ++ Listing.id listing)%string;
       Asset.name := Listing.name listing;
       Asset.neighborhood := Listing.neighborhood listing;
       Asset.productType := Listing.productType listing;
       Asset.baseNOI := Listing.baseNOI listing;
       Asset.rentIndexMult := 1.0;
       Asset.vacancyDelta := 0.0;
       Asset.capRateDelta := 0.0;
       Asset.renoLevel := Some 0%Z;
       Asset.ltv := Some (LoanTerms.ltv terms);
       Asset.loanBalance := loanBalance;
       Asset.loanRate := LoanTerms.rate terms;
       Asset.amortYears := LoanTerms.amortYears terms;
       Asset.interestOnly := LoanTerms.interestOnly terms;
       Asset.maturityYear := Some (year s + maturityYears)%Z;
       Asset.build := None;
       Asset.lease := None |} in
  p' <- initLeaseForProperty p ;;
  modify (fun s => set_properties (properties s ++ [p']) s) ;;;
  modify (fun s => set_journal
            (journal s ++ [JBuy (year s) (Listing.id listing) (Listing.price listing)]) s) ;;;
  addLog (LogBought (Listing.name listing) (Listing.price listing) down maturityYears
            (year s + maturityYears)).

Definition startBuild (data : Data) (neighborhoodId productType : string) : M unit :=
  s <- getState ;;
  n <- orThrow (find (fun x => String.eqb (Market.id x) neighborhoodId) (neighborhoods s)) ;;
  if negb (existsb (String.eqb productType) (zoning n)) then
    addLog (LogBuildBlocked productType (Market.name n))
  else
    let product :=
      find (fun pt => String.eqb (ProductType.id pt) productType) (data_productTypes data) in
    let scarcityPremium := 1 + scarcity n * 0.35 in
    r1 <- rng ;;
    let cost :=
      inject_Z (round ((9000000 + r1 * 9000000) * scarcityPremium * rentIndex n / 1000))
      * 1000 in
    if Qltb (cash s) (cost * 0.25) then
      addLog (LogBuildNoCash cost)
    else
      let equity := cost * 0.25 in
      let loanBalance := cost * 0.75 in
      modify (set_cash (cash s - equity)) ;;;
      r2 <- rng ;;
      product <- orThrow product ;;
      let p :=
        {| Asset.id := ("B" ++ showZ (year s) ++ "-" ++ showZ (floor (r2 * 1000000)))%string;
           Asset.name := (Market.name n ++ " — New " ++ ProductType.name product)%string;
           Asset.neighborhood := neighborhoodId;
           Asset.productType := productType;
           Asset.baseNOI := 650000;
           Asset.rentIndexMult := 1.0;
           Asset.vacancyDelta := 0.0;
           Asset.capRateDelta := 0.0;
           Asset.renoLevel := Some 0%Z;
           Asset.ltv := Some 0.65;
           Asset.loanBalance := loanBalance;
           Asset.loanRate :=
             clamp (baseRate (market s) + spread (market s) + 0.02) 0.04 0.16;
           Asset.amortYears := 30;
           Asset.interestOnly := true;
           Asset.maturityYear := Some (year s + 3)%Z;
           Asset.build :=
             Some {| Build.phase := "construction";
                     Build.yearsRemaining :=
                       BuildParams.yearsToBuild (ProductType.build product);
                     Build.stabilizeYearsRemaining :=
                       BuildParams.yearsToStabilize (ProductType.build product);
                     Build.leaseUpVacancy :=
                       BuildParams.leaseUpVacancy (ProductType.build product) |};
           Asset.lease := None |} in
      modify (fun s => set_properties (properties s ++ [p]) s) ;;;
      modify (fun s => set_journal (journal s ++ [JBuild (year s) neighborhoodId cost]) s) ;;;
      addLog (LogBuildStarted (ProductType.name product) (Market.name n) cost equity).

(** The body of the loop of [processBuildPhases] for one property. *)
Definition processBuildPhase (p : Asset.t) : M Asset.t :=
  match Asset.build p with
  | None => ret p
  | Some b =>
      if String.eqb (Build.phase b) "construction" then
        let remaining := (Build.yearsRemaining b - 1)%Z in
        if (remaining <=? 0)%Z then
          addLog (LogDelivered (Asset.name p)) ;;;
          ret (Asset.set_build
                 (Some (Build.mk "leaseup" remaining (Build.stabilizeYearsRemaining b)
                          (Build.leaseUpVacancy b))) p)
        else
          addLog (LogConstruction (Asset.name p) remaining) ;;;
          ret (Asset.set_build
                 (Some (Build.mk (Build.phase b) remaining (Build.stabilizeYearsRemaining b)
                          (Build.leaseUpVacancy b))) p)
      else if String.eqb (Build.phase b) "leaseup" then
        let remaining := (Build.stabilizeYearsRemaining b - 1)%Z in
        let held := Qmax (Asset.vacancyDelta p) (Build.leaseUpVacancy b) in
        if (remaining <=? 0)%Z then
          s <- getState ;;
          r <- rng ;;
          let rate :=
            clamp (baseRate (market s) + spread (market s) + 0.018 + r * 0.01) 0.04 0.16 in
          maturityYears <- makeMaturityYears ;;
          let balloon := (year s + maturityYears)%Z in
          let p1 :=
            Asset.set_maturityYear (Some balloon)
              (Asset.set_loanRate rate
                 (Asset.set_amortYears 30
                    (Asset.set_interestOnly false
                       (Asset.set_vacancyDelta 0.0 (Asset.set_build None p))))) in
          p2 <- initLeaseForProperty p1 ;;
          addLog (LogStabilized (Asset.name p) maturityYears balloon) ;;;
          ret p2
        else
          addLog (LogLeaseUp (Asset.name p) remaining) ;;;
          ret (Asset.set_vacancyDelta held
                 (Asset.set_build
                    (Some (Build.mk (Build.phase b) (Build.yearsRemaining b) remaining
                             (Build.leaseUpVacancy b))) p))
      else ret p
  end.

Definition processBuildPhases : M unit :=
  s <- getState ;;
  ps <- mapM processBuildPhase (properties s) ;;
  modify (set_properties ps).

(** The loop of [applyOperatingCashFlow]: the amortised properties and the
    running [totalCF]. *)
Fixpoint cashFlowLoop (s : RunState) (byId : string -> option ProductType.t)
    (ps : list Asset.t) (totalCF : Q) : option (list Asset.t * Q) :=
  match ps with
  | [] => Some ([], totalCF)
  | p :: rest =>
      match find (fun x => String.eqb (Market.id x) (Asset.neighborhood p)) (neighborhoods s),
            byId (Asset.productType p) with
      | Some n, Some product =>
          let noi :=
            computeNOI (Asset.baseNOI p)
              (match Asset.lease p with
               | Some l => Lease.leaseRentIndex l
               | None => rentIndex n * Asset.rentIndexMult p
               end)
              (clamp (vacancy n + Asset.vacancyDelta p) 0.01 0.40)
              (ProductType.baseExpenseRatio product) in
          let ds :=
            annualDebtService (Asset.loanBalance p) (Asset.loanRate p)
              (Asset.amortYears p) (Asset.interestOnly p) in
          let p' := Asset.set_loanBalance (Qmax 0 (Asset.loanBalance p - principal ds)) p in
          let cf := noi - payment ds in
          match cashFlowLoop s byId rest (totalCF + cf) with
          | Some (rest', total) => Some (p' :: rest', total)
          | None => None
          end
      | _, _ => None
      end
  end.

Definition applyOperatingCashFlow (byId : string -> option ProductType.t) : M unit :=
  s <- getState ;;
  r <- orThrow (cashFlowLoop s byId (properties s) 0) ;;
  let (ps, totalCF) := (r : list Asset.t * Q) in
  modify (fun s => set_cash (cash s + totalCF) (set_properties ps s)) ;;;
  addLog (LogOperatingCashFlow totalCF).

(** [arr.splice(arr.findIndex(pred), 1)] *)
Fixpoint removeFirst {A : Type} (pred : A -> bool) (l : list A) : list A :=
  match l with
  | [] => []
  | a :: rest => if pred a then rest else a :: removeFirst pred rest
  end.

(** In-place mutation of the object returned by [arr.find(pred)]. *)
Fixpoint replaceFirst {A : Type} (pred : A -> bool) (new : A) (l : list A) : list A :=
  match l with
  | [] => []
  | a :: rest => if pred a then new :: rest else a :: replaceFirst pred new rest
  end.

Definition hasId (pid : string) (p : Asset.t) : bool := String.eqb (Asset.id p) pid.

(** Writes the mutated fields of the property object [p'] back. *)
Definition storeAsset (p' : Asset.t) : M unit :=
  modify (fun s => set_properties (replaceFirst (hasId (Asset.id p')) p' (properties s)) s).

Definition sellProperty (data : Data) (propertyId : string) : M unit :=
  s <- getState ;;
  match find (hasId propertyId) (properties s) with
  | None => ret tt
  | Some p =>
      snap <- orThrow (computePropertySnapshot s (productTypesById data) p) ;;
      let salePrice := Snapshot.value snap in
      let sellingCosts := salePrice * 0.02 in
      let netBeforeDebt := salePrice - sellingCosts in
      let net := netBeforeDebt - Asset.loanBalance p in
      modify (fun s => set_cash (cash s + net) s) ;;;
      modify (fun s => set_properties (removeFirst (hasId propertyId) (properties s)) s) ;;;
      modify (fun s => set_journal (journal s ++ [JSell (year s) propertyId salePrice net]) s) ;;;
      addLog (LogSold (Asset.name p) salePrice sellingCosts (Asset.loanBalance p) net)
  end.

(** [p.renoLevel || 0] *)
Definition renoLevelOf (p : Asset.t) : Z :=
  match Asset.renoLevel p with Some l => l | None => 0%Z end.

Definition renovateProperty (data : Data) (propertyId : string) : M unit :=
  s <- getState ;;
  match find (hasId propertyId) (properties s) with
  | None => ret tt
  | Some p =>
      let maxLevel := 3%Z in
      if (maxLevel <=? renoLevelOf p)%Z then
        addLog (LogRenoMaxed (Asset.name p))
      else
        snap <- orThrow (computePropertySnapshot s (productTypesById data) p) ;;
        let nextLevel := (renoLevelOf p + 1)%Z in
        let baseCost := Snapshot.value snap * 0.03 in
        let cost := clamp (baseCost * (1 + inject_Z (nextLevel - 1) * 0.35)) 200000 5000000 in
        if Qltb (cash s) cost then
          addLog (LogRenoNoCash (Asset.name p) cost)
        else
          modify (fun s => set_cash (cash s - cost) s) ;;;
          let p1 :=
            Asset.set_vacancyDelta (clamp (Asset.vacancyDelta p - 0.005) (-0.08) 0.20)
              (Asset.set_rentIndexMult (clamp (Asset.rentIndexMult p + 0.03) 0.8 1.35)
                 (Asset.set_renoLevel (Some nextLevel) p)) in
          let p2 :=
            match Asset.lease p1 with
            | Some l =>
                Asset.set_lease
                  (Some (Lease.mk (Lease.yearsRemaining l) (Lease.rollPct l)
                           (clamp (Lease.leaseRentIndex l * 1.01) 0.6 2.0))) p1
            | None => p1
            end in
          storeAsset p2 ;;;
          modify (fun s => set_journal
                    (journal s ++ [JReno (year s) propertyId cost nextLevel]) s) ;;;
          addLog (LogRenovated (Asset.name p) nextLevel cost)
  end.

(** The loan fields written by a successful refinance. *)
Definition refinanced (newLoan newRate : Q) (balloon : Z) (p : Asset.t) : Asset.t :=
  Asset.set_maturityYear (Some balloon)
    (Asset.set_interestOnly false
       (Asset.set_amortYears 30
          (Asset.set_loanRate newRate
             (Asset.set_loanBalance newLoan p)))).

(** [p.ltv ?? 0.65] *)
Definition ltvOf (p : Asset.t) : Q :=
  match Asset.ltv p with Some v => v | None => 0.65 end.

Definition attemptRefi (p : Asset.t) (byId : string -> option ProductType.t) : M bool :=
  s <- getState ;;
  snap <- orThrow (computePropertySnapshot s byId p) ;;
  let newLoan := Qmax 0 (Snapshot.value snap * ltvOf p) in
  let payoff := Asset.loanBalance p in
  r <- rng ;;
  let newRate :=
    clamp (baseRate (market s) + spread (market s) + 0.018 + r * 0.01) 0.03 0.18 in
  maturityYears <- makeMaturityYears ;;
  let balloon := (year s + maturityYears)%Z in
  if Qleb payoff newLoan then
    let cashOut := newLoan - payoff in
    modify (fun s => set_cash (cash s + cashOut) s) ;;;
    storeAsset (refinanced newLoan newRate balloon p) ;;;
    addLog (LogRefiOK (Asset.name p) newRate cashOut balloon) ;;;
    ret true
  else
    let gap := payoff - newLoan in
    if Qleb gap (cash s) then
      modify (fun s => set_cash (cash s - gap) s) ;;;
      storeAsset (refinanced newLoan newRate balloon p) ;;;
      addLog (LogRefiTight (Asset.name p) gap newRate balloon) ;;;
      ret true
    else
      addLog (LogRefiFailed (Asset.name p) gap (cash s)) ;;;
      ret false.

(** [p.maturityYear && p.maturityYear <= state.year] *)
Definition isMatured (currentYear : Z) (p : Asset.t) : bool :=
  match Asset.maturityYear p with
  | Some m => negb (m =? 0)%Z && (m <=? currentYear)%Z
  | None => false
  end.

(** The body of the loop of [handleMaturities] for one matured property. *)
Definition resolveMaturity (data : Data) (p : Asset.t) : M unit :=
  ok <- attemptRefi p (productTypesById data) ;;
  if ok then ret tt
  else
    addLog (LogForcedSale (Asset.name p)) ;;;
    sellProperty data (Asset.id p) ;;;
    s <- getState ;;
    if Qltb (cash s) 0 then
      addLog LogBankruptcy ;;;
      modify (set_cash 0)
    else ret tt.

Definition handleMaturities (data : Data) : M unit :=
  s <- getState ;;
  let matured := filter (isMatured (year s)) (properties s) in
  match matured with
  | [] => ret tt
  | _ =>
      addLog (LogRefiWall (List.length matured)) ;;;
      forM_ (resolveMaturity data) matured
  end.

(** [makeRng(seedStr)]: an absent or empty seed text is falsy, and the seed
    is then taken from [Math.random()], whose value is [mathRandom]. *)
Definition makeRng (seedStr : option string) (mathRandom : Q) : RngState :=
  let fromClock := (floor (mathRandom * 1000000000) mod 4294967296)%Z in
  let seed :=
    match seedStr with
    | Some EmptyString | None => fromClock
    | Some str => seedFromString str
    end in
  mulberry32 seed.

(** The event branch of [nextYear]. *)
Definition applyEvent (event : option Event) : M unit :=
  match event with
  | Some ev =>
      addLog (LogEvent (ev_name ev) (ev_blurb ev)) ;;;
      if String.eqb (ev_scope ev) "global" then
        modify (fun s => set_market (applyEventToMarket (market s) ev) s)
      else if String.eqb (ev_scope ev) "neighborhood" then
        s <- getState ;;
        let isTarget (x : Neighborhood) :=
          match ev_targetNeighborhood ev with
          | Some t => String.eqb (Market.id x) t
          | None => false
          end in
        match find isTarget (neighborhoods s) with
        | Some n =>
            modify (set_neighborhoods
                      (replaceFirst isTarget (applyEventToNeighborhood n ev) (neighborhoods s)))
        | None => ret tt
        end
      else ret tt
  | None => addLog LogNoEvent
  end.

(** [updateNeighborhoodYear(n, state.market, rng)] on the shared generator. *)
Definition updateNeighborhood (n : Neighborhood) : M Neighborhood :=
  fun c =>
    let '(n', _, g') := updateNeighborhoodYear n (market (c_state c)) (c_rng c) in
    Some (n', mkCtx (c_state c) g' (c_log c)).

(** [nextYear()]; the closing [render()] only reads the state. *)
Definition nextYear (data : Data) : M unit :=
  let byId := productTypesById data in
  event <- pickEvent (data_events data) ;;
  modify (fun s => set_year (year s + 1)%Z s) ;;;
  (fun c =>
     let (m', g') := updateMarketYear (market (c_state c)) (c_rng c) in
     Some (tt, mkCtx (set_market m' (c_state c)) g' (c_log c))) ;;;
  applyEvent event ;;;
  s <- getState ;;
  ns <- mapM updateNeighborhood (neighborhoods s) ;;
  modify (set_neighborhoods ns) ;;;
  updateLeasesOneYear ;;;
  processBuildPhases ;;;
  handleMaturities data ;;;
  applyOperatingCashFlow byId ;;;
  generateListings data.

(** [getSettings()] *)
Record Settings : Type := mkSettings {
  seed : option string;
  difficulty : option string
}.

(** [initRun] when a fresh run is created: the generator is seeded, the
    state is built from [RUN_DEFAULTS] and the reference data, and the first
    listings are generated. *)
Definition initRun (data : Data) (settings : Settings) (mathRandom : Q) : option Ctx :=
  let g := makeRng (seed settings) mathRandom in
  let diff :=
    match difficulty settings with
    | Some EmptyString | None => "normal"%string
    | Some d => d
    end in
  let startCash :=
    if String.eqb diff "hard" then 2200000
    else if String.eqb diff "easy" then 4500000
    else cash RUN_DEFAULTS in
  let nbhds :=
    map (fun n => mkNeighborhood (Market.id n) (Market.name n) (zoning n) (baseDemand n)
                    (baseDemand n) (rentIndex n) (vacancy n) (Market.capRate n) (scarcity n))
      (data_neighborhoods data) in
  let s0 := set_cash startCash (set_neighborhoods nbhds RUN_DEFAULTS) in
  match (addLog (LogNewRun (seed settings) diff) ;;; generateListings data)
          (mkCtx s0 g []) with
  | Some (_, c) => Some c
  | None => None
  end.

(** [initRun] when [forceNew] is false and [loadRun] returns a saved state:
    the generator is seeded from the settings all the same, the saved state
    is taken as it is, every property without a lease is given one, and the
    listings are generated afresh. *)
Definition resumeRun (data : Data) (settings : Settings) (mathRandom : Q)
    (saved : RunState) : option Ctx :=
  let g := makeRng (seed settings) mathRandom in
  match (addLog LogLoadedRun ;;;
         s <- getState ;;
         ps <- mapM (fun p => match Asset.lease p with
                              | None => initLeaseForProperty p
                              | Some _ => ret p
                              end) (properties s) ;;
         modify (set_properties ps) ;;;
         generateListings data) (mkCtx saved g []) with
  | Some (_, c) => Some c
  | None => None
  end.

(** [initRun(forceNew)] with both branches; [saved] is what [loadRun]
    returns. *)
Definition startRun (data : Data) (settings : Settings) (mathRandom : Q)
    (forceNew : bool) (saved : option RunState) : option Ctx :=
  match forceNew, saved with
  | false, Some run => resumeRun data settings mathRandom run
  | _, _ => initRun data settings mathRandom
  end.

(** The commands wired by [hookUI]. *)
Inductive Action : Type :=
| Buy (listingId : string)
| BuildNew (neighborhoodId productType : string)
| Sell (propertyId : string)
| Renovate (propertyId : string)
| NextYear.

Definition perform (data : Data) (a : Action) : M unit :=
  match a with
  | Buy lid =>
      s <- getState ;;
      match find (fun x => String.eqb (Listing.id x) lid) (listings s) with
      | None => ret tt
      | Some listing =>
          buyListing listing ;;;
          modify (fun s => set_listings
                    (filter (fun x => negb (String.eqb (Listing.id x) lid)) (listings s)) s)
      end
  | BuildNew nid pt => startBuild data nid pt
  | Sell pid => sellProperty data pid
  | Renovate pid => renovateProperty data pid
  | NextYear => nextYear data
  end.

(** A whole run: creation followed by the player's commands in order. *)
Definition playRun (data : Data) (settings : Settings) (mathRandom : Q)
    (actions : list Action) : option RunState :=
  match initRun data settings mathRandom with
  | Some c0 =>
      match forM_ (perform data) actions c0 with
      | Some (_, c) => Some (c_state c)
      | None => None
      end
  | None => None
  end.

End Engine.

End Tycoon.

(* ================================================================== *)
(** * Properties                                                       *)
(* ================================================================== *)

Import Utils Rng Property Market Deals Tycoon.

Unset Implicit Arguments.

(** ** Numbers *)

Lemma Qleb_true (a b : Q) : Qleb a b = true <-> a <= b.
Proof. unfold Qleb. apply Qle_bool_iff. Qed.

Lemma Qleb_false (a b : Q) : Qleb a b = false <-> b < a.
Proof.
  unfold Qleb. split; intro H.
  - apply Qnot_le_lt. intro Hle. apply Qle_bool_iff in Hle. congruence.
  - destruct (Qle_bool a b) eqn:E; [|reflexivity].
    apply Qle_bool_iff in E. exfalso. apply (Qlt_not_le _ _ H E).
Qed.

Lemma Qltb_true (a b : Q) : Qltb a b = true <-> a < b.
Proof.
  unfold Qltb. rewrite negb_true_iff. apply (Qleb_false b a).
Qed.

Lemma Qltb_false (a b : Q) : Qltb a b = false <-> b <= a.
Proof.
  unfold Qltb. rewrite negb_false_iff. apply (Qleb_true b a).
Qed.

Lemma clamp_lower (x lo hi : Q) : lo <= clamp x lo hi.
Proof. unfold clamp. apply Q.le_max_l. Qed.

Lemma clamp_upper (x lo hi : Q) : lo <= hi -> clamp x lo hi <= hi.
Proof.
  intro H. unfold clamp. apply Q.max_lub; [exact H | apply Q.le_min_l].
Qed.

Lemma clamp_bounds (x lo hi : Q) : lo <= hi -> lo <= clamp x lo hi /\ clamp x lo hi <= hi.
Proof. intro H. split; [apply clamp_lower | apply clamp_upper; exact H]. Qed.

Lemma clamp_inside (x lo hi : Q) : lo <= x -> x <= hi -> clamp x lo hi == x.
Proof.
  intros Hlo Hhi. unfold clamp.
  rewrite (Q.min_r hi x Hhi). apply Q.max_r. exact Hlo.
Qed.

Lemma clamp_between (x lo hi l h : Q) :
  l <= lo -> lo <= hi -> hi <= h -> l <= clamp x lo hi /\ clamp x lo hi <= h.
Proof.
  intros Hl Hm Hh. split.
  - apply Qle_trans with lo; [exact Hl | apply clamp_lower].
  - apply Qle_trans with hi; [apply clamp_upper; exact Hm | exact Hh].
Qed.

(** Closes a goal [l <= clamp x lo hi /\ clamp x lo hi <= h] or one of its
    halves when the four bounds are literals. *)
Ltac clamp_range :=
  lazymatch goal with
  | |- _ /\ _ => apply clamp_between; vm_compute; discriminate
  | |- _ <= clamp ?x ?lo ?hi =>
      apply Qle_trans with lo; [vm_compute; discriminate | apply clamp_lower]
  | |- clamp ?x ?lo ?hi <= _ =>
      apply Qle_trans with hi;
      [apply clamp_upper; vm_compute; discriminate | vm_compute; discriminate]
  end.

(** ** Market and neighborhood bounds *)

Lemma applyEventToMarket_in_bounds (m : Market) (ev : Event) :
  market_in_bounds (applyEventToMarket m ev).
Proof.
  unfold market_in_bounds, applyEventToMarket. cbn [baseRate spread liquidity].
  repeat split; clamp_range.
Qed.

Lemma applyEventToNeighborhood_in_bounds (n : Neighborhood) (ev : Event) :
  neighborhood_in_bounds n -> neighborhood_in_bounds (applyEventToNeighborhood n ev).
Proof.
  intros (Hd & Hr & Hv & Hc).
  unfold neighborhood_in_bounds, applyEventToNeighborhood.
  cbn [demand rentIndex vacancy capRate].
  destruct (ev_effects ev) as [e|]; cbn [Effects.empty Effects.demandDelta
    Effects.rentIndexDelta Effects.vacancyDelta Effects.capRateDelta]; [|tauto].
  destruct (Effects.demandDelta e), (Effects.rentIndexDelta e),
    (Effects.vacancyDelta e), (Effects.capRateDelta e);
    repeat split; first [clamp_range | tauto].
Qed.

Lemma updateNeighborhoodYear_in_bounds {G : Generator} (n : Neighborhood)
    (m : Market) (g : RngState) :
  neighborhood_in_bounds (fst (fst (updateNeighborhoodYear n m g))).
Proof.
  unfold updateNeighborhoodYear.
  destruct (rng_next g) as [r1 g1].
  destruct (rng_next g1) as [r2 g2].
  destruct (rng_next g2) as [r3 g3].
  destruct (rng_next g3) as [r4 g4].
  unfold neighborhood_in_bounds. cbn [fst demand rentIndex vacancy capRate].
  repeat split; clamp_range.
Qed.

Lemma updateMarketYear_in_bounds {G : Generator} (m : Market) (g : RngState) :
  market_in_bounds (fst (updateMarketYear m g)).
Proof.
  unfold updateMarketYear.
  destruct (rng_next g) as [r1 g1].
  destruct (rng_next g1) as [r2 g2].
  destruct (rng_next g2) as [r3 g3].
  unfold market_in_bounds. cbn [fst baseRate spread liquidity].
  repeat split; clamp_range.
Qed.

(** ** Net operating income *)

Lemma computeEffectiveRentFactor_range (vacancy : Q) :
  0.92 <= computeEffectiveRentFactor vacancy /\ computeEffectiveRentFactor vacancy <= 1.
Proof.
  unfold computeEffectiveRentFactor.
  assert (H : 0 <= clamp ((vacancy - 0.05) * 0.5) 0 0.08
              /\ clamp ((vacancy - 0.05) * 0.5) 0 0.08 <= 0.08) by clamp_range.
  destruct H as [H1 H2]. split; lra.
Qed.

Lemma computeNOI_nonneg (baseNOI rentIndex vacancy expenseRatio : Q) :
  0 <= computeNOI baseNOI rentIndex vacancy expenseRatio.
Proof. unfold computeNOI. apply Q.le_max_l. Qed.

(** C5.  For [expenseRatio < 1], [computeNOI] is
    [max(0, baseNOI * rentIndex * (1 - vacancy) * effectiveRentFactor(vacancy))],
    which is the implied gross income [baseNOI / (1 - expenseRatio)] rescaled
    with the expense ratio re-applied; the rent factor is
    [1 - clamp((vacancy - 0.05) * 0.5, 0, 0.08)] and lies in [[0.92, 1]]; and
    [computeNOI] is never negative. *)
Theorem computeNOI_closed_form (baseNOI rentIndex vacancy expenseRatio : Q) :
  expenseRatio < 1 ->
  computeNOI baseNOI rentIndex vacancy expenseRatio
    == Qmax 0 (baseNOI * rentIndex * (1 - vacancy) * computeEffectiveRentFactor vacancy)
  /\ computeNOI baseNOI rentIndex vacancy expenseRatio
    == Qmax 0 (baseNOI / (1 - expenseRatio)
               * (rentIndex * (1 - vacancy) * computeEffectiveRentFactor vacancy)
               * (1 - expenseRatio))
  /\ computeEffectiveRentFactor vacancy = 1 - clamp ((vacancy - 0.05) * 0.5) 0 0.08
  /\ (0.92 <= computeEffectiveRentFactor vacancy /\ computeEffectiveRentFactor vacancy <= 1)
  /\ (forall b r v e : Q, 0 <= computeNOI b r v e).
Proof.
  intro He.
  assert (Hne : ~ 1 - expenseRatio == 0) by (intro H; lra).
  repeat split.
  - unfold computeNOI. apply Q.max_compat; [reflexivity|]. field. exact Hne.
  - unfold computeNOI. apply Q.max_compat; [reflexivity|]. field. exact Hne.
  - apply computeEffectiveRentFactor_range.
  - apply computeEffectiveRentFactor_range.
  - intros. apply computeNOI_nonneg.
Qed.

Lemma computeNOI_closed_form_witness :
  computeNOI 650000 1.1 0.2 0.35
    == Qmax 0 (650000 * 1.1 * (1 - 0.2) * computeEffectiveRentFactor 0.2).
Proof.
  apply (computeNOI_closed_form 650000 1.1 0.2 0.35). reflexivity.
Defined.

(** ** Amortisation *)

(** The forward repayment schedule of the amortisation test: each year the
    interest on the outstanding balance is added and the fixed payment is
    deducted, [balance' = balance * (1 + rate) - payment]. *)
Fixpoint repayForward (payment rate : Q) (years : nat) (balance : Q) : Q :=
  match years with
  | O => balance
  | S k => repayForward payment rate k (balance * (1 + rate) - payment)
  end.

(** C7.  For balance 1,000,000, rate 0.05, 30 amortisation years, not
    interest-only, [annualDebtService] returns the payment
    [balance * rate / (1 - (1 + rate)^-30)], and repaying forward with that
    payment for 30 years leaves a balance of 0 (hence within any rounding
    tolerance of 0). *)
Theorem amortization_consistency :
  let balance := 1000000 in
  let rate := 0.05 in
  let ds := annualDebtService balance rate 30 false in
  payment ds = balance * rate / (1 - pow (1 + rate) (-30))
  /\ interest ds = balance * rate
  /\ repayForward (payment ds) rate 30 balance == 0
  /\ (forall tol : Q, 0 <= tol -> Qabs (repayForward (payment ds) rate 30 balance) <= tol).
Proof.
  cbv zeta.
  assert (H0 : repayForward (payment (annualDebtService 1000000 0.05 30 false)) 0.05 30 1000000
               == 0) by (vm_compute; reflexivity).
  split; [reflexivity|]. split; [reflexivity|]. split; [exact H0|].
  intros tol Htol. rewrite H0. exact Htol.
Qed.

Lemma amortization_consistency_witness :
  Qabs (repayForward (payment (annualDebtService 1000000 0.05 30 false)) 0.05 30 1000000)
  <= 0.01.
Proof.
  destruct amortization_consistency as (_ & _ & _ & Htol).
  apply Htol. discriminate.
Defined.

(** ** The IRR solver *)

(** *** The sign of a rounded product *)

Section Signs.
Import PrimFloat SpecFloat FloatOps FloatAxioms.













End Signs.

(** *** The solver *)

Section SolverFacts.
Import PrimFloat.
Variable pow : PrimFloat.float -> nat -> PrimFloat.float.






End SolverFacts.




(** ** Reasoning about commands *)

Section Commands.
Context {G : Generator}.

(** [m] keeps the property [I] of the run state whenever it completes. *)
Definition preserves {A : Type} (I : RunState -> Prop) (m : M A) : Prop :=
  forall (c : Ctx) (a : A) (c' : Ctx),
    I (c_state c) -> m c = Some (a, c') -> I (c_state c').

Lemma bind_inv {A B : Type} (m : M A) (f : A -> M B) (c : Ctx) (b : B) (c' : Ctx) :
  bind m f c = Some (b, c') ->
  exists (a : A) (c1 : Ctx), m c = Some (a, c1) /\ f a c1 = Some (b, c').
Proof.
  unfold bind. destruct (m c) as [[a c1]|]; [|discriminate].
  intro H. exists a, c1. split; [reflexivity | exact H].
Qed.

Lemma bind_intro {A B : Type} (m : M A) (f : A -> M B) (c c1 : Ctx) (a : A) :
  m c = Some (a, c1) -> bind m f c = f a c1.
Proof. intro H. unfold bind. rewrite H. reflexivity. Qed.

Lemma preserves_ret {A : Type} (I : RunState -> Prop) (a : A) : preserves I (ret a).
Proof. intros c x c' HI H. inversion H; subst. exact HI. Qed.

Lemma preserves_throw {A : Type} (I : RunState -> Prop) : preserves I (@throw G A).
Proof. intros c x c' HI H. discriminate. Qed.

Lemma preserves_orThrow {A : Type} (I : RunState -> Prop) (o : option A) :
  preserves I (orThrow o).
Proof. destruct o; [apply preserves_ret | apply preserves_throw]. Qed.

Lemma preserves_bind {A B : Type} (I : RunState -> Prop) (m : M A) (f : A -> M B) :
  preserves I m -> (forall a : A, preserves I (f a)) -> preserves I (bind m f).
Proof.
  intros Hm Hf c b c' HI H.
  destruct (bind_inv m f c b c' H) as (a & c1 & H1 & H2).
  exact (Hf a c1 b c' (Hm c a c1 HI H1) H2).
Qed.

Lemma preserves_getState (I : RunState -> Prop) : preserves I getState.
Proof. intros c x c' HI H. inversion H; subst. exact HI. Qed.

Lemma preserves_rng (I : RunState -> Prop) : preserves I rng.
Proof.
  intros c x c' HI H. unfold rng in H.
  destruct (rng_next (c_rng c)). inversion H; subst. exact HI.
Qed.

Lemma preserves_addLog (I : RunState -> Prop) (msg : LogMsg) : preserves I (addLog msg).
Proof. intros c x c' HI H. inversion H; subst. exact HI. Qed.

Lemma preserves_modify (I : RunState -> Prop) (f : RunState -> RunState) :
  (forall s : RunState, I s -> I (f s)) -> preserves I (modify f).
Proof. intros Hf c x c' HI H. inversion H; subst. cbn. apply Hf. exact HI. Qed.

Lemma preserves_mapM {A B : Type} (I : RunState -> Prop) (f : A -> M B) (l : list A) :
  (forall a : A, preserves I (f a)) -> preserves I (mapM f l).
Proof.
  intro Hf. induction l as [|a rest IH]; cbn [mapM].
  - apply preserves_ret.
  - apply preserves_bind; [apply Hf|]. intro b.
    apply preserves_bind; [exact IH|]. intro bs. apply preserves_ret.
Qed.

Lemma preserves_forM_ {A : Type} (I : RunState -> Prop) (f : A -> M unit) (l : list A) :
  (forall a : A, preserves I (f a)) -> preserves I (forM_ f l).
Proof.
  intro Hf. induction l as [|a rest IH]; cbn [forM_].
  - apply preserves_ret.
  - apply preserves_bind; [apply Hf|]. intros _. exact IH.
Qed.

End Commands.

(** Decomposes a goal [preserves I m] along the structure of [m]; goals
    about [modify] are left as [forall s, I s -> I (f s)]. *)
Ltac preserves_step :=
  lazymatch goal with
  | |- preserves _ (bind _ _) => apply preserves_bind; [|intro]
  | |- preserves _ (ret _) => apply preserves_ret
  | |- preserves _ throw => apply preserves_throw
  | |- preserves _ (orThrow _) => apply preserves_orThrow
  | |- preserves _ getState => apply preserves_getState
  | |- preserves _ rng => apply preserves_rng
  | |- preserves _ (addLog _) => apply preserves_addLog
  | |- preserves _ (modify _) => apply preserves_modify; intros ? ?
  | |- preserves _ (mapM _ _) => apply preserves_mapM; intro
  | |- preserves _ (forM_ _ _) => apply preserves_forM_; intro
  | |- preserves _ (match ?x with _ => _ end) => destruct x
  | |- preserves _ (let (_, _) := ?x in _) => destruct x
  end.

Ltac preserves_auto := repeat preserves_step.

(** ** Commands that leave the market and the neighborhoods alone *)

(** [I] only looks at [state.market] and [state.neighborhoods]. *)
Definition market_only (I : RunState -> Prop) : Prop :=
  forall s s' : RunState,
    market s' = market s -> neighborhoods s' = neighborhoods s -> I s -> I s'.

Ltac frame_modify HI :=
  lazymatch goal with
  | H : ?I ?s |- ?I _ => apply (HI s); [reflexivity | reflexivity | exact H]
  end.

Section Frame.
Context {G : Generator}.
Variable I : RunState -> Prop.
Hypothesis HI : market_only I.

Lemma randInt_frame (lo hi : Z) : preserves I (randInt lo hi).
Proof. unfold randInt. preserves_auto. Qed.

Lemma makeMaturityYears_frame : preserves I makeMaturityYears.
Proof. unfold makeMaturityYears. preserves_auto. Qed.

Lemma initLeaseForProperty_frame (p : Asset.t) : preserves I (initLeaseForProperty p).
Proof.
  unfold initLeaseForProperty. cbv zeta.
  preserves_step; [preserves_auto|]. preserves_step; [preserves_auto|].
  preserves_step; [apply randInt_frame | preserves_auto].
Qed.

Lemma updateLease_frame (p : Asset.t) : preserves I (updateLease p).
Proof.
  unfold updateLease. destruct (Asset.lease p); [|apply initLeaseForProperty_frame].
  cbv zeta.
  preserves_step; [preserves_auto|]. preserves_step; [preserves_auto|].
  preserves_step; [|preserves_auto].
  preserves_step; [apply randInt_frame | preserves_auto].
Qed.

Lemma updateLeasesOneYear_frame : preserves I updateLeasesOneYear.
Proof.
  unfold updateLeasesOneYear.
  preserves_step; [preserves_auto|].
  preserves_step; [apply preserves_mapM; apply updateLease_frame|].
  preserves_step. frame_modify HI.
Qed.

Lemma processBuildPhase_frame (p : Asset.t) : preserves I (processBuildPhase p).
Proof.
  unfold processBuildPhase. destruct (Asset.build p); [|preserves_auto].
  cbv zeta. preserves_step; [preserves_auto|]. preserves_step; [|preserves_auto].
  preserves_step; [|preserves_auto].
  preserves_step; [preserves_auto|]. preserves_step; [preserves_auto|].
  preserves_step; [apply makeMaturityYears_frame|].
  preserves_step; [apply initLeaseForProperty_frame | preserves_auto].
Qed.

Lemma processBuildPhases_frame : preserves I processBuildPhases.
Proof.
  unfold processBuildPhases.
  preserves_step; [preserves_auto|].
  preserves_step; [apply preserves_mapM; apply processBuildPhase_frame|].
  preserves_step. frame_modify HI.
Qed.

Lemma applyOperatingCashFlow_frame (byId : string -> option ProductType.t) :
  preserves I (applyOperatingCashFlow byId).
Proof.
  unfold applyOperatingCashFlow.
  preserves_step; [preserves_auto|]. preserves_step; [preserves_auto|].
  destruct a0 as [ps totalCF].
  preserves_step; [|preserves_auto]. preserves_step. frame_modify HI.
Qed.

Lemma generateListing_frame (data : Data) (i : Z) : preserves I (generateListing data i).
Proof.
  unfold generateListing. cbv zeta.
  preserves_step; [preserves_auto|]. preserves_step; [preserves_auto|].
  destruct (map ProductType.id (data_productTypes data)); [preserves_auto|].
  preserves_step; [preserves_auto|].
  destruct (filter _ _); preserves_auto.
Qed.

Lemma generateListings_frame (data : Data) : preserves I (generateListings data).
Proof.
  unfold generateListings.
  do 3 (preserves_step; [apply generateListing_frame|]).
  preserves_step. frame_modify HI.
Qed.

Lemma storeAsset_frame (p : Asset.t) : preserves I (storeAsset p).
Proof. unfold storeAsset. preserves_step. frame_modify HI. Qed.

Lemma sellProperty_frame (data : Data) (pid : string) : preserves I (sellProperty data pid).
Proof.
  unfold sellProperty. preserves_step; [preserves_auto|].
  destruct (find _ _); [|preserves_auto]. cbv zeta.
  preserves_step; [preserves_auto|].
  do 3 (preserves_step; [preserves_step; frame_modify HI|]).
  preserves_auto.
Qed.

Lemma renovateProperty_frame (data : Data) (pid : string) :
  preserves I (renovateProperty data pid).
Proof.
  unfold renovateProperty. preserves_step; [preserves_auto|].
  destruct (find _ _); [|preserves_auto]. cbv zeta.
  preserves_step; [preserves_auto|].
  preserves_step; [preserves_auto|].
  preserves_step; [preserves_auto|].
  preserves_step; [preserves_step; frame_modify HI|].
  preserves_step; [apply storeAsset_frame|].
  preserves_step; [preserves_step; frame_modify HI|].
  preserves_auto.
Qed.

Lemma attemptRefi_frame (p : Asset.t) (byId : string -> option ProductType.t) :
  preserves I (attemptRefi p byId).
Proof.
  unfold attemptRefi. cbv zeta.
  preserves_step; [preserves_auto|]. preserves_step; [preserves_auto|].
  preserves_step; [preserves_auto|].
  preserves_step; [apply makeMaturityYears_frame|].
  preserves_step; [|preserves_step].
  - preserves_step; [preserves_step; frame_modify HI|].
    preserves_step; [apply storeAsset_frame|]. preserves_auto.
  - preserves_step; [preserves_step; frame_modify HI|].
    preserves_step; [apply storeAsset_frame|]. preserves_auto.
  - preserves_auto.
Qed.

Lemma resolveMaturity_frame (data : Data) (p : Asset.t) :
  preserves I (resolveMaturity data p).
Proof.
  unfold resolveMaturity.
  preserves_step; [apply attemptRefi_frame|].
  preserves_step; [preserves_auto|].
  preserves_step; [preserves_auto|].
  preserves_step; [apply sellProperty_frame|].
  preserves_step; [preserves_auto|].
  preserves_step; [|preserves_auto].
  preserves_step; [preserves_auto|]. preserves_step. frame_modify HI.
Qed.

Lemma handleMaturities_frame (data : Data) : preserves I (handleMaturities data).
Proof.
  unfold handleMaturities. cbv zeta. preserves_step; [preserves_auto|].
  destruct (filter _ _); [preserves_auto|].
  preserves_step; [preserves_auto|].
  apply preserves_forM_. apply resolveMaturity_frame.
Qed.

Lemma buyListing_frame (listing : Listing.t) : preserves I (buyListing listing).
Proof.
  unfold buyListing. cbv zeta.
  preserves_step; [preserves_step; frame_modify HI|].
  preserves_step; [apply makeMaturityYears_frame|].
  preserves_step; [preserves_auto|].
  preserves_step; [apply initLeaseForProperty_frame|].
  do 2 (preserves_step; [preserves_step; frame_modify HI|]).
  preserves_auto.
Qed.

Lemma startBuild_frame (data : Data) (nid pt : string) :
  preserves I (startBuild data nid pt).
Proof.
  unfold startBuild. cbv zeta.
  preserves_step; [preserves_auto|]. preserves_step; [preserves_auto|].
  preserves_step; [preserves_auto|].
  preserves_step; [preserves_auto|].
  preserves_step; [preserves_auto|].
  preserves_step; [preserves_step; frame_modify HI|].
  preserves_step; [preserves_auto|].
  preserves_step; [preserves_auto|].
  do 2 (preserves_step; [preserves_step; frame_modify HI|]).
  preserves_auto.
Qed.

Lemma pickEvent_frame (events : list Event) : preserves I (pickEvent events).
Proof. unfold pickEvent. preserves_auto. Qed.

End Frame.

(** ** The bounds invariant along a run *)

Definition run_in_bounds (s : RunState) : Prop :=
  market_in_bounds (market s) /\ Forall neighborhood_in_bounds (neighborhoods s).

(** The reference data start every neighborhood inside its domains (its
    demand starts at [baseDemand]). *)
Definition data_in_bounds (data : Data) : Prop :=
  Forall (fun n : Neighborhood =>
            (0.2 <= baseDemand n /\ baseDemand n <= 1.2) /\
            (0.6 <= rentIndex n /\ rentIndex n <= 1.8) /\
            (0.01 <= vacancy n /\ vacancy n <= 0.35) /\
            (0.03 <= Market.capRate n /\ Market.capRate n <= 0.12))
         (data_neighborhoods data).

Lemma run_in_bounds_market_only : market_only run_in_bounds.
Proof.
  intros s s' Hm Hn [H1 H2]. unfold run_in_bounds. rewrite Hm, Hn. split; assumption.
Qed.

Lemma replaceFirst_Forall {A : Type} (P : A -> Prop) (pred : A -> bool) (x : A)
    (l : list A) :
  P x -> Forall P l -> Forall P (replaceFirst pred x l).
Proof.
  intros Hx Hl. induction Hl as [|a rest Ha Hrest IH]; cbn.
  - constructor.
  - destruct (pred a); constructor; assumption.
Qed.

Lemma find_Forall {A : Type} (P : A -> Prop) (pred : A -> bool) (l : list A) (x : A) :
  Forall P l -> find pred l = Some x -> P x.
Proof.
  intros Hl Hf. apply find_some in Hf. destruct Hf as [Hin _].
  rewrite Forall_forall in Hl. apply Hl. exact Hin.
Qed.

Section RunBounds.
Context {G : Generator}.

Lemma applyEvent_in_bounds (event : option Event) :
  preserves run_in_bounds (applyEvent event).
Proof.
  unfold applyEvent. destruct event as [ev|]; [|preserves_auto].
  preserves_step; [preserves_auto|].
  destruct (String.eqb (ev_scope ev) "global").
  - preserves_step. destruct H as [_ Hn]. split; [|exact Hn].
    apply applyEventToMarket_in_bounds.
  - destruct (String.eqb (ev_scope ev) "neighborhood"); [|preserves_auto].
    intros c x c' [Hm Hn] H.
    apply bind_inv in H. destruct H as (s & c1 & H1 & H2).
    inversion H1; subst s c1. clear H1.
    destruct (find _ (neighborhoods (c_state c))) as [n|] eqn:Hfind.
    + inversion H2; subst. cbn. split; [exact Hm|].
      apply replaceFirst_Forall; [|exact Hn].
      apply applyEventToNeighborhood_in_bounds.
      exact (find_Forall _ _ _ _ Hn Hfind).
    + inversion H2; subst. split; assumption.
Qed.

Lemma updateNeighborhoods_in_bounds (l : list Neighborhood) (c : Ctx)
    (ns : list Neighborhood) (c' : Ctx) :
  mapM updateNeighborhood l c = Some (ns, c') ->
  Forall neighborhood_in_bounds ns /\ c_state c' = c_state c.
Proof.
  revert c ns c'. induction l as [|n rest IH]; intros c ns c' H; cbn [mapM] in H.
  - inversion H; subst. split; [constructor | reflexivity].
  - apply bind_inv in H. destruct H as (n' & c1 & H1 & H2).
    apply bind_inv in H2. destruct H2 as (ns' & c2 & H2 & H3).
    inversion H3; subst. apply IH in H2. destruct H2 as [HF Hst].
    unfold updateNeighborhood in H1.
    pose proof (updateNeighborhoodYear_in_bounds n (market (c_state c)) (c_rng c)) as Hb.
    destruct (updateNeighborhoodYear n (market (c_state c)) (c_rng c)) as [[n1 rg] g1].
    inversion H1; subst. cbn in Hb, Hst. split; [constructor; assumption | exact Hst].
Qed.

Lemma applyEvent_market_in_bounds (event : option Event) :
  preserves (fun s => market_in_bounds (market s)) (applyEvent event).
Proof.
  unfold applyEvent. destruct event as [ev|]; [|preserves_auto].
  preserves_step; [preserves_auto|].
  destruct (String.eqb (ev_scope ev) "global").
  - preserves_step. apply applyEventToMarket_in_bounds.
  - destruct (String.eqb (ev_scope ev) "neighborhood"); [|preserves_auto].
    preserves_step; [preserves_auto|].
    destruct (find _ _); [|preserves_auto]. preserves_step. assumption.
Qed.

(** A completed yearly advance ends inside the bounds whatever the state it
    started from: the market and every neighborhood are rewritten by a
    clamping update. *)
Lemma nextYear_establishes_bounds (data : Data) (c c' : Ctx) :
  nextYear data c = Some (tt, c') -> run_in_bounds (c_state c').
Proof.
  pose proof run_in_bounds_market_only as HI.
  unfold nextYear. cbv zeta. intro H.
  apply bind_inv in H. destruct H as (event & c1 & _ & H).
  apply bind_inv in H. destruct H as ([] & c2 & _ & H).
  apply bind_inv in H. destruct H as ([] & c3 & Hmarket & H).
  assert (Hm3 : market_in_bounds (market (c_state c3))).
  { pose proof (updateMarketYear_in_bounds (market (c_state c2)) (c_rng c2)) as Hb.
    destruct (updateMarketYear (market (c_state c2)) (c_rng c2)) as [m' g'].
    inversion Hmarket; subst. exact Hb. }
  apply bind_inv in H. destruct H as ([] & c4 & Hevent & H).
  assert (Hm4 : market_in_bounds (market (c_state c4)))
    by exact (applyEvent_market_in_bounds event c3 tt c4 Hm3 Hevent).
  apply bind_inv in H. destruct H as (s & c5 & H1 & H).
  inversion H1; subst s c5. clear H1.
  apply bind_inv in H. destruct H as (ns & c6 & Hns & H).
  apply updateNeighborhoods_in_bounds in Hns. destruct Hns as [HF Hst].
  apply bind_inv in H. destruct H as ([] & c7 & Hset & H).
  inversion Hset; subst c7. clear Hset.
  assert (Hpre : preserves run_in_bounds
            (bind updateLeasesOneYear (fun _ =>
             bind processBuildPhases (fun _ =>
             bind (handleMaturities data) (fun _ =>
             bind (applyOperatingCashFlow (productTypesById data)) (fun _ =>
             generateListings data)))))).
  { preserves_step; [apply updateLeasesOneYear_frame; exact HI|].
    preserves_step; [apply processBuildPhases_frame; exact HI|].
    preserves_step; [apply handleMaturities_frame; exact HI|].
    preserves_step; [apply applyOperatingCashFlow_frame; exact HI|].
    apply generateListings_frame; exact HI. }
  apply (Hpre _ _ _) in H; [exact H|].
  cbn. rewrite Hst. split; [exact Hm4 | exact HF].
Qed.

Lemma nextYear_in_bounds (data : Data) : preserves run_in_bounds (nextYear data).
Proof.
  intros c [] c' _ H. exact (nextYear_establishes_bounds data c c' H).
Qed.

Lemma perform_in_bounds (data : Data) (a : Action) :
  preserves run_in_bounds (perform data a).
Proof.
  pose proof run_in_bounds_market_only as HI.
  destruct a; cbn [perform].
  - preserves_step; [preserves_auto|].
    destruct (find _ _); [|preserves_auto].
    preserves_step; [apply buyListing_frame; exact HI|].
    preserves_step. frame_modify HI.
  - apply startBuild_frame; exact HI.
  - apply sellProperty_frame; exact HI.
  - apply renovateProperty_frame; exact HI.
  - apply nextYear_in_bounds.
Qed.

Lemma initial_neighborhoods_in_bounds (data : Data) :
  data_in_bounds data ->
  Forall neighborhood_in_bounds
    (map (fun n => mkNeighborhood (Market.id n) (Market.name n) (zoning n) (baseDemand n)
                     (baseDemand n) (rentIndex n) (vacancy n) (Market.capRate n)
                     (scarcity n))
       (data_neighborhoods data)).
Proof.
  unfold data_in_bounds. intro Hdata.
  induction Hdata as [|n rest Hn _ IH]; cbn [map]; constructor;
    [exact Hn | exact IH].
Qed.

Lemma initRun_in_bounds (data : Data) (settings : Settings) (mathRandom : Q) (c : Ctx) :
  data_in_bounds data ->
  initRun data settings mathRandom = Some c -> run_in_bounds (c_state c).
Proof.
  intros Hdata H. unfold initRun in H. cbv zeta in H.
  match type of H with
  | match ?m ?c0 with _ => _ end = _ =>
      destruct (m c0) as [[u c1]|] eqn:Hrun; [|discriminate];
      assert (Hpre : preserves run_in_bounds m)
  end.
  { preserves_step; [preserves_auto|].
    apply generateListings_frame. exact run_in_bounds_market_only. }
  inversion H; subst c1. apply (Hpre _ _ _) in Hrun; [exact Hrun|].
  cbn. split.
  - repeat split; vm_compute; discriminate.
  - apply initial_neighborhoods_in_bounds. exact Hdata.
Qed.

Lemma playRun_in_bounds (data : Data) (settings : Settings) (mathRandom : Q)
    (actions : list Action) (s : RunState) :
  data_in_bounds data ->
  playRun data settings mathRandom actions = Some s -> run_in_bounds s.
Proof.
  intros Hdata H. unfold playRun in H.
  destruct (initRun data settings mathRandom) as [c0|] eqn:Hinit; [|discriminate].
  destruct (forM_ (perform data) actions c0) as [[u c]|] eqn:Hrun; [|discriminate].
  inversion H; subst s.
  apply (preserves_forM_ run_in_bounds (perform data) actions (perform_in_bounds data)
           c0 u c); [|exact Hrun].
  exact (initRun_in_bounds data settings mathRandom c0 Hdata Hinit).
Qed.

End RunBounds.

(** ** A concrete scenario *)

(** Small reference data on which the engine is run: two neighborhoods, two
    product types, one global and one neighborhood-scoped event. *)
Module Scenario.

Definition harbor : Neighborhood :=
  {| Market.id := "harbor"; Market.name := "Harbor"; zoning := ["multifamily"; "hotel"]%string;
     baseDemand := 0.8; demand := 0.8; rentIndex := 1.0; vacancy := 0.08;
     Market.capRate := 0.06; scarcity := 0.5 |}.

Definition midtown : Neighborhood :=
  {| Market.id := "midtown"; Market.name := "Midtown"; zoning := ["office"]%string;
     baseDemand := 0.6; demand := 0.6; rentIndex := 1.2; vacancy := 0.12;
     Market.capRate := 0.07; scarcity := 0.9 |}.

Definition multifamily : ProductType.t :=
  {| ProductType.id := "multifamily"; ProductType.name := "Multifamily";
     ProductType.baseExpenseRatio := 0.35;
     ProductType.build := BuildParams.mk 2 1 0.12 |}.

Definition hotel : ProductType.t :=
  {| ProductType.id := "hotel"; ProductType.name := "Hotel";
     ProductType.baseExpenseRatio := 0.5;
     ProductType.build := BuildParams.mk 2 2 0.2 |}.

Definition rateShock : Event :=
  {| ev_name := "Rate shock"; ev_blurb := "The central bank tightens.";
     ev_scope := "global"; ev_targetNeighborhood := None;
     ev_effects := Some (Effects.mk (Some 0.5) (Some 0.01) (Some (-2)) None None None None) |}.

Definition harborBoom : Event :=
  {| ev_name := "Harbor boom"; ev_blurb := "A new terminal opens.";
     ev_scope := "neighborhood"; ev_targetNeighborhood := Some "harbor"%string;
     ev_effects := Some (Effects.mk None None None (Some 5) None (Some (-1)) None) |}.

Definition data : Data :=
  {| data_neighborhoods := [harbor; midtown];
     data_productTypes := [multifamily; hotel];
     data_events := [rateShock; harborBoom] |}.

Definition settings : Settings := {| seed := Some "tycoon"%string; difficulty := None |}.

End Scenario.

(** C1.  Each of [applyEventToMarket], [applyEventToNeighborhood],
    [updateNeighborhoodYear] and [updateMarketYear] leaves every bounded field
    inside its declared domain (baseRate [[0, 0.12]], spread [[0, 0.08]],
    liquidity [[0.2, 1]], demand [[0.2, 1.2]], rentIndex [[0.6, 1.8]], vacancy
    [[0.01, 0.35]], capRate [[0.03, 0.12]]) for arbitrary event deltas and
    generator outputs; a completed yearly advance ends inside the bounds; and
    every state reached by a run that starts from reference data inside the
    domains satisfies the bounds. *)
Theorem bounds_invariant (G : Generator) :
  (forall (m : Market) (ev : Event), market_in_bounds (applyEventToMarket m ev))
  /\ (forall (n : Neighborhood) (ev : Event),
        neighborhood_in_bounds n -> neighborhood_in_bounds (applyEventToNeighborhood n ev))
  /\ (forall (n : Neighborhood) (m : Market) (g : RngState),
        neighborhood_in_bounds (fst (fst (updateNeighborhoodYear n m g))))
  /\ (forall (m : Market) (g : RngState), market_in_bounds (fst (updateMarketYear m g)))
  /\ (forall (data : Data) (c c' : Ctx),
        nextYear data c = Some (tt, c') -> run_in_bounds (c_state c'))
  /\ (forall (data : Data) (settings : Settings) (mathRandom : Q)
             (actions : list Action) (s : RunState),
        data_in_bounds data ->
        playRun data settings mathRandom actions = Some s ->
        run_in_bounds s).
Proof.
  split; [exact applyEventToMarket_in_bounds|].
  split; [exact applyEventToNeighborhood_in_bounds|].
  split; [exact updateNeighborhoodYear_in_bounds|].
  split; [exact updateMarketYear_in_bounds|].
  split; [exact nextYear_establishes_bounds|].
  exact playRun_in_bounds.
Qed.

Lemma scenario_data_in_bounds : data_in_bounds Scenario.data.
Proof.
  unfold data_in_bounds, Scenario.data. cbn [data_neighborhoods].
  repeat constructor; vm_compute; discriminate.
Defined.

Lemma bounds_invariant_witness :
  neighborhood_in_bounds (applyEventToNeighborhood Scenario.harbor Scenario.harborBoom)
  /\ exists s : RunState,
       playRun (G := Mulberry) Scenario.data Scenario.settings 0 [NextYear] = Some s
       /\ run_in_bounds s.
Proof.
  destruct (bounds_invariant Mulberry) as (_ & Hev & _ & _ & _ & Hrun).
  split.
  - apply Hev. repeat split; vm_compute; discriminate.
  - destruct (playRun (G := Mulberry) Scenario.data Scenario.settings 0 [NextYear])
      as [s|] eqn:E.
    + exists s. split; [reflexivity|].
      exact (Hrun Scenario.data Scenario.settings 0 [NextYear] s scenario_data_in_bounds E).
    + vm_compute in E. discriminate E.
Defined.

(** ** Lease rollover *)

Lemma floor_spec (x : Q) (k : Z) :
  floor x = k <-> inject_Z k <= x /\ x < inject_Z k + 1.
Proof.
  unfold floor. split.
  - intro H. subst k. split; [apply Qfloor_le|].
    pose proof (Qlt_floor x) as Hlt. rewrite inject_Z_plus in Hlt. exact Hlt.
  - intros [Hlo Hhi].
    assert (H1 : (k <= Qfloor x)%Z).
    { rewrite <- (Qfloor_Z k). apply Qfloor_resp_le. exact Hlo. }
    assert (H2 : (Qfloor x < k + 1)%Z).
    { rewrite Zlt_Qlt. rewrite inject_Z_plus.
      apply Qle_lt_trans with x; [apply Qfloor_le | exact Hhi]. }
    lia.
Qed.

(** The value [randInt(min, max)] computes from the generator output [r]. *)
Definition randIntOf (r : Q) (min max : Z) : Z :=
  floor (inject_Z min + r * inject_Z (max - min + 1)).

Lemma randInt_run {G : Generator} (min max : Z) (c : Ctx) :
  randInt min max c
  = Some (randIntOf (fst (rng_next (c_rng c))) min max,
          mkCtx (c_state c) (snd (rng_next (c_rng c))) (c_log c)).
Proof.
  unfold randInt, bind, rng, ret, randIntOf.
  destruct (rng_next (c_rng c)) as [r g']. reflexivity.
Qed.

Lemma randIntOf_range (r : Q) (min max : Z) :
  0 <= r -> r < 1 -> (min <= max)%Z ->
  (min <= randIntOf r min max)%Z /\ (randIntOf r min max <= max)%Z.
Proof.
  intros Hr0 Hr1 Hle.
  destruct (proj1 (floor_spec _ _) (eq_refl (randIntOf r min max))) as [Hlo Hhi].
  fold (randIntOf r min max) in Hlo, Hhi.
  assert (Hw : 0 < inject_Z (max - min + 1)).
  { replace 0 with (inject_Z 0) by reflexivity. rewrite <- Zlt_Qlt. lia. }
  assert (Hw' : inject_Z (max - min + 1) == inject_Z max - inject_Z min + 1).
  { unfold Z.sub. rewrite !inject_Z_plus, inject_Z_opp. reflexivity. }
  split.
  - assert (H : (min < randIntOf r min max + 1)%Z); [|lia].
    rewrite Zlt_Qlt, inject_Z_plus.
    apply Qle_lt_trans with (inject_Z min + r * inject_Z (max - min + 1)); [|exact Hhi].
    assert (0 <= r * inject_Z (max - min + 1)) by (apply Qmult_le_0_compat; lra).
    lra.
  - assert (H : (randIntOf r min max < max + 1)%Z); [|lia].
    rewrite Zlt_Qlt, inject_Z_plus.
    apply Qle_lt_trans with (inject_Z min + r * inject_Z (max - min + 1)); [exact Hlo|].
    assert (r * inject_Z (max - min + 1) < 1 * inject_Z (max - min + 1))
      by (apply Qmult_lt_compat_r; assumption).
    rewrite Hw' in *. change (inject_Z 1) with 1. lra.
Qed.

(** The draw equals [k] exactly when [r * (max - min + 1)] falls in the unit
    cell number [k - min]: every term of the range has a preimage of the same
    length [1 / (max - min + 1)]. *)
Lemma randIntOf_cell (r : Q) (min max k : Z) :
  randIntOf r min max = k
  <-> inject_Z (k - min) <= r * inject_Z (max - min + 1)
      /\ r * inject_Z (max - min + 1) < inject_Z (k - min) + 1.
Proof.
  unfold randIntOf. rewrite floor_spec.
  assert (Hk : inject_Z (k - min) == inject_Z k - inject_Z min).
  { unfold Z.sub. rewrite inject_Z_plus, inject_Z_opp. reflexivity. }
  rewrite Hk. split; intros [H1 H2]; split; lra.
Qed.

Lemma leaseRulesFor_ordered (productType : string) :
  (termMin (leaseRulesFor productType) <= termMax (leaseRulesFor productType))%Z.
Proof.
  unfold leaseRulesFor, LEASE_RULES. cbn [find fst snd].
  repeat (match goal with |- context [String.eqb ?a ?b] => destruct (String.eqb a b) end;
          [cbn; lia|]).
  cbn. lia.
Qed.

Lemma updateLease_run {G : Generator} (c : Ctx) (p : Asset.t) (l : Lease.t)
    (n : Neighborhood) :
  Asset.lease p = Some l ->
  getNeighborhood (c_state c) (Asset.neighborhood p) = Some n ->
  let marketRentIndex := rentIndex n * Asset.rentIndexMult p in
  let roll := clamp (Lease.rollPct l) 0 1 in
  let rules := leaseRulesFor (Asset.productType p) in
  let term := randIntOf (fst (rng_next (c_rng c))) (termMin rules) (termMax rules) in
  updateLease p c
  = if (Lease.yearsRemaining l - 1 <=? 0)%Z then
      Some (Asset.set_lease (Some (Lease.mk term (Lease.rollPct l) marketRentIndex)) p,
            mkCtx (c_state c) (snd (rng_next (c_rng c)))
              (LogLeaseRollover (Asset.name p) term :: c_log c))
    else
      Some (Asset.set_lease
              (Some (Lease.mk (Lease.yearsRemaining l - 1) (Lease.rollPct l)
                       (Lease.leaseRentIndex l * (1 - roll) + marketRentIndex * roll))) p,
            c).
Proof.
  intros Hl Hn. cbv zeta. unfold updateLease. rewrite Hl.
  unfold bind at 1. unfold getState.
  unfold bind at 1. rewrite Hn. unfold orThrow, ret at 1.
  destruct (Lease.yearsRemaining l - 1 <=? 0)%Z; [|reflexivity].
  unfold bind at 1. rewrite randInt_run. reflexivity.
Qed.

Lemma clamp_one (x : Q) : x == 1 -> clamp x 0 1 == 1.
Proof.
  intro H. rewrite clamp_inside; [exact H | rewrite H; discriminate..].
Qed.

Lemma updateLease_state {G : Generator} (p p' : Asset.t) (c c' : Ctx) :
  updateLease p c = Some (p', c') -> c_state c' = c_state c.
Proof.
  intro H.
  exact (updateLease_frame (fun s => s = c_state c) p c p' c' eq_refl H).
Qed.

(** What the yearly pass guarantees for a property whose lease marks fully
    to market. *)
Definition marked_to_market (s : RunState) (p p' : Asset.t) : Prop :=
  forall (l : Lease.t) (n : Neighborhood),
    Asset.lease p = Some l ->
    getNeighborhood s (Asset.neighborhood p) = Some n ->
    Lease.rollPct l == 1 ->
    exists l' : Lease.t,
      Asset.lease p' = Some l'
      /\ Lease.leaseRentIndex l' == rentIndex n * Asset.rentIndexMult p.

Lemma updateLease_marked {G : Generator} (p p' : Asset.t) (c c' : Ctx) :
  updateLease p c = Some (p', c') -> marked_to_market (c_state c) p p'.
Proof.
  intros H l n Hl Hn Hroll.
  rewrite (updateLease_run c p l n Hl Hn) in H. cbv zeta in H.
  destruct (Lease.yearsRemaining l - 1 <=? 0)%Z; inversion H; subst; clear H;
    eexists; (split; [reflexivity|]); cbn [Lease.leaseRentIndex].
  - reflexivity.
  - rewrite (clamp_one _ Hroll). ring.
Qed.

Lemma updateLeases_marked {G : Generator} (ps ps' : list Asset.t) (c c' : Ctx) :
  mapM updateLease ps c = Some (ps', c') ->
  Forall2 (marked_to_market (c_state c)) ps ps' /\ c_state c' = c_state c.
Proof.
  revert ps' c c'. induction ps as [|p rest IH]; intros ps' c c' H; cbn [mapM] in H.
  - inversion H; subst. split; [constructor | reflexivity].
  - apply bind_inv in H. destruct H as (p1 & c1 & H1 & H2).
    apply bind_inv in H2. destruct H2 as (rest' & c2 & H2 & H3).
    inversion H3; subst. clear H3.
    pose proof (updateLease_state _ _ _ _ H1) as Hst.
    apply IH in H2. destruct H2 as [HF Hst2]. rewrite Hst in HF, Hst2.
    split; [|exact Hst2].
    constructor; [exact (updateLease_marked _ _ _ _ H1) | exact HF].
Qed.

(** C3.  For a property with an initialised lease the yearly update blends
    [leaseRentIndex] to [leaseRentIndex * (1 - roll) + marketRentIndex * roll]
    with [roll = clamp(rollPct, 0, 1)] and
    [marketRentIndex = n.rentIndex * p.rentIndexMult], and counts the term
    down; when the term reaches zero or less it is redrawn in the product
    type's [[termMin, termMax]] (each value for a sub-interval of generator
    outputs of the same length) and [leaseRentIndex] becomes exactly
    [marketRentIndex].  With [rollPct = 1] the rent index equals the market
    rent index after every yearly update, for every property of the pass. *)
Theorem lease_rollover (G : Generator) :
  in_unit_interval G ->
  (forall (c : Ctx) (p : Asset.t) (l : Lease.t) (n : Neighborhood),
     Asset.lease p = Some l ->
     getNeighborhood (c_state c) (Asset.neighborhood p) = Some n ->
     let marketRentIndex := rentIndex n * Asset.rentIndexMult p in
     let roll := clamp (Lease.rollPct l) 0 1 in
     let rules := leaseRulesFor (Asset.productType p) in
     let r := fst (rng_next (c_rng c)) in
     exists (l' : Lease.t) (c' : Ctx),
       updateLease p c = Some (Asset.set_lease (Some l') p, c')
       /\ c_state c' = c_state c
       /\ Lease.rollPct l' = Lease.rollPct l
       /\ (0 <= roll /\ roll <= 1)
       /\ ((0 < Lease.yearsRemaining l - 1)%Z ->
             Lease.yearsRemaining l' = (Lease.yearsRemaining l - 1)%Z
             /\ Lease.leaseRentIndex l'
                = Lease.leaseRentIndex l * (1 - roll) + marketRentIndex * roll
             /\ c_rng c' = c_rng c)
       /\ ((Lease.yearsRemaining l - 1 <= 0)%Z ->
             Lease.yearsRemaining l' = randIntOf r (termMin rules) (termMax rules)
             /\ (termMin rules <= Lease.yearsRemaining l' <= termMax rules)%Z
             /\ Lease.leaseRentIndex l' = marketRentIndex
             /\ c_rng c' = snd (rng_next (c_rng c)))
       /\ (Lease.rollPct l == 1 -> Lease.leaseRentIndex l' == marketRentIndex))
  /\ (forall (r : Q) (min max k : Z),
        randIntOf r min max = k
        <-> inject_Z (k - min) <= r * inject_Z (max - min + 1)
            /\ r * inject_Z (max - min + 1) < inject_Z (k - min) + 1)
  /\ (forall (c c' : Ctx),
        updateLeasesOneYear c = Some (tt, c') ->
        Forall2 (marked_to_market (c_state c))
          (properties (c_state c)) (properties (c_state c'))).
Proof.
  intro Hrange. split; [|split].
  - intros c p l n Hl Hn. cbv zeta.
    pose proof (updateLease_run c p l n Hl Hn) as Hrun. cbv zeta in Hrun.
    assert (Hroll : 0 <= clamp (Lease.rollPct l) 0 1 /\ clamp (Lease.rollPct l) 0 1 <= 1)
      by clamp_range.
    destruct (Lease.yearsRemaining l - 1 <=? 0)%Z eqn:Hexp.
    + apply Z.leb_le in Hexp.
      eexists. eexists. split; [exact Hrun|].
      cbn [c_state c_rng Lease.rollPct Lease.yearsRemaining Lease.leaseRentIndex].
      split; [reflexivity|]. split; [reflexivity|]. split; [exact Hroll|].
      split; [intro; lia|]. split.
      * intros _. split; [reflexivity|]. split; [|split; reflexivity].
        destruct (Hrange (c_rng c)) as [H0 H1].
        apply randIntOf_range; [exact H0 | exact H1 | apply leaseRulesFor_ordered].
      * intros _. reflexivity.
    + apply Z.leb_gt in Hexp.
      eexists. eexists. split; [exact Hrun|].
      cbn [c_state c_rng Lease.rollPct Lease.yearsRemaining Lease.leaseRentIndex].
      split; [reflexivity|]. split; [reflexivity|]. split; [exact Hroll|].
      split; [intros _; repeat split|]. split; [intro; lia|].
      intro H1. rewrite (clamp_one _ H1). ring.
  - exact randIntOf_cell.
  - intros c c' H. unfold updateLeasesOneYear in H.
    apply bind_inv in H. destruct H as (s & c1 & H1 & H2).
    inversion H1; subst s c1. clear H1.
    apply bind_inv in H2. destruct H2 as (ps & c2 & H2 & H3).
    apply updateLeases_marked in H2. destruct H2 as [HF Hst].
    inversion H3; subst c'. cbn. exact HF.
Qed.

(** The concrete generator stays in [[0, 1)]. *)
Lemma Mulberry_in_unit_interval : in_unit_interval Mulberry.
Proof.
  intro g. cbn [rng_next Mulberry]. unfold mulberry_step. cbv zeta. cbn [fst].
  set (out := u32 _).
  assert (Hout : (0 <= out < 4294967296)%Z)
    by (subst out; unfold u32; apply Z.mod_pos_bound; reflexivity).
  assert (H0 : 0 <= inject_Z out)
    by (replace 0 with (inject_Z 0) by reflexivity; rewrite <- Zle_Qle; lia).
  assert (H1 : inject_Z out < 4294967296)
    by (replace 4294967296 with (inject_Z 4294967296) by reflexivity;
        rewrite <- Zlt_Qlt; lia).
  split.
  - apply Qle_shift_div_l; [reflexivity | lra].
  - apply Qlt_shift_div_r; [reflexivity | lra].
Qed.

Module ScenarioAssets.
Import Scenario.

(** A stabilised hotel in Harbor whose lease marks fully to market. *)
Definition grandHotel : Asset.t :=
  {| Asset.id := "PL1-0-7"; Asset.name := "Harbor — Hotel";
     Asset.neighborhood := "harbor"; Asset.productType := "hotel";
     Asset.baseNOI := 800000; Asset.rentIndexMult := 1.03;
     Asset.vacancyDelta := 0; Asset.capRateDelta := 0;
     Asset.renoLevel := Some 1%Z; Asset.ltv := Some 0.65;
     Asset.loanBalance := 5000000; Asset.loanRate := 0.06;
     Asset.amortYears := 30; Asset.interestOnly := false;
     Asset.maturityYear := Some 6%Z; Asset.build := None;
     Asset.lease := Some (Lease.mk 3 1.00 0.9) |}.

Definition state0 : RunState :=
  set_properties [grandHotel]
    (set_neighborhoods [harbor; midtown] RUN_DEFAULTS).

Definition ctx0 : Ctx (G := Mulberry) := mkCtx state0 (makeRng (G := Mulberry) (seed settings) 0) [].

End ScenarioAssets.

Lemma lease_rollover_witness :
  exists (l' : Lease.t) (c' : Ctx (G := Mulberry)),
    updateLease ScenarioAssets.grandHotel ScenarioAssets.ctx0
    = Some (Asset.set_lease (Some l') ScenarioAssets.grandHotel, c')
    /\ Lease.yearsRemaining l' = 2%Z
    /\ Lease.leaseRentIndex l' == 1.0 * 1.03.
Proof.
  destruct (lease_rollover Mulberry Mulberry_in_unit_interval) as (Hstep & _ & _).
  destruct (Hstep ScenarioAssets.ctx0 ScenarioAssets.grandHotel (Lease.mk 3 1.00 0.9)
              Scenario.harbor eq_refl eq_refl)
    as (l' & c' & Hrun & _ & _ & _ & Hblend & _ & Hfull).
  exists l', c'. split; [exact Hrun|]. split.
  - apply Hblend. reflexivity.
  - apply Hfull. reflexivity.
Defined.

(** ** Snapshots, the portfolio and the operating cash flow *)

(** The effective vacancy and cap rate of a property in a neighborhood. *)
Definition effectiveVacancy (n : Neighborhood) (p : Asset.t) : Q :=
  clamp (vacancy n + Asset.vacancyDelta p) 0.01 0.40.

Definition effectiveCapRate (n : Neighborhood) (p : Asset.t) : Q :=
  clamp (Market.capRate n + Asset.capRateDelta p) 0.03 0.14.

Lemma computePropertySnapshot_run (s : RunState) (byId : string -> option ProductType.t)
    (p : Asset.t) (n : Neighborhood) (product : ProductType.t) :
  getNeighborhood s (Asset.neighborhood p) = Some n ->
  byId (Asset.productType p) = Some product ->
  computePropertySnapshot s byId p
  = Some (Snapshot.mk n product
            (computeNOI (Asset.baseNOI p) (rentIndexFor p n) (effectiveVacancy n p)
               (ProductType.baseExpenseRatio product))
            (effectiveCapRate n p)
            (valueFromNOI
               (computeNOI (Asset.baseNOI p) (rentIndexFor p n) (effectiveVacancy n p)
                  (ProductType.baseExpenseRatio product))
               (effectiveCapRate n p))
            (annualDebtService (Asset.loanBalance p) (Asset.loanRate p)
               (Asset.amortYears p) (Asset.interestOnly p))).
Proof.
  intros Hn Hp. unfold computePropertySnapshot. rewrite Hn, Hp. reflexivity.
Qed.

Lemma computePropertySnapshot_inv (s : RunState) (byId : string -> option ProductType.t)
    (p : Asset.t) (snap : Snapshot.t) :
  computePropertySnapshot s byId p = Some snap ->
  getNeighborhood s (Asset.neighborhood p) = Some (Snapshot.n snap)
  /\ byId (Asset.productType p) = Some (Snapshot.product snap).
Proof.
  unfold computePropertySnapshot.
  destruct (getNeighborhood s (Asset.neighborhood p)) as [n|]; [|discriminate].
  destruct (byId (Asset.productType p)) as [product|]; [|discriminate].
  intro H. inversion H; subst. split; reflexivity.
Qed.

(** One round of the loop of [computePortfolio] adds the figures of the
    property's snapshot. *)
Definition addSnapshot (acc : Totals.t) (p : Asset.t) (snap : Snapshot.t) : Totals.t :=
  {| Totals.totalValue := Totals.totalValue acc + Snapshot.value snap;
     Totals.totalDebt := Totals.totalDebt acc + Asset.loanBalance p;
     Totals.totalNOI := Totals.totalNOI acc + Snapshot.noi snap;
     Totals.totalCF :=
       Totals.totalCF acc + (Snapshot.noi snap - payment (Snapshot.ds snap));
     Totals.totalDS := Totals.totalDS acc + payment (Snapshot.ds snap) |}.

Lemma portfolioLoop_step (s : RunState) (byId : string -> option ProductType.t)
    (p : Asset.t) (rest : list Asset.t) (acc : Totals.t) :
  portfolioLoop s byId (p :: rest) acc
  = match computePropertySnapshot s byId p with
    | Some snap => portfolioLoop s byId rest (addSnapshot acc p snap)
    | None => None
    end.
Proof.
  cbn [portfolioLoop]. unfold computePropertySnapshot, getNeighborhood, rentIndexFor.
  destruct (find _ (neighborhoods s)) as [n|]; [|reflexivity].
  destruct (byId (Asset.productType p)) as [product|]; reflexivity.
Qed.

(** One round of the loop of [applyOperatingCashFlow] uses the NOI and the
    debt service of the property's snapshot, and nothing else of it. *)
Lemma cashFlowLoop_step (s : RunState) (byId : string -> option ProductType.t)
    (p : Asset.t) (rest : list Asset.t) (totalCF : Q) :
  cashFlowLoop s byId (p :: rest) totalCF
  = match computePropertySnapshot s byId p with
    | Some snap =>
        match cashFlowLoop s byId rest
                (totalCF + (Snapshot.noi snap - payment (Snapshot.ds snap))) with
        | Some (rest', total) =>
            Some (Asset.set_loanBalance
                    (Qmax 0 (Asset.loanBalance p - principal (Snapshot.ds snap))) p
                  :: rest', total)
        | None => None
        end
    | None => None
    end.
Proof.
  cbn [cashFlowLoop]. unfold computePropertySnapshot, getNeighborhood, rentIndexFor.
  destruct (find _ (neighborhoods s)) as [n|]; [|reflexivity].
  destruct (byId (Asset.productType p)) as [product|]; reflexivity.
Qed.

Lemma snapshot_ignores_rentIndexMult (s : RunState)
    (byId : string -> option ProductType.t) (p : Asset.t) (l : Lease.t) (m : Q) :
  Asset.lease p = Some l ->
  computePropertySnapshot s byId (Asset.set_rentIndexMult m p)
  = computePropertySnapshot s byId p.
Proof.
  intro Hl. unfold computePropertySnapshot, rentIndexFor.
  cbn [Asset.set_rentIndexMult Asset.neighborhood Asset.productType Asset.lease
       Asset.baseNOI Asset.vacancyDelta Asset.capRateDelta Asset.loanBalance
       Asset.loanRate Asset.amortYears Asset.interestOnly].
  rewrite Hl. reflexivity.
Qed.

Definition leased (p : Asset.t) : Prop := exists l : Lease.t, Asset.lease p = Some l.

Lemma portfolioLoop_ignores_rentIndexMult (s : RunState)
    (byId : string -> option ProductType.t) (f : Asset.t -> Q) (ps : list Asset.t) :
  Forall leased ps ->
  forall acc : Totals.t,
    portfolioLoop s byId (map (fun p => Asset.set_rentIndexMult (f p) p) ps) acc
    = portfolioLoop s byId ps acc.
Proof.
  intro Hall. induction Hall as [|p rest [l Hl] _ IH]; intro acc; [reflexivity|].
  cbn [map]. rewrite !portfolioLoop_step.
  rewrite (snapshot_ignores_rentIndexMult s byId p l (f p) Hl).
  destruct (computePropertySnapshot s byId p) as [snap|]; [|reflexivity].
  unfold addSnapshot. cbn [Asset.set_rentIndexMult Asset.loanBalance]. apply IH.
Qed.

Lemma cashFlowLoop_ignores_rentIndexMult (s : RunState)
    (byId : string -> option ProductType.t) (f : Asset.t -> Q) (ps : list Asset.t) :
  Forall leased ps ->
  forall totalCF : Q,
    option_map snd
      (cashFlowLoop s byId (map (fun p => Asset.set_rentIndexMult (f p) p) ps) totalCF)
    = option_map snd (cashFlowLoop s byId ps totalCF).
Proof.
  intro Hall. induction Hall as [|p rest [l Hl] _ IH]; intro totalCF; [reflexivity|].
  cbn [map]. rewrite !cashFlowLoop_step.
  rewrite (snapshot_ignores_rentIndexMult s byId p l (f p) Hl).
  destruct (computePropertySnapshot s byId p) as [snap|]; [|reflexivity].
  specialize (IH (totalCF + (Snapshot.noi snap - payment (Snapshot.ds snap)))).
  destruct (cashFlowLoop s byId (map _ rest) _) as [[r1 t1]|];
    destruct (cashFlowLoop s byId rest _) as [[r2 t2]|]; cbn in IH |- *;
    congruence.
Qed.

(** The snapshots of the properties of a loop, in order. *)
Definition snapshotsOf (s : RunState) (byId : string -> option ProductType.t)
    (ps : list Asset.t) (snaps : list Snapshot.t) : Prop :=
  Forall2 (fun p snap => computePropertySnapshot s byId p = Some snap) ps snaps.

Lemma effective_rates_range (n : Neighborhood) (p : Asset.t) :
  (0.01 <= effectiveVacancy n p /\ effectiveVacancy n p <= 0.40)
  /\ (0.03 <= effectiveCapRate n p /\ effectiveCapRate n p <= 0.14).
Proof. unfold effectiveVacancy, effectiveCapRate. split; clamp_range. Qed.

Lemma valueFromNOI_positive_cap (noi capRate : Q) :
  0 < capRate -> Qltb 0 capRate = true /\ valueFromNOI noi capRate = noi / capRate.
Proof.
  intro H. apply Qltb_true in H. unfold valueFromNOI. rewrite H. split; reflexivity.
Qed.

Lemma portfolioLoop_total (s : RunState) (byId : string -> option ProductType.t)
    (ps : list Asset.t) :
  forall acc tot : Totals.t,
    portfolioLoop s byId ps acc = Some tot ->
    exists snaps : list Snapshot.t,
      snapshotsOf s byId ps snaps
      /\ Totals.totalValue tot
         = fold_left (fun v snap => v + Snapshot.value snap) snaps (Totals.totalValue acc)
      /\ Totals.totalNOI tot
         = fold_left (fun v snap => v + Snapshot.noi snap) snaps (Totals.totalNOI acc).
Proof.
  induction ps as [|p rest IH]; intros acc tot H.
  - inversion H; subst. exists []. repeat split. constructor.
  - rewrite portfolioLoop_step in H.
    destruct (computePropertySnapshot s byId p) as [snap|] eqn:Hsnap; [|discriminate].
    destruct (IH _ _ H) as (snaps & HF & Hv & Hn).
    exists (snap :: snaps). split; [constructor; assumption|].
    split; [exact Hv | exact Hn].
Qed.

Lemma cashFlowLoop_total (s : RunState) (byId : string -> option ProductType.t)
    (ps : list Asset.t) :
  forall (totalCF total : Q) (ps' : list Asset.t),
    cashFlowLoop s byId ps totalCF = Some (ps', total) ->
    exists snaps : list Snapshot.t,
      snapshotsOf s byId ps snaps
      /\ total
         = fold_left (fun v snap => v + (Snapshot.noi snap - payment (Snapshot.ds snap)))
             snaps totalCF.
Proof.
  induction ps as [|p rest IH]; intros totalCF total ps' H.
  - inversion H; subst. exists []. split; [constructor | reflexivity].
  - rewrite cashFlowLoop_step in H.
    destruct (computePropertySnapshot s byId p) as [snap|] eqn:Hsnap; [|discriminate].
    destruct (cashFlowLoop s byId rest _) as [[rest' t]|] eqn:Hrest; [|discriminate].
    inversion H; subst. destruct (IH _ _ _ Hrest) as (snaps & HF & Ht).
    exists (snap :: snaps). split; [constructor; assumption | exact Ht].
Qed.

Lemma snapshot_shape (s : RunState) (byId : string -> option ProductType.t)
    (p : Asset.t) (snap : Snapshot.t) :
  computePropertySnapshot s byId p = Some snap ->
  Snapshot.noi snap
  = computeNOI (Asset.baseNOI p) (rentIndexFor p (Snapshot.n snap))
      (effectiveVacancy (Snapshot.n snap) p)
      (ProductType.baseExpenseRatio (Snapshot.product snap))
  /\ Snapshot.capRate snap = effectiveCapRate (Snapshot.n snap) p
  /\ 0.03 <= Snapshot.capRate snap
  /\ Qltb 0 (Snapshot.capRate snap) = true
  /\ Snapshot.value snap = valueFromNOI (Snapshot.noi snap) (Snapshot.capRate snap)
  /\ Snapshot.value snap = Snapshot.noi snap / Snapshot.capRate snap.
Proof.
  intro H.
  destruct (computePropertySnapshot_inv s byId p snap H) as [Hn Hp].
  rewrite (computePropertySnapshot_run s byId p _ _ Hn Hp) in H.
  inversion H as [Hsnap]. clear H.
  destruct (effective_rates_range (Snapshot.n snap) p) as [_ [Hc _]].
  assert (Hpos : 0 < effectiveCapRate (Snapshot.n snap) p)
    by (apply Qlt_le_trans with 0.03; [reflexivity | exact Hc]).
  destruct (valueFromNOI_positive_cap
              (computeNOI (Asset.baseNOI p) (rentIndexFor p (Snapshot.n snap))
                 (effectiveVacancy (Snapshot.n snap) p)
                 (ProductType.baseExpenseRatio (Snapshot.product snap)))
              _ Hpos) as [Hguard Hval].
  rewrite <- Hsnap.
  cbn [Snapshot.noi Snapshot.capRate Snapshot.value Snapshot.n Snapshot.product].
  repeat (split; [first [reflexivity | assumption]|]). exact Hval.
Qed.

(** ** Running commands *)

(** Unfolds the plumbing of a command down to the matches that depend on
    the state and on the generator. *)
Ltac run_monad :=
  cbv beta iota zeta delta
    [bind getState orThrow ret modify addLog rng throw makeMaturityYears storeAsset];
  cbn [c_state c_rng c_log].

Ltac run_monad_in H :=
  cbv beta iota zeta delta
    [bind getState orThrow ret modify addLog rng throw makeMaturityYears storeAsset] in H;
  cbn [c_state c_rng c_log] in H.

(** ** The portfolio panel and the operating pass as wholes *)

(** The loops read the state only through its neighborhoods. *)
Lemma portfolioLoop_state (s s' : RunState) (byId : string -> option ProductType.t)
    (ps : list Asset.t) :
  neighborhoods s = neighborhoods s' ->
  forall acc : Totals.t, portfolioLoop s byId ps acc = portfolioLoop s' byId ps acc.
Proof.
  intro Hn. induction ps as [|p rest IH]; intro acc; [reflexivity|].
  cbn [portfolioLoop]. rewrite Hn.
  destruct (find _ (neighborhoods s')) as [n|]; [|reflexivity].
  destruct (byId (Asset.productType p)) as [product|]; [|reflexivity].
  cbv zeta. apply IH.
Qed.

Lemma cashFlowLoop_state (s s' : RunState) (byId : string -> option ProductType.t)
    (ps : list Asset.t) :
  neighborhoods s = neighborhoods s' ->
  forall totalCF : Q, cashFlowLoop s byId ps totalCF = cashFlowLoop s' byId ps totalCF.
Proof.
  intro Hn. induction ps as [|p rest IH]; intro totalCF; [reflexivity|].
  cbn [cashFlowLoop]. rewrite Hn.
  destruct (find _ (neighborhoods s')) as [n|]; [|reflexivity].
  destruct (byId (Asset.productType p)) as [product|]; [|reflexivity].
  cbv zeta. rewrite IH. reflexivity.
Qed.

(** The NOI of a snapshot is [computeNOI] at the rent index of the lease, or
    at the market rent index when there is no lease. *)
Definition noi_from_lease (p : Asset.t) (snap : Snapshot.t) : Prop :=
  Snapshot.noi snap
  = computeNOI (Asset.baseNOI p)
      (match Asset.lease p with
       | Some l => Lease.leaseRentIndex l
       | None => rentIndex (Snapshot.n snap) * Asset.rentIndexMult p
       end)
      (effectiveVacancy (Snapshot.n snap) p)
      (ProductType.baseExpenseRatio (Snapshot.product snap)).

Lemma snapshot_noi_from_lease (s : RunState) (byId : string -> option ProductType.t)
    (p : Asset.t) (snap : Snapshot.t) :
  computePropertySnapshot s byId p = Some snap -> noi_from_lease p snap.
Proof.
  intro H. unfold noi_from_lease.
  destruct (computePropertySnapshot_inv s byId p snap H) as [Hn Hp].
  rewrite (computePropertySnapshot_run s byId p _ _ Hn Hp) in H.
  inversion H as [Hsnap]. rewrite <- Hsnap at 1. cbn [Snapshot.noi].
  rewrite Hsnap. reflexivity.
Qed.

Lemma snapshotsOf_noi (s : RunState) (byId : string -> option ProductType.t)
    (ps : list Asset.t) (snaps : list Snapshot.t) :
  snapshotsOf s byId ps snaps -> Forall2 noi_from_lease ps snaps.
Proof.
  intro H. induction H as [|p snap ps snaps Hp _ IH]; constructor; [|exact IH].
  exact (snapshot_noi_from_lease s byId p snap Hp).
Qed.

Lemma portfolioLoop_sums (s : RunState) (byId : string -> option ProductType.t)
    (ps : list Asset.t) :
  forall acc tot : Totals.t,
    portfolioLoop s byId ps acc = Some tot ->
    exists snaps : list Snapshot.t,
      snapshotsOf s byId ps snaps
      /\ Totals.totalValue tot
         = fold_left (fun v snap => v + Snapshot.value snap) snaps (Totals.totalValue acc)
      /\ Totals.totalNOI tot
         = fold_left (fun v snap => v + Snapshot.noi snap) snaps (Totals.totalNOI acc)
      /\ Totals.totalCF tot
         = fold_left (fun v snap => v + (Snapshot.noi snap - payment (Snapshot.ds snap)))
             snaps (Totals.totalCF acc).
Proof.
  induction ps as [|p rest IH]; intros acc tot H.
  - inversion H; subst. exists []. repeat split. constructor.
  - rewrite portfolioLoop_step in H.
    destruct (computePropertySnapshot s byId p) as [snap|] eqn:Hsnap; [|discriminate].
    destruct (IH _ _ H) as (snaps & HF & Hv & Hn & Hc).
    exists (snap :: snaps). split; [constructor; assumption|].
    split; [exact Hv|]. split; [exact Hn | exact Hc].
Qed.

Lemma computePortfolio_sums (s : RunState) (byId : string -> option ProductType.t)
    (pf : Portfolio.t) :
  computePortfolio s byId = Some pf ->
  exists snaps : list Snapshot.t,
    snapshotsOf s byId (properties s) snaps
    /\ Portfolio.totalValue pf = fold_left (fun v snap => v + Snapshot.value snap) snaps 0
    /\ Portfolio.totalNOI pf = fold_left (fun v snap => v + Snapshot.noi snap) snaps 0
    /\ Portfolio.totalCF pf
       = fold_left (fun v snap => v + (Snapshot.noi snap - payment (Snapshot.ds snap)))
           snaps 0.
Proof.
  unfold computePortfolio.
  destruct (portfolioLoop s byId (properties s) (Totals.mk 0 0 0 0 0)) as [tot|] eqn:Hloop;
    [|discriminate].
  intro H. inversion H; subst. clear H.
  cbn [Portfolio.totalValue Portfolio.totalNOI Portfolio.totalCF].
  exact (portfolioLoop_sums s byId (properties s) _ tot Hloop).
Qed.

Lemma applyOperatingCashFlow_inv {G : Generator} (byId : string -> option ProductType.t)
    (c c' : Ctx) (u : unit) :
  applyOperatingCashFlow byId c = Some (u, c') ->
  exists (ps' : list Asset.t) (total : Q),
    cashFlowLoop (c_state c) byId (properties (c_state c)) 0 = Some (ps', total)
    /\ c' = mkCtx (set_cash (cash (c_state c) + total) (set_properties ps' (c_state c)))
              (c_rng c) (LogOperatingCashFlow total :: c_log c).
Proof.
  unfold applyOperatingCashFlow. run_monad.
  destruct (cashFlowLoop (c_state c) byId (properties (c_state c)) 0) as [[ps' total]|];
    [|discriminate].
  intro H. inversion H; subst. exists ps', total. split; reflexivity.
Qed.

Lemma applyOperatingCashFlow_sums {G : Generator} (byId : string -> option ProductType.t)
    (c c' : Ctx) (u : unit) :
  applyOperatingCashFlow byId c = Some (u, c') ->
  exists snaps : list Snapshot.t,
    snapshotsOf (c_state c) byId (properties (c_state c)) snaps
    /\ cash (c_state c')
       = cash (c_state c)
         + fold_left (fun v snap => v + (Snapshot.noi snap - payment (Snapshot.ds snap)))
             snaps 0.
Proof.
  intro H. destruct (applyOperatingCashFlow_inv byId c c' u H) as (ps' & total & Hloop & ->).
  destruct (cashFlowLoop_total _ _ _ _ _ _ Hloop) as (snaps & HF & Ht).
  exists snaps. split; [exact HF|]. cbn [c_state cash set_cash]. rewrite Ht. reflexivity.
Qed.

(** The state with the rent multiplier of every property replaced. *)
Definition remarked (f : Asset.t -> Q) (s : RunState) : RunState :=
  set_properties (map (fun p => Asset.set_rentIndexMult (f p) p) (properties s)) s.

(** What the operating pass leaves besides the properties' other fields. *)
Definition balancesOf (r : list Asset.t * Q) : list Q * Q :=
  (map Asset.loanBalance (fst r), snd r).

Lemma cashFlowLoop_balances_ignore_rentIndexMult (s : RunState)
    (byId : string -> option ProductType.t) (f : Asset.t -> Q) (ps : list Asset.t) :
  Forall leased ps ->
  forall totalCF : Q,
    option_map balancesOf
      (cashFlowLoop s byId (map (fun p => Asset.set_rentIndexMult (f p) p) ps) totalCF)
    = option_map balancesOf (cashFlowLoop s byId ps totalCF).
Proof.
  intro Hall. induction Hall as [|p rest [l Hl] _ IH]; intro totalCF; [reflexivity|].
  cbn [map]. rewrite !cashFlowLoop_step.
  rewrite (snapshot_ignores_rentIndexMult s byId p l (f p) Hl).
  destruct (computePropertySnapshot s byId p) as [snap|]; [|reflexivity].
  specialize (IH (totalCF + (Snapshot.noi snap - payment (Snapshot.ds snap)))).
  destruct (cashFlowLoop s byId (map _ rest) _) as [[r1 t1]|];
    destruct (cashFlowLoop s byId rest _) as [[r2 t2]|]; cbn in IH |- *;
    try congruence.
  unfold balancesOf in IH |- *. cbn [fst snd map] in IH |- *.
  inversion IH as [[Hb Ht]].
  cbn [Asset.loanBalance Asset.set_loanBalance Asset.set_rentIndexMult].
  rewrite Hb. reflexivity.
Qed.

Lemma computePortfolio_ignores_rentIndexMult (s : RunState)
    (byId : string -> option ProductType.t) (f : Asset.t -> Q) :
  Forall leased (properties s) ->
  computePortfolio (remarked f s) byId = computePortfolio s byId.
Proof.
  intro Hall. unfold computePortfolio, remarked. cbn [properties set_properties cash].
  rewrite (portfolioLoop_state (set_properties _ s) s) by reflexivity.
  rewrite (portfolioLoop_ignores_rentIndexMult s byId f _ Hall). reflexivity.
Qed.

(** The cash, the loan balances and the log line left by the operating
    pass. *)
Definition operatingOutcome {G : Generator} (r : option (unit * Ctx))
    : option (Q * list Q * list LogMsg) :=
  match r with
  | Some (_, c) =>
      Some (cash (c_state c), map Asset.loanBalance (properties (c_state c)), c_log c)
  | None => None
  end.

Lemma applyOperatingCashFlow_ignores_rentIndexMult {G : Generator}
    (byId : string -> option ProductType.t) (f : Asset.t -> Q) (c : Ctx) :
  Forall leased (properties (c_state c)) ->
  operatingOutcome
    (applyOperatingCashFlow byId (mkCtx (remarked f (c_state c)) (c_rng c) (c_log c)))
  = operatingOutcome (applyOperatingCashFlow byId c).
Proof.
  intro Hall. unfold applyOperatingCashFlow, remarked. run_monad.
  cbn [properties set_properties].
  rewrite (cashFlowLoop_state (set_properties _ (c_state c)) (c_state c)) by reflexivity.
  pose proof (cashFlowLoop_balances_ignore_rentIndexMult (c_state c) byId f _ Hall 0) as H.
  destruct (cashFlowLoop (c_state c) byId (map _ (properties (c_state c))) 0)
    as [[ps1 t1]|];
    destruct (cashFlowLoop (c_state c) byId (properties (c_state c)) 0) as [[ps2 t2]|];
    cbn in H |- *; try congruence.
  inversion H; subst. reflexivity.
Qed.

(** C9.  For a property with an initialised lease the snapshot, the portfolio
    loop and the operating-cash-flow loop all pass [lease.leaseRentIndex] to
    [computeNOI]; [n.rentIndex * p.rentIndexMult] is the rent index only when
    there is no lease; hence changing [rentIndexMult] of leased properties
    changes none of the three results.  So for the functions themselves: the
    NOI, value and cash-flow totals of [computePortfolio], and the cash that
    [applyOperatingCashFlow] credits, are sums over the snapshots of the
    state's properties, each with the NOI of [computeNOI] at the lease's rent
    index; and with every property leased, replacing the rent multipliers
    changes neither the result of [computePortfolio] nor the cash, the loan
    balances and the log left by [applyOperatingCashFlow]. *)
Theorem lease_rent_index_drives_noi :
  (forall (s : RunState) (byId : string -> option ProductType.t) (p : Asset.t)
          (snap : Snapshot.t),
     computePropertySnapshot s byId p = Some snap ->
     Snapshot.noi snap
     = computeNOI (Asset.baseNOI p)
         (match Asset.lease p with
          | Some l => Lease.leaseRentIndex l
          | None => rentIndex (Snapshot.n snap) * Asset.rentIndexMult p
          end)
         (effectiveVacancy (Snapshot.n snap) p)
         (ProductType.baseExpenseRatio (Snapshot.product snap)))
  /\ (forall (s : RunState) (byId : string -> option ProductType.t) (p : Asset.t)
             (rest : list Asset.t) (acc : Totals.t),
        portfolioLoop s byId (p :: rest) acc
        = match computePropertySnapshot s byId p with
          | Some snap => portfolioLoop s byId rest (addSnapshot acc p snap)
          | None => None
          end)
  /\ (forall (s : RunState) (byId : string -> option ProductType.t) (p : Asset.t)
             (rest : list Asset.t) (totalCF : Q),
        cashFlowLoop s byId (p :: rest) totalCF
        = match computePropertySnapshot s byId p with
          | Some snap =>
              match cashFlowLoop s byId rest
                      (totalCF + (Snapshot.noi snap - payment (Snapshot.ds snap))) with
              | Some (rest', total) =>
                  Some (Asset.set_loanBalance
                          (Qmax 0 (Asset.loanBalance p - principal (Snapshot.ds snap))) p
                        :: rest', total)
              | None => None
              end
          | None => None
          end)
  /\ (forall (s : RunState) (byId : string -> option ProductType.t) (p : Asset.t)
             (l : Lease.t) (m : Q),
        Asset.lease p = Some l ->
        computePropertySnapshot s byId (Asset.set_rentIndexMult m p)
        = computePropertySnapshot s byId p)
  /\ (forall (s : RunState) (byId : string -> option ProductType.t)
             (f : Asset.t -> Q) (ps : list Asset.t) (acc : Totals.t) (totalCF : Q),
        Forall leased ps ->
        portfolioLoop s byId (map (fun p => Asset.set_rentIndexMult (f p) p) ps) acc
        = portfolioLoop s byId ps acc
        /\ option_map snd
             (cashFlowLoop s byId (map (fun p => Asset.set_rentIndexMult (f p) p) ps)
                totalCF)
           = option_map snd (cashFlowLoop s byId ps totalCF))
  /\ (forall (s : RunState) (byId : string -> option ProductType.t) (pf : Portfolio.t),
        computePortfolio s byId = Some pf ->
        exists snaps : list Snapshot.t,
          snapshotsOf s byId (properties s) snaps
          /\ Forall2 noi_from_lease (properties s) snaps
          /\ Portfolio.totalNOI pf
             = fold_left (fun v snap => v + Snapshot.noi snap) snaps 0
          /\ Portfolio.totalValue pf
             = fold_left (fun v snap => v + Snapshot.value snap) snaps 0
          /\ Portfolio.totalCF pf
             = fold_left
                 (fun v snap => v + (Snapshot.noi snap - payment (Snapshot.ds snap)))
                 snaps 0)
  /\ (forall (G : Generator) (byId : string -> option ProductType.t) (c c' : Ctx)
             (u : unit),
        applyOperatingCashFlow byId c = Some (u, c') ->
        exists snaps : list Snapshot.t,
          snapshotsOf (c_state c) byId (properties (c_state c)) snaps
          /\ Forall2 noi_from_lease (properties (c_state c)) snaps
          /\ cash (c_state c')
             = cash (c_state c)
               + fold_left
                   (fun v snap => v + (Snapshot.noi snap - payment (Snapshot.ds snap)))
                   snaps 0)
  /\ (forall (s : RunState) (byId : string -> option ProductType.t) (f : Asset.t -> Q),
        Forall leased (properties s) ->
        computePortfolio (remarked f s) byId = computePortfolio s byId)
  /\ (forall (G : Generator) (byId : string -> option ProductType.t) (f : Asset.t -> Q)
             (c : Ctx),
        Forall leased (properties (c_state c)) ->
        operatingOutcome
          (applyOperatingCashFlow byId
             (mkCtx (remarked f (c_state c)) (c_rng c) (c_log c)))
        = operatingOutcome (applyOperatingCashFlow byId c)).
Proof.
  split; [|split; [|split; [|split; [|split; [|split; [|split; [|split]]]]]]].
  - intros s byId p snap H.
    destruct (computePropertySnapshot_inv s byId p snap H) as [Hn Hp].
    rewrite (computePropertySnapshot_run s byId p _ _ Hn Hp) in H.
    inversion H as [Hsnap]. rewrite <- Hsnap at 1. cbn [Snapshot.noi].
    rewrite Hsnap. reflexivity.
  - exact portfolioLoop_step.
  - exact cashFlowLoop_step.
  - exact snapshot_ignores_rentIndexMult.
  - intros s byId f ps acc totalCF Hall. split.
    + apply portfolioLoop_ignores_rentIndexMult. exact Hall.
    + apply cashFlowLoop_ignores_rentIndexMult. exact Hall.
  - intros s byId pf H.
    destruct (computePortfolio_sums s byId pf H) as (snaps & HF & Hv & Hn & Hc).
    exists snaps. split; [exact HF|]. split; [exact (snapshotsOf_noi _ _ _ _ HF)|].
    split; [exact Hn|]. split; [exact Hv | exact Hc].
  - intros G byId c c' u H.
    destruct (applyOperatingCashFlow_sums byId c c' u H) as (snaps & HF & Hc).
    exists snaps. split; [exact HF|]. split; [exact (snapshotsOf_noi _ _ _ _ HF) | exact Hc].
  - exact computePortfolio_ignores_rentIndexMult.
  - intros G byId f c. apply applyOperatingCashFlow_ignores_rentIndexMult.
Qed.

Lemma lease_rent_index_drives_noi_witness :
  exists snap : Snapshot.t,
    computePropertySnapshot ScenarioAssets.state0 (productTypesById Scenario.data)
      ScenarioAssets.grandHotel = Some snap
    /\ Snapshot.noi snap
       = computeNOI 800000 0.9 (effectiveVacancy Scenario.harbor ScenarioAssets.grandHotel) 0.5
    /\ computePropertySnapshot ScenarioAssets.state0 (productTypesById Scenario.data)
         (Asset.set_rentIndexMult 1.35 ScenarioAssets.grandHotel) = Some snap.
Proof.
  destruct lease_rent_index_drives_noi as (Hnoi & _ & _ & Hmult & _).
  eexists. split; [reflexivity|]. split.
  - exact (Hnoi ScenarioAssets.state0 (productTypesById Scenario.data)
             ScenarioAssets.grandHotel _ eq_refl).
  - exact (Hmult ScenarioAssets.state0 (productTypesById Scenario.data)
             ScenarioAssets.grandHotel (Lease.mk 3 1.00 0.9) 1.35 eq_refl).
Defined.

(** ** The operating pass and the cap rate *)

(** A property with another cap-rate adjustment, a neighborhood with another
    cap rate, and the state with both replaced throughout. *)
Definition withCapRateDelta (v : Q) (p : Asset.t) : Asset.t :=
  Asset.mk (Asset.id p) (Asset.name p) (Asset.neighborhood p) (Asset.productType p)
    (Asset.baseNOI p) (Asset.rentIndexMult p) (Asset.vacancyDelta p) v
    (Asset.renoLevel p) (Asset.ltv p) (Asset.loanBalance p) (Asset.loanRate p)
    (Asset.amortYears p) (Asset.interestOnly p) (Asset.maturityYear p) (Asset.build p)
    (Asset.lease p).

Definition withCapRate (v : Q) (n : Neighborhood) : Neighborhood :=
  mkNeighborhood (Market.id n) (Market.name n) (zoning n) (baseDemand n) (demand n)
    (rentIndex n) (vacancy n) v (scarcity n).

Definition recapped (f : Asset.t -> Q) (g : Neighborhood -> Q) (s : RunState) : RunState :=
  set_neighborhoods (map (fun n => withCapRate (g n) n) (neighborhoods s))
    (set_properties (map (fun p => withCapRateDelta (f p) p) (properties s)) s).

Lemma find_recapped (g : Neighborhood -> Q) (nid : string) (ns : list Neighborhood) :
  find (fun x => String.eqb (Market.id x) nid) (map (fun n => withCapRate (g n) n) ns)
  = option_map (fun n => withCapRate (g n) n)
      (find (fun x => String.eqb (Market.id x) nid) ns).
Proof.
  induction ns as [|n rest IH]; [reflexivity|].
  cbn [map find withCapRate Market.id].
  destruct (String.eqb (Market.id n) nid); [reflexivity | exact IH].
Qed.

Lemma cashFlowLoop_ignores_cap_rates (s : RunState)
    (byId : string -> option ProductType.t) (f : Asset.t -> Q) (g : Neighborhood -> Q)
    (ps : list Asset.t) :
  forall totalCF : Q,
    option_map balancesOf
      (cashFlowLoop (recapped f g s) byId (map (fun p => withCapRateDelta (f p) p) ps)
         totalCF)
    = option_map balancesOf (cashFlowLoop s byId ps totalCF).
Proof.
  induction ps as [|p rest IH]; intro totalCF; [reflexivity|].
  cbn [map cashFlowLoop].
  unfold recapped at 1. cbn [neighborhoods set_neighborhoods].
  rewrite find_recapped.
  cbn [withCapRateDelta Asset.neighborhood Asset.productType].
  destruct (find _ (neighborhoods s)) as [n|]; [|reflexivity].
  cbn [option_map].
  destruct (byId (Asset.productType p)) as [product|]; [|reflexivity].
  cbv zeta.
  cbn [withCapRate rentIndex vacancy Asset.baseNOI Asset.lease Asset.rentIndexMult
       Asset.vacancyDelta Asset.loanBalance Asset.loanRate Asset.amortYears
       Asset.interestOnly Asset.set_loanBalance].
  match goal with |- context [cashFlowLoop s byId rest ?t] => specialize (IH t) end.
  destruct (cashFlowLoop (recapped f g s) byId (map _ rest) _) as [[r1 t1]|];
    destruct (cashFlowLoop s byId rest _) as [[r2 t2]|]; cbn in IH |- *;
    try congruence.
  unfold balancesOf in IH |- *. cbn [fst snd map] in IH |- *.
  inversion IH as [[Hb Ht]].
  cbn [Asset.loanBalance Asset.set_loanBalance]. rewrite Hb. reflexivity.
Qed.

Lemma applyOperatingCashFlow_ignores_cap_rates {G : Generator}
    (byId : string -> option ProductType.t) (f : Asset.t -> Q) (g : Neighborhood -> Q)
    (c : Ctx) :
  operatingOutcome
    (applyOperatingCashFlow byId (mkCtx (recapped f g (c_state c)) (c_rng c) (c_log c)))
  = operatingOutcome (applyOperatingCashFlow byId c).
Proof.
  unfold applyOperatingCashFlow. run_monad.
  pose proof (cashFlowLoop_ignores_cap_rates (c_state c) byId f g
                (properties (c_state c)) 0) as H.
  change (properties (recapped f g (c_state c)))
    with (map (fun p => withCapRateDelta (f p) p) (properties (c_state c))).
  destruct (cashFlowLoop (recapped f g (c_state c)) byId _ 0) as [[ps1 t1]|];
    destruct (cashFlowLoop (c_state c) byId (properties (c_state c)) 0) as [[ps2 t2]|];
    cbn in H |- *; try congruence.
  inversion H; subst. reflexivity.
Qed.

(** What a snapshot is computed from. *)
Definition clamped_snapshot (p : Asset.t) (snap : Snapshot.t) : Prop :=
  Snapshot.noi snap
  = computeNOI (Asset.baseNOI p) (rentIndexFor p (Snapshot.n snap))
      (effectiveVacancy (Snapshot.n snap) p)
      (ProductType.baseExpenseRatio (Snapshot.product snap))
  /\ Snapshot.capRate snap = effectiveCapRate (Snapshot.n snap) p
  /\ 0.03 <= Snapshot.capRate snap
  /\ Qltb 0 (Snapshot.capRate snap) = true
  /\ Snapshot.value snap = valueFromNOI (Snapshot.noi snap) (Snapshot.capRate snap)
  /\ Snapshot.value snap = Snapshot.noi snap / Snapshot.capRate snap.

Lemma snapshotsOf_clamped (s : RunState) (byId : string -> option ProductType.t)
    (ps : list Asset.t) (snaps : list Snapshot.t) :
  snapshotsOf s byId ps snaps -> Forall2 clamped_snapshot ps snaps.
Proof.
  intro H. induction H as [|p snap ps snaps Hp _ IH]; constructor; [|exact IH].
  exact (snapshot_shape s byId p snap Hp).
Qed.

(** The NOI and the debt service that the operating pass computes for a
    property: the effective vacancy is clamped, and no cap rate appears. *)
Definition operating_figures (p : Asset.t) (snap : Snapshot.t) : Prop :=
  Snapshot.noi snap
  = computeNOI (Asset.baseNOI p) (rentIndexFor p (Snapshot.n snap))
      (effectiveVacancy (Snapshot.n snap) p)
      (ProductType.baseExpenseRatio (Snapshot.product snap))
  /\ (0.01 <= effectiveVacancy (Snapshot.n snap) p
      /\ effectiveVacancy (Snapshot.n snap) p <= 0.40)
  /\ Snapshot.ds snap
     = annualDebtService (Asset.loanBalance p) (Asset.loanRate p) (Asset.amortYears p)
         (Asset.interestOnly p).

Lemma snapshotsOf_operating (s : RunState) (byId : string -> option ProductType.t)
    (ps : list Asset.t) (snaps : list Snapshot.t) :
  snapshotsOf s byId ps snaps -> Forall2 operating_figures ps snaps.
Proof.
  intro H. induction H as [|p snap ps snaps Hp _ IH]; constructor; [|exact IH].
  split; [exact (proj1 (snapshot_shape s byId p snap Hp))|].
  split; [exact (proj1 (effective_rates_range (Snapshot.n snap) p))|].
  destruct (computePropertySnapshot_inv s byId p snap Hp) as [Hn Hpt].
  rewrite (computePropertySnapshot_run s byId p _ _ Hn Hpt) in Hp.
  inversion Hp as [Hsnap]. reflexivity.
Qed.

(** The domains of the effective rates are wider than the neighborhood's:
    for a neighborhood inside its bounds the clamps leave room for a vacancy
    adjustment of up to 0.05 and a cap-rate adjustment of up to 0.02. *)
Lemma effective_rates_headroom (n : Neighborhood) (p : Asset.t) :
  neighborhood_in_bounds n ->
  (0 <= Asset.vacancyDelta p -> Asset.vacancyDelta p <= 0.05 ->
   effectiveVacancy n p == vacancy n + Asset.vacancyDelta p)
  /\ (0 <= Asset.capRateDelta p -> Asset.capRateDelta p <= 0.02 ->
      effectiveCapRate n p == Market.capRate n + Asset.capRateDelta p).
Proof.
  intros (_ & _ & [Hv0 Hv1] & [Hc0 Hc1]). unfold effectiveVacancy, effectiveCapRate.
  split; intros H0 H1; apply clamp_inside; lra.
Qed.

(** C10.  Snapshots and the portfolio aggregation clamp the effective vacancy
    into [[0.01, 0.40]] and the effective cap rate into [[0.03, 0.14]]: every
    snapshot is computed from them, its cap rate is at least 0.03, the guard
    [capRate > 0] of [valueFromNOI] holds and its value is [noi / capRate];
    the totals of [computePortfolio] are sums over such snapshots of the
    state's properties.  Both domains are wider than the neighborhood's own
    ([[0.01, 0.35]] and [[0.03, 0.12]]).  [applyOperatingCashFlow] clamps the
    effective vacancy
    the same way and credits the sum of NOI less debt service, but it computes
    no cap rate and no value: the cash, the loan balances and the log it
    leaves are the same whatever the cap rates of the neighborhoods and the
    cap-rate adjustments of the properties. *)
Theorem effective_rates_clamped :
  (forall (n : Neighborhood) (p : Asset.t),
     (0.01 <= effectiveVacancy n p /\ effectiveVacancy n p <= 0.40)
     /\ (0.03 <= effectiveCapRate n p /\ effectiveCapRate n p <= 0.14))
  /\ (forall (s : RunState) (byId : string -> option ProductType.t) (p : Asset.t)
             (snap : Snapshot.t),
        computePropertySnapshot s byId p = Some snap ->
        Snapshot.noi snap
        = computeNOI (Asset.baseNOI p) (rentIndexFor p (Snapshot.n snap))
            (effectiveVacancy (Snapshot.n snap) p)
            (ProductType.baseExpenseRatio (Snapshot.product snap))
        /\ Snapshot.capRate snap = effectiveCapRate (Snapshot.n snap) p
        /\ 0.03 <= Snapshot.capRate snap
        /\ Qltb 0 (Snapshot.capRate snap) = true
        /\ Snapshot.value snap = valueFromNOI (Snapshot.noi snap) (Snapshot.capRate snap)
        /\ Snapshot.value snap = Snapshot.noi snap / Snapshot.capRate snap)
  /\ (forall (s : RunState) (byId : string -> option ProductType.t) (ps : list Asset.t)
             (acc tot : Totals.t),
        portfolioLoop s byId ps acc = Some tot ->
        exists snaps : list Snapshot.t,
          snapshotsOf s byId ps snaps
          /\ Totals.totalValue tot
             = fold_left (fun v snap => v + Snapshot.value snap) snaps
                 (Totals.totalValue acc)
          /\ Totals.totalNOI tot
             = fold_left (fun v snap => v + Snapshot.noi snap) snaps
                 (Totals.totalNOI acc))
  /\ (forall (s : RunState) (byId : string -> option ProductType.t) (ps ps' : list Asset.t)
             (totalCF total : Q),
        cashFlowLoop s byId ps totalCF = Some (ps', total) ->
        exists snaps : list Snapshot.t,
          snapshotsOf s byId ps snaps
          /\ total
             = fold_left
                 (fun v snap => v + (Snapshot.noi snap - payment (Snapshot.ds snap)))
                 snaps totalCF)
  /\ (forall (s : RunState) (byId : string -> option ProductType.t) (pf : Portfolio.t),
        computePortfolio s byId = Some pf ->
        exists snaps : list Snapshot.t,
          snapshotsOf s byId (properties s) snaps
          /\ Forall2 clamped_snapshot (properties s) snaps
          /\ Portfolio.totalValue pf
             = fold_left (fun v snap => v + Snapshot.value snap) snaps 0
          /\ Portfolio.totalNOI pf
             = fold_left (fun v snap => v + Snapshot.noi snap) snaps 0)
  /\ (forall (G : Generator) (byId : string -> option ProductType.t) (c c' : Ctx)
             (u : unit),
        applyOperatingCashFlow byId c = Some (u, c') ->
        exists snaps : list Snapshot.t,
          snapshotsOf (c_state c) byId (properties (c_state c)) snaps
          /\ Forall2 operating_figures (properties (c_state c)) snaps
          /\ cash (c_state c')
             = cash (c_state c)
               + fold_left
                   (fun v snap => v + (Snapshot.noi snap - payment (Snapshot.ds snap)))
                   snaps 0)
  /\ (forall (G : Generator) (byId : string -> option ProductType.t) (f : Asset.t -> Q)
             (g : Neighborhood -> Q) (c : Ctx),
        operatingOutcome
          (applyOperatingCashFlow byId
             (mkCtx (recapped f g (c_state c)) (c_rng c) (c_log c)))
        = operatingOutcome (applyOperatingCashFlow byId c))
  /\ (forall (n : Neighborhood) (p : Asset.t),
        neighborhood_in_bounds n ->
        (0 <= Asset.vacancyDelta p -> Asset.vacancyDelta p <= 0.05 ->
         effectiveVacancy n p == vacancy n + Asset.vacancyDelta p)
        /\ (0 <= Asset.capRateDelta p -> Asset.capRateDelta p <= 0.02 ->
            effectiveCapRate n p == Market.capRate n + Asset.capRateDelta p)).
Proof.
  split; [exact effective_rates_range|].
  split; [|split; [|split; [|split; [|split; [|split]]]]].
  - exact snapshot_shape.
  - exact portfolioLoop_total.
  - intros s byId ps ps' totalCF total. apply cashFlowLoop_total.
  - intros s byId pf H.
    destruct (computePortfolio_sums s byId pf H) as (snaps & HF & Hv & Hn & _).
    exists snaps. split; [exact HF|]. split; [exact (snapshotsOf_clamped _ _ _ _ HF)|].
    split; [exact Hv | exact Hn].
  - intros G byId c c' u H.
    destruct (applyOperatingCashFlow_sums byId c c' u H) as (snaps & HF & Hc).
    exists snaps. split; [exact HF|].
    split; [exact (snapshotsOf_operating _ _ _ _ HF) | exact Hc].
  - intros G byId f g c. apply applyOperatingCashFlow_ignores_cap_rates.
  - exact effective_rates_headroom.
Qed.


Lemma effective_rates_clamped_witness :
  exists snap : Snapshot.t,
    computePropertySnapshot ScenarioAssets.state0 (productTypesById Scenario.data)
      ScenarioAssets.grandHotel = Some snap
    /\ 0.03 <= Snapshot.capRate snap
    /\ Snapshot.value snap = Snapshot.noi snap / Snapshot.capRate snap.
Proof.
  destruct effective_rates_clamped as (_ & Hsnap & _ & _).
  eexists. split; [reflexivity|].
  destruct (Hsnap ScenarioAssets.state0 (productTypesById Scenario.data)
              ScenarioAssets.grandHotel _ eq_refl) as (_ & _ & Hcap & _ & _ & Hval).
  split; [exact Hcap | exact Hval].
Defined.

(** The operating pass reads no cap rate.  With the hotel's cap-rate
    adjustment raised from 0 to 0.02 and every cap rate set to 0.09,
    the effective cap rate moves from 0.06 to 0.11 and the value of the
    snapshot with it, while the operating pass leaves the same cash, loan
    balances and log. *)
Lemma operating_pass_reads_no_cap_rate :
  let byId := productTypesById Scenario.data in
  let recap := recapped (fun _ => 0.02) (fun _ => 0.09) in
  (effectiveCapRate Scenario.harbor ScenarioAssets.grandHotel == 0.06
   /\ effectiveCapRate (withCapRate 0.09 Scenario.harbor)
        (withCapRateDelta 0.02 ScenarioAssets.grandHotel) == 0.11)
  /\ (option_map Snapshot.capRate
        (computePropertySnapshot ScenarioAssets.state0 byId ScenarioAssets.grandHotel)
      = Some (effectiveCapRate Scenario.harbor ScenarioAssets.grandHotel)
      /\ option_map Snapshot.capRate
           (computePropertySnapshot (recap ScenarioAssets.state0) byId
              (withCapRateDelta 0.02 ScenarioAssets.grandHotel))
         = Some (effectiveCapRate (withCapRate 0.09 Scenario.harbor)
                   (withCapRateDelta 0.02 ScenarioAssets.grandHotel)))
  /\ operatingOutcome
       (applyOperatingCashFlow (G := Mulberry) byId
          (mkCtx (recap ScenarioAssets.state0) (c_rng ScenarioAssets.ctx0) []))
     = operatingOutcome (applyOperatingCashFlow byId ScenarioAssets.ctx0)
  /\ operatingOutcome (applyOperatingCashFlow byId ScenarioAssets.ctx0) <> None.
Proof.
  cbv zeta. split; [split; vm_compute; reflexivity|].
  split.
  { split.
    - rewrite (computePropertySnapshot_run ScenarioAssets.state0
                 (productTypesById Scenario.data) ScenarioAssets.grandHotel
                 Scenario.harbor Scenario.hotel eq_refl eq_refl).
      reflexivity.
    - rewrite (computePropertySnapshot_run
                 (recapped (fun _ => 0.02) (fun _ => 0.09) ScenarioAssets.state0)
                 (productTypesById Scenario.data)
                 (withCapRateDelta 0.02 ScenarioAssets.grandHotel)
                 (withCapRate 0.09 Scenario.harbor) Scenario.hotel eq_refl eq_refl).
      reflexivity. }
  split.
  - exact (applyOperatingCashFlow_ignores_cap_rates (productTypesById Scenario.data)
             (fun _ => 0.02) (fun _ => 0.09) ScenarioAssets.ctx0).
  - assert (H : exists r,
               cashFlowLoop ScenarioAssets.state0 (productTypesById Scenario.data)
                 [ScenarioAssets.grandHotel] 0 = Some r).
    { rewrite cashFlowLoop_step.
      rewrite (computePropertySnapshot_run ScenarioAssets.state0
                 (productTypesById Scenario.data) ScenarioAssets.grandHotel
                 Scenario.harbor Scenario.hotel eq_refl eq_refl).
      cbn [cashFlowLoop]. eexists. reflexivity. }
    destruct H as [[ps total] H].
    unfold applyOperatingCashFlow. run_monad.
    change (c_state ScenarioAssets.ctx0) with ScenarioAssets.state0.
    change (properties ScenarioAssets.state0) with [ScenarioAssets.grandHotel].
    rewrite H. cbn [operatingOutcome]. discriminate.
Qed.

(** ** Where rational division agrees with the source *)

(** [computeNOI] divides by [1 - expenseRatio].  The embedding's quotient is
    the source's whenever the divisor is not zero; statements that compare
    values derived from a snapshot are made for product types with an expense
    ratio other than 1. *)
Definition expense_ratio_ok (product : ProductType.t) : Prop :=
  ~ ProductType.baseExpenseRatio product == 1.

Definition expense_ratios_ok (data : Data) : Prop :=
  Forall expense_ratio_ok (data_productTypes data).

(** The total cost drawn by [startBuild] from the generator output [r]. *)
Definition buildCost (n : Neighborhood) (r : Q) : Q :=
  inject_Z (round ((9000000 + r * 9000000) * (1 + scarcity n * 0.35) * rentIndex n / 1000))
  * 1000.

(** The cost of the next renovation level of a property worth [value]. *)
Definition renovationCost (value : Q) (nextLevel : Z) : Q :=
  clamp (value * 0.03 * (1 + inject_Z (nextLevel - 1) * 0.35)) 200000 5000000.

(** The loan a refinance of [p] can raise against a snapshot. *)
Definition refiLoan (snap : Snapshot.t) (p : Asset.t) : Q :=
  Qmax 0 (Snapshot.value snap * ltvOf p).

(** The rate and the balloon year drawn by [attemptRefi]. *)
Definition refiRate (s : RunState) (r : Q) : Q :=
  clamp (baseRate (market s) + spread (market s) + 0.018 + r * 0.01) 0.03 0.18.

Definition maturityYearsOf (r : Q) : Z :=
  if Qltb r 0.45 then 5%Z else if Qltb r 0.75 then 7%Z else 10%Z.

Section NoOps.
Context {G : Generator}.

Lemma startBuild_no_cash (data : Data) (nid pt : string) (c : Ctx) (n : Neighborhood) :
  find (fun x => String.eqb (Market.id x) nid) (neighborhoods (c_state c)) = Some n ->
  existsb (String.eqb pt) (zoning n) = true ->
  cash (c_state c) < buildCost n (fst (rng_next (c_rng c))) * 0.25 ->
  startBuild data nid pt c
  = Some (tt, mkCtx (c_state c) (snd (rng_next (c_rng c)))
                (LogBuildNoCash (buildCost n (fst (rng_next (c_rng c)))) :: c_log c)).
Proof.
  intros Hn Hz Hcash. unfold startBuild. run_monad. rewrite Hn, Hz. cbn [negb].
  destruct (rng_next (c_rng c)) as [r1 g1]. cbn [fst snd] in *.
  apply Qltb_true in Hcash. unfold buildCost in Hcash. rewrite Hcash. reflexivity.
Qed.

Lemma renovateProperty_maxed (data : Data) (pid : string) (c : Ctx) (p : Asset.t) :
  find (hasId pid) (properties (c_state c)) = Some p ->
  (3 <= renoLevelOf p)%Z ->
  renovateProperty data pid c
  = Some (tt, mkCtx (c_state c) (c_rng c) (LogRenoMaxed (Asset.name p) :: c_log c)).
Proof.
  intros Hp Hlevel. unfold renovateProperty. run_monad. rewrite Hp.
  apply Z.leb_le in Hlevel. rewrite Hlevel. reflexivity.
Qed.

Lemma renovateProperty_no_cash (data : Data) (pid : string) (c : Ctx) (p : Asset.t)
    (snap : Snapshot.t) :
  find (hasId pid) (properties (c_state c)) = Some p ->
  (renoLevelOf p < 3)%Z ->
  computePropertySnapshot (c_state c) (productTypesById data) p = Some snap ->
  cash (c_state c) < renovationCost (Snapshot.value snap) (renoLevelOf p + 1) ->
  renovateProperty data pid c
  = Some (tt, mkCtx (c_state c) (c_rng c)
                (LogRenoNoCash (Asset.name p)
                   (renovationCost (Snapshot.value snap) (renoLevelOf p + 1)) :: c_log c)).
Proof.
  intros Hp Hlevel Hsnap Hcash. unfold renovateProperty. run_monad. rewrite Hp.
  apply Z.leb_gt in Hlevel. rewrite Hlevel. rewrite Hsnap.
  apply Qltb_true in Hcash. unfold renovationCost in Hcash. rewrite Hcash. reflexivity.
Qed.

Lemma attemptRefi_failed (p : Asset.t) (byId : string -> option ProductType.t) (c : Ctx)
    (snap : Snapshot.t) :
  computePropertySnapshot (c_state c) byId p = Some snap ->
  refiLoan snap p < Asset.loanBalance p ->
  cash (c_state c) < Asset.loanBalance p - refiLoan snap p ->
  attemptRefi p byId c
  = Some (false,
          mkCtx (c_state c) (snd (rng_next (snd (rng_next (c_rng c)))))
            (LogRefiFailed (Asset.name p) (Asset.loanBalance p - refiLoan snap p)
               (cash (c_state c)) :: c_log c)).
Proof.
  intros Hsnap Hloan Hcash. unfold attemptRefi. run_monad. rewrite Hsnap.
  destruct (rng_next (c_rng c)) as [r1 g1]. run_monad. cbn [fst snd].
  destruct (rng_next g1) as [r2 g2]. run_monad. cbn [fst snd].
  apply Qleb_false in Hloan. unfold refiLoan in Hloan, Hcash. rewrite Hloan.
  apply Qleb_false in Hcash. rewrite Hcash. reflexivity.
Qed.

End NoOps.

(** C8.  When its cash precondition fails, [startBuild] (cash below 25% of
    the drawn cost), [renovateProperty] (cash below the renovation cost, or
    level 3 already reached) and [attemptRefi] (cash below the shortfall)
    leave the run state as it was: cash, the properties and all their fields
    are unchanged, and one line is written to the log. *)
Theorem insufficient_funds_leave_state (G : Generator) :
  (forall (data : Data) (nid pt : string) (c : Ctx) (n : Neighborhood),
     find (fun x => String.eqb (Market.id x) nid) (neighborhoods (c_state c)) = Some n ->
     existsb (String.eqb pt) (zoning n) = true ->
     cash (c_state c) < buildCost n (fst (rng_next (c_rng c))) * 0.25 ->
     exists c' : Ctx,
       startBuild data nid pt c = Some (tt, c')
       /\ c_state c' = c_state c
       /\ c_log c' = LogBuildNoCash (buildCost n (fst (rng_next (c_rng c)))) :: c_log c)
  /\ (forall (data : Data) (pid : string) (c : Ctx) (p : Asset.t),
        find (hasId pid) (properties (c_state c)) = Some p ->
        (3 <= renoLevelOf p)%Z ->
        exists c' : Ctx,
          renovateProperty data pid c = Some (tt, c')
          /\ c_state c' = c_state c
          /\ c_log c' = LogRenoMaxed (Asset.name p) :: c_log c)
  /\ (forall (data : Data) (pid : string) (c : Ctx) (p : Asset.t) (snap : Snapshot.t),
        find (hasId pid) (properties (c_state c)) = Some p ->
        (renoLevelOf p < 3)%Z ->
        computePropertySnapshot (c_state c) (productTypesById data) p = Some snap ->
        expense_ratio_ok (Snapshot.product snap) ->
        cash (c_state c) < renovationCost (Snapshot.value snap) (renoLevelOf p + 1) ->
        exists c' : Ctx,
          renovateProperty data pid c = Some (tt, c')
          /\ c_state c' = c_state c
          /\ c_log c'
             = LogRenoNoCash (Asset.name p)
                 (renovationCost (Snapshot.value snap) (renoLevelOf p + 1)) :: c_log c)
  /\ (forall (p : Asset.t) (byId : string -> option ProductType.t) (c : Ctx)
             (snap : Snapshot.t),
        computePropertySnapshot (c_state c) byId p = Some snap ->
        expense_ratio_ok (Snapshot.product snap) ->
        refiLoan snap p < Asset.loanBalance p ->
        cash (c_state c) < Asset.loanBalance p - refiLoan snap p ->
        exists c' : Ctx,
          attemptRefi p byId c = Some (false, c')
          /\ c_state c' = c_state c
          /\ c_log c'
             = LogRefiFailed (Asset.name p) (Asset.loanBalance p - refiLoan snap p)
                 (cash (c_state c)) :: c_log c).
Proof.
  split; [|split; [|split]].
  - intros data nid pt c n Hn Hz Hcash.
    eexists. split; [exact (startBuild_no_cash data nid pt c n Hn Hz Hcash)|].
    split; reflexivity.
  - intros data pid c p Hp Hlevel.
    eexists. split; [exact (renovateProperty_maxed data pid c p Hp Hlevel)|].
    split; reflexivity.
  - intros data pid c p snap Hp Hlevel Hsnap _ Hcash.
    eexists. split; [exact (renovateProperty_no_cash data pid c p snap Hp Hlevel Hsnap Hcash)|].
    split; reflexivity.
  - intros p byId c snap Hsnap _ Hloan Hcash.
    eexists. split; [exact (attemptRefi_failed p byId c snap Hsnap Hloan Hcash)|].
    split; reflexivity.
Qed.

Module ScenarioNoCash.
Import Scenario ScenarioAssets.

(** The hotel with a balance above what a refinance can raise, and a
    property renovated to the cap. *)
Definition tower : Asset.t :=
  Asset.set_loanBalance 9000000 grandHotel.

Definition palace : Asset.t :=
  {| Asset.id := "PL1-1-9"; Asset.name := "Harbor — Palace";
     Asset.neighborhood := "harbor"; Asset.productType := "hotel";
     Asset.baseNOI := 500000; Asset.rentIndexMult := 1.09;
     Asset.vacancyDelta := 0; Asset.capRateDelta := 0;
     Asset.renoLevel := Some 3%Z; Asset.ltv := Some 0.65;
     Asset.loanBalance := 2000000; Asset.loanRate := 0.06;
     Asset.amortYears := 30; Asset.interestOnly := false;
     Asset.maturityYear := Some 9%Z; Asset.build := None;
     Asset.lease := Some (Lease.mk 1 1.00 1.0) |}.

(** Year 6, no cash in hand. *)
Definition broke : RunState :=
  set_year 6 (set_cash 0 (set_properties [tower; palace] state0)).

Definition ctx : Ctx (G := Mulberry) :=
  mkCtx broke (makeRng (G := Mulberry) (seed settings) 0) [].

End ScenarioNoCash.

Lemma insufficient_funds_leave_state_witness :
  (exists c' : Ctx (G := Mulberry),
     startBuild Scenario.data "harbor" "hotel" ScenarioNoCash.ctx = Some (tt, c')
     /\ c_state c' = ScenarioNoCash.broke)
  /\ (exists c' : Ctx (G := Mulberry),
        renovateProperty Scenario.data "PL1-1-9" ScenarioNoCash.ctx = Some (tt, c')
        /\ c_state c' = ScenarioNoCash.broke)
  /\ (exists c' : Ctx (G := Mulberry),
        renovateProperty Scenario.data "PL1-0-7" ScenarioNoCash.ctx = Some (tt, c')
        /\ c_state c' = ScenarioNoCash.broke)
  /\ (exists c' : Ctx (G := Mulberry),
        attemptRefi ScenarioNoCash.tower (productTypesById Scenario.data) ScenarioNoCash.ctx
        = Some (false, c')
        /\ c_state c' = ScenarioNoCash.broke).
Proof.
  destruct (insufficient_funds_leave_state Mulberry) as (Hbuild & Hmax & Hreno & Hrefi).
  split; [|split; [|split]].
  - destruct (Hbuild Scenario.data "harbor"%string "hotel"%string ScenarioNoCash.ctx
                Scenario.harbor eq_refl eq_refl) as (c' & Hrun & Hst & _).
    + vm_compute. reflexivity.
    + exists c'. split; assumption.
  - destruct (Hmax Scenario.data "PL1-1-9"%string ScenarioNoCash.ctx ScenarioNoCash.palace
                eq_refl) as (c' & Hrun & Hst & _).
    + vm_compute. discriminate.
    + exists c'. split; assumption.
  - edestruct (Hreno Scenario.data "PL1-0-7"%string ScenarioNoCash.ctx ScenarioNoCash.tower)
      as (c' & Hrun & Hst & _).
    + reflexivity.
    + vm_compute. reflexivity.
    + reflexivity.
    + vm_compute. discriminate.
    + vm_compute. reflexivity.
    + exists c'. split; assumption.
  - edestruct (Hrefi ScenarioNoCash.tower (productTypesById Scenario.data) ScenarioNoCash.ctx)
      as (c' & Hrun & Hst & _).
    + reflexivity.
    + vm_compute. discriminate.
    + vm_compute. reflexivity.
    + vm_compute. reflexivity.
    + exists c'. split; assumption.
Defined.

(** ** The maturity pass *)

(** Net proceeds of a sale at the snapshot value: 2% friction, then the loan. *)
Definition saleNet (snap : Snapshot.t) (p : Asset.t) : Q :=
  Snapshot.value snap - Snapshot.value snap * 0.02 - Asset.loanBalance p.

Section Maturity.
Context {G : Generator}.

(** The two generator outputs [attemptRefi] consumes, and what is left. *)
Definition refiDraw1 (c : Ctx) : Q := fst (rng_next (c_rng c)).
Definition refiDraw2 (c : Ctx) : Q := fst (rng_next (snd (rng_next (c_rng c)))).
Definition refiRngAfter (c : Ctx) : RngState := snd (rng_next (snd (rng_next (c_rng c)))).

(** The property after a refinance decided in context [c]. *)
Definition refinancedIn (c : Ctx) (snap : Snapshot.t) (p : Asset.t) : Asset.t :=
  refinanced (refiLoan snap p) (refiRate (c_state c) (refiDraw1 c))
    (year (c_state c) + maturityYearsOf (refiDraw2 c)) p.

Lemma attemptRefi_cash_out (p : Asset.t) (byId : string -> option ProductType.t) (c : Ctx)
    (snap : Snapshot.t) :
  computePropertySnapshot (c_state c) byId p = Some snap ->
  Asset.loanBalance p <= refiLoan snap p ->
  attemptRefi p byId c
  = Some (true,
          mkCtx
            (set_properties
               (replaceFirst (hasId (Asset.id p)) (refinancedIn c snap p)
                  (properties (c_state c)))
               (set_cash (cash (c_state c) + (refiLoan snap p - Asset.loanBalance p))
                  (c_state c)))
            (refiRngAfter c)
            (LogRefiOK (Asset.name p) (refiRate (c_state c) (refiDraw1 c))
               (refiLoan snap p - Asset.loanBalance p)
               (year (c_state c) + maturityYearsOf (refiDraw2 c)) :: c_log c)).
Proof.
  intros Hsnap Hloan. unfold attemptRefi. run_monad. rewrite Hsnap.
  unfold refinancedIn, refiDraw1, refiDraw2, refiRngAfter.
  destruct (rng_next (c_rng c)) as [r1 g1]. run_monad. cbn [fst snd].
  destruct (rng_next g1) as [r2 g2]. run_monad. cbn [fst snd].
  apply Qleb_true in Hloan. unfold refiLoan in Hloan. rewrite Hloan. reflexivity.
Qed.

Lemma attemptRefi_tight (p : Asset.t) (byId : string -> option ProductType.t) (c : Ctx)
    (snap : Snapshot.t) :
  computePropertySnapshot (c_state c) byId p = Some snap ->
  refiLoan snap p < Asset.loanBalance p ->
  Asset.loanBalance p - refiLoan snap p <= cash (c_state c) ->
  attemptRefi p byId c
  = Some (true,
          mkCtx
            (set_properties
               (replaceFirst (hasId (Asset.id p)) (refinancedIn c snap p)
                  (properties (c_state c)))
               (set_cash (cash (c_state c) - (Asset.loanBalance p - refiLoan snap p))
                  (c_state c)))
            (refiRngAfter c)
            (LogRefiTight (Asset.name p) (Asset.loanBalance p - refiLoan snap p)
               (refiRate (c_state c) (refiDraw1 c))
               (year (c_state c) + maturityYearsOf (refiDraw2 c)) :: c_log c)).
Proof.
  intros Hsnap Hloan Hcash. unfold attemptRefi. run_monad. rewrite Hsnap.
  unfold refinancedIn, refiDraw1, refiDraw2, refiRngAfter.
  destruct (rng_next (c_rng c)) as [r1 g1]. run_monad. cbn [fst snd].
  destruct (rng_next g1) as [r2 g2]. run_monad. cbn [fst snd].
  apply Qleb_false in Hloan. unfold refiLoan in Hloan, Hcash. rewrite Hloan.
  apply Qleb_true in Hcash. rewrite Hcash. reflexivity.
Qed.

Lemma sellProperty_run (data : Data) (pid : string) (c : Ctx) (p : Asset.t)
    (snap : Snapshot.t) :
  find (hasId pid) (properties (c_state c)) = Some p ->
  computePropertySnapshot (c_state c) (productTypesById data) p = Some snap ->
  sellProperty data pid c
  = Some (tt,
          mkCtx
            (set_journal
               (journal (c_state c)
                ++ [JSell (year (c_state c)) pid (Snapshot.value snap) (saleNet snap p)])
               (set_properties (removeFirst (hasId pid) (properties (c_state c)))
                  (set_cash (cash (c_state c) + saleNet snap p) (c_state c))))
            (c_rng c)
            (LogSold (Asset.name p) (Snapshot.value snap) (Snapshot.value snap * 0.02)
               (Asset.loanBalance p) (saleNet snap p) :: c_log c)).
Proof.
  intros Hp Hsnap. unfold sellProperty. run_monad. rewrite Hp, Hsnap. reflexivity.
Qed.

(** A completed [attemptRefi] had a snapshot to work from. *)
Lemma attemptRefi_snapshot (p : Asset.t) (byId : string -> option ProductType.t) (c : Ctx)
    (ok : bool) (c' : Ctx) :
  attemptRefi p byId c = Some (ok, c') ->
  exists snap : Snapshot.t, computePropertySnapshot (c_state c) byId p = Some snap.
Proof.
  unfold attemptRefi. run_monad.
  destruct (computePropertySnapshot (c_state c) byId p) as [snap|]; [|discriminate].
  intros _. exists snap. reflexivity.
Qed.

End Maturity.

Section MaturityCases.
Context {G : Generator}.

Lemma resolveMaturity_cash_out (data : Data) (p : Asset.t) (c : Ctx) (snap : Snapshot.t) :
  computePropertySnapshot (c_state c) (productTypesById data) p = Some snap ->
  Asset.loanBalance p <= refiLoan snap p ->
  exists c' : Ctx,
    resolveMaturity data p c = Some (tt, c')
    /\ cash (c_state c') = cash (c_state c) + (refiLoan snap p - Asset.loanBalance p)
    /\ properties (c_state c')
       = replaceFirst (hasId (Asset.id p)) (refinancedIn c snap p) (properties (c_state c)).
Proof.
  intros Hsnap Hloan. unfold resolveMaturity. unfold bind at 1.
  rewrite (attemptRefi_cash_out p (productTypesById data) c snap Hsnap Hloan).
  eexists. split; [reflexivity|]. split; reflexivity.
Qed.

Lemma resolveMaturity_tight (data : Data) (p : Asset.t) (c : Ctx) (snap : Snapshot.t) :
  computePropertySnapshot (c_state c) (productTypesById data) p = Some snap ->
  refiLoan snap p < Asset.loanBalance p ->
  Asset.loanBalance p - refiLoan snap p <= cash (c_state c) ->
  exists c' : Ctx,
    resolveMaturity data p c = Some (tt, c')
    /\ cash (c_state c') = cash (c_state c) - (Asset.loanBalance p - refiLoan snap p)
    /\ properties (c_state c')
       = replaceFirst (hasId (Asset.id p)) (refinancedIn c snap p) (properties (c_state c)).
Proof.
  intros Hsnap Hloan Hcash. unfold resolveMaturity. unfold bind at 1.
  rewrite (attemptRefi_tight p (productTypesById data) c snap Hsnap Hloan Hcash).
  eexists. split; [reflexivity|]. split; reflexivity.
Qed.

Lemma resolveMaturity_forced_sale (data : Data) (p : Asset.t) (c : Ctx)
    (snap : Snapshot.t) :
  find (hasId (Asset.id p)) (properties (c_state c)) = Some p ->
  computePropertySnapshot (c_state c) (productTypesById data) p = Some snap ->
  refiLoan snap p < Asset.loanBalance p ->
  cash (c_state c) < Asset.loanBalance p - refiLoan snap p ->
  exists c' : Ctx,
    resolveMaturity data p c = Some (tt, c')
    /\ properties (c_state c')
       = removeFirst (hasId (Asset.id p)) (properties (c_state c))
    /\ (cash (c_state c) + saleNet snap p < 0 -> cash (c_state c') = 0)
    /\ (0 <= cash (c_state c) + saleNet snap p ->
        cash (c_state c') = cash (c_state c) + saleNet snap p)
    /\ journal (c_state c')
       = journal (c_state c)
         ++ [JSell (year (c_state c)) (Asset.id p) (Snapshot.value snap) (saleNet snap p)].
Proof.
  intros Hp Hsnap Hloan Hcash. unfold resolveMaturity. unfold bind at 1.
  rewrite (attemptRefi_failed p (productTypesById data) c snap Hsnap Hloan Hcash).
  run_monad.
  rewrite (sellProperty_run data (Asset.id p)
             (mkCtx (c_state c) (snd (rng_next (snd (rng_next (c_rng c)))))
                (LogForcedSale (Asset.name p)
                 :: LogRefiFailed (Asset.name p) (Asset.loanBalance p - refiLoan snap p)
                      (cash (c_state c)) :: c_log c))
             p snap Hp Hsnap).
  run_monad. cbn [cash set_journal set_properties set_cash].
  destruct (Qltb (cash (c_state c) + saleNet snap p) 0) eqn:Hneg.
  - eexists. split; [reflexivity|]. cbn. split; [reflexivity|].
    split; [reflexivity|]. split; [|reflexivity].
    intro H. apply Qltb_true in Hneg. exfalso. apply (Qlt_not_le _ _ Hneg H).
  - eexists. split; [reflexivity|]. cbn. split; [reflexivity|].
    split; [|split; reflexivity].
    intro H. apply Qltb_false in Hneg. exfalso. apply (Qlt_not_le _ _ H Hneg).
Qed.

End MaturityCases.

(** *** Properties with another id are not touched *)

Lemma hasId_other (a b : string) (x : Asset.t) :
  Asset.id x = a -> a <> b -> hasId b x = false.
Proof.
  intros Hx Hab. unfold hasId. rewrite Hx. apply String.eqb_neq. exact Hab.
Qed.

Lemma hasId_true (a : string) (x : Asset.t) : hasId a x = true <-> Asset.id x = a.
Proof. unfold hasId. apply String.eqb_eq. Qed.

Lemma find_replaceFirst_other (a b : string) (new : Asset.t) (l : list Asset.t) :
  Asset.id new = a -> a <> b ->
  find (hasId b) (replaceFirst (hasId a) new l) = find (hasId b) l.
Proof.
  intros Hnew Hab. induction l as [|x rest IH]; [reflexivity|].
  cbn [replaceFirst]. destruct (hasId a x) eqn:Hx.
  - apply hasId_true in Hx. cbn [find].
    rewrite (hasId_other a b new Hnew Hab), (hasId_other a b x Hx Hab). reflexivity.
  - cbn [find]. rewrite IH. reflexivity.
Qed.

Lemma find_removeFirst_other (a b : string) (l : list Asset.t) :
  a <> b -> find (hasId b) (removeFirst (hasId a) l) = find (hasId b) l.
Proof.
  intro Hab. induction l as [|x rest IH]; [reflexivity|].
  cbn [removeFirst]. destruct (hasId a x) eqn:Hx.
  - apply hasId_true in Hx. cbn [find].
    rewrite (hasId_other a b x Hx Hab). reflexivity.
  - cbn [find]. rewrite IH. reflexivity.
Qed.

Section OtherIds.
Context {G : Generator}.
Variable b : string.
Variable v : option Asset.t.

Definition other_kept (s : RunState) : Prop := find (hasId b) (properties s) = v.

Lemma storeAsset_other (p' : Asset.t) :
  Asset.id p' <> b -> preserves other_kept (storeAsset p').
Proof.
  intro Hne. unfold storeAsset. preserves_step. unfold other_kept in *.
  cbn [properties set_properties].
  rewrite (find_replaceFirst_other (Asset.id p') b p' _ eq_refl Hne). assumption.
Qed.

Lemma attemptRefi_other (p : Asset.t) (byId : string -> option ProductType.t) :
  Asset.id p <> b -> preserves other_kept (attemptRefi p byId).
Proof.
  intro Hne. unfold attemptRefi. cbv zeta.
  preserves_step; [preserves_auto|]. preserves_step; [preserves_auto|].
  preserves_step; [preserves_auto|].
  preserves_step; [apply makeMaturityYears_frame|].
  preserves_step; [|preserves_step].
  - preserves_step; [preserves_step; assumption|].
    preserves_step; [apply storeAsset_other; exact Hne|]. preserves_auto.
  - preserves_step; [preserves_step; assumption|].
    preserves_step; [apply storeAsset_other; exact Hne|]. preserves_auto.
  - preserves_auto.
Qed.

Lemma sellProperty_other (data : Data) (pid : string) :
  pid <> b -> preserves other_kept (sellProperty data pid).
Proof.
  intro Hne. unfold sellProperty. preserves_step; [preserves_auto|].
  destruct (find _ _); [|preserves_auto]. cbv zeta.
  preserves_step; [preserves_auto|].
  preserves_step; [preserves_step; assumption|].
  preserves_step.
  { preserves_step. unfold other_kept in *. cbn [properties set_properties].
    rewrite (find_removeFirst_other pid b _ Hne). assumption. }
  preserves_step; [preserves_step; assumption|].
  preserves_auto.
Qed.

Lemma resolveMaturity_other (data : Data) (p : Asset.t) :
  Asset.id p <> b -> preserves other_kept (resolveMaturity data p).
Proof.
  intro Hne. unfold resolveMaturity.
  preserves_step; [apply attemptRefi_other; exact Hne|].
  preserves_step; [preserves_auto|].
  preserves_step; [preserves_auto|].
  preserves_step; [apply sellProperty_other; exact Hne|].
  preserves_step; [preserves_auto|].
  preserves_step; [|preserves_auto].
  preserves_step; [preserves_auto|]. preserves_step. assumption.
Qed.

End OtherIds.

(** *** The pass as a sequence of steps *)

(** [MaturityPass data l c c']: the properties of [l] are resolved one after
    the other; each is still held, as it was, when its turn comes, and each
    step starts in the context the previous one left. *)
Inductive MaturityPass {G : Generator} (data : Data) : list Asset.t -> Ctx -> Ctx -> Prop :=
| pass_done (c : Ctx) : MaturityPass data [] c c
| pass_step (p : Asset.t) (rest : list Asset.t) (c c1 c2 : Ctx) :
    find (hasId (Asset.id p)) (properties (c_state c)) = Some p ->
    resolveMaturity data p c = Some (tt, c1) ->
    MaturityPass data rest c1 c2 ->
    MaturityPass data (p :: rest) c c2.

Lemma NoDup_ids_find (l : list Asset.t) (p : Asset.t) :
  NoDup (map Asset.id l) -> In p l -> find (hasId (Asset.id p)) l = Some p.
Proof.
  intros Hnd Hin. induction l as [|x rest IH]; [contradiction|].
  cbn [map] in Hnd. inversion Hnd as [|? ? Hx Hrest]; subst.
  cbn [find]. destruct Hin as [->|Hin].
  - unfold hasId. rewrite String.eqb_refl. reflexivity.
  - destruct (hasId (Asset.id p) x) eqn:E.
    + apply hasId_true in E. exfalso. apply Hx. rewrite E. apply in_map. exact Hin.
    + apply IH; assumption.
Qed.

Lemma NoDup_ids_filter (f : Asset.t -> bool) (l : list Asset.t) :
  NoDup (map Asset.id l) -> NoDup (map Asset.id (filter f l)).
Proof.
  induction l as [|x rest IH]; intro H; [constructor|].
  cbn [map] in H. inversion H as [|? ? Hx Hrest]; subst.
  cbn [filter]. destruct (f x); [|apply IH; exact Hrest].
  cbn [map]. constructor; [|apply IH; exact Hrest].
  intro Hin. apply Hx. apply in_map_iff in Hin. destruct Hin as (y & Hy & Hin).
  apply filter_In in Hin. rewrite <- Hy. apply in_map. tauto.
Qed.

Lemma forM_resolve_pass {G : Generator} (data : Data) (l : list Asset.t) :
  NoDup (map Asset.id l) ->
  forall c c' : Ctx,
    (forall q : Asset.t, In q l -> find (hasId (Asset.id q)) (properties (c_state c)) = Some q) ->
    forM_ (resolveMaturity data) l c = Some (tt, c') ->
    MaturityPass data l c c'.
Proof.
  induction l as [|p rest IH]; intros Hnd c c' Hheld H.
  - inversion H; subst. constructor.
  - cbn [forM_] in H. apply bind_inv in H. destruct H as ([] & c1 & H1 & H2).
    cbn [map] in Hnd. inversion Hnd as [|? ? Hp Hrest]; subst.
    apply pass_step with c1; [apply Hheld; left; reflexivity | exact H1 |].
    apply IH; [exact Hrest | | exact H2].
    intros q Hq.
    assert (Hne : Asset.id p <> Asset.id q).
    { intro E. apply Hp. rewrite E. apply in_map. exact Hq. }
    apply (resolveMaturity_other (Asset.id q) (Some q) data p Hne c tt c1); [|exact H1].
    apply Hheld. right. exact Hq.
Qed.

Lemma handleMaturities_pass {G : Generator} (data : Data) (c c' : Ctx) :
  NoDup (map Asset.id (properties (c_state c))) ->
  handleMaturities data c = Some (tt, c') ->
  let matured := filter (isMatured (year (c_state c))) (properties (c_state c)) in
  (matured = [] /\ c' = c)
  \/ MaturityPass data matured
       (mkCtx (c_state c) (c_rng c) (LogRefiWall (List.length matured) :: c_log c)) c'.
Proof.
  intros Hnd H. cbv zeta. unfold handleMaturities in H. run_monad_in H.
  destruct (filter (isMatured (year (c_state c))) (properties (c_state c)))
    as [|p rest] eqn:Hm.
  - left. inversion H; subst. split; reflexivity.
  - right. apply forM_resolve_pass.
    + rewrite <- Hm. apply NoDup_ids_filter. exact Hnd.
    + intros q Hq. cbn [c_state]. apply NoDup_ids_find; [exact Hnd|].
      rewrite <- Hm in Hq. apply filter_In in Hq. tauto.
    + exact H.
Qed.

(** *** The pass completes when the reference data are there *)

(** The neighborhood and the product type of [p] can be looked up. *)
Definition referenced (data : Data) (s : RunState) (p : Asset.t) : Prop :=
  exists (n : Neighborhood) (product : ProductType.t),
    getNeighborhood s (Asset.neighborhood p) = Some n
    /\ productTypesById data (Asset.productType p) = Some product.

Lemma referenced_snapshot (data : Data) (s : RunState) (p : Asset.t) :
  referenced data s p ->
  exists snap : Snapshot.t,
    computePropertySnapshot s (productTypesById data) p = Some snap.
Proof.
  intros (n & product & Hn & Hp). eexists.
  exact (computePropertySnapshot_run s (productTypesById data) p n product Hn Hp).
Qed.

Lemma resolveMaturity_total {G : Generator} (data : Data) (p : Asset.t) (c : Ctx) :
  find (hasId (Asset.id p)) (properties (c_state c)) = Some p ->
  referenced data (c_state c) p ->
  exists c' : Ctx, resolveMaturity data p c = Some (tt, c').
Proof.
  intros Hp Href. destruct (referenced_snapshot data _ p Href) as [snap Hsnap].
  destruct (Qlt_le_dec (refiLoan snap p) (Asset.loanBalance p)) as [Hloan|Hloan].
  - destruct (Qlt_le_dec (cash (c_state c)) (Asset.loanBalance p - refiLoan snap p))
      as [Hcash|Hcash].
    + destruct (resolveMaturity_forced_sale data p c snap Hp Hsnap Hloan Hcash)
        as (c' & H & _).
      exists c'. exact H.
    + destruct (resolveMaturity_tight data p c snap Hsnap Hloan Hcash) as (c' & H & _).
      exists c'. exact H.
  - destruct (resolveMaturity_cash_out data p c snap Hsnap Hloan) as (c' & H & _).
    exists c'. exact H.
Qed.

Lemma neighborhoods_market_only (ns : list Neighborhood) :
  market_only (fun s => neighborhoods s = ns).
Proof. intros s s' _ Hn H. rewrite Hn. exact H. Qed.

Lemma forM_resolve_total {G : Generator} (data : Data) (l : list Asset.t) :
  NoDup (map Asset.id l) ->
  forall c : Ctx,
    (forall q : Asset.t, In q l -> find (hasId (Asset.id q)) (properties (c_state c)) = Some q) ->
    (forall q : Asset.t, In q l -> referenced data (c_state c) q) ->
    exists c' : Ctx, forM_ (resolveMaturity data) l c = Some (tt, c').
Proof.
  induction l as [|p rest IH]; intros Hnd c Hheld Href.
  - exists c. reflexivity.
  - cbn [map] in Hnd. inversion Hnd as [|? ? Hp Hrest]; subst.
    destruct (resolveMaturity_total data p c (Hheld p (or_introl eq_refl))
                (Href p (or_introl eq_refl))) as [c1 H1].
    destruct (IH Hrest c1) as [c' H2].
    + intros q Hq.
      assert (Hne : Asset.id p <> Asset.id q).
      { intro E. apply Hp. rewrite E. apply in_map. exact Hq. }
      apply (resolveMaturity_other (Asset.id q) (Some q) data p Hne c tt c1); [|exact H1].
      apply Hheld. right. exact Hq.
    + intros q Hq. destruct (Href q (or_intror Hq)) as (n & product & Hn & Hpt).
      exists n, product. split; [|exact Hpt].
      unfold getNeighborhood in *.
      rewrite (resolveMaturity_frame (fun s => neighborhoods s = neighborhoods (c_state c))
                 (neighborhoods_market_only _) data p c tt c1 eq_refl H1).
      exact Hn.
    + exists c'. cbn [forM_]. unfold bind. rewrite H1. exact H2.
Qed.

Lemma handleMaturities_total {G : Generator} (data : Data) (c : Ctx) :
  NoDup (map Asset.id (properties (c_state c))) ->
  (forall q : Asset.t, In q (properties (c_state c)) -> referenced data (c_state c) q) ->
  exists c' : Ctx, handleMaturities data c = Some (tt, c').
Proof.
  intros Hnd Href. unfold handleMaturities. run_monad.
  destruct (filter (isMatured (year (c_state c))) (properties (c_state c)))
    as [|p rest] eqn:Hm.
  - exists c. reflexivity.
  - apply forM_resolve_total.
    + rewrite <- Hm. apply NoDup_ids_filter. exact Hnd.
    + intros q Hq. cbn [c_state]. apply NoDup_ids_find; [exact Hnd|].
      rewrite <- Hm in Hq. apply filter_In in Hq. tauto.
    + intros q Hq. cbn [c_state]. apply Href.
      rewrite <- Hm in Hq. apply filter_In in Hq. tauto.
Qed.

Lemma isMatured_spec (currentYear m : Z) (p : Asset.t) :
  Asset.maturityYear p = Some m -> m <> 0%Z ->
  (isMatured currentYear p = true <-> (m <= currentYear)%Z).
Proof.
  intros Hm Hne. unfold isMatured. rewrite Hm.
  apply Z.eqb_neq in Hne. rewrite Hne. cbn [negb andb]. apply Z.leb_le.
Qed.

Lemma removeFirst_no_id (a : string) (l : list Asset.t) :
  NoDup (map Asset.id l) ->
  forall q : Asset.t, In q (removeFirst (hasId a) l) -> Asset.id q <> a.
Proof.
  induction l as [|x rest IH]; intros Hnd q Hq; [contradiction|].
  cbn [map] in Hnd. inversion Hnd as [|? ? Hx Hrest]; subst.
  cbn [removeFirst] in Hq. destruct (hasId a x) eqn:E.
  - apply hasId_true in E. intro Hqa. apply Hx. rewrite E, <- Hqa. apply in_map. exact Hq.
  - destruct Hq as [->|Hq].
    + intro Hqa. apply hasId_true in Hqa. congruence.
    + apply IH; assumption.
Qed.

Lemma snapshot_value_nonneg (s : RunState) (byId : string -> option ProductType.t)
    (p : Asset.t) (snap : Snapshot.t) :
  computePropertySnapshot s byId p = Some snap -> 0 <= Snapshot.value snap.
Proof.
  intro H. destruct (snapshot_shape s byId p snap H) as (Hnoi & _ & Hcap & _ & _ & Hval).
  assert (Hpos : 0 < Snapshot.capRate snap)
    by (apply Qlt_le_trans with 0.03; [reflexivity | exact Hcap]).
  rewrite Hval. apply Qle_shift_div_l; [exact Hpos|].
  rewrite Qmult_0_l. rewrite Hnoi. apply computeNOI_nonneg.
Qed.

Lemma refiLoan_value (s : RunState) (byId : string -> option ProductType.t)
    (p : Asset.t) (snap : Snapshot.t) :
  computePropertySnapshot s byId p = Some snap ->
  0 <= ltvOf p ->
  refiLoan snap p == Snapshot.value snap * ltvOf p.
Proof.
  intros H Hltv. unfold refiLoan. apply Q.max_r.
  apply Qmult_le_0_compat; [|exact Hltv].
  exact (snapshot_value_nonneg s byId p snap H).
Qed.

Module ScenarioMaturity.
Import Scenario ScenarioAssets ScenarioNoCash.

(** A second hotel whose shortfall is smaller than the proceeds of selling
    [tower], and one whose sale cannot repay its loan. *)
Definition inn : Asset.t :=
  {| Asset.id := "PL2-1-3"; Asset.name := "Harbor — Inn";
     Asset.neighborhood := "harbor"; Asset.productType := "hotel";
     Asset.baseNOI := 800000; Asset.rentIndexMult := 1.03;
     Asset.vacancyDelta := 0; Asset.capRateDelta := 0;
     Asset.renoLevel := Some 1%Z; Asset.ltv := Some 0.65;
     Asset.loanBalance := 8000000; Asset.loanRate := 0.06;
     Asset.amortYears := 30; Asset.interestOnly := false;
     Asset.maturityYear := Some 5%Z; Asset.build := None;
     Asset.lease := Some (Lease.mk 3 1.00 0.9) |}.

Definition underwater : Asset.t := Asset.set_loanBalance 12000000 inn.

Definition start (ps : list Asset.t) : Ctx (G := Mulberry) :=
  mkCtx (set_year 6 (set_cash 0 (set_properties ps state0)))
    (makeRng (G := Mulberry) (seed settings) 0) [].

End ScenarioMaturity.

(** What a command left behind: the ids and (reduced) balances of the
    properties held, and the (reduced) cash. *)
Definition holdings {G : Generator} (r : option (unit * Ctx))
    : option (list (string * Q) * Q) :=
  match r with
  | Some (_, c) =>
      Some (map (fun p => (Asset.id p, Qred (Asset.loanBalance p)))
              (properties (c_state c)),
            Qred (cash (c_state c)))
  | None => None
  end.

Definition cashLeft {G : Generator} (r : option (unit * Ctx)) : option Q :=
  match r with
  | Some (_, c) => Some (cash (c_state c))
  | None => None
  end.

(** The sale of [tower] funds the shortfall of [inn]; alone, [inn] is sold;
    the sale of [underwater] leaves no cash at all. *)
Lemma maturity_scenario :
  holdings (handleMaturities (G := Mulberry) Scenario.data
              (ScenarioMaturity.start [ScenarioNoCash.tower; ScenarioMaturity.inn]))
  = Some ([("PL2-1-3"%string, 7068360)], 725272)
  /\ holdings (handleMaturities (G := Mulberry) Scenario.data
                 (ScenarioMaturity.start [ScenarioMaturity.inn]))
     = Some ([], 2656912)
  /\ cashLeft (handleMaturities (G := Mulberry) Scenario.data
                 (ScenarioMaturity.start [ScenarioMaturity.underwater]))
     = Some 0.
Proof.
  split; [|split]; vm_compute; reflexivity.
Qed.

Lemma maturityYearsOf_values (r : Q) :
  maturityYearsOf r = 5%Z \/ maturityYearsOf r = 7%Z \/ maturityYearsOf r = 10%Z.
Proof.
  unfold maturityYearsOf. destruct (Qltb r 0.45); [tauto|].
  destruct (Qltb r 0.75); tauto.
Qed.

(** C2.  In the yearly maturity pass every property whose (non-zero)
    [maturityYear] is at most the current year is resolved, in list order,
    each from the context the previous one left.  Resolving attempts a
    refinance with new loan [valuation * ltv]: if the new loan covers the
    balance the surplus is credited and the loan replaced; else if cash
    covers the shortfall it is deducted and the loan replaced; otherwise the
    property is sold at its valuation less 2% and the loan, removed from the
    properties, and cash is set to exactly 0 if it would be negative.  In the
    scenario the proceeds of an earlier forced sale fund a later shortfall. *)
Theorem refinance_wall (G : Generator) :
  (forall (currentYear m : Z) (p : Asset.t),
     Asset.maturityYear p = Some m -> m <> 0%Z ->
     (isMatured currentYear p = true <-> (m <= currentYear)%Z))
  /\ (forall (data : Data) (c : Ctx),
        NoDup (map Asset.id (properties (c_state c))) ->
        (forall q : Asset.t, In q (properties (c_state c)) -> referenced data (c_state c) q) ->
        expense_ratios_ok data ->
        let matured := filter (isMatured (year (c_state c))) (properties (c_state c)) in
        exists c' : Ctx,
          handleMaturities data c = Some (tt, c')
          /\ ((matured = [] /\ c' = c)
              \/ MaturityPass data matured
                   (mkCtx (c_state c) (c_rng c)
                      (LogRefiWall (List.length matured) :: c_log c)) c'))
  /\ (forall (s : RunState) (byId : string -> option ProductType.t) (p : Asset.t)
             (snap : Snapshot.t),
        computePropertySnapshot s byId p = Some snap ->
        expense_ratio_ok (Snapshot.product snap) -> 0 <= ltvOf p ->
        refiLoan snap p == Snapshot.value snap * ltvOf p)
  /\ (forall (data : Data) (p : Asset.t) (c : Ctx) (snap : Snapshot.t),
        computePropertySnapshot (c_state c) (productTypesById data) p = Some snap ->
        expense_ratio_ok (Snapshot.product snap) ->
        Asset.loanBalance p <= refiLoan snap p ->
        exists c' : Ctx,
          resolveMaturity data p c = Some (tt, c')
          /\ cash (c_state c')
             = cash (c_state c) + (refiLoan snap p - Asset.loanBalance p)
          /\ properties (c_state c')
             = replaceFirst (hasId (Asset.id p)) (refinancedIn c snap p)
                 (properties (c_state c)))
  /\ (forall (data : Data) (p : Asset.t) (c : Ctx) (snap : Snapshot.t),
        computePropertySnapshot (c_state c) (productTypesById data) p = Some snap ->
        expense_ratio_ok (Snapshot.product snap) ->
        refiLoan snap p < Asset.loanBalance p ->
        Asset.loanBalance p - refiLoan snap p <= cash (c_state c) ->
        exists c' : Ctx,
          resolveMaturity data p c = Some (tt, c')
          /\ cash (c_state c')
             = cash (c_state c) - (Asset.loanBalance p - refiLoan snap p)
          /\ properties (c_state c')
             = replaceFirst (hasId (Asset.id p)) (refinancedIn c snap p)
                 (properties (c_state c)))
  /\ (forall (data : Data) (p : Asset.t) (c : Ctx) (snap : Snapshot.t),
        find (hasId (Asset.id p)) (properties (c_state c)) = Some p ->
        computePropertySnapshot (c_state c) (productTypesById data) p = Some snap ->
        expense_ratio_ok (Snapshot.product snap) ->
        refiLoan snap p < Asset.loanBalance p ->
        cash (c_state c) < Asset.loanBalance p - refiLoan snap p ->
        exists c' : Ctx,
          resolveMaturity data p c = Some (tt, c')
          /\ properties (c_state c')
             = removeFirst (hasId (Asset.id p)) (properties (c_state c))
          /\ (NoDup (map Asset.id (properties (c_state c))) ->
              forall q : Asset.t, In q (properties (c_state c')) -> Asset.id q <> Asset.id p)
          /\ (cash (c_state c) + saleNet snap p < 0 -> cash (c_state c') = 0)
          /\ (0 <= cash (c_state c) + saleNet snap p ->
              cash (c_state c') = cash (c_state c) + saleNet snap p))
  /\ (forall (c : Ctx) (snap : Snapshot.t) (p : Asset.t),
        Asset.id (refinancedIn c snap p) = Asset.id p
        /\ Asset.loanBalance (refinancedIn c snap p) = refiLoan snap p
        /\ Asset.loanRate (refinancedIn c snap p) = refiRate (c_state c) (refiDraw1 c)
        /\ Asset.amortYears (refinancedIn c snap p) = 30%Z
        /\ Asset.interestOnly (refinancedIn c snap p) = false
        /\ exists k : Z,
             (k = 5 \/ k = 7 \/ k = 10)%Z
             /\ Asset.maturityYear (refinancedIn c snap p) = Some (year (c_state c) + k)%Z)
  /\ (holdings (handleMaturities (G := Mulberry) Scenario.data
                  (ScenarioMaturity.start [ScenarioNoCash.tower; ScenarioMaturity.inn]))
      = Some ([("PL2-1-3"%string, 7068360)], 725272)
      /\ holdings (handleMaturities (G := Mulberry) Scenario.data
                     (ScenarioMaturity.start [ScenarioMaturity.inn]))
         = Some ([], 2656912)
      /\ cashLeft (handleMaturities (G := Mulberry) Scenario.data
                     (ScenarioMaturity.start [ScenarioMaturity.underwater]))
         = Some 0).
Proof.
  split; [exact isMatured_spec|].
  split.
  { intros data c Hnd Href _. cbv zeta.
    destruct (handleMaturities_total data c Hnd Href) as [c' H].
    exists c'. split; [exact H|]. exact (handleMaturities_pass data c c' Hnd H). }
  split; [intros s byId p snap Hsnap _; exact (refiLoan_value s byId p snap Hsnap)|].
  split; [intros data p c snap Hsnap _; exact (resolveMaturity_cash_out data p c snap Hsnap)|].
  split; [intros data p c snap Hsnap _; exact (resolveMaturity_tight data p c snap Hsnap)|].
  split.
  { intros data p c snap Hp Hsnap _ Hloan Hcash.
    destruct (resolveMaturity_forced_sale data p c snap Hp Hsnap Hloan Hcash)
      as (c' & Hrun & Hprops & Hneg & Hpos & _).
    exists c'. split; [exact Hrun|]. split; [exact Hprops|].
    split; [|split; assumption].
    intros Hnd q Hq. rewrite Hprops in Hq.
    exact (removeFirst_no_id (Asset.id p) _ Hnd q Hq). }
  split; [|exact maturity_scenario].
  intros c snap p. unfold refinancedIn, refinanced.
  cbn [Asset.id Asset.loanBalance Asset.loanRate Asset.amortYears Asset.interestOnly
       Asset.maturityYear Asset.set_maturityYear Asset.set_interestOnly
       Asset.set_amortYears Asset.set_loanRate Asset.set_loanBalance].
  repeat (split; [reflexivity|]).
  exists (maturityYearsOf (refiDraw2 c)). split; [apply maturityYearsOf_values | reflexivity].
Qed.

Lemma refinance_wall_witness :
  exists c' : Ctx (G := Mulberry),
    resolveMaturity Scenario.data ScenarioMaturity.underwater
      (ScenarioMaturity.start [ScenarioMaturity.underwater]) = Some (tt, c')
    /\ properties (c_state c') = []
    /\ cash (c_state c') = 0.
Proof.
  destruct (refinance_wall Mulberry) as (_ & _ & _ & _ & _ & Hsale & _).
  edestruct (Hsale Scenario.data ScenarioMaturity.underwater
               (ScenarioMaturity.start [ScenarioMaturity.underwater]))
    as (c' & Hrun & Hprops & _ & Hzero & _).
  - reflexivity.
  - reflexivity.
  - vm_compute. discriminate.
  - vm_compute. reflexivity.
  - vm_compute. reflexivity.
  - exists c'. split; [exact Hrun|]. split; [exact Hprops|].
    apply Hzero. vm_compute. reflexivity.
Defined.

(** ** What a command may read *)

Section Tame.
Context {G : Generator}.



















End Tame.



Section TameEngine.
Context {G : Generator}.























End TameEngine.

(** ** Determinism of seeded runs *)



(** The ids of the listings on offer at the end of a run. *)
Definition listingIds (r : option RunState) : option (list string) :=
  match r with
  | Some s => Some (map Listing.id (listings s))
  | None => None
  end.

(** Without a seed text the generator is seeded from [Math.random()], and
    two runs need not agree. *)
Lemma unseeded_runs_differ :
  listingIds (playRun (G := Mulberry) Scenario.data (mkSettings None None) 0.1 [NextYear])
  <> listingIds (playRun (G := Mulberry) Scenario.data (mkSettings None None) 0.7 [NextYear]).
Proof. vm_compute. discriminate. Qed.




(* ================================================================== *)
(** * Further properties of the engine                                 *)
(* ================================================================== *)

(** ** Debt service *)

Lemma annualDebtService_amortizing (balance rate : Q) (amortYears : Z) :
  0 < balance ->
  annualDebtService balance rate amortYears false
  = mkDebtService
      (balance * rate / (1 - pow (1 + rate) (- Z.max 1 amortYears)))
      (balance * rate)
      (Qmax 0 (balance * rate / (1 - pow (1 + rate) (- Z.max 1 amortYears))
               - balance * rate)).
Proof.
  intro Hb. unfold annualDebtService. apply Qleb_false in Hb. rewrite Hb. reflexivity.
Qed.

(** The discount factor [(1 + rate)^-n] of a positive rate over [n >= 1]
    years lies strictly between 0 and 1, and at most [1 / (1 + rate)]. *)
Lemma discount_factor_range (rate : Q) (n : Z) :
  0 < rate -> (1 <= n)%Z ->
  0 < pow (1 + rate) (- n)
  /\ pow (1 + rate) (- n) < 1
  /\ pow (1 + rate) (- n) * (1 + rate) <= 1
  /\ pow (1 + rate) (- n) * pow (1 + rate) n == 1.
Proof.
  intros Hr Hn. unfold pow.
  assert (Hq : 1 < 1 + rate) by lra.
  assert (Hq0 : 0 < 1 + rate) by lra.
  assert (Hpos : 0 < (1 + rate) ^ n) by (apply Qpower_0_lt; exact Hq0).
  assert (Hgt : 1 < (1 + rate) ^ n) by (apply Qpower_1_lt; [exact Hq | lia]).
  assert (Hge : 1 + rate <= (1 + rate) ^ n).
  { change (1 + rate) with ((1 + rate) ^ 1) at 1.
    apply Qpower_le_compat_l; [lia | lra]. }
  rewrite Qpower_opp.
  assert (Hinv : 0 < / (1 + rate) ^ n) by (apply Qinv_lt_0_compat; exact Hpos).
  assert (Hone : / (1 + rate) ^ n * (1 + rate) ^ n == 1).
  { rewrite Qmult_comm. apply Qmult_inv_r. intro H. rewrite H in Hpos. discriminate Hpos. }
  split; [exact Hinv|]. split; [|split; [|exact Hone]].
  - assert (H1 : / (1 + rate) ^ n * 1 < / (1 + rate) ^ n * (1 + rate) ^ n)
      by (apply Qmult_lt_l; assumption).
    lra.
  - assert (H1 : / (1 + rate) ^ n * (1 + rate) <= / (1 + rate) ^ n * (1 + rate) ^ n)
      by (apply Qmult_le_l; assumption).
    lra.
Qed.

(** X2.  For a positive balance and a positive rate the amortising payment of
    [annualDebtService] splits into the interest [balance * rate] and a
    principal part that is positive and at most the balance (amortisation
    periods below 1 count as 1); interest-only loans pay no principal; a
    balance of zero or less owes nothing. *)
Theorem debt_service_split :
  (forall (balance rate : Q) (amortYears : Z),
     0 < balance -> 0 < rate ->
     let ds := annualDebtService balance rate amortYears false in
     interest ds = balance * rate
     /\ payment ds == interest ds + principal ds
     /\ 0 < principal ds
     /\ principal ds <= balance
     /\ ((2 <= amortYears)%Z -> principal ds < balance))
  /\ (forall (balance rate : Q) (amortYears : Z),
        0 < balance ->
        annualDebtService balance rate amortYears true
        = mkDebtService (balance * rate) (balance * rate) 0)
  /\ (forall (balance rate : Q) (amortYears : Z) (interestOnly : bool),
        balance <= 0 ->
        annualDebtService balance rate amortYears interestOnly = mkDebtService 0 0 0).
Proof.
  split; [|split].
  - intros balance rate amortYears Hb Hr. cbv zeta.
    rewrite (annualDebtService_amortizing balance rate amortYears Hb).
    cbn [payment interest principal].
    destruct (discount_factor_range rate (Z.max 1 amortYears) Hr ltac:(lia))
      as (Hi0 & Hi1 & Hiq & _).
    set (i := pow (1 + rate) (- Z.max 1 amortYears)) in *.
    set (P := balance * rate / (1 - i)).
    assert (HP : P * (1 - i) == balance * rate)
      by (unfold P; field; intro H; lra).
    assert (HBr : 0 < balance * rate) by (apply Qmult_lt_0_compat; assumption).
    assert (HP0 : 0 < P) by (unfold P; apply Qlt_shift_div_l; lra).
    assert (HPi : 0 < P * i) by (apply Qmult_lt_0_compat; assumption).
    assert (Hprin : P - balance * rate == P * i) by lra.
    assert (Hmax : Qmax 0 (P - balance * rate) == P * i).
    { rewrite Hprin. apply Q.max_r. lra. }
    split; [reflexivity|]. rewrite Hmax.
    split; [lra|]. split; [exact HPi|].
    assert (Heq : P * i * (1 - i) == balance * (rate * i)).
    { setoid_replace (P * i * (1 - i)) with (P * (1 - i) * i) by ring.
      rewrite HP. ring. }
    split.
    + apply Qmult_le_r with (1 - i); [lra|].
      rewrite Heq. apply Qmult_le_l; [exact Hb | lra].
    + intro Hn. apply Qmult_lt_r with (1 - i); [lra|].
      rewrite Heq. apply Qmult_lt_l; [exact Hb|].
      assert (Hlt : i * (1 + rate) < 1).
      { destruct (discount_factor_range rate (Z.max 1 amortYears - 1) Hr ltac:(lia))
          as (Hj0 & Hj1 & _ & _).
        assert (Hij : i * (1 + rate) == pow (1 + rate) (- (Z.max 1 amortYears - 1))).
        { unfold i, pow.
          replace (- (Z.max 1 amortYears - 1))%Z with (- Z.max 1 amortYears + 1)%Z by lia.
          rewrite Qpower_plus by (intro H; lra). reflexivity. }
        rewrite Hij. exact Hj1. }
      lra.
  - intros balance rate amortYears Hb. unfold annualDebtService.
    apply Qleb_false in Hb. rewrite Hb. reflexivity.
  - intros balance rate amortYears interestOnly Hb. unfold annualDebtService.
    apply Qleb_true in Hb. rewrite Hb. reflexivity.
Qed.

Lemma debt_service_split_witness :
  let ds := annualDebtService 5000000 0.06 30 false in
  payment ds == interest ds + principal ds /\ principal ds < 5000000.
Proof.
  destruct debt_service_split as (Hsplit & _ & _).
  destruct (Hsplit 5000000 0.06 30%Z) as (_ & Hsum & _ & _ & Hlt);
    [reflexivity | reflexivity |].
  split; [exact Hsum | apply Hlt; discriminate].
Defined.

(** [rate * balance_k = payment + (rate * balance_0 - payment) * (1 + rate)^k]
    along the forward schedule. *)
Lemma repayForward_closed (pmt rate : Q) (k : nat) :
  ~ 1 + rate == 0 ->
  forall balance : Q,
    rate * repayForward pmt rate k balance
    == pmt + (rate * balance - pmt) * (1 + rate) ^ Z.of_nat k.
Proof.
  intro Hq. induction k as [|k IH]; intro balance.
  - cbn [repayForward Z.of_nat]. change ((1 + rate) ^ 0) with 1. ring.
  - cbn [repayForward]. rewrite IH.
    rewrite Nat2Z.inj_succ, <- Z.add_1_r.
    rewrite Qpower_plus by exact Hq.
    change ((1 + rate) ^ 1) with (1 + rate). ring.
Qed.

(** X1.  For every positive balance and positive rate, paying the amortising
    payment of [annualDebtService] every year, with interest charged on the
    outstanding balance, repays the loan exactly at the end of the
    amortisation period (at least one year). *)
Theorem annuity_repays_loan (balance rate : Q) (amortYears : Z) :
  0 < balance -> 0 < rate ->
  repayForward (payment (annualDebtService balance rate amortYears false)) rate
    (Z.to_nat (Z.max 1 amortYears)) balance
  == 0.
Proof.
  intros Hb Hr.
  rewrite (annualDebtService_amortizing balance rate amortYears Hb). cbn [payment].
  destruct (discount_factor_range rate (Z.max 1 amortYears) Hr ltac:(lia))
    as (Hi0 & Hi1 & _ & Hone).
  set (n := Z.max 1 amortYears) in *.
  set (i := pow (1 + rate) (- n)) in *.
  set (P := balance * rate / (1 - i)).
  assert (HP : P * (1 - i) == balance * rate) by (unfold P; field; intro H; lra).
  pose proof (repayForward_closed P rate (Z.to_nat n) ltac:(intro H; lra) balance) as Hc.
  rewrite Z2Nat.id in Hc by (subst n; lia).
  unfold pow in Hone.
  assert (Hzero : rate * repayForward P rate (Z.to_nat n) balance == 0).
  { rewrite Hc.
    setoid_replace (rate * balance - P) with (- (P * i)) by lra.
    setoid_replace (- (P * i) * (1 + rate) ^ n) with (- P * (i * (1 + rate) ^ n)) by ring.
    rewrite Hone. ring. }
  apply Qmult_integral in Hzero. destruct Hzero as [H|H]; [lra | exact H].
Qed.

Lemma annuity_repays_loan_witness :
  repayForward (payment (annualDebtService 250000 0.04 3 false)) 0.04 3 250000 == 0.
Proof.
  apply (annuity_repays_loan 250000 0.04 3); reflexivity.
Defined.

(** ** Net operating income, monotonicity *)

Lemma clamp_monotone (x y lo hi : Q) : x <= y -> clamp x lo hi <= clamp y lo hi.
Proof.
  intro H. unfold clamp. apply Q.max_le_compat_l. apply Q.min_le_compat_l. exact H.
Qed.

Lemma computeEffectiveRentFactor_antitone (v1 v2 : Q) :
  v1 <= v2 -> computeEffectiveRentFactor v2 <= computeEffectiveRentFactor v1.
Proof.
  intro H. unfold computeEffectiveRentFactor.
  assert (Hc : clamp ((v1 - 0.05) * 0.5) 0 0.08 <= clamp ((v2 - 0.05) * 0.5) 0 0.08)
    by (apply clamp_monotone; lra).
  lra.
Qed.

Lemma computeNOI_product (baseNOI rentIndex vacancy expenseRatio : Q) :
  expenseRatio < 1 ->
  computeNOI baseNOI rentIndex vacancy expenseRatio
  == Qmax 0 (baseNOI * rentIndex * ((1 - vacancy) * computeEffectiveRentFactor vacancy)).
Proof.
  intro He. unfold computeNOI. apply Q.max_compat; [reflexivity|].
  field. intro H. lra.
Qed.

(** X3.  With an expense ratio below 1 and a non-negative anchor NOI,
    [computeNOI] never falls when the rent index rises (vacancy at most 1) and
    never rises when vacancy rises (rent index non-negative, vacancy at most
    1). *)
Theorem computeNOI_monotone (baseNOI expenseRatio : Q) :
  expenseRatio < 1 -> 0 <= baseNOI ->
  (forall rentIndex1 rentIndex2 vacancy : Q,
     vacancy <= 1 -> rentIndex1 <= rentIndex2 ->
     computeNOI baseNOI rentIndex1 vacancy expenseRatio
     <= computeNOI baseNOI rentIndex2 vacancy expenseRatio)
  /\ (forall rentIndex vacancy1 vacancy2 : Q,
        0 <= rentIndex -> vacancy1 <= vacancy2 -> vacancy2 <= 1 ->
        computeNOI baseNOI rentIndex vacancy2 expenseRatio
        <= computeNOI baseNOI rentIndex vacancy1 expenseRatio).
Proof.
  intros He Hb. split.
  - intros r1 r2 v Hv Hr.
    rewrite !(computeNOI_product _ _ _ _ He).
    apply Q.max_le_compat_l.
    destruct (computeEffectiveRentFactor_range v) as [Hf _].
    assert (Hk : 0 <= (1 - v) * computeEffectiveRentFactor v)
      by (apply Qmult_le_0_compat; lra).
    apply Qmult_le_compat_r; [|exact Hk].
    rewrite (Qmult_comm baseNOI r1), (Qmult_comm baseNOI r2).
    apply Qmult_le_compat_r; assumption.
  - intros r v1 v2 Hr Hv Hv2.
    rewrite !(computeNOI_product _ _ _ _ He).
    apply Q.max_le_compat_l.
    destruct (computeEffectiveRentFactor_range v1) as [Hf1 _].
    destruct (computeEffectiveRentFactor_range v2) as [Hf2 _].
    pose proof (computeEffectiveRentFactor_antitone v1 v2 Hv) as Hanti.
    assert (Hbr : 0 <= baseNOI * r) by (apply Qmult_le_0_compat; assumption).
    rewrite (Qmult_comm (baseNOI * r) _), (Qmult_comm (baseNOI * r) _).
    apply Qmult_le_compat_r; [|exact Hbr].
    apply Qle_trans with ((1 - v1) * computeEffectiveRentFactor v2).
    + apply Qmult_le_compat_r; lra.
    + rewrite (Qmult_comm (1 - v1) _), (Qmult_comm (1 - v1) _).
      apply Qmult_le_compat_r; lra.
Qed.

Lemma computeNOI_monotone_witness :
  computeNOI 650000 1.1 0.2 0.35 <= computeNOI 650000 1.1 0.1 0.35
  /\ computeNOI 650000 1.0 0.1 0.35 <= computeNOI 650000 1.1 0.1 0.35.
Proof.
  destruct (computeNOI_monotone 650000 0.35) as [Hrent Hvac]; [reflexivity | discriminate |].
  split.
  - apply Hvac; discriminate.
  - apply Hrent; discriminate.
Defined.

(** ** Deal underwriting *)

(** The number of projected years, [Math.max(1, Math.floor(inputs.holdYears))]. *)
Definition holdOf (inputs : Inputs.t) : nat :=
  Z.to_nat (Z.max 1 (floor (Inputs.holdYears inputs))).

Lemma holdOf_positive (inputs : Inputs.t) : (1 <= holdOf inputs)%nat.
Proof. unfold holdOf. lia. Qed.

Lemma projectYears_years (deal : Deal.t) (n : Neighborhood) (e g capex : Q) (years : nat) :
  forall (y : Z) (noi loanBal : Q),
    map Row.year (fst (projectYears deal n e g capex years y noi loanBal))
    = map (fun i : nat => (y + Z.of_nat i)%Z) (seq 0 years).
Proof.
  induction years as [|k IH]; intros y noi loanBal; [reflexivity|].
  cbn [projectYears].
  match goal with |- context [projectYears deal n e g capex k ?y' ?noi' ?lb'] =>
    specialize (IH y' noi' lb');
    destruct (projectYears deal n e g capex k y' noi' lb') as [rows final] end.
  cbn [fst map seq Row.year] in *. rewrite IH. f_equal; [lia|].
  rewrite <- seq_shift, map_map. apply map_ext. intro i. lia.
Qed.

Lemma lastRow_cons (r : Row.t) (rows : list Row.t) :
  exists x : Row.t, lastRow (r :: rows) = Some x.
Proof.
  revert r. induction rows as [|r' rows IH]; intro r.
  - exists r. reflexivity.
  - destruct (IH r') as [x Hx]. exists x. exact Hx.
Qed.

(** The balance left by the loop is the one recorded in its last row. *)
Lemma projectYears_final (deal : Deal.t) (n : Neighborhood) (e g capex : Q) (years : nat) :
  forall (y : Z) (noi loanBal : Q) (x : Row.t),
    lastRow (fst (projectYears deal n e g capex years y noi loanBal)) = Some x ->
    snd (projectYears deal n e g capex years y noi loanBal) = Row.loanBalance x.
Proof.
  induction years as [|k IH]; intros y noi loanBal x; [discriminate|].
  cbn [projectYears].
  match goal with |- context [projectYears deal n e g capex k ?y' ?noi' ?lb'] =>
    specialize (IH y' noi' lb');
    destruct k as [|k'];
    [ cbn [projectYears fst snd lastRow]
    | destruct (projectYears deal n e g capex (S k') y' noi' lb') as [rows final] eqn:Hrun ]
  end.
  - intro H. injection H as <-. reflexivity.
  - cbn [fst snd] in *. destruct rows as [|r rows].
    + cbn [projectYears] in Hrun.
      match type of Hrun with context [projectYears ?a ?b ?c ?d ?e' k' ?y' ?noi' ?lb'] =>
        destruct (projectYears a b c d e' k' y' noi' lb') end.
      discriminate.
    + intro H. apply IH. exact H.
Qed.

(** What every pushed row satisfies. *)
Definition row_ok (capex : Q) (r : Row.t) : Prop :=
  Row.cashFlow r
  == Row.noi r - Row.debtService r - (if (Row.year r =? 1)%Z then capex else 0)
  /\ 0 <= Row.noi r
  /\ 0 <= Row.loanBalance r
  /\ Row.dscr r = Property.dscr (Row.noi r) (Row.debtService r).

(** Each balance is at most the one before it, starting from [start]. *)
Fixpoint descending (start : Q) (l : list Q) : Prop :=
  match l with
  | [] => True
  | x :: rest => x <= start /\ descending x rest
  end.

Lemma projectYears_rows (deal : Deal.t) (n : Neighborhood) (e g capex : Q) (years : nat) :
  forall (y : Z) (noi loanBal : Q),
    Forall (row_ok capex) (fst (projectYears deal n e g capex years y noi loanBal))
    /\ (0 <= loanBal ->
        descending loanBal
          (map Row.loanBalance (fst (projectYears deal n e g capex years y noi loanBal)))).
Proof.
  induction years as [|k IH]; intros y noi loanBal.
  - split; [constructor | intros _; exact I].
  - cbn [projectYears].
    match goal with |- context [projectYears deal n e g capex k ?y' ?noi' ?lb'] =>
      destruct (IH y' noi' lb') as [Hrows Hdesc];
      destruct (projectYears deal n e g capex k y' noi' lb') as [rows final] end.
    cbn [fst map descending] in *. split.
    + constructor; [|exact Hrows].
      unfold row_ok.
      cbn [Row.cashFlow Row.noi Row.debtService Row.year Row.loanBalance Row.dscr].
      split; [reflexivity|]. split; [apply computeNOI_nonneg|].
      split; [apply Q.le_max_l | reflexivity].
    + intro Hlb. split; [|apply Hdesc; apply Q.le_max_l].
      apply Q.max_lub; [exact Hlb|].
      assert (Hp : 0 <= principal (annualDebtService loanBal (Debt.rate (Deal.debt deal))
                                     (Debt.amortYears (Deal.debt deal)) false)).
      { unfold annualDebtService. destruct (Qleb loanBal 0); cbn [principal];
          [discriminate | apply Q.le_max_l]. }
      lra.
Qed.

Lemma underwriteDeal_run (deal : Deal.t) (n : Neighborhood) (e : Q) (inputs : Inputs.t) :
  exists (rows : list Row.t) (exitRow : Row.t),
    let capex := Qmax 0 (Inputs.capex inputs) in
    let loanAmt := Deal.purchasePrice deal * Debt.ltv (Deal.debt deal) in
    let exitValue := valueFromNOI (Row.noi exitRow) (clamp (Inputs.exitCap inputs) 0.03 0.12) in
    let saleNet := exitValue - Row.loanBalance exitRow in
    let equity := Deal.purchasePrice deal - loanAmt + capex in
    rows = fst (projectYears deal n e (clamp (Inputs.rentGrowth inputs) (-0.10) 0.15) capex
                  (holdOf inputs) 1 (Deal.inPlaceNOI deal) loanAmt)
    /\ lastRow rows = Some exitRow
    /\ underwriteDeal deal n e inputs
       = Some {| Underwriting.cashFlows := rows;
                 Underwriting.exitValue := exitValue;
                 Underwriting.saleNet := saleNet;
                 Underwriting.equity := equity;
                 Underwriting.irr :=
                   solveIRR (Fin (- equity)
                             :: map (fun x => Fin (Row.cashFlow x)) rows ++ [Fin saleNet]);
                 Underwriting.equityMultiple :=
                   if Qltb 0 equity
                   then (fold_left (fun s x => s + Row.cashFlow x) rows 0 + saleNet) / equity
                   else 0 |}.
Proof.
  unfold underwriteDeal. fold (holdOf inputs).
  pose proof (holdOf_positive inputs) as Hpos.
  pose proof (projectYears_final deal n e (clamp (Inputs.rentGrowth inputs) (-0.10) 0.15)
                (Qmax 0 (Inputs.capex inputs)) (holdOf inputs) 1 (Deal.inPlaceNOI deal)
                (Deal.purchasePrice deal * Debt.ltv (Deal.debt deal))) as Hfinal.
  pose proof (projectYears_years deal n e (clamp (Inputs.rentGrowth inputs) (-0.10) 0.15)
                (Qmax 0 (Inputs.capex inputs)) (holdOf inputs) 1 (Deal.inPlaceNOI deal)
                (Deal.purchasePrice deal * Debt.ltv (Deal.debt deal))) as Hyears.
  destruct (projectYears deal n e (clamp (Inputs.rentGrowth inputs) (-0.10) 0.15)
              (Qmax 0 (Inputs.capex inputs)) (holdOf inputs) 1 (Deal.inPlaceNOI deal)
              (Deal.purchasePrice deal * Debt.ltv (Deal.debt deal))) as [rows final].
  cbn [fst snd] in *.
  destruct rows as [|r rows].
  - destruct (holdOf inputs); [lia | discriminate].
  - destruct (lastRow_cons r rows) as [x Hx].
    exists (r :: rows), x. cbn zeta. split; [reflexivity|]. split; [exact Hx|].
    rewrite Hx. rewrite (Hfinal x Hx). reflexivity.
Qed.

(** X5.  [underwriteDeal] always returns a result: whatever the inputs, it
    projects [max(1, floor(holdYears))] years, numbered 1, 2, ... in order, so
    the last row it reads exists. *)
Theorem underwriteDeal_projects_hold (deal : Deal.t) (n : Neighborhood) (e : Q)
    (inputs : Inputs.t) :
  exists u : Underwriting.t,
    underwriteDeal deal n e inputs = Some u
    /\ map Row.year (Underwriting.cashFlows u)
       = map (fun i : nat => (1 + Z.of_nat i)%Z) (seq 0 (holdOf inputs))
    /\ List.length (Underwriting.cashFlows u) = holdOf inputs
    /\ (1 <= holdOf inputs)%nat.
Proof.
  destruct (underwriteDeal_run deal n e inputs) as (rows & x & Hrows & _ & Hrun).
  cbn zeta in *. eexists. split; [exact Hrun|].
  cbn [Underwriting.cashFlows].
  assert (Hy : map Row.year rows
               = map (fun i : nat => (1 + Z.of_nat i)%Z) (seq 0 (holdOf inputs)))
    by (rewrite Hrows; apply projectYears_years).
  split; [exact Hy|]. split; [|apply holdOf_positive].
  rewrite <- (length_map Row.year), Hy, length_map, length_seq. reflexivity.
Qed.

(** X6.  For a deal with a positive loan rate and an expense ratio other
    than 1 (at rate 0 the amortising payment is 0/0, at expense ratio 1 the
    implied gross income is a division by zero, and the rows then hold NaN):
    in every row of an underwriting the cash flow is NOI less debt service,
    less the (non-negative) capex in year 1 only; NOI and the loan balance
    are never negative and the row's DSCR is that of its NOI and debt
    service.  With a non-negative loan amount the loan balance never grows
    from one year to the next. *)
Theorem underwriteDeal_rows (deal : Deal.t) (n : Neighborhood) (e : Q)
    (inputs : Inputs.t) (u : Underwriting.t) :
  0 < Debt.rate (Deal.debt deal) ->
  ~ e == 1 ->
  underwriteDeal deal n e inputs = Some u ->
  Forall (row_ok (Qmax 0 (Inputs.capex inputs))) (Underwriting.cashFlows u)
  /\ (0 <= Deal.purchasePrice deal * Debt.ltv (Deal.debt deal) ->
      descending (Deal.purchasePrice deal * Debt.ltv (Deal.debt deal))
        (map Row.loanBalance (Underwriting.cashFlows u))).
Proof.
  intros _ _ H.
  destruct (underwriteDeal_run deal n e inputs) as (rows & x & Hrows & _ & Hrun).
  cbn zeta in *. rewrite Hrun in H. injection H as <-.
  cbn [Underwriting.cashFlows]. rewrite Hrows. apply projectYears_rows.
Qed.

Module ScenarioDeal.
Import Scenario.

Definition wharf : Deal.t :=
  {| Deal.id := "wharf"; Deal.name := "Wharf Lofts"; Deal.neighborhood := "harbor";
     Deal.productType := "multifamily"; Deal.purchasePrice := 10000000;
     Deal.inPlaceNOI := 650000; Deal.marketNOILiftPct := 0.08;
     Deal.debt := {| Debt.ltv := 0.65; Debt.rate := 0.06; Debt.amortYears := 30 |} |}.

Definition baseCase : Inputs.t :=
  {| Inputs.rentGrowth := 0.03; Inputs.exitCap := 0.06; Inputs.capex := 250000;
     Inputs.holdYears := 5 |}.

End ScenarioDeal.

Lemma underwriteDeal_rows_witness :
  exists u : Underwriting.t,
    underwriteDeal ScenarioDeal.wharf Scenario.harbor 0.35 ScenarioDeal.baseCase = Some u
    /\ Forall (row_ok 250000) (Underwriting.cashFlows u)
    /\ descending (10000000 * 0.65) (map Row.loanBalance (Underwriting.cashFlows u)).
Proof.
  destruct (underwriteDeal_run ScenarioDeal.wharf Scenario.harbor 0.35 ScenarioDeal.baseCase)
    as (rows & x & _ & _ & Hrun).
  cbn zeta in Hrun. eexists. split; [exact Hrun|].
  assert (Hrate : 0 < Debt.rate (Deal.debt ScenarioDeal.wharf)) by reflexivity.
  assert (He : ~ 0.35 == 1) by (vm_compute; discriminate).
  destruct (underwriteDeal_rows _ _ _ _ _ Hrate He Hrun) as [Hrows Hdesc].
  split; [exact Hrows|]. apply Hdesc. vm_compute. discriminate.
Defined.

Lemma fold_cashFlow_shift (rows : list Row.t) (s : Q) :
  fold_left (fun (a : Q) (x : Row.t) => a + Row.cashFlow x) rows s
  == s + fold_left (fun (a : Q) (x : Row.t) => a + Row.cashFlow x) rows 0.
Proof.
  revert s. induction rows as [|r rows IH]; intro s; cbn [fold_left].
  - ring.
  - rewrite (IH (s + Row.cashFlow r)), (IH (0 + Row.cashFlow r)). ring.
Qed.

(** X7.  The exit of an underwriting: the exit value is the last year's NOI
    divided by the exit cap clamped into [0.03, 0.12] (never the zero of a
    non-positive cap) and is not negative; the net sale proceeds are the exit
    value less the last row's loan balance; equity is price less loan plus
    capex; the IRR is solved over minus the equity, the yearly cash flows and
    the net sale proceeds; the equity multiple times a positive equity is the
    sum of the cash flows plus the net sale proceeds, and it is 0 for an
    equity that is not positive. *)
Theorem underwriteDeal_exit (deal : Deal.t) (n : Neighborhood) (e : Q)
    (inputs : Inputs.t) (u : Underwriting.t) :
  underwriteDeal deal n e inputs = Some u ->
  exists exitRow : Row.t,
    lastRow (Underwriting.cashFlows u) = Some exitRow
    /\ Underwriting.exitValue u
       = Row.noi exitRow / clamp (Inputs.exitCap inputs) 0.03 0.12
    /\ 0 <= Underwriting.exitValue u
    /\ Underwriting.saleNet u = Underwriting.exitValue u - Row.loanBalance exitRow
    /\ Underwriting.equity u
       = Deal.purchasePrice deal - Deal.purchasePrice deal * Debt.ltv (Deal.debt deal)
         + Qmax 0 (Inputs.capex inputs)
    /\ Underwriting.irr u
       = solveIRR (Fin (- Underwriting.equity u)
                   :: map (fun x => Fin (Row.cashFlow x)) (Underwriting.cashFlows u)
                   ++ [Fin (Underwriting.saleNet u)])
    /\ (0 < Underwriting.equity u ->
        Underwriting.equityMultiple u * Underwriting.equity u
        == fold_left (fun s x => s + Row.cashFlow x) (Underwriting.cashFlows u) 0
           + Underwriting.saleNet u)
    /\ (Underwriting.equity u <= 0 -> Underwriting.equityMultiple u = 0).
Proof.
  intro H.
  destruct (underwriteDeal_run deal n e inputs) as (rows & x & Hrows & Hlast & Hrun).
  cbn zeta in *. rewrite Hrun in H. injection H as <-.
  cbn [Underwriting.cashFlows Underwriting.exitValue Underwriting.saleNet
       Underwriting.equity Underwriting.irr Underwriting.equityMultiple].
  assert (Hcap : 0 < clamp (Inputs.exitCap inputs) 0.03 0.12)
    by (apply Qlt_le_trans with 0.03; [reflexivity | apply clamp_lower]).
  destruct (valueFromNOI_positive_cap (Row.noi x) _ Hcap) as [_ Hval].
  assert (Hnoi : 0 <= Row.noi x).
  { destruct (projectYears_rows deal n e (clamp (Inputs.rentGrowth inputs) (-0.10) 0.15)
                (Qmax 0 (Inputs.capex inputs)) (holdOf inputs) 1 (Deal.inPlaceNOI deal)
                (Deal.purchasePrice deal * Debt.ltv (Deal.debt deal))) as [Hall _].
    rewrite <- Hrows in Hall. clear Hrows Hrun.
    induction rows as [|r rows IH]; [discriminate|].
    inversion Hall as [|? ? Hr Hrest]; subst.
    destruct rows as [|r' rows'].
    - injection Hlast as <-. apply Hr.
    - apply IH; assumption. }
  exists x. split; [exact Hlast|]. split; [exact Hval|].
  split. { rewrite Hval. apply Qle_shift_div_l; [exact Hcap | lra]. }
  split; [reflexivity|]. split; [reflexivity|]. split; [reflexivity|]. split.
  - intro Heq. pose proof Heq as Hb. apply Qltb_true in Hb. rewrite Hb.
    field. intro Hz. rewrite Hz in Heq. discriminate.
  - intro Hle. apply Qltb_false in Hle. rewrite Hle. reflexivity.
Qed.

Lemma underwriteDeal_exit_witness :
  exists u : Underwriting.t,
    underwriteDeal ScenarioDeal.wharf Scenario.harbor 0.35 ScenarioDeal.baseCase = Some u
    /\ Underwriting.equity u = 10000000 - 10000000 * 0.65 + Qmax 0 250000
    /\ 0 <= Underwriting.exitValue u.
Proof.
  destruct (underwriteDeal_run ScenarioDeal.wharf Scenario.harbor 0.35 ScenarioDeal.baseCase)
    as (rows & x & _ & _ & Hrun).
  cbn zeta in Hrun. eexists. split; [exact Hrun|].
  destruct (underwriteDeal_exit _ _ _ _ _ Hrun) as (r & _ & _ & Hv & _ & He & _).
  split; [exact He | exact Hv].
Defined.

(** ** Sanitised inputs *)

Lemma Qmax_cases (a b : Q) : Qmax a b = a \/ Qmax a b = b.
Proof.
  unfold Qmax, GenericMinMax.gmax. destruct (a ?= b); auto.
Qed.

Lemma Qmin_cases (a b : Q) : Qmin a b = a \/ Qmin a b = b.
Proof.
  unfold Qmin, GenericMinMax.gmin. destruct (a ?= b); auto.
Qed.

Lemma Qmax_refl (a : Q) : Qmax a a = a.
Proof. destruct (Qmax_cases a a) as [H|H]; exact H. Qed.

Lemma Qmax_twice (a b : Q) : Qmax a (Qmax a b) = Qmax a b.
Proof.
  destruct (Qmax_cases a b) as [H|H]; rewrite H.
  - apply Qmax_refl.
  - exact H.
Qed.

Lemma Qmin_refl (a : Q) : Qmin a a = a.
Proof. destruct (Qmin_cases a a) as [H|H]; exact H. Qed.

Lemma Qmin_twice (a b : Q) : Qmin a (Qmin a b) = Qmin a b.
Proof.
  destruct (Qmin_cases a b) as [H|H]; rewrite H.
  - apply Qmin_refl.
  - exact H.
Qed.

(** [clamp] returns one of its three arguments, so clamping twice is clamping
    once, as terms. *)
Lemma clamp_twice (x lo hi : Q) : lo <= hi -> clamp (clamp x lo hi) lo hi = clamp x lo hi.
Proof.
  intro Hle. unfold clamp.
  destruct (Qmax_cases lo (Qmin hi x)) as [H|H]; rewrite H.
  - unfold Qmin at 1. unfold GenericMinMax.gmin.
    destruct (hi ?= lo) eqn:Hc.
    + apply Qeq_alt in Hc. unfold Qmax at 1. unfold GenericMinMax.gmax.
      assert (Hc' : (lo ?= hi) = Eq) by (apply Qeq_alt; symmetry; exact Hc).
      rewrite Hc'. reflexivity.
    + apply Qlt_alt in Hc. lra.
    + apply Qmax_refl.
  - rewrite Qmin_twice. exact H.
Qed.

(** The inputs as [underwriteDeal] uses them. *)
Definition sanitised (inputs : Inputs.t) : Inputs.t :=
  {| Inputs.rentGrowth := clamp (Inputs.rentGrowth inputs) (-0.10) 0.15;
     Inputs.exitCap := clamp (Inputs.exitCap inputs) 0.03 0.12;
     Inputs.capex := Qmax 0 (Inputs.capex inputs);
     Inputs.holdYears := inject_Z (Z.max 1 (floor (Inputs.holdYears inputs))) |}.

(** X8.  [underwriteDeal] reads its inputs only through their sanitised
    values (rent growth clamped into [-0.10, 0.15], exit cap into
    [0.03, 0.12], capex at least 0, hold years floored and at least 1):
    underwriting the sanitised inputs gives the same result, and so do any two
    inputs that agree once sanitised. *)
Theorem underwriteDeal_sanitises (deal : Deal.t) (n : Neighborhood) (e : Q) :
  (forall inputs : Inputs.t,
     underwriteDeal deal n e (sanitised inputs) = underwriteDeal deal n e inputs)
  /\ (forall inputs1 inputs2 : Inputs.t,
        sanitised inputs1 = sanitised inputs2 ->
        underwriteDeal deal n e inputs1 = underwriteDeal deal n e inputs2).
Proof.
  assert (Hsan : forall inputs : Inputs.t,
             underwriteDeal deal n e (sanitised inputs) = underwriteDeal deal n e inputs).
  { intro inputs. unfold underwriteDeal, sanitised.
    cbn [Inputs.rentGrowth Inputs.exitCap Inputs.capex Inputs.holdYears].
    rewrite !clamp_twice by discriminate. rewrite Qmax_twice.
    unfold floor. rewrite Qfloor_Z. rewrite Z.max_assoc, Z.max_id. reflexivity. }
  split; [exact Hsan|].
  intros i1 i2 H. rewrite <- (Hsan i1), <- (Hsan i2), H. reflexivity.
Qed.

Lemma underwriteDeal_sanitises_witness :
  underwriteDeal ScenarioDeal.wharf Scenario.harbor 0.35
    {| Inputs.rentGrowth := 0.40; Inputs.exitCap := 0.06; Inputs.capex := 250000;
       Inputs.holdYears := 5.7 |}
  = underwriteDeal ScenarioDeal.wharf Scenario.harbor 0.35
      {| Inputs.rentGrowth := 0.15; Inputs.exitCap := 0.06; Inputs.capex := 250000;
         Inputs.holdYears := 5 |}.
Proof.
  apply (proj2 (underwriteDeal_sanitises ScenarioDeal.wharf Scenario.harbor 0.35)).
  vm_compute. reflexivity.
Defined.

(** ** How far a year moves the market *)

(** Clamping into a range that holds [b] keeps the result as close to [b] as
    the raw value was. *)
Lemma clamp_step (raw b lo hi a c : Q) :
  lo <= b -> b <= hi -> a <= 0 -> 0 <= c ->
  b + a <= raw -> raw <= b + c ->
  b + a <= clamp raw lo hi /\ clamp raw lo hi <= b + c.
Proof.
  intros Hlo Hhi Ha Hc Hl Hu. unfold clamp. split.
  - apply Qle_trans with (Qmax lo (Qmin hi (b + a))).
    + apply Qle_trans with (Qmin hi (b + a)); [|apply Q.le_max_r].
      apply Q.min_glb; lra.
    + apply clamp_monotone. exact Hl.
  - apply Qle_trans with (Qmax lo (Qmin hi (b + c))).
    + apply clamp_monotone. exact Hu.
    + apply Q.max_lub; [lra|]. apply Q.le_min_r.
Qed.

(** X9.  With generator values in [0, 1), one [updateMarketYear] on a market
    inside its bounds moves the base rate by -0.004 .. +0.006 and the spread
    by at most 0.0032 either way, and sets the liquidity to
    0.8 * liquidity + 0.14 up to a shock of 0.04 (so the liquidity clamp never
    binds and the result lies in [0.26, 0.98]). *)
Theorem updateMarketYear_step (G : Generator) (m : Market) (g : RngState) :
  in_unit_interval G -> market_in_bounds m ->
  let m' := fst (updateMarketYear m g) in
  (baseRate m - 0.004 <= baseRate m' /\ baseRate m' <= baseRate m + 0.006)
  /\ (spread m - 0.0032 <= spread m' /\ spread m' <= spread m + 0.0032)
  /\ (0.8 * liquidity m + 0.10 <= liquidity m' /\ liquidity m' <= 0.8 * liquidity m + 0.18)
  /\ (0.26 <= liquidity m' /\ liquidity m' <= 0.98).
Proof.
  intros Hrng [[Hb1 Hb2] [[Hs1 Hs2] [Hl1 Hl2]]]. unfold updateMarketYear.
  pose proof (Hrng g) as Hr1. destruct (rng_next g) as [r1 g1]. cbn [fst] in Hr1.
  pose proof (Hrng g1) as Hr2. destruct (rng_next g1) as [r2 g2]. cbn [fst] in Hr2.
  pose proof (Hrng g2) as Hr3. destruct (rng_next g2) as [r3 g3]. cbn [fst] in Hr3.
  cbn [fst baseRate spread liquidity].
  assert (Hbase : baseRate m + -0.004 <= clamp (baseRate m + 0.001 + (r1 - 0.5) * 0.01) 0.0 0.12
                  /\ clamp (baseRate m + 0.001 + (r1 - 0.5) * 0.01) 0.0 0.12
                     <= baseRate m + 0.006)
    by (apply clamp_step; lra).
  assert (Hspread :
            spread m + -0.0032
            <= clamp (spread m + (r2 - 0.5) * 0.004 - (liquidity m - 0.6) * 0.003) 0.0 0.08
            /\ clamp (spread m + (r2 - 0.5) * 0.004 - (liquidity m - 0.6) * 0.003) 0.0 0.08
               <= spread m + 0.0032)
    by (apply clamp_step; lra).
  assert (Hliq : clamp (liquidity m + (0.7 - liquidity m) * 0.2 + (r3 - 0.5) * 0.08) 0.2 1.0
                 == liquidity m + (0.7 - liquidity m) * 0.2 + (r3 - 0.5) * 0.08)
    by (apply clamp_inside; lra).
  rewrite Hliq.
  split; [|split; [|split]].
  - split; lra.
  - split; lra.
  - split; lra.
  - split; lra.
Qed.

Lemma updateMarketYear_step_witness :
  let m' := fst (updateMarketYear (G := Mulberry) (market RUN_DEFAULTS) 7%Z) in
  baseRate (market RUN_DEFAULTS) - 0.004 <= baseRate m'
  /\ baseRate m' <= baseRate (market RUN_DEFAULTS) + 0.006.
Proof.
  apply (updateMarketYear_step Mulberry (market RUN_DEFAULTS) 7%Z).
  - exact Mulberry_in_unit_interval.
  - repeat split; vm_compute; discriminate.
Defined.

(** ** How far a year moves a neighborhood *)

(** The fields of a neighborhood that no engine function assigns. *)
Definition statics (n : Neighborhood) : string * string * list string * Q * Q :=
  (Market.id n, Market.name n, zoning n, baseDemand n, scarcity n).

(** X10.  With generator values in [0, 1), the rent growth reported by
    [updateNeighborhoodYear] lies in [-0.02, 0.0525] for every neighborhood
    and market, so its clamp into [-0.06, 0.10] never binds; a rent index
    inside [0.6, 1.8] therefore moves by a factor between 0.98 and 1.0525.
    The id, name, zoning, base demand and scarcity are left as they were. *)
Theorem updateNeighborhoodYear_step (G : Generator) (n : Neighborhood) (m : Market)
    (g : RngState) :
  in_unit_interval G ->
  let n' := fst (fst (updateNeighborhoodYear n m g)) in
  let rentGrowth := snd (fst (updateNeighborhoodYear n m g)) in
  (-0.02 <= rentGrowth /\ rentGrowth <= 0.0525)
  /\ (0.6 <= rentIndex n -> rentIndex n <= 1.8 ->
      rentIndex n * 0.98 <= rentIndex n' /\ rentIndex n' <= rentIndex n * 1.0525)
  /\ statics n' = statics n.
Proof.
  intro Hrng. unfold updateNeighborhoodYear.
  destruct (rng_next g) as [r1 g1].
  destruct (rng_next g1) as [r2 g2].
  pose proof (Hrng g2) as Hr3. destruct (rng_next g2) as [r3 g3]. cbn [fst] in Hr3.
  destruct (rng_next g3) as [r4 g4].
  cbn [fst snd rentIndex].
  set (vacancy' := clamp _ 0.01 0.35).
  assert (Hv : 0.01 <= vacancy' /\ vacancy' <= 0.35) by (apply clamp_bounds; discriminate).
  set (bonus := clamp ((0.10 - vacancy') * 0.25) (-0.03) 0.04).
  assert (Hbonus : -0.03 <= bonus /\ bonus <= 0.0225).
  { split; [apply clamp_lower|]. unfold bonus, clamp.
    apply Q.max_lub; [discriminate|].
    apply Qle_trans with ((0.10 - vacancy') * 0.25); [apply Q.le_min_r | lra]. }
  assert (Hraw : -0.02 <= 0.02 + bonus + (r3 - 0.5) * 0.02
                 /\ 0.02 + bonus + (r3 - 0.5) * 0.02 <= 0.0525) by (split; lra).
  assert (Hrg : clamp (0.02 + bonus + (r3 - 0.5) * 0.02) (-0.06) 0.10
                == 0.02 + bonus + (r3 - 0.5) * 0.02) by (apply clamp_inside; lra).
  split; [rewrite Hrg; exact Hraw|]. split; [|reflexivity].
  intros Hlo Hhi.
  set (rg := clamp (0.02 + bonus + (r3 - 0.5) * 0.02) (-0.06) 0.10) in *.
  assert (Hrg1 : -0.02 <= rg /\ rg <= 0.0525) by (rewrite Hrg; exact Hraw).
  assert (Hstep : rentIndex n + rentIndex n * -0.02 <= clamp (rentIndex n * (1 + rg)) 0.6 1.8
                  /\ clamp (rentIndex n * (1 + rg)) 0.6 1.8
                     <= rentIndex n + rentIndex n * 0.0525)
    by (apply clamp_step; nra).
  split; lra.
Qed.

Lemma updateNeighborhoodYear_step_witness :
  let n' := fst (fst (updateNeighborhoodYear (G := Mulberry) Scenario.harbor
                        (market RUN_DEFAULTS) 7%Z)) in
  rentIndex Scenario.harbor * 0.98 <= rentIndex n'
  /\ rentIndex n' <= rentIndex Scenario.harbor * 1.0525.
Proof.
  apply (updateNeighborhoodYear_step Mulberry Scenario.harbor (market RUN_DEFAULTS) 7%Z).
  - exact Mulberry_in_unit_interval.
  - vm_compute. discriminate.
  - vm_compute. discriminate.
Defined.

(** ** Neighborhoods along a run *)

Definition statics_are (v : list (string * string * list string * Q * Q)) (s : RunState)
    : Prop :=
  map statics (neighborhoods s) = v.

Lemma statics_market_only (v : list (string * string * list string * Q * Q)) :
  market_only (statics_are v).
Proof. intros s s' _ Hn H. unfold statics_are. rewrite Hn. exact H. Qed.

Lemma replaceFirst_statics (pred : Neighborhood -> bool) (x y : Neighborhood)
    (l : list Neighborhood) :
  find pred l = Some y -> statics x = statics y ->
  map statics (replaceFirst pred x l) = map statics l.
Proof.
  intros Hfind Hxy. induction l as [|a rest IH]; [reflexivity|].
  cbn [find replaceFirst map] in *. destruct (pred a).
  - injection Hfind as ->. cbn [map]. rewrite Hxy. reflexivity.
  - cbn [map]. rewrite (IH Hfind). reflexivity.
Qed.

Section RunStatics.
Context {G : Generator}.
Variable v : list (string * string * list string * Q * Q).

Lemma applyEvent_statics (event : option Event) :
  preserves (statics_are v) (applyEvent event).
Proof.
  pose proof (statics_market_only v) as HI.
  unfold applyEvent. destruct event as [ev|]; [|preserves_auto].
  preserves_step; [preserves_auto|].
  destruct (String.eqb (ev_scope ev) "global").
  - preserves_step. exact H.
  - destruct (String.eqb (ev_scope ev) "neighborhood"); [|preserves_auto].
    intros c x c' Hv H.
    apply bind_inv in H. destruct H as (s & c1 & H1 & H2).
    inversion H1; subst s c1. clear H1.
    destruct (find _ (neighborhoods (c_state c))) as [n|] eqn:Hfind.
    + inversion H2; subst. unfold statics_are in *. cbn.
      rewrite (replaceFirst_statics _ _ n _ Hfind); [exact Hv | reflexivity].
    + inversion H2; subst. exact Hv.
Qed.

Lemma updateNeighborhoods_statics (l : list Neighborhood) (c : Ctx)
    (ns : list Neighborhood) (c' : Ctx) :
  mapM updateNeighborhood l c = Some (ns, c') ->
  map statics ns = map statics l /\ c_state c' = c_state c.
Proof.
  revert c ns c'. induction l as [|n rest IH]; intros c ns c' H; cbn [mapM] in H.
  - inversion H; subst. split; reflexivity.
  - apply bind_inv in H. destruct H as (n' & c1 & H1 & H2).
    apply bind_inv in H2. destruct H2 as (ns' & c2 & H2 & H3).
    inversion H3; subst. apply IH in H2. destruct H2 as [HF Hst].
    unfold updateNeighborhood in H1.
    assert (Hs : statics (fst (fst (updateNeighborhoodYear n (market (c_state c)) (c_rng c))))
                 = statics n).
    { unfold updateNeighborhoodYear.
      destruct (rng_next (c_rng c)) as [r1 g1]. destruct (rng_next g1) as [r2 g2].
      destruct (rng_next g2) as [r3 g3]. destruct (rng_next g3) as [r4 g4]. reflexivity. }
    destruct (updateNeighborhoodYear n (market (c_state c)) (c_rng c)) as [[n1 rg] g1].
    inversion H1; subst. cbn in Hs, Hst. cbn [map]. rewrite Hs, HF.
    split; [reflexivity | exact Hst].
Qed.

Lemma nextYear_statics (data : Data) : preserves (statics_are v) (nextYear data).
Proof.
  pose proof (statics_market_only v) as HI.
  unfold nextYear. cbv zeta.
  preserves_step; [apply pickEvent_frame; exact HI|].
  preserves_step; [preserves_step; frame_modify HI|].
  preserves_step.
  { intros c x c' Hv H.
    destruct (updateMarketYear (market (c_state c)) (c_rng c)) as [m' g'].
    inversion H; subst. exact Hv. }
  preserves_step; [apply applyEvent_statics|].
  intros c x c' Hv H.
  apply bind_inv in H. destruct H as (s & c5 & H1 & H).
  inversion H1; subst s c5. clear H1.
  apply bind_inv in H. destruct H as (ns & c6 & Hns & H).
  apply updateNeighborhoods_statics in Hns. destruct Hns as [HF Hst].
  apply bind_inv in H. destruct H as ([] & c7 & Hset & H).
  inversion Hset; subst c7. clear Hset.
  assert (Hpre : preserves (statics_are v)
            (bind updateLeasesOneYear (fun _ =>
             bind processBuildPhases (fun _ =>
             bind (handleMaturities data) (fun _ =>
             bind (applyOperatingCashFlow (productTypesById data)) (fun _ =>
             generateListings data)))))).
  { preserves_step; [apply updateLeasesOneYear_frame; exact HI|].
    preserves_step; [apply processBuildPhases_frame; exact HI|].
    preserves_step; [apply handleMaturities_frame; exact HI|].
    preserves_step; [apply applyOperatingCashFlow_frame; exact HI|].
    apply generateListings_frame; exact HI. }
  apply (Hpre _ _ _) in H; [exact H|].
  unfold statics_are in *. cbn. rewrite HF. exact Hv.
Qed.

Lemma perform_statics (data : Data) (a : Action) :
  preserves (statics_are v) (perform data a).
Proof.
  pose proof (statics_market_only v) as HI.
  destruct a; cbn [perform].
  - preserves_step; [preserves_auto|].
    destruct (find _ _); [|preserves_auto].
    preserves_step; [apply buyListing_frame; exact HI|].
    preserves_step. frame_modify HI.
  - apply startBuild_frame; exact HI.
  - apply sellProperty_frame; exact HI.
  - apply renovateProperty_frame; exact HI.
  - apply nextYear_statics.
Qed.

End RunStatics.

(** X11.  A run never adds, drops, reorders or re-zones a neighborhood: in
    every state reached by [initRun] followed by any player commands, the ids,
    names, zoning lists, base demands and scarcities of the neighborhoods are
    those of the reference data, in the same order. *)
Theorem neighborhoods_fixed (G : Generator) (data : Data) (settings : Settings)
    (mathRandom : Q) (actions : list Action) (s : RunState) :
  playRun data settings mathRandom actions = Some s ->
  map statics (neighborhoods s) = map statics (data_neighborhoods data).
Proof.
  intro H. unfold playRun in H.
  destruct (initRun data settings mathRandom) as [c0|] eqn:Hinit; [|discriminate].
  destruct (forM_ (perform data) actions c0) as [[u c]|] eqn:Hrun; [|discriminate].
  inversion H; subst s.
  apply (preserves_forM_ (statics_are (map statics (data_neighborhoods data)))
           (perform data) actions (perform_statics _ data) c0 u c); [|exact Hrun].
  unfold initRun in Hinit. cbv zeta in Hinit.
  match type of Hinit with
  | match ?m ?c1 with _ => _ end = _ =>
      destruct (m c1) as [[u' c2]|] eqn:Hgen; [|discriminate];
      assert (Hpre : preserves (statics_are (map statics (data_neighborhoods data))) m)
  end.
  { preserves_step; [preserves_auto|].
    apply generateListings_frame. apply statics_market_only. }
  inversion Hinit; subst c2. apply (Hpre _ _ _) in Hgen; [exact Hgen|].
  unfold statics_are. cbn. rewrite map_map. reflexivity.
Qed.

Lemma neighborhoods_fixed_witness :
  exists s : RunState,
    playRun (G := Mulberry) Scenario.data Scenario.settings 0 [NextYear] = Some s
    /\ map statics (neighborhoods s) = map statics (data_neighborhoods Scenario.data).
Proof.
  destruct (playRun (G := Mulberry) Scenario.data Scenario.settings 0 [NextYear])
    as [s|] eqn:E.
  - exists s. split; [reflexivity|].
    exact (neighborhoods_fixed Mulberry Scenario.data Scenario.settings 0 [NextYear] s E).
  - vm_compute in E. discriminate E.
Defined.

(** ** Commands that complete *)

Section Completion.
Context {G : Generator}.

(** From a state satisfying [I], the command [m] returns (it does not throw),
    in a state satisfying [I], a value satisfying [Q]. *)
Definition completes {A : Type} (I : RunState -> Prop) (m : M A) (Q : A -> Prop) : Prop :=
  forall c : Ctx,
    I (c_state c) ->
    exists (a : A) (c' : Ctx), m c = Some (a, c') /\ I (c_state c') /\ Q a.

Lemma completes_ret {A : Type} (I : RunState -> Prop) (a : A) (Q : A -> Prop) :
  Q a -> completes I (ret a) Q.
Proof. intros HQ c HI. exists a, c. split; [reflexivity|]. split; assumption. Qed.

Lemma completes_bind {A B : Type} (I : RunState -> Prop) (m : M A) (f : A -> M B)
    (Q1 : A -> Prop) (Q2 : B -> Prop) :
  completes I m Q1 -> (forall a : A, Q1 a -> completes I (f a) Q2) ->
  completes I (bind m f) Q2.
Proof.
  intros Hm Hf c HI.
  destruct (Hm c HI) as (a & c1 & H1 & HI1 & HQ1).
  destruct (Hf a HQ1 c1 HI1) as (b & c2 & H2 & HI2 & HQ2).
  exists b, c2. split; [|split; assumption].
  unfold bind. rewrite H1. exact H2.
Qed.

Lemma completes_weaken {A : Type} (I : RunState -> Prop) (m : M A) (Q1 Q2 : A -> Prop) :
  completes I m Q1 -> (forall a : A, Q1 a -> Q2 a) -> completes I m Q2.
Proof.
  intros Hm Hw c HI. destruct (Hm c HI) as (a & c1 & H1 & HI1 & HQ1).
  exists a, c1. split; [exact H1|]. split; [exact HI1 | apply Hw; exact HQ1].
Qed.

Lemma completes_getState (I : RunState -> Prop) : completes I getState I.
Proof. intros c HI. exists (c_state c), c. split; [reflexivity|]. split; exact HI. Qed.

Lemma completes_modify (I : RunState -> Prop) (f : RunState -> RunState) :
  (forall s : RunState, I s -> I (f s)) -> completes I (modify f) (fun _ => True).
Proof.
  intros Hf c HI. exists tt, (mkCtx (f (c_state c)) (c_rng c) (c_log c)).
  split; [reflexivity|]. split; [apply Hf; exact HI | exact Logic.I].
Qed.

Lemma completes_addLog (I : RunState -> Prop) (msg : LogMsg) :
  completes I (addLog msg) (fun _ => True).
Proof.
  intros c HI. exists tt, (mkCtx (c_state c) (c_rng c) (msg :: c_log c)).
  split; [reflexivity|]. split; [exact HI | exact Logic.I].
Qed.

Lemma completes_orThrow {A : Type} (I : RunState -> Prop) (o : option A) (Q : A -> Prop) :
  (exists a : A, o = Some a /\ Q a) -> completes I (orThrow o) Q.
Proof. intros (a & -> & HQ). apply completes_ret. exact HQ. Qed.

Lemma completes_mapM {A B : Type} (I : RunState -> Prop) (f : A -> M B)
    (P : A -> Prop) (Q : B -> Prop) (l : list A) :
  (forall a : A, P a -> completes I (f a) Q) ->
  Forall P l -> completes I (mapM f l) (Forall Q).
Proof.
  intros Hf Hl. induction Hl as [|a rest Ha _ IH]; cbn [mapM].
  - apply completes_ret. constructor.
  - apply completes_bind with Q; [apply Hf; exact Ha|]. intros b Hb.
    apply completes_bind with (Forall Q); [exact IH|]. intros bs Hbs.
    apply completes_ret. constructor; assumption.
Qed.

Lemma completes_forM_ {A : Type} (I : RunState -> Prop) (f : A -> M unit)
    (P : A -> Prop) (l : list A) :
  (forall a : A, P a -> completes I (f a) (fun _ => True)) ->
  Forall P l -> completes I (forM_ f l) (fun _ => True).
Proof.
  intros Hf Hl. induction Hl as [|a rest Ha _ IH]; cbn [forM_].
  - apply completes_ret. exact Logic.I.
  - apply completes_bind with (fun _ => True); [apply Hf; exact Ha|]. intros _ _. exact IH.
Qed.

Hypothesis Hrng : in_unit_interval G.

Lemma completes_rng (I : RunState -> Prop) :
  completes I rng (fun r => 0 <= r /\ r < 1).
Proof.
  intros c HI. unfold rng. pose proof (Hrng (c_rng c)) as Hr.
  destruct (rng_next (c_rng c)) as [r g']. cbn [fst] in Hr.
  exists r, (mkCtx (c_state c) g' (c_log c)).
  split; [reflexivity|]. split; [exact HI | exact Hr].
Qed.

Lemma completes_randInt (I : RunState -> Prop) (lo hi : Z) :
  completes I (randInt lo hi) (fun _ => True).
Proof.
  unfold randInt. apply completes_bind with (fun r => 0 <= r /\ r < 1);
    [apply completes_rng|]. intros r _. apply completes_ret. exact Logic.I.
Qed.

Lemma completes_makeMaturityYears (I : RunState -> Prop) :
  completes I makeMaturityYears (fun _ => True).
Proof.
  unfold makeMaturityYears. apply completes_bind with (fun r => 0 <= r /\ r < 1);
    [apply completes_rng|]. intros r _. apply completes_ret. exact Logic.I.
Qed.

End Completion.

(** One step of a proof of [completes]: the first command of a sequence. *)
Ltac completes_step Hrng :=
  lazymatch goal with
  | |- completes _ (bind getState _) _ =>
      eapply completes_bind; [apply completes_getState | intros ? ?]
  | |- completes _ (bind rng _) _ =>
      eapply completes_bind; [apply (completes_rng Hrng) | intros ? ?]
  | |- completes _ (bind (randInt _ _) _) _ =>
      eapply completes_bind; [apply (completes_randInt Hrng) | intros ? _]
  | |- completes _ (bind makeMaturityYears _) _ =>
      eapply completes_bind; [apply (completes_makeMaturityYears Hrng) | intros ? _]
  | |- completes _ (bind (addLog _) _) _ =>
      eapply completes_bind; [apply completes_addLog | intros _ _]
  | |- completes _ (bind (modify _) _) _ =>
      eapply completes_bind; [apply completes_modify; intros ? ? | intros _ _]
  | |- completes _ (addLog _) _ => apply completes_addLog
  | |- completes _ (modify _) _ => apply completes_modify; intros ? ?
  | |- completes _ (ret _) _ => apply completes_ret
  end.

(** ** The reference data a run relies on *)

Lemma find_by_key {A : Type} (key : A -> string) (l : list A) (k : string) :
  In k (map key l) ->
  exists a : A, find (fun x => String.eqb (key x) k) l = Some a /\ key a = k /\ In a l.
Proof.
  induction l as [|x rest IH]; cbn [map In find]; [tauto|].
  intros [Hx | Hrest].
  - exists x. rewrite Hx, String.eqb_refl. auto.
  - destruct (String.eqb (key x) k) eqn:E.
    + exists x. apply String.eqb_eq in E. auto.
    + destruct (IH Hrest) as (a & Hf & Hk & Hin). exists a. auto.
Qed.

Section Soundness.
Context {G : Generator}.
Hypothesis Hrng : in_unit_interval G.
Variable data : Data.

Definition neighborhoodIds : list string := map Market.id (data_neighborhoods data).
Definition productIds : list string := map ProductType.id (data_productTypes data).

(** A neighborhood id and a product type id that the reference data know. *)
Definition placed (nid pt : string) : Prop := In nid neighborhoodIds /\ In pt productIds.

Definition asset_placed (p : Asset.t) : Prop :=
  placed (Asset.neighborhood p) (Asset.productType p).

Definition listing_placed (l : Listing.t) : Prop :=
  placed (Listing.neighborhood l) (Listing.productType l).

(** The state refers to the reference data only: its neighborhoods are the
    data's, by id and in order, and every property and listing names one of
    them and a known product type. *)
Definition sound (s : RunState) : Prop :=
  map Market.id (neighborhoods s) = neighborhoodIds
  /\ Forall asset_placed (properties s)
  /\ Forall listing_placed (listings s).

Lemma sound_set_properties (ps : list Asset.t) (s : RunState) :
  sound s -> Forall asset_placed ps -> sound (set_properties ps s).
Proof. intros (Hn & _ & Hl) Hps. split; [exact Hn|]. split; [exact Hps | exact Hl]. Qed.

Lemma sound_set_listings (ls : list Listing.t) (s : RunState) :
  sound s -> Forall listing_placed ls -> sound (set_listings ls s).
Proof. intros (Hn & Hp & _) Hls. split; [exact Hn|]. split; [exact Hp | exact Hls]. Qed.

Lemma sound_set_neighborhoods (ns : list Neighborhood) (s : RunState) :
  sound s -> map Market.id ns = map Market.id (neighborhoods s) ->
  sound (set_neighborhoods ns s).
Proof.
  intros (Hn & Hp & Hl) Hns. split; [cbn; rewrite Hns; exact Hn|].
  split; [exact Hp | exact Hl].
Qed.

Lemma sound_neighborhood (s : RunState) (nid : string) :
  sound s -> In nid neighborhoodIds ->
  exists n : Neighborhood,
    getNeighborhood s nid = Some n /\ Market.id n = nid /\ In n (neighborhoods s).
Proof.
  intros (Hn & _) Hin. unfold getNeighborhood. apply find_by_key.
  rewrite Hn. exact Hin.
Qed.

Lemma known_product (pt : string) :
  In pt productIds ->
  exists product : ProductType.t, productTypesById data pt = Some product.
Proof.
  intro Hin. unfold productTypesById.
  destruct (find_by_key ProductType.id (rev (data_productTypes data)) pt) as (a & Hf & _).
  - rewrite map_rev. apply in_rev. rewrite rev_involutive. exact Hin.
  - exists a. exact Hf.
Qed.

Lemma sound_referenced (s : RunState) (p : Asset.t) :
  sound s -> asset_placed p -> referenced data s p.
Proof.
  intros Hs [Hn Hp].
  destruct (sound_neighborhood s _ Hs Hn) as (n & Hfind & _).
  destruct (known_product _ Hp) as (product & Hprod).
  exists n, product. split; assumption.
Qed.

Lemma sound_snapshot (s : RunState) (p : Asset.t) :
  sound s -> asset_placed p ->
  exists snap : Snapshot.t, computePropertySnapshot s (productTypesById data) p = Some snap.
Proof. intros Hs Hp. apply referenced_snapshot. apply sound_referenced; assumption. Qed.

(** *** The yearly passes over the properties *)

Lemma initLeaseForProperty_completes (p : Asset.t) :
  asset_placed p -> completes sound (initLeaseForProperty p) asset_placed.
Proof.
  intro Hp. unfold initLeaseForProperty.
  completes_step Hrng.
  apply completes_bind with (fun _ => True).
  { apply completes_orThrow. destruct (sound_neighborhood a _ H (proj1 Hp)) as (n & Hn & _).
    exists n. split; [exact Hn | exact Logic.I]. }
  intros n _. completes_step Hrng. completes_step Hrng. exact Hp.
Qed.

Lemma updateLease_completes (p : Asset.t) :
  asset_placed p -> completes sound (updateLease p) asset_placed.
Proof.
  intro Hp. unfold updateLease.
  destruct (Asset.lease p) as [l|]; [|apply initLeaseForProperty_completes; exact Hp].
  completes_step Hrng.
  apply completes_bind with (fun _ => True).
  { apply completes_orThrow. destruct (sound_neighborhood a _ H (proj1 Hp)) as (n & Hn & _).
    exists n. split; [exact Hn | exact Logic.I]. }
  intros n _. cbv zeta.
  destruct (Lease.yearsRemaining l - 1 <=? 0)%Z.
  - completes_step Hrng. completes_step Hrng. completes_step Hrng. exact Hp.
  - completes_step Hrng. exact Hp.
Qed.

Lemma updateLeasesOneYear_completes :
  completes sound updateLeasesOneYear (fun _ => True).
Proof.
  unfold updateLeasesOneYear. completes_step Hrng.
  apply completes_bind with (Forall asset_placed).
  { apply completes_mapM with asset_placed; [exact updateLease_completes | apply H]. }
  intros ps Hps. completes_step Hrng. apply sound_set_properties; assumption.
Qed.

Lemma processBuildPhase_completes (p : Asset.t) :
  asset_placed p -> completes sound (processBuildPhase p) asset_placed.
Proof.
  intro Hp. unfold processBuildPhase.
  destruct (Asset.build p) as [b|]; [|completes_step Hrng; exact Hp].
  destruct (String.eqb (Build.phase b) "construction").
  { cbv zeta. destruct (Build.yearsRemaining b - 1 <=? 0)%Z;
      completes_step Hrng; completes_step Hrng; exact Hp. }
  destruct (String.eqb (Build.phase b) "leaseup"); [|completes_step Hrng; exact Hp].
  cbv zeta. destruct (Build.stabilizeYearsRemaining b - 1 <=? 0)%Z.
  - completes_step Hrng. completes_step Hrng. completes_step Hrng.
    apply completes_bind with asset_placed.
    { apply initLeaseForProperty_completes. exact Hp. }
    intros p2 Hp2. completes_step Hrng. completes_step Hrng. exact Hp2.
  - completes_step Hrng. completes_step Hrng. exact Hp.
Qed.

Lemma processBuildPhases_completes :
  completes sound processBuildPhases (fun _ => True).
Proof.
  unfold processBuildPhases. completes_step Hrng.
  apply completes_bind with (Forall asset_placed).
  { apply completes_mapM with asset_placed; [exact processBuildPhase_completes | apply H]. }
  intros ps Hps. completes_step Hrng. apply sound_set_properties; assumption.
Qed.

Lemma cashFlowLoop_completes (s : RunState) (ps : list Asset.t) :
  sound s -> Forall asset_placed ps ->
  forall totalCF : Q,
  exists (ps' : list Asset.t) (total : Q),
    cashFlowLoop s (productTypesById data) ps totalCF = Some (ps', total)
    /\ Forall asset_placed ps'.
Proof.
  intros Hs Hps. induction Hps as [|p rest Hp _ IH]; intro totalCF.
  - exists [], totalCF. split; [reflexivity | constructor].
  - cbn [cashFlowLoop].
    destruct (sound_referenced s p Hs Hp) as (n & product & Hn & Hprod).
    unfold getNeighborhood in Hn. rewrite Hn, Hprod.
    match goal with |- context [cashFlowLoop s _ rest ?t] =>
      destruct (IH t) as (ps' & total & Hrest & Hplaced) end.
    rewrite Hrest. eexists; eexists. split; [reflexivity|].
    constructor; [exact Hp | exact Hplaced].
Qed.

Lemma applyOperatingCashFlow_completes :
  completes sound (applyOperatingCashFlow (productTypesById data)) (fun _ => True).
Proof.
  unfold applyOperatingCashFlow. completes_step Hrng.
  apply completes_bind with (fun r : list Asset.t * Q => Forall asset_placed (fst r)).
  { apply completes_orThrow.
    destruct (cashFlowLoop_completes a (properties a) H (proj1 (proj2 H)) 0)
      as (ps' & total & Hrun & Hplaced).
    exists (ps', total). split; [exact Hrun | exact Hplaced]. }
  intros [ps total] Hps. cbn [fst] in Hps.
  completes_step Hrng.
  { apply (sound_set_properties ps) in H0; [exact H0 | exact Hps]. }
  completes_step Hrng.
Qed.

End Soundness.

(** [arr[Math.floor(r * arr.length)]] is an element of a non-empty array
    when [r] is in [0, 1). *)
Lemma nthZ_draw {A : Type} (l : list A) (r : Q) :
  l <> [] -> 0 <= r -> r < 1 ->
  exists a : A,
    nthZ l (floor (r * inject_Z (Z.of_nat (List.length l)))) = Some a /\ In a l.
Proof.
  intros Hne Hr0 Hr1.
  assert (Hlen : (0 < Z.of_nat (List.length l))%Z)
    by (destruct l; [contradiction | cbn [List.length]; lia]).
  assert (HlenQ : 0 < inject_Z (Z.of_nat (List.length l)))
    by (replace 0 with (inject_Z 0) by reflexivity; rewrite <- Zlt_Qlt; exact Hlen).
  set (k := floor (r * inject_Z (Z.of_nat (List.length l)))).
  destruct (proj1 (floor_spec _ _) (eq_refl k)) as [Hlo Hhi]. fold k in Hlo, Hhi.
  assert (H0 : (0 <= k)%Z).
  { assert (H : (0 < k + 1)%Z); [|lia]. rewrite Zlt_Qlt, inject_Z_plus.
    apply Qle_lt_trans with (r * inject_Z (Z.of_nat (List.length l))); [|exact Hhi].
    apply Qmult_le_0_compat; lra. }
  assert (H1 : (k < Z.of_nat (List.length l))%Z).
  { rewrite Zlt_Qlt.
    apply Qle_lt_trans with (r * inject_Z (Z.of_nat (List.length l))); [exact Hlo|].
    setoid_replace (inject_Z (Z.of_nat (List.length l)))
      with (1 * inject_Z (Z.of_nat (List.length l))) at 2 by ring.
    apply Qmult_lt_compat_r; assumption. }
  unfold nthZ. destruct (k <? 0)%Z eqn:E; [apply Z.ltb_lt in E; lia|].
  destruct (nth_error l (Z.to_nat k)) as [a|] eqn:Hn.
  - exists a. split; [reflexivity|]. apply nth_error_In with (Z.to_nat k). exact Hn.
  - apply nth_error_None in Hn. lia.
Qed.

Lemma removeFirst_Forall {A : Type} (P : A -> Prop) (pred : A -> bool) (l : list A) :
  Forall P l -> Forall P (removeFirst pred l).
Proof.
  intro Hl. induction Hl as [|a rest Ha Hrest IH]; cbn [removeFirst].
  - constructor.
  - destruct (pred a); [exact Hrest | constructor; assumption].
Qed.

Lemma filter_Forall {A : Type} (P : A -> Prop) (f : A -> bool) (l : list A) :
  Forall P l -> Forall P (filter f l).
Proof.
  intro Hl. induction Hl as [|a rest Ha Hrest IH]; cbn [filter].
  - constructor.
  - destruct (f a); [constructor; assumption | exact IH].
Qed.

Lemma replaceFirst_ids (pred : Neighborhood -> bool) (x y : Neighborhood)
    (l : list Neighborhood) :
  find pred l = Some y -> Market.id x = Market.id y ->
  map Market.id (replaceFirst pred x l) = map Market.id l.
Proof.
  intros Hfind Hxy. induction l as [|a rest IH]; [reflexivity|].
  cbn [find replaceFirst map] in *. destruct (pred a).
  - injection Hfind as ->. cbn [map]. rewrite Hxy. reflexivity.
  - cbn [map]. rewrite (IH Hfind). reflexivity.
Qed.

Section Completion2.
Context {G : Generator}.

Lemma completes_mapM2 {A B : Type} (I : RunState -> Prop) (f : A -> M B)
    (R : A -> B -> Prop) (l : list A) :
  (forall a : A, completes I (f a) (R a)) ->
  completes I (mapM f l) (Forall2 R l).
Proof.
  intros Hf. induction l as [|a rest IH]; cbn [mapM].
  - apply completes_ret. constructor.
  - apply completes_bind with (R a); [apply Hf|]. intros b Hb.
    apply completes_bind with (Forall2 R rest); [exact IH|]. intros bs Hbs.
    apply completes_ret. constructor; assumption.
Qed.

End Completion2.

Section Soundness2.
Context {G : Generator}.
Hypothesis Hrng : in_unit_interval G.
Variable data : Data.
Hypothesis Hdata : data_neighborhoods data <> [].

(** *** The player's commands *)

Lemma sellProperty_completes (pid : string) :
  completes (sound data) (sellProperty data pid) (fun _ => True).
Proof.
  unfold sellProperty. completes_step Hrng.
  destruct (find (hasId pid) (properties a)) as [p|] eqn:Hfind;
    [|completes_step Hrng; exact Logic.I].
  assert (Hp : asset_placed data p) by exact (find_Forall _ _ _ _ (proj1 (proj2 H)) Hfind).
  apply completes_bind with (fun _ => True).
  { apply completes_orThrow. destruct (sound_snapshot data a p H Hp) as [snap Hsnap].
    exists snap. split; [exact Hsnap | exact Logic.I]. }
  intros snap _. cbv zeta.
  completes_step Hrng; [exact H0|].
  completes_step Hrng.
  { apply sound_set_properties; [exact H0|]. apply removeFirst_Forall. apply H0. }
  completes_step Hrng; [exact H0|].
  completes_step Hrng.
Qed.

Lemma storeAsset_completes (p : Asset.t) :
  asset_placed data p -> completes (sound data) (storeAsset p) (fun _ => True).
Proof.
  intro Hp. unfold storeAsset. completes_step Hrng.
  apply sound_set_properties; [exact H|].
  apply replaceFirst_Forall; [exact Hp | apply H].
Qed.

Lemma renovateProperty_completes (pid : string) :
  completes (sound data) (renovateProperty data pid) (fun _ => True).
Proof.
  unfold renovateProperty. completes_step Hrng.
  destruct (find (hasId pid) (properties a)) as [p|] eqn:Hfind;
    [|completes_step Hrng; exact Logic.I].
  assert (Hp : asset_placed data p) by exact (find_Forall _ _ _ _ (proj1 (proj2 H)) Hfind).
  cbv zeta. destruct (3 <=? renoLevelOf p)%Z; [completes_step Hrng|].
  apply completes_bind with (fun _ => True).
  { apply completes_orThrow. destruct (sound_snapshot data a p H Hp) as [snap Hsnap].
    exists snap. split; [exact Hsnap | exact Logic.I]. }
  intros snap _.
  match goal with |- context [Qltb (cash a) ?cost] => destruct (Qltb (cash a) cost) end;
    [completes_step Hrng|].
  completes_step Hrng; [exact H0|].
  apply completes_bind with (fun _ => True).
  { apply storeAsset_completes. cbn [Asset.lease Asset.set_vacancyDelta Asset.set_rentIndexMult
                                      Asset.set_renoLevel].
    destruct (Asset.lease p); exact Hp. }
  intros _ _. completes_step Hrng; [exact H0|]. completes_step Hrng.
Qed.

Lemma attemptRefi_completes (p : Asset.t) :
  asset_placed data p ->
  completes (sound data) (attemptRefi p (productTypesById data)) (fun _ => True).
Proof.
  intro Hp. unfold attemptRefi. completes_step Hrng.
  apply completes_bind with (fun _ => True).
  { apply completes_orThrow. destruct (sound_snapshot data a p H Hp) as [snap Hsnap].
    exists snap. split; [exact Hsnap | exact Logic.I]. }
  intros snap _. cbv zeta.
  completes_step Hrng. completes_step Hrng.
  match goal with |- context [Qleb (Asset.loanBalance p) ?x] =>
    destruct (Qleb (Asset.loanBalance p) x) end.
  - completes_step Hrng; [exact H1|].
    apply completes_bind with (fun _ => True); [apply storeAsset_completes; exact Hp|].
    intros _ _. completes_step Hrng. completes_step Hrng. exact Logic.I.
  - match goal with |- context [Qleb ?g (cash a)] => destruct (Qleb g (cash a)) end.
    + completes_step Hrng; [exact H1|].
      apply completes_bind with (fun _ => True); [apply storeAsset_completes; exact Hp|].
      intros _ _. completes_step Hrng. completes_step Hrng. exact Logic.I.
    + completes_step Hrng. completes_step Hrng. exact Logic.I.
Qed.

Lemma resolveMaturity_completes (p : Asset.t) :
  asset_placed data p -> completes (sound data) (resolveMaturity data p) (fun _ => True).
Proof.
  intro Hp. unfold resolveMaturity.
  apply completes_bind with (fun _ => True); [apply attemptRefi_completes; exact Hp|].
  intros ok _. destruct ok; [completes_step Hrng; exact Logic.I|].
  completes_step Hrng.
  apply completes_bind with (fun _ => True); [apply sellProperty_completes|].
  intros _ _. completes_step Hrng.
  destruct (Qltb (cash a) 0).
  - completes_step Hrng. completes_step Hrng. exact H0.
  - completes_step Hrng. exact Logic.I.
Qed.

Lemma handleMaturities_completes :
  completes (sound data) (handleMaturities data) (fun _ => True).
Proof.
  unfold handleMaturities. completes_step Hrng. cbv zeta.
  assert (Hm : Forall (asset_placed data) (filter (isMatured (year a)) (properties a)))
    by (apply filter_Forall; apply H).
  destruct (filter (isMatured (year a)) (properties a)) as [|p rest];
    [completes_step Hrng; exact Logic.I|].
  completes_step Hrng.
  apply completes_forM_ with (asset_placed data); [exact resolveMaturity_completes | exact Hm].
Qed.

Lemma buyListing_completes (listing : Listing.t) :
  listing_placed data listing -> completes (sound data) (buyListing listing) (fun _ => True).
Proof.
  intro Hl. unfold buyListing. cbv zeta.
  completes_step Hrng; [exact H|].
  completes_step Hrng. completes_step Hrng.
  apply completes_bind with (asset_placed data).
  { apply initLeaseForProperty_completes; [exact Hrng | exact Hl]. }
  intros p' Hp'.
  completes_step Hrng.
  { apply sound_set_properties; [exact H0|].
    apply Forall_app. split; [apply H0 | constructor; [exact Hp' | constructor]]. }
  completes_step Hrng; [exact H0|].
  completes_step Hrng.
Qed.

Lemma startBuild_completes (nid pt : string) :
  placed data nid pt -> completes (sound data) (startBuild data nid pt) (fun _ => True).
Proof.
  intros [Hn Hp]. unfold startBuild. completes_step Hrng.
  destruct (sound_neighborhood data a nid H Hn) as (n & Hfind & _).
  unfold getNeighborhood in Hfind. rewrite Hfind.
  apply completes_bind with (fun _ => True).
  { apply completes_orThrow. exists n. split; [reflexivity | exact Logic.I]. }
  intros n' _.
  destruct (negb (existsb (String.eqb pt) (zoning n'))); [completes_step Hrng|].
  cbv zeta. completes_step Hrng.
  match goal with |- context [Qltb (cash a) ?x] => destruct (Qltb (cash a) x) end;
    [completes_step Hrng|].
  completes_step Hrng; [exact H1|].
  completes_step Hrng.
  destruct (find_by_key ProductType.id (data_productTypes data) pt Hp) as (product & Hprod & _).
  rewrite Hprod.
  apply completes_bind with (fun _ => True).
  { apply completes_orThrow. exists product. split; [reflexivity | exact Logic.I]. }
  intros product' _.
  completes_step Hrng.
  { apply sound_set_properties; [exact H2|].
    apply Forall_app. split; [apply H2 | constructor; [split; assumption | constructor]]. }
  completes_step Hrng; [exact H2|].
  completes_step Hrng.
Qed.

End Soundness2.

Section Soundness3.
Context {G : Generator}.
Hypothesis Hrng : in_unit_interval G.
Variable data : Data.
Hypothesis Hdata : data_neighborhoods data <> [].

(** *** Listings *)

Lemma sound_neighborhoods_nonempty (s : RunState) : sound data s -> neighborhoods s <> [].
Proof.
  intros (Hn & _) Hnil. rewrite Hnil in Hn. unfold neighborhoodIds in Hn.
  destruct (data_neighborhoods data); [contradiction | discriminate].
Qed.

Lemma sound_member (s : RunState) (n : Neighborhood) :
  sound data s -> In n (neighborhoods s) -> In (Market.id n) (neighborhoodIds data).
Proof. intros (Hn & _) Hin. rewrite <- Hn. apply in_map. exact Hin. Qed.

Lemma generateListing_completes (i : Z) :
  completes (sound data) (generateListing data i)
    (fun o => Forall (listing_placed data) (optList o)).
Proof.
  unfold generateListing. completes_step Hrng. completes_step Hrng.
  destruct (nthZ_draw (neighborhoods a) a0 (sound_neighborhoods_nonempty a H)
              (proj1 H0) (proj2 H0)) as (n & Hnth & Hin).
  rewrite Hnth. cbv zeta.
  destruct (map ProductType.id (data_productTypes data)) as [|pid pids'] eqn:Hids.
  { completes_step Hrng. constructor. }
  rewrite <- Hids.
  apply completes_bind with (fun n' => n' = n).
  { apply completes_orThrow. exists n. split; reflexivity. }
  intros n' ->. cbv zeta.
  destruct (filter (fun pid => existsb (String.eqb pid) (zoning n))
              (map ProductType.id (data_productTypes data))) as [|pid0 pids] eqn:Hallowed.
  { completes_step Hrng. constructor. }
  rewrite <- Hallowed.
  completes_step Hrng.
  destruct (nthZ_draw (filter (fun pid => existsb (String.eqb pid) (zoning n))
                         (map ProductType.id (data_productTypes data))) a1)
    as (productType & Hpt & Hptin); [rewrite Hallowed; discriminate | apply H1 | apply H1 |].
  rewrite Hpt.
  apply completes_bind with (fun x => x = productType).
  { apply completes_orThrow. exists productType. split; reflexivity. }
  intros ? ->.
  apply filter_In in Hptin. destruct Hptin as [Hknown _].
  destruct (find_by_key ProductType.id (data_productTypes data) productType Hknown)
    as (product & Hprod & _).
  rewrite Hprod.
  apply completes_bind with (fun _ => True).
  { apply completes_orThrow. exists product. split; [reflexivity | exact Logic.I]. }
  intros product' _.
  completes_step Hrng. completes_step Hrng. completes_step Hrng. completes_step Hrng.
  completes_step Hrng.
  constructor; [|constructor]. split; [|exact Hknown].
  cbn [Listing.neighborhood]. apply (sound_member a); assumption.
Qed.

Lemma generateListings_completes :
  completes (sound data) (generateListings data) (fun _ => True).
Proof.
  unfold generateListings.
  eapply completes_bind; [apply generateListing_completes|]. intros l0 H0.
  eapply completes_bind; [apply generateListing_completes|]. intros l1 H1.
  eapply completes_bind; [apply generateListing_completes|]. intros l2 H2.
  completes_step Hrng. apply sound_set_listings; [exact H|].
  apply Forall_app. split; [exact H0|]. apply Forall_app. split; assumption.
Qed.

(** *** The yearly advance *)

Lemma pickEvent_completes (events : list Event) :
  completes (sound data) (pickEvent events) (fun _ => True).
Proof.
  unfold pickEvent. completes_step Hrng.
  destruct (Qltb a 0.35); [completes_step Hrng; exact Logic.I|].
  completes_step Hrng. completes_step Hrng. exact Logic.I.
Qed.

Lemma applyEvent_completes (event : option Event) :
  completes (sound data) (applyEvent event) (fun _ => True).
Proof.
  unfold applyEvent. destruct event as [ev|]; [|completes_step Hrng].
  completes_step Hrng.
  destruct (String.eqb (ev_scope ev) "global"); [completes_step Hrng; exact H|].
  destruct (String.eqb (ev_scope ev) "neighborhood"); [|completes_step Hrng; exact Logic.I].
  completes_step Hrng. cbv zeta.
  match goal with |- context [find ?f (neighborhoods a)] =>
    destruct (find f (neighborhoods a)) as [n|] eqn:Hfind end;
    [|completes_step Hrng; exact Logic.I].
  intros c Hc. eexists tt, _. split; [reflexivity|]. split; [|exact Logic.I].
  cbn [c_state]. destruct Hc as (Hn & Hp & Hl). split; [|split; assumption].
  cbn [neighborhoods set_neighborhoods].
  destruct H as (Ha & _). rewrite <- Ha.
  apply (replaceFirst_ids _ _ n); [exact Hfind | reflexivity].
Qed.

Lemma updateNeighborhood_completes (n : Neighborhood) :
  completes (sound data) (updateNeighborhood n) (fun n' => Market.id n' = Market.id n).
Proof.
  intros c Hc. unfold updateNeighborhood.
  assert (Hid : Market.id (fst (fst (updateNeighborhoodYear n (market (c_state c)) (c_rng c))))
                = Market.id n).
  { unfold updateNeighborhoodYear.
    destruct (rng_next (c_rng c)) as [r1 g1]. destruct (rng_next g1) as [r2 g2].
    destruct (rng_next g2) as [r3 g3]. destruct (rng_next g3) as [r4 g4]. reflexivity. }
  destruct (updateNeighborhoodYear n (market (c_state c)) (c_rng c)) as [[n' rg] g'].
  eexists _, _. split; [reflexivity|]. split; [exact Hc | exact Hid].
Qed.

Lemma Forall2_ids (l ns : list Neighborhood) :
  Forall2 (fun n n' => Market.id n' = Market.id n) l ns ->
  map Market.id ns = map Market.id l.
Proof.
  intro H. induction H as [|n n' l ns Hn _ IH]; cbn [map]; [reflexivity|].
  rewrite Hn, IH. reflexivity.
Qed.

Lemma nextYear_completes : completes (sound data) (nextYear data) (fun _ => True).
Proof.
  unfold nextYear. cbv zeta.
  eapply completes_bind; [apply pickEvent_completes|]. intros event _.
  completes_step Hrng; [exact H|].
  apply completes_bind with (fun _ => True).
  { intros c Hc. destruct (updateMarketYear (market (c_state c)) (c_rng c)) as [m' g'].
    eexists tt, _. split; [reflexivity|]. split; [exact Hc | exact Logic.I]. }
  intros _ _.
  eapply completes_bind; [apply applyEvent_completes|]. intros _ _.
  completes_step Hrng.
  eapply completes_bind; [apply completes_mapM2; exact updateNeighborhood_completes|].
  intros ns Hns. apply Forall2_ids in Hns.
  intros c Hc.
  assert (Hc' : sound data (set_neighborhoods ns (c_state c))).
  { destruct Hc as (Hn & Hp & Hl). split; [|split; assumption].
    cbn [neighborhoods set_neighborhoods]. rewrite Hns. apply H. }
  assert (Hrest : completes (sound data)
            (bind updateLeasesOneYear (fun _ =>
             bind processBuildPhases (fun _ =>
             bind (handleMaturities data) (fun _ =>
             bind (applyOperatingCashFlow (productTypesById data)) (fun _ =>
             generateListings data))))) (fun _ => True)).
  { eapply completes_bind; [apply updateLeasesOneYear_completes; exact Hrng|]. intros _ _.
    eapply completes_bind; [apply processBuildPhases_completes; exact Hrng|]. intros _ _.
    eapply completes_bind; [apply handleMaturities_completes; exact Hrng|]. intros _ _.
    eapply completes_bind; [apply applyOperatingCashFlow_completes; exact Hrng|]. intros _ _.
    apply generateListings_completes. }
  destruct (Hrest (mkCtx (set_neighborhoods ns (c_state c)) (c_rng c) (c_log c)) Hc')
    as (u & c' & Hrun & Hs & _).
  exists u, c'. split; [|split; [exact Hs | exact Logic.I]].
  unfold bind at 1. unfold modify at 1. exact Hrun.
Qed.

(** *** Runs *)

(** A command as the page can issue it: the build form offers the
    neighborhoods and the product types of the reference data. *)
Definition offered (a : Action) : Prop :=
  match a with
  | BuildNew nid pt => placed data nid pt
  | _ => True
  end.

Lemma perform_completes (a : Action) :
  offered a -> completes (sound data) (perform data a) (fun _ => True).
Proof.
  intro Ha. destruct a as [lid|nid pt|pid|pid|]; cbn [perform].
  - completes_step Hrng.
    destruct (find (fun x => String.eqb (Listing.id x) lid) (listings a)) as [listing|] eqn:Hf;
      [|completes_step Hrng; exact Logic.I].
    eapply completes_bind.
    { apply buyListing_completes; [exact Hrng|].
      exact (find_Forall _ _ _ _ (proj2 (proj2 H)) Hf). }
    intros _ _. completes_step Hrng.
    apply sound_set_listings; [exact H0|]. apply filter_Forall. apply H0.
  - apply startBuild_completes; [exact Hrng | exact Ha].
  - apply sellProperty_completes.
  - apply renovateProperty_completes.
  - apply nextYear_completes.
Qed.

Lemma initRun_completes (settings : Settings) (mathRandom : Q) :
  exists c : Ctx, initRun data settings mathRandom = Some c /\ sound data (c_state c).
Proof.
  unfold initRun. cbv zeta.
  match goal with
  | |- context [match ?m ?c0 with _ => _ end] =>
      assert (Hm : completes (sound data) m (fun _ => True));
      [|destruct (Hm c0) as (u & c & Hrun & Hs & _)]
  end.
  - completes_step Hrng. apply generateListings_completes.
  - cbn [c_state]. split; [|split; constructor].
    cbn [neighborhoods set_cash set_neighborhoods]. rewrite map_map. reflexivity.
  - exists c. rewrite Hrun. split; [reflexivity | exact Hs].
Qed.

End Soundness3.

(** X12.  A run never throws.  With generator values in [0, 1) and at least
    one neighborhood in the reference data, [initRun] followed by any sequence
    of commands (buy, sell and renovate with arbitrary ids; build with a
    neighborhood and a product type of the reference data; next year) returns
    a state, in which every property and every listing names a neighborhood
    of the state and a product type of the reference data. *)
Theorem run_completes (G : Generator) (data : Data) (settings : Settings)
    (mathRandom : Q) (actions : list Action) :
  in_unit_interval G ->
  data_neighborhoods data <> [] ->
  Forall (offered data) actions ->
  exists s : RunState,
    playRun data settings mathRandom actions = Some s /\ sound data s.
Proof.
  intros Hrng Hdata Hactions. unfold playRun.
  destruct (initRun_completes Hrng data Hdata settings mathRandom) as (c0 & Hinit & Hs0).
  rewrite Hinit.
  destruct (completes_forM_ (sound data) (perform data) (offered data) actions
              (perform_completes Hrng data Hdata) Hactions c0 Hs0) as (u & c & Hrun & Hs & _).
  rewrite Hrun. exists (c_state c). split; [reflexivity | exact Hs].
Qed.

Lemma run_completes_witness :
  exists s : RunState,
    playRun (G := Mulberry) Scenario.data Scenario.settings 0
      [NextYear; BuildNew "harbor" "hotel"; Sell "nothing"; NextYear] = Some s
    /\ sound Scenario.data s.
Proof.
  apply (run_completes Mulberry).
  - exact Mulberry_in_unit_interval.
  - discriminate.
  - constructor; [exact Logic.I|].
    constructor; [split; vm_compute; auto|].
    repeat constructor.
Defined.

(** Runs of the scenario return. *)
Lemma scenario_has_neighborhoods : data_neighborhoods Scenario.data <> [].
Proof. discriminate. Qed.

Lemma scenario_run_returns (actions : list Action) :
  Forall (offered Scenario.data) actions ->
  exists s : RunState,
    playRun (G := Mulberry) Scenario.data Scenario.settings 0 actions = Some s.
Proof.
  intro Hactions. unfold playRun.
  destruct (initRun_completes Mulberry_in_unit_interval Scenario.data
              scenario_has_neighborhoods Scenario.settings 0) as (c0 & Hinit & Hs0).
  rewrite Hinit.
  destruct (completes_forM_ (sound Scenario.data) (perform Scenario.data)
              (offered Scenario.data) actions
              (perform_completes Mulberry_in_unit_interval Scenario.data
                 scenario_has_neighborhoods)
              Hactions c0 Hs0) as (u & c & Hrun & _).
  rewrite Hrun. exists (c_state c). reflexivity.
Qed.

(** ** What the engine does to a property *)

Section Returns.
Context {G : Generator}.

(** Whenever [m] returns from a state satisfying [I], the new state
    satisfies [I] and the value satisfies [Q]. *)
Definition returns {A : Type} (I : RunState -> Prop) (m : M A) (Q : A -> Prop) : Prop :=
  forall (c : Ctx) (a : A) (c' : Ctx),
    I (c_state c) -> m c = Some (a, c') -> I (c_state c') /\ Q a.

Lemma returns_ret {A : Type} (I : RunState -> Prop) (a : A) (Q : A -> Prop) :
  Q a -> returns I (ret a) Q.
Proof. intros HQ c x c' HI H. inversion H; subst. split; assumption. Qed.

Lemma returns_bind {A B : Type} (I : RunState -> Prop) (m : M A) (f : A -> M B)
    (Q1 : A -> Prop) (Q2 : B -> Prop) :
  returns I m Q1 -> (forall a : A, Q1 a -> returns I (f a) Q2) -> returns I (bind m f) Q2.
Proof.
  intros Hm Hf c b c' HI H.
  destruct (bind_inv m f c b c' H) as (a & c1 & H1 & H2).
  destruct (Hm c a c1 HI H1) as [HI1 HQ1].
  exact (Hf a HQ1 c1 b c' HI1 H2).
Qed.

Lemma returns_preserves {A : Type} (I : RunState -> Prop) (m : M A) :
  preserves I m -> returns I m (fun _ => True).
Proof. intros Hm c a c' HI H. split; [exact (Hm c a c' HI H) | exact Logic.I]. Qed.

Lemma preserves_returns {A : Type} (I : RunState -> Prop) (m : M A) (Q : A -> Prop) :
  returns I m Q -> preserves I m.
Proof. intros Hm c a c' HI H. exact (proj1 (Hm c a c' HI H)). Qed.

Lemma returns_getState (I : RunState -> Prop) : returns I getState I.
Proof. intros c x c' HI H. inversion H; subst. split; exact HI. Qed.

Lemma returns_orThrow {A : Type} (I : RunState -> Prop) (o : option A) (Q : A -> Prop) :
  (forall a : A, o = Some a -> Q a) -> returns I (orThrow o) Q.
Proof.
  intros HQ c x c' HI H. destruct o as [a|]; [|discriminate].
  inversion H; subst. split; [exact HI | apply HQ; reflexivity].
Qed.

Lemma returns_mapM {A B : Type} (I : RunState -> Prop) (f : A -> M B)
    (P : A -> Prop) (Q : B -> Prop) (l : list A) :
  (forall a : A, P a -> returns I (f a) Q) ->
  Forall P l -> returns I (mapM f l) (Forall Q).
Proof.
  intros Hf Hl. induction Hl as [|a rest Ha _ IH]; cbn [mapM].
  - apply returns_ret. constructor.
  - apply returns_bind with Q; [apply Hf; exact Ha|]. intros b Hb.
    apply returns_bind with (Forall Q); [exact IH|]. intros bs Hbs.
    apply returns_ret. constructor; assumption.
Qed.

Lemma preserves_forM_on {A : Type} (I : RunState -> Prop) (f : A -> M unit)
    (P : A -> Prop) (l : list A) :
  (forall a : A, P a -> preserves I (f a)) -> Forall P l -> preserves I (forM_ f l).
Proof.
  intros Hf Hl. induction Hl as [|a rest Ha _ IH]; cbn [forM_].
  - apply preserves_ret.
  - apply preserves_bind; [apply Hf; exact Ha|]. intros _. exact IH.
Qed.

End Returns.

(** One step of a proof of [returns]. *)
Ltac returns_step :=
  lazymatch goal with
  | |- returns _ (bind getState _) _ =>
      eapply returns_bind; [apply returns_getState | intros ? ?]
  | |- returns _ (bind (modify _) _) _ =>
      eapply returns_bind;
      [apply returns_preserves; apply preserves_modify; intros ? ? | intros _ _]
  | |- returns _ (bind (orThrow _) _) _ =>
      eapply returns_bind; [apply returns_preserves; apply preserves_orThrow | intros ? _]
  | |- returns _ (bind _ _) _ =>
      eapply returns_bind; [apply returns_preserves; preserves_auto | intros ? _]
  | |- returns _ (ret _) _ => apply returns_ret
  | |- returns _ _ (fun _ => True) => apply returns_preserves; preserves_auto
  end.

(** The renovation state of a property: the level is 0 to 3, the rent
    multiplier is 1 + 0.03 per level, the vacancy adjustment is at least
    -0.005 per level, and the cap-rate adjustment is the 0.0 it was created
    with. *)
Definition improved (p : Asset.t) : Prop :=
  (0 <= renoLevelOf p <= 3)%Z
  /\ Asset.rentIndexMult p == 1 + 0.03 * inject_Z (renoLevelOf p)
  /\ - (0.005 * inject_Z (renoLevelOf p)) <= Asset.vacancyDelta p
  /\ Asset.capRateDelta p = 0.0.

(** The loan terms of a property. *)
Definition financed (p : Asset.t) : Prop :=
  Asset.amortYears p = 30%Z
  /\ Asset.ltv p = Some 0.65
  /\ (0.03 <= Asset.loanRate p /\ Asset.loanRate p <= 0.18)
  /\ (Asset.interestOnly p = true -> Asset.build p <> None)
  /\ Asset.maturityYear p <> None.

Definition asset_ok (p : Asset.t) : Prop := improved p /\ financed p.

(** The loan terms quoted by a listing. *)
Definition quoted (l : Listing.t) : Prop :=
  LoanTerms.ltv (Listing.loanTerms l) = 0.65
  /\ LoanTerms.amortYears (Listing.loanTerms l) = 30%Z
  /\ LoanTerms.interestOnly (Listing.loanTerms l) = false
  /\ (0.03 <= LoanTerms.rate (Listing.loanTerms l)
      /\ LoanTerms.rate (Listing.loanTerms l) <= 0.14).

Definition kept (s : RunState) : Prop :=
  Forall asset_ok (properties s) /\ Forall quoted (listings s).

Lemma kept_set_properties (ps : list Asset.t) (s : RunState) :
  kept s -> Forall asset_ok ps -> kept (set_properties ps s).
Proof. intros [_ Hl] Hps. split; assumption. Qed.

Lemma kept_set_listings (ls : list Listing.t) (s : RunState) :
  kept s -> Forall quoted ls -> kept (set_listings ls s).
Proof. intros [Hp _] Hls. split; assumption. Qed.

(** Reduces the field accesses on an updated property. *)
Ltac asset_fields :=
  cbn [Asset.renoLevel Asset.rentIndexMult Asset.vacancyDelta Asset.capRateDelta
       Asset.amortYears Asset.ltv Asset.loanRate Asset.interestOnly Asset.build
       Asset.maturityYear Asset.lease Asset.loanBalance
       Asset.set_rentIndexMult Asset.set_vacancyDelta Asset.set_renoLevel
       Asset.set_loanBalance Asset.set_loanRate Asset.set_amortYears
       Asset.set_interestOnly Asset.set_maturityYear Asset.set_build Asset.set_lease].

Section Kept.
Context {G : Generator}.

Lemma initLeaseForProperty_kept (p : Asset.t) :
  asset_ok p -> returns kept (initLeaseForProperty p) asset_ok.
Proof.
  intro Hp. unfold initLeaseForProperty.
  returns_step. returns_step. cbv zeta.
  eapply returns_bind; [apply returns_preserves; apply randInt_frame | intros term _].
  returns_step. exact Hp.
Qed.

Lemma updateLease_kept (p : Asset.t) :
  asset_ok p -> returns kept (updateLease p) asset_ok.
Proof.
  intro Hp. unfold updateLease.
  destruct (Asset.lease p) as [l|]; [|apply initLeaseForProperty_kept; exact Hp].
  returns_step. returns_step. cbv zeta.
  destruct (Lease.yearsRemaining l - 1 <=? 0)%Z.
  - eapply returns_bind; [apply returns_preserves; apply randInt_frame | intros term _].
    returns_step. returns_step. exact Hp.
  - returns_step. exact Hp.
Qed.

Lemma updateLeasesOneYear_kept : preserves kept updateLeasesOneYear.
Proof.
  apply preserves_returns with (fun _ => True).
  unfold updateLeasesOneYear. returns_step.
  apply returns_bind with (Forall asset_ok).
  { apply returns_mapM with asset_ok; [exact updateLease_kept | apply H]. }
  intros ps Hps. apply returns_preserves. preserves_step.
  apply kept_set_properties; assumption.
Qed.

Lemma processBuildPhase_kept (p : Asset.t) :
  asset_ok p -> returns kept (processBuildPhase p) asset_ok.
Proof.
  intro Hp. unfold processBuildPhase.
  destruct (Asset.build p) as [b|] eqn:Hb; [|returns_step; exact Hp].
  pose proof Hp as [Himp Hfin].
  destruct Himp as (Hl & Hm & Hv & Hc). destruct Hfin as (Ha & Hltv & Hr & Hio & Hmy).
  destruct (String.eqb (Build.phase b) "construction").
  { cbv zeta. destruct (Build.yearsRemaining b - 1 <=? 0)%Z;
      returns_step; returns_step;
      (split; [exact (proj1 Hp)|]);
      (split; [exact Ha|]); (split; [exact Hltv|]); (split; [exact Hr|]);
      (split; [intros _; discriminate | exact Hmy]). }
  destruct (String.eqb (Build.phase b) "leaseup"); [|returns_step; exact Hp].
  cbv zeta. destruct (Build.stabilizeYearsRemaining b - 1 <=? 0)%Z.
  - returns_step.
    eapply returns_bind; [apply returns_preserves; apply preserves_rng | intros r _].
    eapply returns_bind;
      [apply returns_preserves; apply makeMaturityYears_frame | intros my _].
    apply returns_bind with asset_ok.
    { apply initLeaseForProperty_kept. split.
      - split; [exact Hl|]. split; [exact Hm|]. split; [|exact Hc].
        cbn [Asset.vacancyDelta Asset.set_maturityYear Asset.set_loanRate
             Asset.set_amortYears Asset.set_interestOnly Asset.set_vacancyDelta].
        assert (0 <= inject_Z (renoLevelOf p))
          by (replace 0 with (inject_Z 0) by reflexivity; rewrite <- Zle_Qle; lia).
        change (renoLevelOf _) with (renoLevelOf p). lra.
      - split; [reflexivity|]. split; [exact Hltv|].
        split; [asset_fields; clamp_range|]. split; [discriminate | discriminate]. }
    intros p2 Hp2. returns_step. returns_step. exact Hp2.
  - returns_step. returns_step. split.
    + split; [exact Hl|]. split; [exact Hm|]. split; [|exact Hc].
      cbn [Asset.vacancyDelta Asset.set_vacancyDelta].
      apply Qle_trans with (Asset.vacancyDelta p); [exact Hv | apply Q.le_max_l].
    + split; [exact Ha|]. split; [exact Hltv|]. split; [exact Hr|].
      split; [intros _; discriminate | exact Hmy].
Qed.

Lemma processBuildPhases_kept : preserves kept processBuildPhases.
Proof.
  apply preserves_returns with (fun _ => True).
  unfold processBuildPhases. returns_step.
  apply returns_bind with (Forall asset_ok).
  { apply returns_mapM with asset_ok; [exact processBuildPhase_kept | apply H]. }
  intros ps Hps. apply returns_preserves. preserves_step.
  apply kept_set_properties; assumption.
Qed.

Lemma cashFlowLoop_kept (s : RunState) (byId : string -> option ProductType.t)
    (ps : list Asset.t) :
  Forall asset_ok ps ->
  forall (totalCF : Q) (ps' : list Asset.t) (total : Q),
    cashFlowLoop s byId ps totalCF = Some (ps', total) -> Forall asset_ok ps'.
Proof.
  intro Hps. induction Hps as [|p rest Hp _ IH]; intros totalCF ps' total H.
  - inversion H; subst. constructor.
  - cbn [cashFlowLoop] in H.
    destruct (find _ (neighborhoods s)) as [n|]; [|discriminate].
    destruct (byId (Asset.productType p)) as [product|]; [|discriminate].
    match type of H with context [cashFlowLoop s byId rest ?t] =>
      destruct (cashFlowLoop s byId rest t) as [[rest' total']|] eqn:Hrest;
      [|discriminate] end.
    inversion H; subst. constructor; [exact Hp | exact (IH _ _ _ Hrest)].
Qed.

Lemma applyOperatingCashFlow_kept (byId : string -> option ProductType.t) :
  preserves kept (applyOperatingCashFlow byId).
Proof.
  apply preserves_returns with (fun _ => True).
  unfold applyOperatingCashFlow. returns_step.
  apply returns_bind with (fun r : list Asset.t * Q => Forall asset_ok (fst r)).
  { apply returns_orThrow. intros [ps total] Hrun.
    exact (cashFlowLoop_kept a byId (properties a) (proj1 H) 0 ps total Hrun). }
  intros [ps total] Hps. cbn [fst] in Hps.
  apply returns_preserves. preserves_step; [|preserves_auto].
  preserves_step. apply (kept_set_properties ps) in H0; [exact H0 | exact Hps].
Qed.

Lemma storeAsset_kept (p : Asset.t) : asset_ok p -> preserves kept (storeAsset p).
Proof.
  intro Hp. unfold storeAsset. preserves_step.
  apply kept_set_properties; [exact H|].
  apply replaceFirst_Forall; [exact Hp | apply H].
Qed.

Lemma sellProperty_kept (data : Data) (pid : string) :
  preserves kept (sellProperty data pid).
Proof.
  unfold sellProperty. preserves_step; [preserves_auto|].
  destruct (find _ _); [|preserves_auto].
  preserves_step; [preserves_auto|]. cbv zeta.
  preserves_step; [preserves_step; exact H|].
  preserves_step.
  { preserves_step. apply kept_set_properties; [exact H|].
    apply removeFirst_Forall. apply H. }
  preserves_step; [preserves_step; exact H | preserves_auto].
Qed.

End Kept.

Section Kept2.
Context {G : Generator}.

Lemma renovated_ok (p : Asset.t) :
  asset_ok p -> (renoLevelOf p < 3)%Z ->
  asset_ok
    (Asset.set_vacancyDelta (clamp (Asset.vacancyDelta p - 0.005) (-0.08) 0.20)
       (Asset.set_rentIndexMult (clamp (Asset.rentIndexMult p + 0.03) 0.8 1.35)
          (Asset.set_renoLevel (Some (renoLevelOf p + 1)%Z) p))).
Proof.
  intros [(Hl & Hm & Hv & Hc) Hfin] Hlt. split; [|exact Hfin].
  unfold improved, renoLevelOf. asset_fields. fold (renoLevelOf p).
  assert (HL0 : 0 <= inject_Z (renoLevelOf p))
    by (replace 0 with (inject_Z 0) by reflexivity; rewrite <- Zle_Qle; lia).
  assert (HL3 : inject_Z (renoLevelOf p) <= 2)
    by (replace 2 with (inject_Z 2) by reflexivity; rewrite <- Zle_Qle; lia).
  rewrite inject_Z_plus. change (inject_Z 1) with 1.
  split; [lia|]. split; [|split; [|exact Hc]].
  - rewrite clamp_inside; lra.
  - unfold clamp.
    apply Qle_trans with (Qmin 0.20 (Asset.vacancyDelta p - 0.005)); [|apply Q.le_max_r].
    apply Q.min_glb; lra.
Qed.

Lemma renovateProperty_kept (data : Data) (pid : string) :
  preserves kept (renovateProperty data pid).
Proof.
  apply preserves_returns with (fun _ => True).
  unfold renovateProperty. returns_step.
  destruct (find (hasId pid) (properties a)) as [p|] eqn:Hfind; [|returns_step; exact Logic.I].
  assert (Hp : asset_ok p) by exact (find_Forall _ _ _ _ (proj1 H) Hfind).
  cbv zeta. destruct (3 <=? renoLevelOf p)%Z eqn:Hmax; [returns_step|].
  apply Z.leb_gt in Hmax.
  returns_step.
  match goal with |- context [Qltb (cash a) ?cost] => destruct (Qltb (cash a) cost) end;
    [returns_step|].
  returns_step; [exact H0|].
  apply returns_bind with (fun _ => True).
  { apply returns_preserves. apply storeAsset_kept.
    pose proof (renovated_ok p Hp Hmax) as Hok.
    asset_fields. destruct (Asset.lease p); exact Hok. }
  intros _ _. returns_step; [exact H0|]. returns_step.
Qed.

Lemma attemptRefi_kept (p : Asset.t) (byId : string -> option ProductType.t) :
  asset_ok p -> preserves kept (attemptRefi p byId).
Proof.
  intro Hp.
  assert (Hok : forall (newLoan newRate : Q) (balloon : Z),
             0.03 <= newRate /\ newRate <= 0.18 ->
             asset_ok (refinanced newLoan newRate balloon p)).
  { intros newLoan newRate balloon Hrate.
    destruct Hp as [Himp (Ha & Hltv & Hr & Hio & Hmy)]. split; [exact Himp|].
    unfold financed, refinanced. asset_fields.
    split; [reflexivity|]. split; [exact Hltv|]. split; [exact Hrate|].
    split; discriminate. }
  unfold attemptRefi. preserves_step; [preserves_auto|].
  preserves_step; [preserves_auto|]. cbv zeta.
  preserves_step; [preserves_auto|].
  preserves_step; [apply makeMaturityYears_frame|].
  match goal with |- context [Qleb (Asset.loanBalance p) ?x] =>
    destruct (Qleb (Asset.loanBalance p) x) end.
  - preserves_step; [preserves_step; exact H|].
    preserves_step; [apply storeAsset_kept; apply Hok; clamp_range | preserves_auto].
  - match goal with |- context [Qleb ?g (cash a)] => destruct (Qleb g (cash a)) end;
      [|preserves_auto].
    preserves_step; [preserves_step; exact H|].
    preserves_step; [apply storeAsset_kept; apply Hok; clamp_range | preserves_auto].
Qed.

Lemma resolveMaturity_kept (data : Data) (p : Asset.t) :
  asset_ok p -> preserves kept (resolveMaturity data p).
Proof.
  intro Hp. unfold resolveMaturity.
  preserves_step; [apply attemptRefi_kept; exact Hp|].
  destruct a; [preserves_auto|].
  preserves_step; [preserves_auto|].
  preserves_step; [apply sellProperty_kept|].
  preserves_step; [preserves_auto|].
  destruct (Qltb (cash a1) 0); [|preserves_auto].
  preserves_step; [preserves_auto|]. preserves_step. exact H.
Qed.

Lemma handleMaturities_kept (data : Data) : preserves kept (handleMaturities data).
Proof.
  apply preserves_returns with (fun _ => True).
  unfold handleMaturities. returns_step. cbv zeta.
  assert (Hm : Forall asset_ok (filter (isMatured (year a)) (properties a)))
    by (apply filter_Forall; apply H).
  destruct (filter (isMatured (year a)) (properties a)) as [|p rest];
    [returns_step; exact Logic.I|].
  apply returns_preserves. preserves_step; [preserves_auto|].
  apply preserves_forM_on with asset_ok; [intro q; apply resolveMaturity_kept | exact Hm].
Qed.

Lemma buyListing_kept (listing : Listing.t) :
  quoted listing -> preserves kept (buyListing listing).
Proof.
  intros (Hltv & Ham & Hio & Hrate).
  apply preserves_returns with (fun _ => True).
  unfold buyListing. cbv zeta.
  returns_step; [exact H|].
  eapply returns_bind; [apply returns_preserves; apply makeMaturityYears_frame | intros my _].
  returns_step.
  apply returns_bind with asset_ok.
  { apply initLeaseForProperty_kept. split.
    - unfold improved, renoLevelOf. asset_fields.
      split; [lia|]. split; [reflexivity|]. split; [discriminate | reflexivity].
    - unfold financed. asset_fields.
      split; [exact Ham|]. split; [rewrite Hltv; reflexivity|].
      split; [split; [apply Hrate | apply Qle_trans with 0.14; [apply Hrate | discriminate]]|].
      split; [rewrite Hio; discriminate | discriminate]. }
  intros p' Hp'.
  returns_step.
  { apply kept_set_properties; [exact H0|].
    apply Forall_app. split; [apply H0 | constructor; [exact Hp' | constructor]]. }
  returns_step; [exact H0|]. returns_step.
Qed.

Lemma startBuild_kept (data : Data) (nid pt : string) :
  preserves kept (startBuild data nid pt).
Proof.
  unfold startBuild. preserves_step; [preserves_auto|].
  preserves_step; [preserves_auto|].
  destruct (negb (existsb (String.eqb pt) (zoning a0))); [preserves_auto|].
  cbv zeta. preserves_step; [preserves_auto|].
  match goal with |- context [Qltb (cash a) ?x] => destruct (Qltb (cash a) x) end;
    [preserves_auto|].
  preserves_step; [preserves_step; exact H|].
  preserves_step; [preserves_auto|].
  preserves_step; [preserves_auto|].
  preserves_step; [|preserves_step; [preserves_step; exact H | preserves_auto]].
  preserves_step. apply kept_set_properties; [exact H|].
  apply Forall_app. split; [apply H|]. constructor; [|constructor]. split.
  - unfold improved, renoLevelOf. asset_fields.
    split; [lia|]. split; [reflexivity|]. split; [discriminate | reflexivity].
  - unfold financed. asset_fields.
    split; [reflexivity|]. split; [reflexivity|]. split; [clamp_range|].
    split; discriminate.
Qed.

Lemma generateListing_kept (data : Data) (i : Z) :
  returns kept (generateListing data i) (fun o => Forall quoted (optList o)).
Proof.
  unfold generateListing. returns_step.
  eapply returns_bind; [apply returns_preserves; apply preserves_rng | intros r1 _].
  cbv zeta.
  destruct (map ProductType.id (data_productTypes data)) as [|pid pids'];
    [returns_step; constructor|].
  returns_step.
  destruct (filter _ _) as [|pid0 pids]; [returns_step; constructor|].
  eapply returns_bind; [apply returns_preserves; apply preserves_rng | intros r2 _].
  returns_step. returns_step.
  eapply returns_bind; [apply returns_preserves; apply preserves_rng | intros r3 _].
  eapply returns_bind; [apply returns_preserves; apply preserves_rng | intros r4 _].
  eapply returns_bind; [apply returns_preserves; apply preserves_rng | intros r5 _].
  eapply returns_bind; [apply returns_preserves; apply preserves_rng | intros r6 _].
  returns_step. constructor; [|constructor].
  unfold quoted. cbn [Listing.loanTerms LoanTerms.ltv LoanTerms.amortYears
                      LoanTerms.interestOnly LoanTerms.rate].
  split; [reflexivity|]. split; [reflexivity|]. split; [reflexivity | clamp_range].
Qed.

Lemma generateListings_kept (data : Data) : preserves kept (generateListings data).
Proof.
  apply preserves_returns with (fun _ => True).
  unfold generateListings.
  eapply returns_bind; [apply generateListing_kept|]. intros l0 H0.
  eapply returns_bind; [apply generateListing_kept|]. intros l1 H1.
  eapply returns_bind; [apply generateListing_kept|]. intros l2 H2.
  apply returns_preserves. preserves_step. apply kept_set_listings; [exact H|].
  apply Forall_app. split; [exact H0|]. apply Forall_app. split; assumption.
Qed.

Lemma applyEvent_kept (event : option Event) : preserves kept (applyEvent event).
Proof.
  unfold applyEvent. destruct event as [ev|]; [|preserves_auto].
  preserves_step; [preserves_auto|].
  destruct (String.eqb (ev_scope ev) "global"); [preserves_step; exact H|].
  destruct (String.eqb (ev_scope ev) "neighborhood"); [|preserves_auto].
  preserves_step; [preserves_auto|]. cbv zeta.
  destruct (find _ _); [|preserves_auto]. preserves_step. exact H.
Qed.

Lemma updateNeighborhoods_kept (l : list Neighborhood) :
  preserves kept (mapM updateNeighborhood l).
Proof.
  apply preserves_mapM. intros n c n' c' Hc H. unfold updateNeighborhood in H.
  destruct (updateNeighborhoodYear n (market (c_state c)) (c_rng c)) as [[n1 rg] g1].
  inversion H; subst. exact Hc.
Qed.

Lemma nextYear_kept (data : Data) : preserves kept (nextYear data).
Proof.
  unfold nextYear. cbv zeta.
  preserves_step; [unfold pickEvent; preserves_auto|].
  preserves_step; [preserves_step; exact H|].
  preserves_step.
  { intros c x c' Hc H.
    destruct (updateMarketYear (market (c_state c)) (c_rng c)) as [m' g'].
    inversion H; subst. exact Hc. }
  preserves_step; [apply applyEvent_kept|].
  preserves_step; [preserves_auto|].
  preserves_step; [apply updateNeighborhoods_kept|].
  preserves_step; [preserves_step; exact H|].
  preserves_step; [apply updateLeasesOneYear_kept|].
  preserves_step; [apply processBuildPhases_kept|].
  preserves_step; [apply handleMaturities_kept|].
  preserves_step; [apply applyOperatingCashFlow_kept|].
  apply generateListings_kept.
Qed.

Lemma perform_kept (data : Data) (a : Action) : preserves kept (perform data a).
Proof.
  destruct a as [lid|nid pt|pid|pid|]; cbn [perform].
  - apply preserves_returns with (fun _ => True). returns_step.
    destruct (find (fun x => String.eqb (Listing.id x) lid) (listings a)) as [listing|] eqn:Hf;
      [|returns_step; exact Logic.I].
    apply returns_preserves. preserves_step.
    + apply buyListing_kept. exact (find_Forall _ _ _ _ (proj2 H) Hf).
    + preserves_step. apply kept_set_listings; [exact H0|]. apply filter_Forall. apply H0.
  - apply startBuild_kept.
  - apply sellProperty_kept.
  - apply renovateProperty_kept.
  - apply nextYear_kept.
Qed.

Lemma playRun_kept (data : Data) (settings : Settings) (mathRandom : Q)
    (actions : list Action) (s : RunState) :
  playRun data settings mathRandom actions = Some s -> kept s.
Proof.
  intro H. unfold playRun in H.
  destruct (initRun data settings mathRandom) as [c0|] eqn:Hinit; [|discriminate].
  destruct (forM_ (perform data) actions c0) as [[u c]|] eqn:Hrun; [|discriminate].
  inversion H; subst s.
  apply (preserves_forM_ kept (perform data) actions (perform_kept data) c0 u c);
    [|exact Hrun].
  unfold initRun in Hinit. cbv zeta in Hinit.
  match type of Hinit with
  | match ?m ?c1 with _ => _ end = _ =>
      destruct (m c1) as [[u' c2]|] eqn:Hgen; [|discriminate];
      assert (Hpre : preserves kept m)
  end.
  { preserves_step; [preserves_auto | apply generateListings_kept]. }
  inversion Hinit; subst c2. apply (Hpre _ _ _) in Hgen; [exact Hgen|].
  split; constructor.
Qed.

End Kept2.

(** X13.  In every state of a run, each property has a renovation level
    from 0 to 3, a rent multiplier of exactly 1 + 0.03 per level (at most
    1.09, so its clamp into [0.8, 1.35] never binds), a vacancy adjustment of
    at least -0.005 per level, and the cap-rate adjustment 0.0 it was created
    with. *)
Theorem improvements_bounded (G : Generator) (data : Data) (settings : Settings)
    (mathRandom : Q) (actions : list Action) (s : RunState) :
  playRun data settings mathRandom actions = Some s ->
  Forall (fun p : Asset.t =>
            improved p
            /\ (1 <= Asset.rentIndexMult p /\ Asset.rentIndexMult p <= 1.09)
            /\ -0.015 <= Asset.vacancyDelta p)
         (properties s).
Proof.
  intro H. destruct (playRun_kept data settings mathRandom actions s H) as [Hp _].
  apply Forall_impl with asset_ok; [|exact Hp].
  intros p [Himp _]. split; [exact Himp|].
  destruct Himp as (Hl & Hm & Hv & _).
  assert (HL0 : 0 <= inject_Z (renoLevelOf p))
    by (replace 0 with (inject_Z 0) by reflexivity; rewrite <- Zle_Qle; lia).
  assert (HL3 : inject_Z (renoLevelOf p) <= 3)
    by (replace 3 with (inject_Z 3) by reflexivity; rewrite <- Zle_Qle; lia).
  split; [split|]; lra.
Qed.

Lemma improvements_bounded_witness :
  exists s : RunState,
    playRun (G := Mulberry) Scenario.data Scenario.settings 0
      [NextYear; Buy "L2-0-980974"; Renovate "PL2-0-980974"] = Some s
    /\ Forall (fun p : Asset.t => 1 <= Asset.rentIndexMult p /\ Asset.rentIndexMult p <= 1.09)
         (properties s).
Proof.
  destruct (scenario_run_returns [NextYear; Buy "L2-0-980974"; Renovate "PL2-0-980974"])
    as (s & E); [repeat constructor|].
  exists s. split; [exact E|].
  pose proof (improvements_bounded Mulberry Scenario.data Scenario.settings 0 _ s E) as H.
  apply Forall_impl with (2 := H). intros p Hp. apply Hp.
Defined.

(** ** Loan terms across fresh and resumed runs *)

(** Proves that a command keeps a property of the state that the command's
    writes do not touch: the goal is decomposed along the command, and every
    write is closed by conversion. *)
Ltac untouched :=
  repeat first
    [ progress cbv zeta
    | apply randInt_frame
    | apply makeMaturityYears_frame
    | preserves_step
    | match goal with H : ?I ?s |- ?I _ => exact H end ].

(** [p'] is [p] with at most its lease replaced. *)
Definition lease_apart (p p' : Asset.t) : Prop :=
  exists l : option Lease.t, p' = Asset.set_lease l p.

Lemma initLeaseForProperty_lease_apart {G : Generator} (p p' : Asset.t) (c c' : Ctx) :
  initLeaseForProperty p c = Some (p', c') ->
  lease_apart p p' /\ c_state c' = c_state c.
Proof.
  intro H. split.
  - unfold initLeaseForProperty in H.
    apply bind_inv in H. destruct H as (s & c1 & _ & H).
    apply bind_inv in H. destruct H as (n & c2 & _ & H). cbv zeta in H.
    apply bind_inv in H. destruct H as (term & c3 & _ & H).
    inversion H; subst. eexists. reflexivity.
  - exact (initLeaseForProperty_frame (fun s => s = c_state c) p c p' c' eq_refl H).
Qed.

Lemma backfill_lease_apart {G : Generator} (ps : list Asset.t) :
  forall (ps' : list Asset.t) (c c' : Ctx),
    mapM (fun p => match Asset.lease p with
                   | None => initLeaseForProperty p
                   | Some _ => ret p
                   end) ps c = Some (ps', c') ->
    Forall2 lease_apart ps ps' /\ c_state c' = c_state c.
Proof.
  induction ps as [|p rest IH]; intros ps' c c' H; cbn [mapM] in H.
  - inversion H; subst. split; [constructor | reflexivity].
  - apply bind_inv in H. destruct H as (p1 & c1 & H1 & H2).
    apply bind_inv in H2. destruct H2 as (rest' & c2 & H2 & H3).
    inversion H3; subst. clear H3.
    apply IH in H2. destruct H2 as [HF Hst].
    assert (Hp : lease_apart p p1 /\ c_state c1 = c_state c).
    { destruct (Asset.lease p) as [l|] eqn:Hl.
      - inversion H1; subst. split; [|reflexivity].
        exists (Some l). destruct p1. cbn in Hl. subst. reflexivity.
      - apply initLeaseForProperty_lease_apart. exact H1. }
    destruct Hp as [Hp Hst1]. split; [|congruence].
    constructor; assumption.
Qed.

Lemma lease_apart_financed (p p' : Asset.t) :
  lease_apart p p' -> (financed p <-> financed p').
Proof. intros [l ->]. destruct p. reflexivity. Qed.

Lemma lease_apart_improved (p p' : Asset.t) :
  lease_apart p p' -> (improved p <-> improved p').
Proof. intros [l ->]. destruct p. reflexivity. Qed.

Lemma Forall2_Forall_iff {A : Type} (R : A -> A -> Prop) (P : A -> Prop) (l l' : list A) :
  (forall a b : A, R a b -> (P a <-> P b)) ->
  Forall2 R l l' -> (Forall P l <-> Forall P l').
Proof.
  intros HR H. induction H as [|a b l l' Hab _ IH]; [split; constructor|].
  split; intro HF; inversion HF; subst; constructor;
    solve [apply (HR a b Hab); assumption | apply IH; assumption].
Qed.

Lemma initRun_kept {G : Generator} (data : Data) (settings : Settings) (mathRandom : Q)
    (c : Ctx) :
  initRun data settings mathRandom = Some c -> kept (c_state c).
Proof.
  intro Hinit. unfold initRun in Hinit. cbv zeta in Hinit.
  match type of Hinit with
  | match ?m ?c1 with _ => _ end = _ =>
      destruct (m c1) as [[u' c2]|] eqn:Hgen; [|discriminate];
      assert (Hpre : preserves kept m)
  end.
  { preserves_step; [preserves_auto | apply generateListings_kept]. }
  inversion Hinit; subst c2. apply (Hpre _ _ _) in Hgen; [exact Hgen|].
  split; constructor.
Qed.

Lemma generateListing_quoted {G : Generator} (data : Data) (i : Z) :
  returns (fun _ => True) (generateListing data i) (fun o => Forall quoted (optList o)).
Proof.
  unfold generateListing. returns_step.
  eapply returns_bind; [apply returns_preserves; apply preserves_rng | intros r1 _].
  cbv zeta.
  destruct (map ProductType.id (data_productTypes data)) as [|pid pids'];
    [returns_step; constructor|].
  returns_step.
  destruct (filter _ _) as [|pid0 pids]; [returns_step; constructor|].
  eapply returns_bind; [apply returns_preserves; apply preserves_rng | intros r2 _].
  returns_step. returns_step.
  eapply returns_bind; [apply returns_preserves; apply preserves_rng | intros r3 _].
  eapply returns_bind; [apply returns_preserves; apply preserves_rng | intros r4 _].
  eapply returns_bind; [apply returns_preserves; apply preserves_rng | intros r5 _].
  eapply returns_bind; [apply returns_preserves; apply preserves_rng | intros r6 _].
  returns_step. constructor; [|constructor].
  unfold quoted. cbn [Listing.loanTerms LoanTerms.ltv LoanTerms.amortYears
                      LoanTerms.interestOnly LoanTerms.rate].
  split; [reflexivity|]. split; [reflexivity|]. split; [reflexivity | clamp_range].
Qed.

Lemma resumeRun_assets {G : Generator} (data : Data) (settings : Settings) (mathRandom : Q)
    (saved : RunState) (c : Ctx) :
  resumeRun data settings mathRandom saved = Some c ->
  Forall2 lease_apart (properties saved) (properties (c_state c))
  /\ Forall quoted (listings (c_state c)).
Proof.
  intro H. unfold resumeRun in H. cbv zeta in H.
  match type of H with
  | match ?m ?c1 with _ => _ end = _ =>
      destruct (m c1) as [[u' c2]|] eqn:Hrun; [|discriminate]
  end.
  inversion H; subst c2. clear H.
  apply bind_inv in Hrun. destruct Hrun as ([] & c1 & Hlog & Hrun).
  inversion Hlog; subst c1. clear Hlog.
  apply bind_inv in Hrun. destruct Hrun as (s & c1 & Hs & Hrun).
  inversion Hs; subst s c1. clear Hs. cbn [c_state] in Hrun.
  apply bind_inv in Hrun. destruct Hrun as (ps & c1 & Hps & Hrun).
  apply backfill_lease_apart in Hps. destruct Hps as [HF Hst]. cbn [c_state] in Hst.
  apply bind_inv in Hrun. destruct Hrun as ([] & c2 & Hset & Hgen).
  inversion Hset; subst c2. clear Hset.
  split.
  - assert (Hp : preserves (fun s => properties s = ps) (generateListings data))
      by (unfold generateListings, generateListing; untouched).
    apply Hp in Hgen; [|reflexivity]. rewrite Hgen. exact HF.
  - unfold generateListings in Hgen.
    apply bind_inv in Hgen. destruct Hgen as (l0 & d0 & H0 & Hgen).
    apply bind_inv in Hgen. destruct Hgen as (l1 & d1 & H1 & Hgen).
    apply bind_inv in Hgen. destruct Hgen as (l2 & d2 & H2 & Hgen).
    inversion Hgen; subst c. cbn [c_state listings set_listings].
    apply generateListing_quoted in H0; [|exact Logic.I].
    apply generateListing_quoted in H1; [|exact Logic.I].
    apply generateListing_quoted in H2; [|exact Logic.I].
    repeat (apply Forall_app; split); [apply H0 | apply H1 | apply H2].
Qed.

Lemma playRun_inv {G : Generator} (data : Data) (settings : Settings) (mathRandom : Q)
    (actions : list Action) (s : RunState) :
  playRun data settings mathRandom actions = Some s ->
  exists c0 c : Ctx,
    initRun data settings mathRandom = Some c0
    /\ forM_ (perform data) actions c0 = Some (tt, c)
    /\ s = c_state c.
Proof.
  intro H. unfold playRun in H.
  destruct (initRun data settings mathRandom) as [c0|]; [|discriminate].
  destruct (forM_ (perform data) actions c0) as [[[] c]|] eqn:Hrun; [|discriminate].
  inversion H; subst s. exists c0, c. repeat split. exact Hrun.
Qed.

(** X14.  The engine keeps the loan terms it writes.  A fresh run starts
    without properties and with listings that each quote an LTV of 0.65, 30
    years of amortisation, no interest-only period and a rate between 3% and
    14%.  From any state whose properties are within the renovation bounds
    and carry a loan that amortises over 30 years at a rate between 3% and
    18%, was sized at an LTV of 0.65, has a maturity year and is
    interest-only only while under development, and whose listings quote as
    above, every sequence of commands that returns leaves a state of that
    kind.  A resumed save is taken as it is: only leases are filled in, so
    its properties carry these loan terms exactly when the saved ones did
    (a property written into the save from outside the engine, with other
    terms, keeps them); its listings are generated afresh and quote as
    above. *)
Theorem loan_terms_kept (G : Generator) (data : Data) :
  (forall (settings : Settings) (mathRandom : Q) (c : Ctx),
     initRun data settings mathRandom = Some c ->
     properties (c_state c) = [] /\ Forall quoted (listings (c_state c)))
  /\ (forall (actions : list Action) (c c' : Ctx),
        Forall asset_ok (properties (c_state c)) ->
        Forall quoted (listings (c_state c)) ->
        forM_ (perform data) actions c = Some (tt, c') ->
        Forall improved (properties (c_state c'))
        /\ Forall financed (properties (c_state c'))
        /\ Forall quoted (listings (c_state c')))
  /\ (forall (settings : Settings) (mathRandom : Q) (saved : RunState) (c : Ctx),
        resumeRun data settings mathRandom saved = Some c ->
        Forall2 lease_apart (properties saved) (properties (c_state c))
        /\ (Forall financed (properties (c_state c)) <-> Forall financed (properties saved))
        /\ Forall quoted (listings (c_state c))).
Proof.
  split; [|split].
  - intros settings mathRandom c H. split; [|apply (initRun_kept _ _ _ _ H)].
    assert (Hp : preserves (fun s => properties s = []) (generateListings data))
      by (unfold generateListings, generateListing; untouched).
    unfold initRun in H. cbv zeta in H.
    match type of H with
    | match ?m ?c1 with _ => _ end = _ =>
        destruct (m c1) as [[u' c2]|] eqn:Hgen; [|discriminate]
    end.
    inversion H; subst c2.
    apply bind_inv in Hgen. destruct Hgen as ([] & c1 & Hlog & Hgen).
    inversion Hlog; subst c1. apply Hp in Hgen; [exact Hgen | reflexivity].
  - intros actions c c' Hps Hls Hrun.
    assert (Hk : kept (c_state c')).
    { apply (preserves_forM_ kept (perform data) actions (perform_kept data) c tt c');
        [split; assumption | exact Hrun]. }
    destruct Hk as [Hp Hl]. split; [|split]; [| |exact Hl].
    + apply Forall_impl with asset_ok; [|exact Hp]. intros p Hok. apply Hok.
    + apply Forall_impl with asset_ok; [|exact Hp]. intros p Hok. apply Hok.
  - intros settings mathRandom saved c H.
    destruct (resumeRun_assets _ _ _ _ _ H) as [HF Hl].
    split; [exact HF|]. split; [|exact Hl].
    symmetry. apply Forall2_Forall_iff with lease_apart; [|exact HF].
    exact lease_apart_financed.
Qed.

Lemma loan_terms_kept_witness :
  exists s : RunState,
    playRun (G := Mulberry) Scenario.data Scenario.settings 0
      [NextYear; Buy "L2-0-980974"; Sell "PL2-0-980974"; NextYear] = Some s
    /\ Forall financed (properties s) /\ Forall quoted (listings s).
Proof.
  destruct (scenario_run_returns
              [NextYear; Buy "L2-0-980974"; Sell "PL2-0-980974"; NextYear])
    as (s & E); [repeat constructor|].
  exists s. split; [exact E|].
  destruct (playRun_inv _ _ _ _ _ E) as (c0 & c & Hinit & Hrun & ->).
  destruct (loan_terms_kept Mulberry Scenario.data) as (Hfresh & Hstep & _).
  destruct (Hfresh _ _ _ Hinit) as [Hnone Hquoted].
  assert (Hassets : Forall asset_ok (properties (c_state c0)))
    by (rewrite Hnone; constructor).
  destruct (Hstep _ c0 c Hassets Hquoted Hrun) as (_ & Hf & Hq).
  split; assumption.
Defined.

(** ** The development timeline *)

(** The number of yearly passes a building still needs before it is
    stabilised: a phase that starts with a counter of 1 or less takes one
    pass. *)
Definition passesLeft (b : Build.t) : Z :=
  if String.eqb (Build.phase b) "construction" then
    (Z.max 1 (Build.yearsRemaining b) + Z.max 1 (Build.stabilizeYearsRemaining b))%Z
  else Z.max 1 (Build.stabilizeYearsRemaining b).

Definition developing (b : Build.t) : Prop :=
  Build.phase b = "construction"%string \/ Build.phase b = "leaseup"%string.

(** [n] yearly passes of the loop body of [processBuildPhases] over one
    property. *)
Fixpoint buildPasses {G : Generator} (n : nat) (p : Asset.t) : M Asset.t :=
  match n with
  | O => ret p
  | S k => bind (processBuildPhase p) (buildPasses k)
  end.

Section Timeline.
Context {G : Generator}.

Lemma processBuildPhase_step (p : Asset.t) (b : Build.t) (c : Ctx) (n : Neighborhood) :
  Asset.build p = Some b -> developing b ->
  getNeighborhood (c_state c) (Asset.neighborhood p) = Some n ->
  exists (p' : Asset.t) (c' : Ctx),
    processBuildPhase p c = Some (p', c')
    /\ c_state c' = c_state c
    /\ Asset.neighborhood p' = Asset.neighborhood p
    /\ match Asset.build p' with
       | Some b' =>
           developing b' /\ passesLeft b' = (passesLeft b - 1)%Z /\ (1 <= passesLeft b')%Z
           /\ Asset.lease p' = Asset.lease p
       | None =>
           passesLeft b = 1%Z
           /\ Asset.interestOnly p' = false
           /\ Asset.amortYears p' = 30%Z
           /\ Asset.vacancyDelta p' = 0.0
           /\ Asset.lease p' <> None
       end.
Proof.
  intros Hb Hdev Hn. unfold processBuildPhase. rewrite Hb.
  destruct (String.eqb (Build.phase b) "construction") eqn:Hc.
  - cbv zeta. destruct (Build.yearsRemaining b - 1 <=? 0)%Z eqn:Hy.
    + apply Z.leb_le in Hy. run_monad. eexists _, _. split; [reflexivity|].
      split; [reflexivity|]. split; [reflexivity|].
      asset_fields. unfold developing, passesLeft. cbn [Build.phase Build.yearsRemaining
                                                      Build.stabilizeYearsRemaining].
      rewrite Hc. cbn [String.eqb Ascii.eqb Bool.eqb].
      split; [right; reflexivity|]. split; [lia|]. split; [lia | reflexivity].
    + apply Z.leb_gt in Hy. run_monad. eexists _, _. split; [reflexivity|].
      split; [reflexivity|]. split; [reflexivity|].
      asset_fields. unfold developing, passesLeft. cbn [Build.phase Build.yearsRemaining
                                                      Build.stabilizeYearsRemaining].
      rewrite Hc.
      split; [left; apply String.eqb_eq; exact Hc|]. split; [lia|]. split; [lia | reflexivity].
  - assert (Hl : String.eqb (Build.phase b) "leaseup" = true).
    { destruct Hdev as [H|H]; [rewrite H in Hc; discriminate | rewrite H; reflexivity]. }
    rewrite Hl. cbv zeta.
    destruct (Build.stabilizeYearsRemaining b - 1 <=? 0)%Z eqn:Hz.
    + apply Z.leb_le in Hz. unfold initLeaseForProperty, randInt. run_monad.
      destruct (rng_next (c_rng c)) as [r1 g1]. run_monad.
      destruct (rng_next g1) as [r2 g2]. run_monad.
      asset_fields.
      change (Asset.neighborhood (Asset.set_maturityYear _ _)) with (Asset.neighborhood p).
      rewrite Hn. run_monad.
      destruct (rng_next g2) as [r3 g3]. run_monad.
      eexists _, _. split; [reflexivity|].
      split; [reflexivity|]. split; [reflexivity|].
      asset_fields. unfold passesLeft. rewrite Hc.
      split; [lia|]. split; [reflexivity|]. split; [reflexivity|].
      split; [reflexivity | discriminate].
    + apply Z.leb_gt in Hz. run_monad. eexists _, _. split; [reflexivity|].
      split; [reflexivity|]. split; [reflexivity|].
      asset_fields. unfold developing, passesLeft. cbn [Build.phase Build.yearsRemaining
                                                      Build.stabilizeYearsRemaining].
      rewrite Hc.
      split; [right; apply String.eqb_eq; exact Hl|]. split; [lia|]. split; [lia | reflexivity].
Qed.

Lemma passesLeft_positive (b : Build.t) : (1 <= passesLeft b)%Z.
Proof. unfold passesLeft. destruct (String.eqb _ _); lia. Qed.

Lemma buildPasses_timeline (k : nat) :
  forall (p : Asset.t) (b : Build.t) (c : Ctx) (n : Neighborhood),
    Asset.build p = Some b -> developing b ->
    getNeighborhood (c_state c) (Asset.neighborhood p) = Some n ->
    (Z.of_nat k <= passesLeft b)%Z ->
    exists (p' : Asset.t) (c' : Ctx),
      buildPasses k p c = Some (p', c')
      /\ ((Z.of_nat k < passesLeft b)%Z ->
          exists b' : Build.t,
            Asset.build p' = Some b' /\ developing b'
            /\ passesLeft b' = (passesLeft b - Z.of_nat k)%Z
            /\ Asset.lease p' = Asset.lease p)
      /\ (Z.of_nat k = passesLeft b ->
          Asset.build p' = None
          /\ Asset.interestOnly p' = false
          /\ Asset.amortYears p' = 30%Z
          /\ Asset.vacancyDelta p' = 0.0
          /\ Asset.lease p' <> None).
Proof.
  induction k as [|k IH]; intros p b c n Hb Hdev Hn Hk.
  - exists p, c. split; [reflexivity|]. split.
    + intros _. exists b. split; [exact Hb|]. split; [exact Hdev|]. split; [lia | reflexivity].
    + intro H. pose proof (passesLeft_positive b). lia.
  - destruct (processBuildPhase_step p b c n Hb Hdev Hn)
      as (p1 & c1 & Hrun & Hst & Hnb & Hshape).
    cbn [buildPasses]. unfold bind at 1. rewrite Hrun.
    destruct (Asset.build p1) as [b1|] eqn:Hb1.
    + destruct Hshape as (Hdev1 & Hleft & Hpos & Hlease).
      destruct (IH p1 b1 c1 n Hb1 Hdev1) as (p' & c' & Hrest & Hbefore & Hat);
        [rewrite Hst, Hnb; exact Hn | lia|].
      exists p', c'. split; [exact Hrest|]. split.
      * intro Hlt. destruct Hbefore as (b' & Hb' & Hdev' & Hleft' & Hlease'); [lia|].
        exists b'. split; [exact Hb'|]. split; [exact Hdev'|].
        split; [lia | rewrite Hlease'; exact Hlease].
      * intro Heq. apply Hat. lia.
    + destruct Hshape as (Hone & Hio & Ham & Hvd & Hlease).
      assert (k = 0%nat) by lia. subst k. cbn [buildPasses].
      exists p1, c1. split; [reflexivity|]. split; [intro; lia|].
      intros _. split; [exact Hb1|]. repeat split; assumption.
Qed.

End Timeline.

(** X15.  A building under development is delivered and stabilised by the
    yearly passes of [processBuildPhases] on schedule: with [y] construction
    years and [z] lease-up years left it stays under development (keeping the
    lease it has) through the first max(1, y) + max(1, z) - 1 passes, and the
    next pass clears its build record, makes the loan amortising over 30
    years, resets the vacancy adjustment to 0.0 and gives it a lease.  The
    passes complete whenever the property's neighborhood is in the state. *)
Theorem development_timeline (G : Generator) (k : nat) (p : Asset.t) (b : Build.t)
    (c : Ctx) (n : Neighborhood) :
  Asset.build p = Some b ->
  Build.phase b = "construction"%string ->
  getNeighborhood (c_state c) (Asset.neighborhood p) = Some n ->
  let total :=
    (Z.max 1 (Build.yearsRemaining b) + Z.max 1 (Build.stabilizeYearsRemaining b))%Z in
  (Z.of_nat k <= total)%Z ->
  exists (p' : Asset.t) (c' : Ctx),
    buildPasses k p c = Some (p', c')
    /\ ((Z.of_nat k < total)%Z ->
        Asset.build p' <> None /\ Asset.lease p' = Asset.lease p)
    /\ (Z.of_nat k = total ->
        Asset.build p' = None
        /\ Asset.interestOnly p' = false
        /\ Asset.amortYears p' = 30%Z
        /\ Asset.vacancyDelta p' = 0.0
        /\ Asset.lease p' <> None).
Proof.
  intros Hb Hphase Hn total Hk.
  assert (Htotal : passesLeft b = total) by (unfold passesLeft; rewrite Hphase; reflexivity).
  destruct (buildPasses_timeline k p b c n Hb (or_introl Hphase) Hn) as (p' & c' & Hrun & H1 & H2);
    [lia|].
  exists p', c'. split; [exact Hrun|]. split.
  - intro Hlt. destruct H1 as (b' & Hb' & _ & _ & Hlease); [lia|].
    split; [rewrite Hb'; discriminate | exact Hlease].
  - intro Heq. apply H2. lia.
Qed.

Module ScenarioBuild.
Import Scenario.

(** A hotel site in Harbor at the start of construction. *)
Definition site : Asset.t :=
  Asset.set_lease None
    (Asset.set_build (Some (Build.mk "construction" 2 2 0.2)) ScenarioAssets.grandHotel).

End ScenarioBuild.

Lemma development_timeline_witness :
  exists (p' : Asset.t) (c' : Ctx (G := Mulberry)),
    buildPasses 4 ScenarioBuild.site ScenarioAssets.ctx0 = Some (p', c')
    /\ Asset.build p' = None /\ Asset.lease p' <> None.
Proof.
  destruct (development_timeline Mulberry 4 ScenarioBuild.site (Build.mk "construction" 2 2 0.2)
              ScenarioAssets.ctx0 Scenario.harbor eq_refl eq_refl eq_refl)
    as (p' & c' & Hrun & _ & Hat).
  - cbn. discriminate.
  - exists p', c'. split; [exact Hrun|].
    destruct Hat as (Hb & _ & _ & _ & Hl); [reflexivity|]. split; assumption.
Defined.

(** ** Operating cash flow and the portfolio panel *)

(** What [applyOperatingCashFlow] does to the loan of one property. *)
Definition amortised (p : Asset.t) : Asset.t :=
  Asset.set_loanBalance
    (Qmax 0 (Asset.loanBalance p
             - principal (annualDebtService (Asset.loanBalance p) (Asset.loanRate p)
                            (Asset.amortYears p) (Asset.interestOnly p)))) p.

Lemma principal_nonneg (balance rate : Q) (amortYears : Z) (interestOnly : bool) :
  0 <= principal (annualDebtService balance rate amortYears interestOnly).
Proof.
  unfold annualDebtService. destruct (Qleb balance 0); [discriminate|].
  destruct interestOnly; cbn [principal]; [discriminate | apply Q.le_max_l].
Qed.

Lemma amortised_balance (p : Asset.t) :
  0 <= Asset.loanBalance (amortised p)
  /\ (0 <= Asset.loanBalance p -> Asset.loanBalance (amortised p) <= Asset.loanBalance p).
Proof.
  unfold amortised. cbn [Asset.loanBalance Asset.set_loanBalance].
  split; [apply Q.le_max_l|]. intro H. apply Q.max_lub; [exact H|].
  pose proof (principal_nonneg (Asset.loanBalance p) (Asset.loanRate p)
                (Asset.amortYears p) (Asset.interestOnly p)).
  lra.
Qed.

Lemma loops_agree (s : RunState) (byId : string -> option ProductType.t)
    (ps : list Asset.t) :
  forall acc : Totals.t,
    match portfolioLoop s byId ps acc, cashFlowLoop s byId ps (Totals.totalCF acc) with
    | Some tot, Some (ps', total) => total = Totals.totalCF tot /\ ps' = map amortised ps
    | None, None => True
    | _, _ => False
    end.
Proof.
  induction ps as [|p rest IH]; intro acc.
  - cbn. split; reflexivity.
  - cbn [portfolioLoop cashFlowLoop].
    destruct (find _ (neighborhoods s)) as [n|]; [|exact Logic.I].
    destruct (byId (Asset.productType p)) as [product|]; [|exact Logic.I].
    cbv zeta.
    match goal with |- context [portfolioLoop s byId rest ?a] => specialize (IH a) end.
    cbn [Totals.totalCF] in IH.
    destruct (portfolioLoop s byId rest _) as [tot|];
      destruct (cashFlowLoop s byId rest _) as [[rest' total]|]; try exact IH.
    destruct IH as [Ht Hps]. split; [exact Ht|]. cbn [map]. rewrite Hps. reflexivity.
Qed.

(** X16.  When every property carries a positive loan rate (at rate 0 the
    amortising payment is 0/0 and the balance becomes NaN): the yearly
    operating pass credits exactly the cash flow that [computePortfolio]
    reports for the same state, and it completes exactly when
    [computePortfolio] does.  It keeps the properties in place and replaces
    each loan balance by max(0, balance - principal), which is never negative
    and never above a non-negative balance. *)
Theorem operating_cash_flow_is_portfolio_cash_flow (G : Generator)
    (byId : string -> option ProductType.t) (c : Ctx) :
  Forall (fun p : Asset.t => 0 < Asset.loanRate p) (properties (c_state c)) ->
  match computePortfolio (c_state c) byId with
  | Some pf =>
      applyOperatingCashFlow byId c
      = Some (tt,
              mkCtx (set_cash (cash (c_state c) + Portfolio.totalCF pf)
                       (set_properties (map amortised (properties (c_state c))) (c_state c)))
                (c_rng c)
                (LogOperatingCashFlow (Portfolio.totalCF pf) :: c_log c))
  | None => applyOperatingCashFlow byId c = None
  end
  /\ Forall (fun p : Asset.t =>
               0 <= Asset.loanBalance (amortised p)
               /\ (0 <= Asset.loanBalance p ->
                   Asset.loanBalance (amortised p) <= Asset.loanBalance p))
       (properties (c_state c)).
Proof.
  intros _.
  split; [|apply Forall_forall; intros p _; apply amortised_balance].
  pose proof (loops_agree (c_state c) byId (properties (c_state c)) (Totals.mk 0 0 0 0 0))
    as H.
  cbn [Totals.totalCF] in H.
  unfold computePortfolio, applyOperatingCashFlow. run_monad.
  destruct (portfolioLoop (c_state c) byId (properties (c_state c)) _) as [tot|];
    destruct (cashFlowLoop (c_state c) byId (properties (c_state c)) 0) as [[ps' total]|];
    try contradiction.
  - destruct H as [-> ->]. reflexivity.
  - reflexivity.
Qed.

Lemma operating_cash_flow_is_portfolio_cash_flow_witness :
  Asset.loanBalance (amortised ScenarioAssets.grandHotel)
  <= Asset.loanBalance ScenarioAssets.grandHotel.
Proof.
  assert (Hrate : Forall (fun p : Asset.t => 0 < Asset.loanRate p)
                    (properties (c_state (G := Mulberry) ScenarioAssets.ctx0)))
    by (repeat constructor).
  destruct (operating_cash_flow_is_portfolio_cash_flow Mulberry
              (productTypesById Scenario.data) ScenarioAssets.ctx0 Hrate) as [_ H].
  pose proof (Forall_inv (a := ScenarioAssets.grandHotel) (l := []) H) as [_ Hp].
  apply Hp. discriminate.
Defined.

(** ** Buying a listing *)

Lemma find_filter_out {A : Type} (f : A -> bool) (l : list A) :
  find f (filter (fun x => negb (f x)) l) = None.
Proof.
  induction l as [|a rest IH]; [reflexivity|].
  cbn [filter]. destruct (f a) eqn:E; cbn [negb]; [exact IH|].
  cbn [find]. rewrite E. exact IH.
Qed.

(** X17.  Buying a listing that is on offer, in a neighborhood of the state,
    charges the down payment price * (1 - ltv) and books a loan of
    price * ltv, so that down payment and loan add up to the price; the new
    property is appended with id "P" + listing id, a balloon 5, 7 or 10 years
    out and a lease at the market rent index with a term inside the product
    type's range; every listing with that id leaves the offer and a BUY entry
    is journalled.  Cash is not checked: it ends non-negative exactly when
    [canBuy] held. *)
Theorem buy_accounting (G : Generator) (data : Data) (lid : string) (c : Ctx)
    (listing : Listing.t) (n : Neighborhood) :
  in_unit_interval G ->
  find (fun x => String.eqb (Listing.id x) lid) (listings (c_state c)) = Some listing ->
  getNeighborhood (c_state c) (Listing.neighborhood listing) = Some n ->
  let s := c_state c in
  let terms := Listing.loanTerms listing in
  let down := Listing.price listing * (1 - LoanTerms.ltv terms) in
  let rules := leaseRulesFor (Listing.productType listing) in
  exists (p' : Asset.t) (c' : Ctx),
    perform data (Buy lid) c = Some (tt, c')
    /\ cash (c_state c') = cash s - down
    /\ (canBuy s listing = true <-> 0 <= cash (c_state c'))
    /\ properties (c_state c') = properties s ++ [p']
    /\ Asset.id p' = ("P" ++ lid)%string
    /\ Asset.loanBalance p' + down == Listing.price listing
    /\ (exists m : Z,
          In m [5; 7; 10]%Z /\ Asset.maturityYear p' = Some (year s + m)%Z)
    /\ (exists l : Lease.t,
          Asset.lease p' = Some l
          /\ Lease.leaseRentIndex l = rentIndex n * 1.0
          /\ Lease.rollPct l = rule_rollPct rules
          /\ (termMin rules <= Lease.yearsRemaining l <= termMax rules)%Z)
    /\ listings (c_state c')
       = filter (fun x => negb (String.eqb (Listing.id x) lid)) (listings s)
    /\ find (fun x => String.eqb (Listing.id x) lid) (listings (c_state c')) = None
    /\ journal (c_state c') = journal s ++ [JBuy (year s) lid (Listing.price listing)]
    /\ year (c_state c') = year s
    /\ market (c_state c') = market s
    /\ neighborhoods (c_state c') = neighborhoods s.
Proof.
  intros Hrng Hfind Hn. cbv zeta.
  assert (Hid : Listing.id listing = lid).
  { apply find_some in Hfind. destruct Hfind as [_ H]. apply String.eqb_eq. exact H. }
  cbn [perform]. unfold buyListing, initLeaseForProperty, randInt. run_monad.
  rewrite Hfind. run_monad.
  destruct (rng_next (c_rng c)) as [r1 g1]. run_monad.
  unfold getNeighborhood in *. cbn [neighborhoods set_cash Asset.neighborhood].
  rewrite Hn. run_monad.
  pose proof (Hrng g1) as Hr2.
  destruct (rng_next g1) as [r2 g2]. cbn [fst] in Hr2. run_monad.
  eexists _, _. split; [reflexivity|].
  cbn [c_state cash properties listings journal year market neighborhoods
       set_cash set_properties set_listings set_journal].
  split; [reflexivity|]. split.
  { unfold canBuy. rewrite Qleb_true. split; intro H; lra. }
  split; [reflexivity|].
  asset_fields. cbn [Asset.id Asset.productType Asset.rentIndexMult].
  split; [rewrite Hid; reflexivity|]. split; [ring|]. split.
  { destruct (Qltb r1 0.45); [exists 5%Z; cbn; auto|].
    destruct (Qltb r1 0.75); [exists 7%Z; cbn; auto | exists 10%Z; cbn; auto]. }
  split.
  { eexists. split; [reflexivity|].
    cbn [Lease.leaseRentIndex Lease.rollPct Lease.yearsRemaining].
    split; [reflexivity|]. split; [reflexivity|].
    apply (randIntOf_range r2); [apply Hr2 | apply Hr2|].
    apply leaseRulesFor_ordered. }
  split; [reflexivity|]. split; [apply find_filter_out|].
  split; [rewrite Hid; reflexivity|]. repeat split; reflexivity.
Qed.

Module ScenarioOffer.
Import Scenario.

Definition quay : Listing.t :=
  {| Listing.id := "L1-0-424242"; Listing.name := "Harbor — Multifamily";
     Listing.neighborhood := "harbor"; Listing.productType := "multifamily";
     Listing.price := 8000000; Listing.baseNOI := 600000;
     Listing.loanTerms :=
       {| LoanTerms.ltv := 0.65; LoanTerms.rate := 0.07; LoanTerms.amortYears := 30;
          LoanTerms.interestOnly := false |} |}.

Definition ctx : Ctx (G := Mulberry) :=
  mkCtx (set_listings [quay] (set_neighborhoods [harbor; midtown] RUN_DEFAULTS))
    (makeRng (G := Mulberry) (seed settings) 0) [].

End ScenarioOffer.

Lemma buy_accounting_witness :
  exists (p' : Asset.t) (c' : Ctx (G := Mulberry)),
    perform Scenario.data (Buy "L1-0-424242") ScenarioOffer.ctx = Some (tt, c')
    /\ properties (c_state c') = [p']
    /\ Asset.loanBalance p' + 8000000 * (1 - 0.65) == 8000000.
Proof.
  destruct (buy_accounting Mulberry Scenario.data "L1-0-424242" ScenarioOffer.ctx
              ScenarioOffer.quay Scenario.harbor Mulberry_in_unit_interval eq_refl eq_refl)
    as (p' & c' & Hrun & _ & _ & Hps & _ & Hloan & _).
  exists p', c'. split; [exact Hrun|]. split; [exact Hps | exact Hloan].
Defined.

(** ** Selling a property *)

Lemma removeFirst_length {A : Type} (pred : A -> bool) (l : list A) (a : A) :
  find pred l = Some a -> S (List.length (removeFirst pred l)) = List.length l.
Proof.
  induction l as [|x rest IH]; [discriminate|].
  cbn [find removeFirst]. destruct (pred x); [reflexivity|].
  intro H. cbn [List.length]. rewrite (IH H). reflexivity.
Qed.

Lemma removeFirst_find_gone (a : string) (l : list Asset.t) :
  NoDup (map Asset.id l) -> find (hasId a) (removeFirst (hasId a) l) = None.
Proof.
  intro Hnd. destruct (find (hasId a) (removeFirst (hasId a) l)) as [q|] eqn:E; [|reflexivity].
  apply find_some in E. destruct E as [Hin Hid].
  apply hasId_true in Hid. exfalso. exact (removeFirst_no_id a l Hnd q Hin Hid).
Qed.

(** X18.  [sellProperty] with an id that no property has does nothing (no
    log line either).  Otherwise it removes the first property with that id
    and no other, pays value less 2% selling costs less the loan balance into
    cash without any check (the proceeds are at least minus the balance, and
    negative exactly when the balance exceeds 98% of the value), journals a
    SELL entry and leaves everything else alone; with unique property ids a
    second sale of the same id does nothing. *)
Theorem sell_accounting (G : Generator) (data : Data) (pid : string) (c : Ctx) :
  let s := c_state c in
  (find (hasId pid) (properties s) = None -> sellProperty data pid c = Some (tt, c))
  /\ (forall (p : Asset.t) (snap : Snapshot.t),
        find (hasId pid) (properties s) = Some p ->
        computePropertySnapshot s (productTypesById data) p = Some snap ->
        let net := Snapshot.value snap - Snapshot.value snap * 0.02 - Asset.loanBalance p in
        exists c' : Ctx,
          sellProperty data pid c = Some (tt, c')
          /\ cash (c_state c') = cash s + net
          /\ - Asset.loanBalance p <= net
          /\ (net < 0 <-> Snapshot.value snap * 0.98 < Asset.loanBalance p)
          /\ properties (c_state c') = removeFirst (hasId pid) (properties s)
          /\ S (List.length (properties (c_state c'))) = List.length (properties s)
          /\ journal (c_state c') = journal s ++ [JSell (year s) pid (Snapshot.value snap) net]
          /\ (year (c_state c'), market (c_state c'), neighborhoods (c_state c'),
              listings (c_state c'))
             = (year s, market s, neighborhoods s, listings s)
          /\ c_rng c' = c_rng c
          /\ (NoDup (map Asset.id (properties s)) ->
              exists c2 : Ctx,
                sellProperty data pid c' = Some (tt, c2) /\ c2 = c')).
Proof.
  cbv zeta. split.
  - intro Hnone. unfold sellProperty. run_monad. rewrite Hnone. destruct c. reflexivity.
  - intros p snap Hfind Hsnap.
    rewrite (sellProperty_run data pid c p snap Hfind Hsnap).
    eexists. split; [reflexivity|].
    cbn [c_state c_rng cash properties journal year market neighborhoods listings
         set_cash set_properties set_journal].
    pose proof (snapshot_value_nonneg _ _ _ _ Hsnap) as Hv.
    split; [reflexivity|]. split; [lra|]. split; [split; intro; lra|].
    split; [reflexivity|]. split; [exact (removeFirst_length _ _ p Hfind)|].
    split; [reflexivity|]. split; [reflexivity|]. split; [reflexivity|].
    intro Hnd. eexists. split; [|reflexivity].
    unfold sellProperty. run_monad.
    cbn [properties set_journal set_properties].
    rewrite (removeFirst_find_gone pid _ Hnd). reflexivity.
Qed.

Lemma sell_accounting_witness :
  exists c' : Ctx (G := Mulberry),
    sellProperty Scenario.data "PL1-0-7" ScenarioAssets.ctx0 = Some (tt, c')
    /\ properties (c_state c') = []
    /\ sellProperty Scenario.data "PL1-0-7" c' = Some (tt, c')
    /\ sellProperty Scenario.data "PL9-9-9" ScenarioAssets.ctx0
       = Some (tt, ScenarioAssets.ctx0).
Proof.
  destruct (sell_accounting Mulberry Scenario.data "PL1-0-7" ScenarioAssets.ctx0)
    as [_ Hsold].
  destruct (sell_accounting Mulberry Scenario.data "PL9-9-9" ScenarioAssets.ctx0)
    as [Hnone _].
  destruct (computePropertySnapshot ScenarioAssets.state0 (productTypesById Scenario.data)
              ScenarioAssets.grandHotel) as [snap|] eqn:E.
  - destruct (Hsold ScenarioAssets.grandHotel snap eq_refl E)
      as (c' & Hrun & _ & _ & _ & Hps & _ & _ & _ & _ & Hagain).
    exists c'. split; [exact Hrun|]. split; [exact Hps|]. split.
    + destruct Hagain as (c2 & Hrun2 & ->); [|exact Hrun2].
      constructor; [intros [] | constructor].
    + apply Hnone. reflexivity.
  - cbv in E. discriminate E.
Defined.

(** ** Starting a build *)

(** X19.  [startBuild] in a neighborhood whose zoning lacks the product type
    only writes a log line: the state is unchanged and no generator value is
    drawn.  When zoning allows it, the product type is known and cash covers
    25% of the drawn cost (a whole number of thousands), the equity of 25% is
    charged and a loan of 75% booked, adding up to the cost; cash stays
    non-negative; the new property is appended under construction with the
    product type's build schedule, interest-only at a rate in [0.04, 0.16],
    with a balloon three years out and no lease; a BUILD entry is
    journalled. *)
Theorem build_accounting (G : Generator) (data : Data) (nid pt : string) (c : Ctx)
    (n : Neighborhood) :
  let s := c_state c in
  find (fun x => String.eqb (Market.id x) nid) (neighborhoods s) = Some n ->
  (existsb (String.eqb pt) (zoning n) = false ->
   startBuild data nid pt c
   = Some (tt, mkCtx s (c_rng c) (LogBuildBlocked pt (Market.name n) :: c_log c)))
  /\ (forall product : ProductType.t,
        existsb (String.eqb pt) (zoning n) = true ->
        find (fun x => String.eqb (ProductType.id x) pt) (data_productTypes data)
        = Some product ->
        let cost := buildCost n (fst (rng_next (c_rng c))) in
        cost * 0.25 <= cash s ->
        exists (p' : Asset.t) (c' : Ctx),
          startBuild data nid pt c = Some (tt, c')
          /\ properties (c_state c') = properties s ++ [p']
          /\ (exists k : Z, cost = inject_Z k * 1000)
          /\ cash (c_state c') = cash s - cost * 0.25
          /\ 0 <= cash (c_state c')
          /\ Asset.loanBalance p' = cost * 0.75
          /\ cost * 0.25 + Asset.loanBalance p' == cost
          /\ Asset.build p'
             = Some (Build.mk "construction"
                       (BuildParams.yearsToBuild (ProductType.build product))
                       (BuildParams.yearsToStabilize (ProductType.build product))
                       (BuildParams.leaseUpVacancy (ProductType.build product)))
          /\ Asset.interestOnly p' = true
          /\ (0.04 <= Asset.loanRate p' /\ Asset.loanRate p' <= 0.16)
          /\ Asset.maturityYear p' = Some (year s + 3)%Z
          /\ Asset.lease p' = None
          /\ (Asset.neighborhood p', Asset.productType p') = (nid, pt)
          /\ journal (c_state c') = journal s ++ [JBuild (year s) nid cost]).
Proof.
  cbv zeta. intro Hn. split.
  - intro Hz. unfold startBuild. run_monad. rewrite Hn, Hz. reflexivity.
  - intros product Hz Hprod Hcash. unfold startBuild. run_monad.
    rewrite Hn, Hz, Hprod. cbn [negb].
    destruct (rng_next (c_rng c)) as [r1 g1]. cbn [fst] in Hcash. run_monad.
    fold (buildCost n r1).
    assert (Hguard : Qltb (cash (c_state c)) (buildCost n r1 * 0.25) = false)
      by (apply Qltb_false; exact Hcash).
    rewrite Hguard. run_monad.
    destruct (rng_next g1) as [r2 g2]. run_monad.
    eexists _, _. split; [reflexivity|].
    cbn [c_state cash properties journal year set_cash set_properties set_journal].
    split; [reflexivity|].
    asset_fields. cbn [Asset.neighborhood Asset.productType fst].
    split; [eexists; unfold buildCost; reflexivity|].
    split; [reflexivity|]. split; [lra|]. split; [reflexivity|]. split; [ring|].
    split; [reflexivity|]. split; [reflexivity|].
    split; [clamp_range|]. repeat split; reflexivity.
Qed.

Module ScenarioFunded.

(** The scenario state with cash for a development. *)
Definition ctx : Ctx (G := Mulberry) :=
  mkCtx (set_cash 10000000 ScenarioAssets.state0) (c_rng ScenarioAssets.ctx0) [].

End ScenarioFunded.

Lemma build_accounting_witness :
  startBuild Scenario.data "midtown" "hotel" ScenarioFunded.ctx
  = Some (tt, mkCtx (c_state ScenarioFunded.ctx) (c_rng ScenarioFunded.ctx)
                [LogBuildBlocked "hotel" "Midtown"])
  /\ exists (p' : Asset.t) (c' : Ctx (G := Mulberry)),
       startBuild Scenario.data "harbor" "hotel" ScenarioFunded.ctx = Some (tt, c')
       /\ properties (c_state c') = [ScenarioAssets.grandHotel; p']
       /\ Asset.interestOnly p' = true.
Proof.
  split.
  - apply (build_accounting Mulberry Scenario.data "midtown" "hotel" ScenarioFunded.ctx
             Scenario.midtown eq_refl).
    reflexivity.
  - destruct (build_accounting Mulberry Scenario.data "harbor" "hotel" ScenarioFunded.ctx
                Scenario.harbor eq_refl) as [_ Hbuilt].
    destruct (Hbuilt Scenario.hotel eq_refl eq_refl)
      as (p' & c' & Hrun & Hps & _ & _ & _ & _ & _ & _ & Hio & _).
    + vm_compute. discriminate.
    + exists p', c'. split; [exact Hrun|]. split; [exact Hps | exact Hio].
Defined.

(** ** Renovating *)

(** X20.  A renovation that goes ahead (level below 3, cash covering the
    cost) costs 3% of the value, raised by 35% per level already reached, and
    never less than 200,000 nor more than 5,000,000; it charges that cost to
    cash, which stays non-negative, raises the level by one, and replaces the
    first property with that id by the renovated one, whose in-place lease
    rent index is the old one times 1.01 clamped into [0.6, 2.0]; a RENO entry
    is journalled and the generator is not used. *)
Theorem renovation_accounting (G : Generator) (data : Data) (pid : string) (c : Ctx)
    (p : Asset.t) (snap : Snapshot.t) :
  let s := c_state c in
  let level := (renoLevelOf p + 1)%Z in
  let cost := renovationCost (Snapshot.value snap) level in
  find (hasId pid) (properties s) = Some p ->
  (renoLevelOf p < 3)%Z ->
  computePropertySnapshot s (productTypesById data) p = Some snap ->
  cost <= cash s ->
  exists (p' : Asset.t) (c' : Ctx),
    renovateProperty data pid c = Some (tt, c')
    /\ properties (c_state c') = replaceFirst (hasId (Asset.id p)) p' (properties s)
    /\ (200000 <= cost /\ cost <= 5000000)
    /\ cash (c_state c') = cash s - cost
    /\ 0 <= cash (c_state c')
    /\ Asset.renoLevel p' = Some level
    /\ Asset.rentIndexMult p' = clamp (Asset.rentIndexMult p + 0.03) 0.8 1.35
    /\ Asset.vacancyDelta p' = clamp (Asset.vacancyDelta p - 0.005) (-0.08) 0.20
    /\ match Asset.lease p, Asset.lease p' with
       | Some l, Some l' =>
           Lease.leaseRentIndex l' = clamp (Lease.leaseRentIndex l * 1.01) 0.6 2.0
           /\ Lease.yearsRemaining l' = Lease.yearsRemaining l
           /\ Lease.rollPct l' = Lease.rollPct l
       | None, None => True
       | _, _ => False
       end
    /\ journal (c_state c') = journal s ++ [JReno (year s) pid cost level]
    /\ c_rng c' = c_rng c.
Proof.
  cbv zeta. intros Hfind Hlevel Hsnap Hcash.
  unfold renovateProperty. run_monad. rewrite Hfind.
  assert (Hmax : (3 <=? renoLevelOf p)%Z = false) by (apply Z.leb_gt; exact Hlevel).
  rewrite Hmax, Hsnap. run_monad.
  fold (renovationCost (Snapshot.value snap) (renoLevelOf p + 1)).
  assert (Hguard : Qltb (cash (c_state c))
                     (renovationCost (Snapshot.value snap) (renoLevelOf p + 1)) = false)
    by (apply Qltb_false; exact Hcash).
  rewrite Hguard. run_monad. asset_fields.
  destruct (Asset.lease p) as [l|] eqn:Hl.
  - match goal with |- context [replaceFirst (hasId _) ?x _] => exists x end.
    eexists. split; [reflexivity|].
    cbn [c_state c_rng cash properties journal year set_cash set_properties set_journal].
    asset_fields. cbn [Asset.id Lease.leaseRentIndex Lease.yearsRemaining Lease.rollPct].
    split; [reflexivity|]. split; [unfold renovationCost; clamp_range|].
    split; [reflexivity|]. split; [lra|]. repeat split; reflexivity.
  - match goal with |- context [replaceFirst (hasId _) ?x _] => exists x end.
    eexists. split; [reflexivity|].
    cbn [c_state c_rng cash properties journal year set_cash set_properties set_journal].
    asset_fields. cbn [Asset.id]. rewrite Hl.
    split; [reflexivity|]. split; [unfold renovationCost; clamp_range|].
    split; [reflexivity|]. split; [lra|]. repeat split; reflexivity.
Qed.

Lemma renovation_accounting_witness :
  exists (p' : Asset.t) (c' : Ctx (G := Mulberry)),
    renovateProperty Scenario.data "PL1-0-7" ScenarioAssets.ctx0 = Some (tt, c')
    /\ properties (c_state c') = [p']
    /\ Asset.renoLevel p' = Some 2%Z.
Proof.
  destruct (computePropertySnapshot ScenarioAssets.state0 (productTypesById Scenario.data)
              ScenarioAssets.grandHotel) as [snap|] eqn:E.
  - destruct (renovation_accounting Mulberry Scenario.data "PL1-0-7" ScenarioAssets.ctx0
                ScenarioAssets.grandHotel snap eq_refl)
      as (p' & c' & Hrun & Hps & _ & _ & _ & Hlevel & _).
    + reflexivity.
    + exact E.
    + vm_compute in E. injection E as <-. vm_compute. discriminate.
    + exists p', c'. split; [exact Hrun|]. split; [exact Hps | exact Hlevel].
  - cbv in E. discriminate E.
Defined.

(** ** The clock, the leases and the offer after a year *)

Section Clock.
Context {G : Generator}.
Variable y : Z.

Definition year_is (s : RunState) : Prop := year s = y.

Lemma initLeaseForProperty_year (p : Asset.t) : preserves year_is (initLeaseForProperty p).
Proof. unfold initLeaseForProperty. untouched. Qed.

Lemma updateLeasesOneYear_year : preserves year_is updateLeasesOneYear.
Proof.
  unfold updateLeasesOneYear. untouched. unfold updateLease. untouched;
    apply initLeaseForProperty_year.
Qed.

Lemma processBuildPhases_year : preserves year_is processBuildPhases.
Proof.
  unfold processBuildPhases. untouched. unfold processBuildPhase. untouched.
  apply initLeaseForProperty_year.
Qed.

Lemma applyOperatingCashFlow_year (byId : string -> option ProductType.t) :
  preserves year_is (applyOperatingCashFlow byId).
Proof. unfold applyOperatingCashFlow. untouched. Qed.

Lemma sellProperty_year (data : Data) (pid : string) :
  preserves year_is (sellProperty data pid).
Proof. unfold sellProperty. untouched. Qed.

Lemma renovateProperty_year (data : Data) (pid : string) :
  preserves year_is (renovateProperty data pid).
Proof. unfold renovateProperty, storeAsset. untouched. Qed.

Lemma handleMaturities_year (data : Data) : preserves year_is (handleMaturities data).
Proof.
  unfold handleMaturities. untouched. unfold resolveMaturity. untouched.
  - unfold attemptRefi, storeAsset. untouched.
  - apply sellProperty_year.
Qed.

Lemma generateListings_year (data : Data) : preserves year_is (generateListings data).
Proof. unfold generateListings, generateListing. untouched. Qed.

Lemma buyListing_year (listing : Listing.t) : preserves year_is (buyListing listing).
Proof. unfold buyListing. untouched. apply initLeaseForProperty_year. Qed.

Lemma startBuild_year (data : Data) (nid pt : string) :
  preserves year_is (startBuild data nid pt).
Proof. unfold startBuild. untouched. Qed.

Lemma applyEvent_year (event : option Event) : preserves year_is (applyEvent event).
Proof.
  unfold applyEvent. destruct event as [ev|]; [|untouched].
  preserves_step; [untouched|].
  destruct (String.eqb (ev_scope ev) "global"); [untouched|].
  destruct (String.eqb (ev_scope ev) "neighborhood"); [|untouched].
  preserves_step; [untouched|]. cbv zeta. destruct (find _ _); untouched.
Qed.

Lemma updateNeighborhoods_year (l : list Neighborhood) :
  preserves year_is (mapM updateNeighborhood l).
Proof.
  apply preserves_mapM. intros n c n' c' Hc H. unfold updateNeighborhood in H.
  destruct (updateNeighborhoodYear n (market (c_state c)) (c_rng c)) as [[n1 rg] g1].
  inversion H; subst. exact Hc.
Qed.

End Clock.

Definition all_leased (s : RunState) : Prop := Forall leased (properties s).

Section Leased.
Context {G : Generator}.

Lemma initLeaseForProperty_leased (I : RunState -> Prop) (p : Asset.t) :
  returns I (initLeaseForProperty p) leased.
Proof.
  unfold initLeaseForProperty.
  returns_step. returns_step. cbv zeta.
  eapply returns_bind; [apply returns_preserves; apply randInt_frame | intros term _].
  returns_step. eexists. reflexivity.
Qed.

Lemma updateLease_leased (I : RunState -> Prop) (p : Asset.t) :
  returns I (updateLease p) leased.
Proof.
  unfold updateLease.
  destruct (Asset.lease p) as [l|]; [|apply initLeaseForProperty_leased].
  returns_step. returns_step. cbv zeta.
  destruct (Lease.yearsRemaining l - 1 <=? 0)%Z.
  - eapply returns_bind; [apply returns_preserves; apply randInt_frame | intros term _].
    returns_step. returns_step. eexists. reflexivity.
  - returns_step. eexists. reflexivity.
Qed.

(** After the lease pass every property has a lease, also one that is still
    under construction. *)
Lemma updateLeasesOneYear_leases (c c' : Ctx) :
  updateLeasesOneYear c = Some (tt, c') -> all_leased (c_state c').
Proof.
  unfold updateLeasesOneYear. intro H.
  apply bind_inv in H. destruct H as (s & c1 & H1 & H).
  apply bind_inv in H. destruct H as (ps & c2 & H2 & H).
  assert (Hps : Forall leased ps).
  { refine (proj2 (returns_mapM (fun _ => True) updateLease (fun _ => True) leased
                     (properties s) _ _ c1 ps c2 Logic.I H2)).
    - intros p _. apply updateLease_leased.
    - apply Forall_forall. intros; exact Logic.I. }
  inversion H; subst. exact Hps.
Qed.

Lemma processBuildPhase_leased (p : Asset.t) :
  leased p -> returns all_leased (processBuildPhase p) leased.
Proof.
  intro Hp. unfold processBuildPhase.
  destruct (Asset.build p) as [b|]; [|returns_step; exact Hp].
  destruct (String.eqb (Build.phase b) "construction").
  { cbv zeta. destruct (Build.yearsRemaining b - 1 <=? 0)%Z;
      returns_step; returns_step; exact Hp. }
  destruct (String.eqb (Build.phase b) "leaseup"); [|returns_step; exact Hp].
  cbv zeta. destruct (Build.stabilizeYearsRemaining b - 1 <=? 0)%Z.
  - returns_step.
    eapply returns_bind; [apply returns_preserves; apply preserves_rng | intros r _].
    eapply returns_bind;
      [apply returns_preserves; apply makeMaturityYears_frame | intros my _].
    apply returns_bind with leased; [apply initLeaseForProperty_leased|].
    intros p2 Hp2. returns_step. returns_step. exact Hp2.
  - returns_step. returns_step. exact Hp.
Qed.

Lemma processBuildPhases_leased : preserves all_leased processBuildPhases.
Proof.
  apply preserves_returns with (fun _ => True).
  unfold processBuildPhases. returns_step.
  apply returns_bind with (Forall leased).
  { apply returns_mapM with leased; [exact processBuildPhase_leased | exact H]. }
  intros ps Hps. apply returns_preserves. preserves_step. exact Hps.
Qed.

Lemma cashFlowLoop_leased (s : RunState) (byId : string -> option ProductType.t)
    (ps : list Asset.t) :
  Forall leased ps ->
  forall (totalCF : Q) (ps' : list Asset.t) (total : Q),
    cashFlowLoop s byId ps totalCF = Some (ps', total) -> Forall leased ps'.
Proof.
  intro Hps. induction Hps as [|p rest Hp _ IH]; intros totalCF ps' total H.
  - inversion H; subst. constructor.
  - cbn [cashFlowLoop] in H.
    destruct (find _ (neighborhoods s)) as [n|]; [|discriminate].
    destruct (byId (Asset.productType p)) as [product|]; [|discriminate].
    match type of H with context [cashFlowLoop s byId rest ?t] =>
      destruct (cashFlowLoop s byId rest t) as [[rest' total']|] eqn:Hrest;
      [|discriminate] end.
    inversion H; subst. constructor; [exact Hp | exact (IH _ _ _ Hrest)].
Qed.

Lemma applyOperatingCashFlow_leased (byId : string -> option ProductType.t) :
  preserves all_leased (applyOperatingCashFlow byId).
Proof.
  apply preserves_returns with (fun _ => True).
  unfold applyOperatingCashFlow. returns_step.
  apply returns_bind with (fun r : list Asset.t * Q => Forall leased (fst r)).
  { apply returns_orThrow. intros [ps total] Hrun.
    exact (cashFlowLoop_leased a byId (properties a) H 0 ps total Hrun). }
  intros [ps total] Hps. cbn [fst] in Hps.
  apply returns_preserves. preserves_step; [|preserves_auto].
  preserves_step. exact Hps.
Qed.

Lemma storeAsset_leased (p : Asset.t) : leased p -> preserves all_leased (storeAsset p).
Proof.
  intro Hp. unfold storeAsset. preserves_step.
  apply replaceFirst_Forall; [exact Hp | exact H].
Qed.

Lemma sellProperty_leased (data : Data) (pid : string) :
  preserves all_leased (sellProperty data pid).
Proof.
  unfold sellProperty. preserves_step; [preserves_auto|].
  destruct (find _ _); [|preserves_auto].
  preserves_step; [preserves_auto|]. cbv zeta.
  preserves_step; [preserves_step; exact H|].
  preserves_step; [preserves_step; apply removeFirst_Forall; exact H|].
  preserves_step; [preserves_step; exact H | preserves_auto].
Qed.

Lemma attemptRefi_leased (p : Asset.t) (byId : string -> option ProductType.t) :
  leased p -> preserves all_leased (attemptRefi p byId).
Proof.
  intro Hp. unfold attemptRefi. preserves_step; [preserves_auto|].
  preserves_step; [preserves_auto|]. cbv zeta.
  preserves_step; [preserves_auto|].
  preserves_step; [apply makeMaturityYears_frame|].
  match goal with |- context [Qleb (Asset.loanBalance p) ?x] =>
    destruct (Qleb (Asset.loanBalance p) x) end.
  - preserves_step; [preserves_step; exact H|].
    preserves_step; [apply storeAsset_leased; exact Hp | preserves_auto].
  - match goal with |- context [Qleb ?g (cash a)] => destruct (Qleb g (cash a)) end;
      [|preserves_auto].
    preserves_step; [preserves_step; exact H|].
    preserves_step; [apply storeAsset_leased; exact Hp | preserves_auto].
Qed.

Lemma handleMaturities_leased (data : Data) : preserves all_leased (handleMaturities data).
Proof.
  apply preserves_returns with (fun _ => True).
  unfold handleMaturities. returns_step. cbv zeta.
  assert (Hm : Forall leased (filter (isMatured (year a)) (properties a)))
    by (apply filter_Forall; exact H).
  destruct (filter (isMatured (year a)) (properties a)) as [|p rest];
    [returns_step; exact Logic.I|].
  apply returns_preserves. preserves_step; [preserves_auto|].
  apply preserves_forM_on with leased; [|exact Hm].
  intros q Hq. unfold resolveMaturity.
  apply preserves_bind; [apply attemptRefi_leased; exact Hq | intro ok].
  destruct ok; [preserves_auto|].
  preserves_step; [preserves_auto|].
  preserves_step; [apply sellProperty_leased|].
  apply preserves_bind; [preserves_auto | intro s1].
  destruct (Qltb (cash s1) 0); [|preserves_auto].
  preserves_step; [preserves_auto|]. preserves_step. assumption.
Qed.

Lemma generateListings_leased (data : Data) : preserves all_leased (generateListings data).
Proof. unfold generateListings, generateListing. untouched. Qed.

Lemma optList_length {A : Type} (o : option A) : (List.length (optList o) <= 1)%nat.
Proof. destruct o; cbn; lia. Qed.

Lemma generateListings_count (data : Data) (c c' : Ctx) :
  generateListings data c = Some (tt, c') -> (List.length (listings (c_state c')) <= 3)%nat.
Proof.
  unfold generateListings. intro H.
  apply bind_inv in H. destruct H as (l0 & c1 & _ & H).
  apply bind_inv in H. destruct H as (l1 & c2 & _ & H).
  apply bind_inv in H. destruct H as (l2 & c3 & _ & H).
  inversion H; subst. cbn [c_state listings set_listings].
  rewrite !length_app.
  pose proof (optList_length l0). pose proof (optList_length l1).
  pose proof (optList_length l2). lia.
Qed.

Lemma nextYear_outcome (data : Data) (c c' : Ctx) :
  nextYear data c = Some (tt, c') ->
  year (c_state c') = (year (c_state c) + 1)%Z
  /\ all_leased (c_state c')
  /\ (List.length (listings (c_state c')) <= 3)%nat.
Proof.
  unfold nextYear. cbv zeta. intro H.
  apply bind_inv in H. destruct H as (event & c1 & Hpick & H).
  apply bind_inv in H. destruct H as ([] & c2 & Hyear & H).
  apply bind_inv in H. destruct H as ([] & c3 & Hmarket & H).
  apply bind_inv in H. destruct H as ([] & c4 & Hevent & H).
  apply bind_inv in H. destruct H as (s & c5 & H1 & H).
  inversion H1; subst s c5. clear H1.
  apply bind_inv in H. destruct H as (ns & c6 & Hns & H).
  apply bind_inv in H. destruct H as ([] & c7 & Hset & H).
  apply bind_inv in H. destruct H as ([] & c8 & Hlease & H).
  apply bind_inv in H. destruct H as ([] & c9 & Hbuild & H).
  apply bind_inv in H. destruct H as ([] & c10 & Hmat & H).
  apply bind_inv in H. destruct H as ([] & c11 & Hcf & H).
  split; [|split].
  - assert (H1 : year_is (year (c_state c)) (c_state c1)).
    { assert (Hp : preserves (year_is (year (c_state c))) (pickEvent (data_events data)))
        by (unfold pickEvent; untouched).
      exact (Hp c event c1 eq_refl Hpick). }
    assert (H2 : year_is (year (c_state c) + 1) (c_state c2)).
    { inversion Hyear; subst. unfold year_is in *. cbn. rewrite H1. reflexivity. }
    assert (H3 : year_is (year (c_state c) + 1) (c_state c3)).
    { destruct (updateMarketYear (market (c_state c2)) (c_rng c2)) as [m' g'].
      inversion Hmarket; subst. exact H2. }
    pose proof (applyEvent_year _ event c3 tt c4 H3 Hevent) as H4.
    pose proof (updateNeighborhoods_year _ _ c4 ns c6 H4 Hns) as H6.
    assert (H7 : year_is (year (c_state c) + 1) (c_state c7))
      by (inversion Hset; subst; exact H6).
    pose proof (updateLeasesOneYear_year _ c7 tt c8 H7 Hlease) as H8.
    pose proof (processBuildPhases_year _ c8 tt c9 H8 Hbuild) as H9.
    pose proof (handleMaturities_year _ data c9 tt c10 H9 Hmat) as H10.
    pose proof (applyOperatingCashFlow_year _ _ c10 tt c11 H10 Hcf) as H11.
    exact (generateListings_year _ data c11 tt c' H11 H).
  - pose proof (updateLeasesOneYear_leases c7 c8 Hlease) as H8.
    pose proof (processBuildPhases_leased c8 tt c9 H8 Hbuild) as H9.
    pose proof (handleMaturities_leased data c9 tt c10 H9 Hmat) as H10.
    pose proof (applyOperatingCashFlow_leased _ c10 tt c11 H10 Hcf) as H11.
    exact (generateListings_leased data c11 tt c' H11 H).
  - exact (generateListings_count data c11 c' H).
Qed.

End Leased.

Module ScenarioYear.

(** The scenario state holding a site at the start of construction. *)
Definition ctx : Ctx (G := Mulberry) :=
  mkCtx (set_properties [ScenarioBuild.site] ScenarioAssets.state0)
    (c_rng ScenarioAssets.ctx0) [].

End ScenarioYear.

(** X21.  A completed [nextYear] advances the year by exactly one, leaves at
    most three listings on offer, and leaves every property with a lease,
    including properties still under construction. *)
Theorem year_end_outcome (G : Generator) (data : Data) (c c' : Ctx) :
  nextYear data c = Some (tt, c') ->
  year (c_state c') = (year (c_state c) + 1)%Z
  /\ Forall (fun p : Asset.t => Asset.lease p <> None) (properties (c_state c'))
  /\ (List.length (listings (c_state c')) <= 3)%nat.
Proof.
  intro H. destruct (nextYear_outcome data c c' H) as (Hy & Hl & Hn).
  split; [exact Hy|]. split; [|exact Hn].
  apply Forall_impl with (2 := Hl). intros p [l Hp]. rewrite Hp. discriminate.
Qed.

Lemma year_end_outcome_witness :
  exists c' : Ctx (G := Mulberry),
    nextYear Scenario.data ScenarioYear.ctx = Some (tt, c')
    /\ year (c_state c') = 2%Z
    /\ Forall (fun p : Asset.t => Asset.lease p <> None) (properties (c_state c')).
Proof.
  assert (Hsound : sound Scenario.data (c_state ScenarioYear.ctx)).
  { split; [reflexivity|]. split; [|constructor].
    constructor; [|constructor]. split; cbn; auto. }
  destruct (nextYear_completes Mulberry_in_unit_interval Scenario.data
              scenario_has_neighborhoods ScenarioYear.ctx Hsound) as ([] & c' & Hrun & _).
  exists c'. split; [exact Hrun|].
  destruct (year_end_outcome Mulberry Scenario.data ScenarioYear.ctx c' Hrun) as (Hy & Hl & _).
  split; [exact Hy | exact Hl].
Defined.

(** ** The clock along a run *)

Definition yearsElapsed (actions : list Action) : Z :=
  Z.of_nat (List.length (filter (fun a => match a with NextYear => true | _ => false end)
                           actions)).

Section RunClock.
Context {G : Generator}.

Lemma perform_year (data : Data) (a : Action) (c c' : Ctx) :
  perform data a c = Some (tt, c') ->
  year (c_state c') = (year (c_state c) + yearsElapsed [a])%Z.
Proof.
  destruct a as [lid|nid pt|pid|pid|]; intro H.
  - assert (Hp : preserves (year_is (year (c_state c))) (perform data (Buy lid))).
    { cbn [perform]. preserves_step; [untouched|].
      destruct (find _ _); [|untouched].
      preserves_step; [apply buyListing_year | untouched]. }
    rewrite (Hp c tt c' eq_refl H). cbn. lia.
  - rewrite (startBuild_year _ data nid pt c tt c' eq_refl H). cbn. lia.
  - rewrite (sellProperty_year _ data pid c tt c' eq_refl H). cbn. lia.
  - rewrite (renovateProperty_year _ data pid c tt c' eq_refl H). cbn. lia.
  - destruct (nextYear_outcome data c c' H) as [Hy _]. rewrite Hy. reflexivity.
Qed.

Lemma forM_perform_year (data : Data) (actions : list Action) :
  forall c c' : Ctx,
    forM_ (perform data) actions c = Some (tt, c') ->
    year (c_state c') = (year (c_state c) + yearsElapsed actions)%Z.
Proof.
  induction actions as [|a rest IH]; intros c c' H.
  - inversion H; subst. cbn. lia.
  - cbn [forM_] in H. apply bind_inv in H. destruct H as ([] & c1 & H1 & H2).
    rewrite (IH c1 c' H2), (perform_year data a c c1 H1).
    unfold yearsElapsed. cbn [filter]. destruct a; cbn [List.length]; lia.
Qed.

End RunClock.

(** X22.  The year of a run is 1 plus the number of Next Year commands
    issued: buying, building, selling and renovating never move the clock,
    and each yearly advance moves it by exactly one. *)
Theorem run_clock (G : Generator) (data : Data) (settings : Settings)
    (mathRandom : Q) (actions : list Action) (s : RunState) :
  playRun data settings mathRandom actions = Some s ->
  year s = (1 + yearsElapsed actions)%Z.
Proof.
  intro H. unfold playRun in H.
  destruct (initRun data settings mathRandom) as [c0|] eqn:Hinit; [|discriminate].
  destruct (forM_ (perform data) actions c0) as [[[] c]|] eqn:Hrun; [|discriminate].
  inversion H; subst s. rewrite (forM_perform_year data actions c0 c Hrun).
  f_equal.
  unfold initRun in Hinit. cbv zeta in Hinit.
  match type of Hinit with
  | match ?m ?c1 with _ => _ end = _ =>
      destruct (m c1) as [[u' c2]|] eqn:Hgen; [|discriminate];
      assert (Hpre : preserves (year_is 1) m)
  end.
  { preserves_step; [untouched | apply generateListings_year]. }
  inversion Hinit; subst c2. apply (Hpre _ _ _) in Hgen; [exact Hgen | reflexivity].
Qed.

Lemma run_clock_witness :
  exists s : RunState,
    playRun (G := Mulberry) Scenario.data Scenario.settings 0
      [NextYear; BuildNew "harbor" "hotel"; NextYear] = Some s
    /\ year s = 3%Z.
Proof.
  destruct (scenario_run_returns [NextYear; BuildNew "harbor" "hotel"; NextYear])
    as (s & Hrun).
  - constructor; [exact Logic.I|].
    constructor; [split; vm_compute; auto|]. repeat constructor.
  - exists s. split; [exact Hrun|].
    exact (run_clock Mulberry Scenario.data Scenario.settings 0 _ s Hrun).
Defined.

(** ** Events and listings *)

(** X23.  With generator values in [0, 1), [pickEvent] never throws and
    leaves the state alone.  A first draw below 0.35 means no event and no
    second draw; otherwise a second draw picks the event, which is one of the
    given events, or none when there are no events to pick from. *)
Theorem pickEvent_outcome (G : Generator) (events : list Event) (c : Ctx) :
  in_unit_interval G ->
  let roll := fst (rng_next (c_rng c)) in
  let g1 := snd (rng_next (c_rng c)) in
  exists (ev : option Event) (c' : Ctx),
    pickEvent events c = Some (ev, c')
    /\ c_state c' = c_state c
    /\ (roll < 0.35 -> ev = None /\ c_rng c' = g1)
    /\ (0.35 <= roll ->
        c_rng c' = snd (rng_next g1)
        /\ match events with
           | [] => ev = None
           | _ => exists e : Event, ev = Some e /\ In e events
           end).
Proof.
  intro Hrng. cbv zeta. unfold pickEvent. run_monad.
  destruct (rng_next (c_rng c)) as [roll g1]. cbn [fst snd]. run_monad.
  destruct (Qltb roll 0.35) eqn:Hroll.
  - apply Qltb_true in Hroll. eexists _, _. split; [reflexivity|].
    split; [reflexivity|]. split; [intros _; split; reflexivity | intro; lra].
  - apply Qltb_false in Hroll. run_monad.
    pose proof (Hrng g1) as Hr. destruct (rng_next g1) as [r g2]. cbn [fst snd] in *.
    run_monad. eexists _, _. split; [reflexivity|]. split; [reflexivity|].
    split; [intro; lra|]. intros _. split; [reflexivity|].
    destruct events as [|e0 rest].
    + unfold nthZ. cbn [List.length]. destruct (_ <? 0)%Z; [reflexivity|].
      destruct (Z.to_nat _); reflexivity.
    + destruct (nthZ_draw (e0 :: rest) r) as (e & He & Hin);
        [discriminate | apply Hr | apply Hr|].
      exists e. split; assumption.
Qed.

Lemma pickEvent_outcome_witness :
  exists (ev : option Event) (c' : Ctx (G := Mulberry)),
    pickEvent (data_events Scenario.data) ScenarioAssets.ctx0 = Some (ev, c')
    /\ c_state c' = c_state ScenarioAssets.ctx0.
Proof.
  destruct (pickEvent_outcome Mulberry (data_events Scenario.data) ScenarioAssets.ctx0
              Mulberry_in_unit_interval) as (ev & c' & Hrun & Hst & _).
  exists ev, c'. split; [exact Hrun | exact Hst].
Defined.

(** What a listing generated in state [s] looks like. *)
Definition well_listed (data : Data) (s : RunState) (l : Listing.t) : Prop :=
  (exists n : Neighborhood,
     In n (neighborhoods s)
     /\ Market.id n = Listing.neighborhood l
     /\ existsb (String.eqb (Listing.productType l)) (zoning n) = true)
  /\ In (Listing.productType l) (map ProductType.id (data_productTypes data))
  /\ (350000 <= Listing.baseNOI l /\ Listing.baseNOI l < 1250000)
  /\ (exists k : Z, Listing.price l = inject_Z k * 1000)
  /\ quoted l.

Section Listings.
Context {G : Generator}.
Hypothesis Hrng : in_unit_interval G.
Variable data : Data.
Variable s0 : RunState.
Hypothesis Hns : neighborhoods s0 <> [].

Lemma generateListing_well_listed (i : Z) :
  completes (fun s => s = s0) (generateListing data i)
    (fun o => Forall (well_listed data s0) (optList o)).
Proof.
  unfold generateListing. completes_step Hrng. cbv beta in H. subst a. completes_step Hrng.
  destruct (nthZ_draw (neighborhoods s0) a Hns (proj1 H) (proj2 H)) as (n & Hnth & Hin).
  rewrite Hnth. cbv zeta.
  destruct (map ProductType.id (data_productTypes data)) as [|pid pids'] eqn:Hids.
  { completes_step Hrng. constructor. }
  rewrite <- Hids.
  apply completes_bind with (fun n' => n' = n).
  { apply completes_orThrow. exists n. split; reflexivity. }
  intros n' ->. cbv zeta.
  destruct (filter (fun pid => existsb (String.eqb pid) (zoning n))
              (map ProductType.id (data_productTypes data))) as [|pid0 pids] eqn:Hallowed.
  { completes_step Hrng. constructor. }
  rewrite <- Hallowed.
  completes_step Hrng.
  destruct (nthZ_draw (filter (fun pid => existsb (String.eqb pid) (zoning n))
                         (map ProductType.id (data_productTypes data))) a0)
    as (productType & Hpt & Hptin); [rewrite Hallowed; discriminate | apply H0 | apply H0 |].
  rewrite Hpt.
  apply completes_bind with (fun x => x = productType).
  { apply completes_orThrow. exists productType. split; reflexivity. }
  intros ? ->.
  apply filter_In in Hptin. destruct Hptin as [Hknown Hzoned].
  destruct (find_by_key ProductType.id (data_productTypes data) productType Hknown)
    as (product & Hprod & _).
  rewrite Hprod.
  apply completes_bind with (fun _ => True).
  { apply completes_orThrow. exists product. split; [reflexivity | exact Logic.I]. }
  intros product' _.
  completes_step Hrng. completes_step Hrng. completes_step Hrng. completes_step Hrng.
  completes_step Hrng.
  constructor; [|constructor].
  unfold well_listed, quoted.
  cbn [Listing.neighborhood Listing.productType Listing.baseNOI Listing.price
       Listing.loanTerms LoanTerms.ltv LoanTerms.amortYears LoanTerms.interestOnly
       LoanTerms.rate].
  split; [exists n; split; [exact Hin|]; split; [reflexivity | exact Hzoned]|].
  split; [exact Hknown|].
  split; [cbv beta in *; repeat match goal with Hx : _ /\ _ |- _ => destruct Hx end;
          split; lra|].
  split; [eexists; reflexivity|].
  split; [reflexivity|]. split; [reflexivity|]. split; [reflexivity | clamp_range].
Qed.

Lemma generateListings_well_listed (c : Ctx) :
  c_state c = s0 ->
  exists c' : Ctx,
    generateListings data c = Some (tt, c')
    /\ Forall (well_listed data s0) (listings (c_state c'))
    /\ (List.length (listings (c_state c')) <= 3)%nat
    /\ set_listings (listings s0) (c_state c') = s0.
Proof.
  intro Hc. unfold generateListings.
  destruct (generateListing_well_listed 0 c Hc) as (l0 & c1 & H0 & Hc1 & Hl0).
  destruct (generateListing_well_listed 1 c1 Hc1) as (l1 & c2 & H1 & Hc2 & Hl1).
  destruct (generateListing_well_listed 2 c2 Hc2) as (l2 & c3 & H2 & Hc3 & Hl2).
  unfold bind at 1. rewrite H0. unfold bind at 1. rewrite H1.
  unfold bind at 1. rewrite H2.
  eexists. split; [reflexivity|].
  cbn [c_state listings set_listings]. split; [|split].
  - apply Forall_app. split; [exact Hl0|]. apply Forall_app. split; assumption.
  - rewrite !length_app.
    pose proof (optList_length l0). pose proof (optList_length l1).
    pose proof (optList_length l2). lia.
  - rewrite Hc3. destruct s0. reflexivity.
Qed.

End Listings.

(** X24.  With generator values in [0, 1) and at least one neighborhood in
    the state, [generateListings] never throws, changes nothing but the offer,
    and puts at most three listings on offer.  Each of them is in a
    neighborhood of the state whose zoning allows its product type, which is
    one of the reference data; its anchor NOI is at least 350,000 and below
    1,250,000; its price is a whole number of thousands; and it quotes an LTV
    of 0.65, 30 years of amortisation and a rate between 3% and 14%. *)
Theorem listings_respect_zoning (G : Generator) (data : Data) (c : Ctx) :
  in_unit_interval G ->
  neighborhoods (c_state c) <> [] ->
  exists c' : Ctx,
    generateListings data c = Some (tt, c')
    /\ Forall (well_listed data (c_state c)) (listings (c_state c'))
    /\ (List.length (listings (c_state c')) <= 3)%nat
    /\ set_listings (listings (c_state c)) (c_state c') = c_state c.
Proof.
  intros Hrng Hns.
  exact (generateListings_well_listed Hrng data (c_state c) Hns c eq_refl).
Qed.

Lemma listings_respect_zoning_witness :
  exists c' : Ctx (G := Mulberry),
    generateListings Scenario.data ScenarioAssets.ctx0 = Some (tt, c')
    /\ Forall (well_listed Scenario.data (c_state ScenarioAssets.ctx0))
         (listings (c_state c')).
Proof.
  destruct (listings_respect_zoning Mulberry Scenario.data ScenarioAssets.ctx0
              Mulberry_in_unit_interval) as (c' & Hrun & Hl & _).
  - discriminate.
  - exists c'. split; [exact Hrun | exact Hl].
Defined.

(** ** The start of a run *)

(** The cash a fresh run starts with: [diff] is [difficulty || "normal"]. *)
Definition startCash (settings : Settings) : Q :=
  let diff :=
    match difficulty settings with
    | Some EmptyString | None => "normal"%string
    | Some d => d
    end in
  if String.eqb diff "hard" then 2200000
  else if String.eqb diff "easy" then 4500000
  else cash RUN_DEFAULTS.

Lemma startCash_cases (settings : Settings) :
  (difficulty settings = Some "hard"%string -> startCash settings = 2200000)
  /\ (difficulty settings = Some "easy"%string -> startCash settings = 4500000)
  /\ (difficulty settings <> Some "hard"%string ->
      difficulty settings <> Some "easy"%string -> startCash settings = 3000000).
Proof.
  unfold startCash. split; [|split].
  - intros ->. reflexivity.
  - intros ->. reflexivity.
  - intros Hh He. destruct (difficulty settings) as [d|]; [|reflexivity].
    destruct d as [|a d]; [reflexivity|]. cbv zeta.
    destruct (String.eqb (String a d) "hard") eqn:E1.
    { apply String.eqb_eq in E1. rewrite E1 in Hh. contradiction. }
    destruct (String.eqb (String a d) "easy") eqn:E2.
    { apply String.eqb_eq in E2. rewrite E2 in He. contradiction. }
    reflexivity.
Qed.

(** X25.  A fresh run starts in year 1 with no properties and an empty
    journal, the default market, every neighborhood of the reference data
    with its demand reset to its base demand, and 3,000,000 in cash, or
    2,200,000 on "hard" and 4,500,000 on "easy" (any other difficulty text
    counts as normal); with generator values in [0, 1) and at least one
    neighborhood it returns such a state with at most three listings.
    Without any neighborhood it throws as soon as there is a product type
    (the zoning of an undefined neighborhood is read), and returns a state
    without listings when there is none. *)
Theorem fresh_run (G : Generator) (data : Data) (settings : Settings) (mathRandom : Q) :
  (forall c : Ctx,
     initRun data settings mathRandom = Some c ->
     year (c_state c) = 1%Z
     /\ cash (c_state c) = startCash settings
     /\ (difficulty settings = Some "hard"%string -> cash (c_state c) = 2200000)
     /\ (difficulty settings = Some "easy"%string -> cash (c_state c) = 4500000)
     /\ (difficulty settings <> Some "hard"%string ->
         difficulty settings <> Some "easy"%string -> cash (c_state c) = 3000000)
     /\ properties (c_state c) = []
     /\ journal (c_state c) = []
     /\ market (c_state c) = market RUN_DEFAULTS
     /\ neighborhoods (c_state c)
        = map (fun n => mkNeighborhood (Market.id n) (Market.name n) (zoning n)
                          (baseDemand n) (baseDemand n) (rentIndex n) (vacancy n)
                          (Market.capRate n) (scarcity n))
            (data_neighborhoods data)
     /\ (List.length (listings (c_state c)) <= 3)%nat)
  /\ (in_unit_interval G -> data_neighborhoods data <> [] ->
      exists c : Ctx, initRun data settings mathRandom = Some c)
  /\ (data_neighborhoods data = [] ->
      (data_productTypes data <> [] -> initRun data settings mathRandom = None)
      /\ (data_productTypes data = [] ->
          exists c : Ctx,
            initRun data settings mathRandom = Some c /\ listings (c_state c) = [])).
Proof.
  split; [|split].
  - intros c H. unfold initRun in H. cbv zeta in H. fold (startCash settings) in H.
    match type of H with
    | match ?m ?c0 with _ => _ end = _ =>
        destruct (m c0) as [[u c1]|] eqn:Hrun; [|discriminate]
    end.
    inversion H; subst c1. clear H. destruct u.
    apply bind_inv in Hrun. destruct Hrun as ([] & c1 & Hlog & Hgen).
    inversion Hlog; subst c1. clear Hlog.
    pose proof (generateListings_count data _ _ Hgen) as Hcount.
    unfold generateListings in Hgen.
    apply bind_inv in Hgen. destruct Hgen as (l0 & c1 & H0 & Hgen).
    apply bind_inv in Hgen. destruct Hgen as (l1 & c2 & H1 & Hgen).
    apply bind_inv in Hgen. destruct Hgen as (l2 & c3 & H2 & Hgen).
    assert (Hkeep : forall (i : Z) (ca : Ctx) (o : option Listing.t) (cb : Ctx),
               generateListing data i ca = Some (o, cb) -> c_state cb = c_state ca).
    { intros i ca o cb Hi.
      assert (Hp : preserves (fun s => s = c_state ca) (generateListing data i))
        by (unfold generateListing; untouched).
      exact (Hp ca o cb eq_refl Hi). }
    apply Hkeep in H0. apply Hkeep in H1. apply Hkeep in H2.
    inversion Hgen; subst c. cbn [c_state] in *.
    rewrite H2, H1, H0. cbn [year cash properties journal market neighborhoods
                             set_cash set_neighborhoods set_listings RUN_DEFAULTS].
    destruct (startCash_cases settings) as (Hhard & Heasy & Hnormal).
    split; [reflexivity|]. split; [reflexivity|].
    split; [exact Hhard|]. split; [exact Heasy|]. split; [exact Hnormal|].
    repeat split; try reflexivity. exact Hcount.
  - intros Hrng Hdata.
    destruct (initRun_completes Hrng data Hdata settings mathRandom) as (c & Hc & _).
    exists c. exact Hc.
  - intro Hnone. split.
    + intro Hpt. unfold initRun, generateListings, generateListing. cbv zeta.
      rewrite Hnone. run_monad. cbn [map neighborhoods set_cash set_neighborhoods].
      destruct (rng_next _) as [r g1]. run_monad.
      destruct (data_productTypes data) as [|pt pts]; [contradiction|].
      cbn [map]. run_monad.
      unfold nthZ. cbn [List.length]. destruct (_ <? 0)%Z; [reflexivity|].
      destruct (Z.to_nat _); reflexivity.
    + intro Hpt. unfold initRun, generateListings, generateListing. cbv zeta.
      rewrite Hnone, Hpt. run_monad. cbn [map].
      destruct (rng_next _) as [r1 g1]. run_monad.
      destruct (rng_next _) as [r2 g2]. run_monad.
      destruct (rng_next _) as [r3 g3]. run_monad.
      eexists. split; reflexivity.
Qed.

Lemma fresh_run_witness :
  exists c : Ctx (G := Mulberry),
    initRun Scenario.data (mkSettings (Some "seed"%string) (Some "hard"%string)) 0 = Some c
    /\ cash (c_state c) = 2200000
    /\ initRun (G := Mulberry) (mkData [] (data_productTypes Scenario.data) [])
         Scenario.settings 0 = None.
Proof.
  destruct (fresh_run Mulberry Scenario.data
              (mkSettings (Some "seed"%string) (Some "hard"%string)) 0)
    as (Hstate & Hreturns & _).
  destruct (Hreturns Mulberry_in_unit_interval scenario_has_neighborhoods) as [c Hc].
  exists c. split; [exact Hc|]. split.
  - destruct (Hstate c Hc) as (_ & _ & Hcash & _). apply Hcash. reflexivity.
  - apply (fresh_run Mulberry (mkData [] (data_productTypes Scenario.data) [])
             Scenario.settings 0); [reflexivity | discriminate].
Defined.
